(* ===== verification/_CoqProject ===== *)
-Q . S2P
Prelude.v
JsString.v
Decimal.v
JsNumber.v
Json.v
JsonParse.v
Types.v
Store.v
Wal.v
WalFile.v
Decay.v
Embeddings.v
Search.v
JsDate.v
Summarizer.v
Engine.v
Recovery.v
WalCrash.v
Invariants.v
Server.v
Cli.v
Liveness.v
Restart.v
