(* ===== verification/Prelude.v ===== *)
(** * Mizan memory engine: a verification development

    The program (src/src/*.ts) is a durable memory store for an agent.
    [MemoryEngine] (index.ts) owns a record store ([SQLiteStore],
    store.ts), a write-ahead log ([WriteAheadLog], wal.ts) and an
    embeddings client (embeddings.ts).  A write validates its input,
    embeds it, appends its intent to the log, applies it to the store
    and counts it; the 20th counted write clears the log.  The
    constructor replays the log with upserts and deletes, then clears
    it.  Reads ([search], [get]) boost the importance of what they
    return; [decay] ages importances (decay.ts) and prunes; [summarize]
    replaces groups of low-importance records by summaries planned by
    [buildSummaries] (summarizer.ts); search ranks by cosine similarity
    and keyword score (search.ts).

    ** Files, in dependency order
    - [Prelude] (this file): the [result] type and the state-and-error
      monad [st] (an exception keeps the mutations before it), loops
      [st_for]/[st_fold], the invariant combinators [st_preserves_*],
      [slice(0, n)] with JavaScript's negative indices ([js_slice0]), a
      stable insertion sort [sort_by] (Array.prototype.sort and ORDER BY
      are stable) with its permutation, sortedness and stability lemmas,
      and shared lemmas on rationals, lists and the hint database [mem].
    - [JsString]: trim, toLowerCase, whitespace split, split at one
      character, includes, join, slice on ASCII strings.
    - [Decimal]: the decimal printer [dec_digits] (well-founded
      recursion with Equations, no fuel) and its reader.
    - [JsNumber]: [Number(s)] on strings (decimal, exponent, 0x/0o/0b,
      Infinity, NaN) with exact rational values.
    - [Json]: JSON values, [JSON.stringify] (QuoteJSONString escapes,
      [Number::toString] in its plain, fractional and exponential
      formats) and [JSON.parse] (a fuelled parser of the RFC 8259
      grammar over the characters of the text).
    - [JsonParse]: meta-theory of the parser: more fuel never changes a
      result, a parse never reads past where it stops (so a parse of
      [cs] is one of [cs ++ s]), and a proper prefix of an object's text
      never parses.
    - [Types]: types.ts and the error type.
    - [Store] (Module [Store]): the table as its rows in rowid order;
      one definition per method of store.ts.  The abstraction [to_map]
      to a [gmap] keyed by id is the specification: INSERT, upsert,
      DELETE, UPDATE and prune refine map insert, insert, delete, alter
      and filter; [store_equiv] is a congruence (Proper instances).
      Listing is modelled down to its SQL text (truthiness of
      since/until, LIMIT/OFFSET, tags filtered after paging).
    - [Wal]: the log file as its list of entries.
    - [WalFile] (Module [WalFile]): the text under [Wal] and under the
      JSON columns of [Store]: the line [append] writes, [readAll] as
      trim/split/filter/JSON.parse and the [as WalEntry] cast, [clear],
      runs of writes on both levels, and the row conversion
      [serialize]/[deserialize] of store.ts.
    - [Decay]: [applyDecay] over Q with [Math.exp] as the class
      [MathExp] and its laws [MathExpLaws]; [clipped_exp] is an
      executable instance for concrete runs.
    - [Embeddings]: the client (the remote service is a function
      argument), [cosineSimilarity] with its accumulation loop, and
      [Math.sqrt] as the class [MathSqrt] ([isqrt_q] is exact on
      squares of rationals; [sqrt_up] never rounds a square root down).
    - [Search]: [keywordScore] and [semanticSearch].
    - [JsDate]: [Date.prototype.toISOString] and its RangeError.
    - [Summarizer]: [buildSummaries] (Map as an association list in
      insertion order).
    - [Engine]: the engine record (fields of the class, plus [rng], the
      position of the UUID source) and every method as an [st]
      computation; [now] (Date.now) is an argument, [randomUUID] a
      section variable; [create] is the constructor over the files it
      finds on disk.
    - [Recovery]: the abstract replay on maps, its idempotence, crash
      consistency of each logged write, and the restart scenarios.
    - [WalCrash] (Module [WalCrash]): a crash inside [appendFileSync]
      that leaves the first [n] characters of the line, what [readAll]
      then returns, and the restart after such a crash in [addMemory].
    - [Invariants]: the engine as a transition system ([engine_step]:
      any public call, or a restart) and its invariants on all
      reachable states; scenarios of unchecked inputs.
    - [Server] (server.ts): the seven routes as a table matched in
      registration order ([route], as Express does), one handler per
      route with its try/catch and status codes ([dispatch]), the
      parse helpers, [startServer], and [serve_all], one engine
      answering a sequence of requests.  Requests are taken after
      Express parsed them; [Date.parse] is a section variable.
    - [Cli] (cli.ts): each command as one process over the files on
      disk ([Disk]: rows, log file, UUID source position, MEMORY_PORT):
      construct the engine, run one action, close ([run_command]);
      [serve] answers a sequence of requests with the server's
      [dispatch] until it is stopped; [session] chains invocations.  Arguments are taken after
      commander parsed them; the printed JSON is the returned value.
    - [Liveness]: runs of counted writes interleaved with reads
      ([write_run]) and the progress of the log truncation.
    - [Restart]: the constructor over the files a run of reads and
      [decay] leaves: what the unlogged mutations become.

    ** Theorems
    Store: refinement of each mutation, the listing contract with its
    filters and order written out, and three listing defects.  Decay: floor, [0,1] bounds, antitonicity in time,
    clock skew.  Embeddings: length guard, self-similarity, symmetry,
    and the Cauchy-Schwarz inequality on the accumulated sums, so the
    cosine lies in [-1, 1] for every [Math.sqrt] that rounds no square
    root down.  Search: ranking (sorted, filtered, scored, top-k),
    keyword score bounds, every returned score in [-0.8, 1], error and
    empty-store paths, negative limits.  Summarizer:
    safety (never a preserved record, 2..maxGroupSize sources),
    completeness, oldest-first selection, plan shape, totality.
    Engine: each method on every branch (errors leave the state
    unchanged before the first mutation).  Recovery: the replay gives
    every key its last logged write (last write wins) and is
    idempotent; a crash at any point of a logged write recovers the
    table before or after it.  Restart: after any run of reads and
    [decay], the constructor gives every logged key its logged value
    back, reverting the boosts of [get] and [search] and resurrecting
    records [decay] pruned.
    Invariants: on every reachable state the pending counter equals
    the log length and stays below 20, ids are distinct and fresh, and
    importances stay in [0,1] when inputs and options are in range.
    Liveness: from any such state the log is empty again after exactly
    [20 - walPending] successful writes, whatever reads come between.
    Server: every request is answered with 200/201/204/400/404 (no
    handler lets an exception reach Express's 500 page); POST and
    DELETE answer as the engine call decides (the DELETE catch is dead
    code); an unknown category is silently dropped; serving requests
    only takes engine steps, so the invariants hold for a running
    server.  CLI: over any session of invocations ([serve] included)
    the files keep distinct fresh ids, and after a last invocation
    other than [serve] the log holds at most one line and replaying it
    changes nothing; a record [add] printed is listed by the next
    [list]; parseDurationMs reads back every printed duration, tags
    come out trimmed and non-empty, and [--since 0d] filters nothing.
    Decimal/JsDate: reading the printed digits gives the number back,
    and the fuelled printer agrees with the terminating one.
    Json: [parse (stringify v) = Some v] for every value whose numbers
    are doubles (reduced finite decimals), and the text has no control
    character, so it is one line.  WalFile: after any run of [append]s
    and [clear]s the file text reads back as the abstract log (so the
    list model of [Wal] is exact) and a store row reads back as its
    record.  WalCrash: for every cut [n] of an appended line, [readAll]
    returns the old entries ([n = 0]), throws (a cut inside the JSON
    text) or returns the old entries and the new one (the JSON text
    whole), and a restart after such a crash in [addMemory] either
    throws or recovers exactly the table before or after the call.

    ** Bounds and fuel
    The one bounded recursion is the digit printer of [JsDate] (fuel
    20): [JsDate.digits_fuel_enough] shows it equals the terminating
    printer [dec_digits] whenever the fuel is at least the number of
    digits, and a time value accepted by toISOString has at most 6 year
    digits and at most 16 digits in any field.  [dec_digits] recurses
    on [n / 10] by well-founded recursion.  Everything else is
    structural except [JSON.parse], whose fuel is the length of the text
    plus one: [json_size v], the fuel the parser needs for the text of
    [v], is at most that length ([json_size_text]), and more fuel gives
    the same result ([JsonParse.parse_mono]), so the bound is enough.
    Numbers are unbounded ([Z], [Q], [nat]): IEEE doubles are not
    modelled, so the results hold for exact arithmetic; JavaScript
    integers below 2^53 behave alike.

    ** Not modelled
    The SQLite engine (its constructor, [journal_mode] pragma and
    indexes change no query result; the schema's primary key is the
    invariant [Store.wf]),
    the OpenAI request (an abstract function), [close()] (it only
    releases the database handle; the model has no handle to close),
    the rounding of [Math.sqrt] and of the cosine (the bound is proved
    for every square root that rounds up, not for IEEE rounding), a
    crash inside [writeFileSync("")] of [clear] (the model writes the
    empty file at once), commander's argument parsing and
    Express's HTTP and body parsing (the models start from parsed
    arguments and requests), the printing of the CLI's JSON output,
    code units above 255 in strings (a [\uXXXX] escape above 255 makes
    the model's parser fail), and numbers that are no finite decimal
    (they stand for no double; [number_to_string] rounds them).
    A CLI option or query value that would reach the engine as NaN, an
    infinity or (for LIMIT, OFFSET and dates) a non-integer stops the
    CLI and server models with [NumberOutsideModel]: the engine holds
    importances in Q and limits and times in Z. *)

From stdpp Require Import base list.
From Stdlib Require Import ZArith QArith Qminmax Lqa Sorting.Permutation Sorting.Sorted.

(** ** Results and a state-and-error monad

    The TypeScript code throws exceptions that leave every mutation done
    before the [throw] in place (there is no rollback).  [st S E A] is a
    state transformer whose result is either a value or an error, and
    whose final state is kept in both cases. *)

Inductive result (E A : Type) : Type :=
| Ok (a : A)
| Err (e : E).
Arguments Ok {E A} a.
Arguments Err {E A} e.

Definition st (S E A : Type) : Type := S -> S * result E A.

Definition st_ret {S E A} (a : A) : st S E A := fun s => (s, Ok a).

Definition st_bind {S E A B} (m : st S E A) (k : A -> st S E B) : st S E B :=
  fun s => match m s with
           | (s', Ok a) => k a s'
           | (s', Err e) => (s', Err e)
           end.

Definition st_throw {S E A} (e : E) : st S E A := fun s => (s, Err e).

Definition st_get {S E} : st S E S := fun s => (s, Ok s).

Definition st_put {S E} (s' : S) : st S E unit := fun _ => (s', Ok tt).

Definition st_modify {S E} (f : S -> S) : st S E unit := fun s => (f s, Ok tt).

(** Lift a pure fallible computation. *)
Definition st_lift {S E A} (r : result E A) : st S E A := fun s => (s, r).

Declare Scope st_scope.
Delimit Scope st_scope with st.
Notation "x <- m ;; k" := (st_bind m (fun x => k))
  (at level 100, m at next level, right associativity) : st_scope.
Notation "m ;; k" := (st_bind m (fun _ => k))
  (at level 100, right associativity) : st_scope.

(** [for (const x of xs) body(x)] *)
Fixpoint st_for {S E A} (xs : list A) (body : A -> st S E unit) : st S E unit :=
  match xs with
  | [] => st_ret tt
  | x :: xs' => st_bind (body x) (fun _ => st_for xs' body)
  end.

(** A loop with an accumulator: [let acc = a0; for (x of xs) acc = f(acc, x)]. *)
Fixpoint st_fold {S E A B} (f : B -> A -> st S E B) (xs : list A) (acc : B) : st S E B :=
  match xs with
  | [] => st_ret acc
  | x :: xs' => st_bind (f acc x) (fun acc' => st_fold f xs' acc')
  end.

(** [try { m } catch (err) { h(err) }]: the handler runs on the state
    the failed computation left. *)
Definition st_catch {S E E' A} (m : st S E A) (h : E -> st S E' A) : st S E' A :=
  fun s => match m s with
           | (s', Ok a) => (s', Ok a)
           | (s', Err e) => h e s'
           end.

Definition st_state {S E A} (m : st S E A) (s : S) : S := fst (m s).
Definition st_res {S E A} (m : st S E A) (s : S) : result E A := snd (m s).

Create HintDb mem discriminated.

Lemma st_bind_ok {S E A B} (m : st S E A) (k : A -> st S E B) s s' a :
  m s = (s', Ok a) -> st_bind m k s = k a s'.
Proof. intros H. unfold st_bind. by rewrite H. Qed.

Lemma st_bind_err {S E A B} (m : st S E A) (k : A -> st S E B) s s' e :
  m s = (s', Err e) -> st_bind m k s = (s', Err e).
Proof. intros H. unfold st_bind. by rewrite H. Qed.

(** Invariant preservation through the monad: if every step of a
    computation keeps [P], so does the whole; the state of an error is
    also covered, since an exception leaves its partial state in place. *)
Definition st_preserves {S E A} (P : S -> Prop) (m : st S E A) : Prop :=
  forall s, P s -> P (fst (m s)).

Lemma st_preserves_ret {S E A} P (a : A) : @st_preserves S E A P (st_ret a).
Proof. by intros s Hs. Qed.

Lemma st_preserves_throw {S E A} P (e : E) : @st_preserves S E A P (st_throw e).
Proof. by intros s Hs. Qed.

Lemma st_preserves_lift {S E A} P (r : result E A) : @st_preserves S E A P (st_lift r).
Proof. by intros s Hs. Qed.

Lemma st_preserves_bind {S E A B} P (m : st S E A) (k : A -> st S E B) :
  st_preserves P m -> (forall a, st_preserves P (k a)) -> st_preserves P (st_bind m k).
Proof.
  intros Hm Hk s Hs. unfold st_bind.
  specialize (Hm s Hs). destruct (m s) as [s' [a|e]]; simpl in *; [by apply Hk|done].
Qed.

Lemma st_preserves_for {S E A} P (xs : list A) (body : A -> st S E unit) :
  (forall x, In x xs -> st_preserves P (body x)) -> st_preserves P (st_for xs body).
Proof.
  induction xs as [|x xs IH]; intros Hb; simpl.
  - apply st_preserves_ret.
  - apply st_preserves_bind; [apply Hb; by left|].
    intros _. apply IH. intros y Hy. apply Hb. by right.
Qed.

Lemma st_preserves_fold {S E A B} P (f : B -> A -> st S E B) (xs : list A) acc :
  (forall b x, In x xs -> st_preserves P (f b x)) -> st_preserves P (st_fold f xs acc).
Proof.
  revert acc. induction xs as [|x xs IH]; intros acc Hf; simpl.
  - apply st_preserves_ret.
  - apply st_preserves_bind; [apply Hf; by left|].
    intros acc'. apply IH. intros b y Hy. apply Hf. by right.
Qed.

Lemma st_preserves_modify {S E} (P : S -> Prop) (f : S -> S) :
  (forall s, P s -> P (f s)) -> @st_preserves S E unit P (st_modify f).
Proof. intros Hf s Hs. by apply Hf. Qed.

Lemma st_preserves_get {S E} P : @st_preserves S E S P st_get.
Proof. by intros s Hs. Qed.

(** A continuation that reads the state may use the invariant of that
    state; one that receives a pure result may use where it came from. *)
Lemma st_preserves_get_bind {S E B} P (k : S -> st S E B) :
  (forall s, P s -> st_preserves P (k s)) -> st_preserves P (st_bind st_get k).
Proof. intros Hk s Hs. unfold st_bind, st_get. by apply Hk. Qed.

Lemma st_preserves_lift_bind {S E A B} P (r : result E A) (k : A -> st S E B) :
  (forall a, r = Ok a -> st_preserves P (k a)) -> st_preserves P (st_bind (st_lift r) k).
Proof. intros Hk s Hs. unfold st_bind, st_lift. destruct r as [a|e]; [by apply Hk|done]. Qed.

#[export] Hint Resolve st_preserves_ret st_preserves_throw st_preserves_lift
  st_preserves_get : mem.

(** Decompose a computation into its steps, and close the leaves with
    the hint database [mem]. *)
Ltac st_auto :=
  repeat match goal with
  | |- st_preserves _ (st_bind st_get _) => apply st_preserves_get_bind; intros ? ?
  | |- st_preserves _ (st_bind (st_lift _) _) => apply st_preserves_lift_bind; intros ? ?
  | |- st_preserves _ (st_bind _ _) => apply st_preserves_bind; [|intros ?]
  | |- st_preserves _ (st_for _ _) => apply st_preserves_for; intros ? ?
  | |- st_preserves _ (st_fold _ _ _) => apply st_preserves_fold; intros ? ? ?
  | |- st_preserves _ (if _ then _ else _) => case_match
  | |- st_preserves _ (match _ with _ => _ end) => case_match
  | |- _ => solve [auto with mem]
  end.

(** Destruct the innermost matches of hypothesis [H], with their equations. *)
Ltac destr_in H :=
  repeat match type of H with
  | context [match ?x with _ => _ end] =>
      lazymatch x with context [match _ with _ => _ end] => fail | _ => destruct x eqn:? end
  end.

(** Rewrite the goal with the equations in context, reducing [++]. *)
Ltac push_eqs :=
  repeat match goal with
  | E : ?x = ?y |- context [?x] => rewrite E; cbn [app]
  end.

(** ** JavaScript [Array.prototype.slice(0, end)]

    A negative [end] counts from the end of the array; an [end] past the
    length is clamped to it. *)
Definition js_slice_end_index (len : nat) (e : Z) : nat :=
  if (e <? 0)%Z then Z.to_nat (Z.max 0 (Z.of_nat len + e)) else Z.to_nat (Z.min e (Z.of_nat len)).

Definition js_slice0 {A} (xs : list A) (e : Z) : list A :=
  firstn (js_slice_end_index (length xs) e) xs.

Lemma js_slice0_prefix {A} (xs : list A) e : exists rest, xs = js_slice0 xs e ++ rest.
Proof. exists (skipn (js_slice_end_index (length xs) e) xs). unfold js_slice0. by rewrite firstn_skipn. Qed.

Lemma js_slice0_length_nonneg {A} (xs : list A) e :
  (0 <= e)%Z -> length (js_slice0 xs e) = Nat.min (Z.to_nat e) (length xs).
Proof.
  intros He. unfold js_slice0, js_slice_end_index.
  rewrite length_firstn. destruct (Z.ltb_spec e 0); [lia|]. lia.
Qed.

Lemma js_slice0_length_neg {A} (xs : list A) e :
  (e < 0)%Z -> length (js_slice0 xs e) = (length xs - Z.to_nat (- e))%nat.
Proof.
  intros He. unfold js_slice0, js_slice_end_index.
  rewrite length_firstn. destruct (Z.ltb_spec e 0); lia.
Qed.

Lemma js_slice0_sublist {A} (xs : list A) e : sublist (js_slice0 xs e) xs.
Proof.
  apply sublist_take.
Qed.

Lemma js_slice0_incl {A} (xs : list A) e x : In x (js_slice0 xs e) -> In x xs.
Proof.
  intros Hx. apply list_elem_of_In. apply list_elem_of_In in Hx.
  by eapply elem_of_sublist, js_slice0_sublist.
Qed.

(** ** Stable sorting

    [Array.prototype.sort] is stable (ECMAScript 2019); for a comparator
    that is a total preorder a stable sort has one possible output, which
    insertion sort computes.  [le a b] means "a may precede b". *)
Section SortBy.
Context {A : Type} (le : A -> A -> bool).

Fixpoint insert_by (x : A) (l : list A) : list A :=
  match l with
  | [] => [x]
  | y :: ys => if le x y then x :: y :: ys else y :: insert_by x ys
  end.

Fixpoint sort_by (l : list A) : list A :=
  match l with
  | [] => []
  | x :: xs => insert_by x (sort_by xs)
  end.

Lemma insert_by_perm x l : Permutation (insert_by x l) (x :: l).
Proof.
  induction l as [|y ys IH]; simpl; [done|].
  destruct (le x y); [done|].
  rewrite IH. apply perm_swap.
Qed.

Lemma sort_by_perm l : Permutation (sort_by l) l.
Proof.
  induction l as [|x xs IH]; simpl; [done|].
  by rewrite insert_by_perm, IH.
Qed.

Lemma sort_by_In x l : In x (sort_by l) <-> In x l.
Proof. split; apply Permutation_in; [apply sort_by_perm | symmetry; apply sort_by_perm]. Qed.

Lemma sort_by_length l : length (sort_by l) = length l.
Proof. apply Permutation_length, sort_by_perm. Qed.

Context (le_total : forall a b, le a b = true \/ le b a = true).
Context (le_trans : forall a b c, le a b = true -> le b c = true -> le a c = true).

Lemma insert_by_sorted x l :
  Sorted (fun a b => le a b = true) l -> Sorted (fun a b => le a b = true) (insert_by x l).
Proof.
  induction 1 as [|y ys Hs IH Hhd]; simpl; [by repeat constructor|].
  destruct (le x y) eqn:Hxy; [by repeat constructor|].
  constructor; [done|].
  destruct ys as [|z zs]; simpl in *.
  - constructor. destruct (le_total x y); [congruence|done].
  - inversion Hhd; subst. destruct (le x z); constructor; [|done].
    destruct (le_total x y); [congruence|done].
Qed.

Lemma sort_by_sorted l : Sorted (fun a b => le a b = true) (sort_by l).
Proof. induction l; simpl; [constructor|]. by apply insert_by_sorted. Qed.

(** Stability: the elements equivalent to any [k] keep their order. *)
Definition equiv_to (k a : A) : bool := le k a && le a k.

Lemma insert_by_filter_equiv k x l :
  filter (fun a => equiv_to k a = true) (insert_by x l)
  = filter (fun a => equiv_to k a = true) (x :: l).
Proof.
  induction l as [|y ys IH]; simpl; [done|].
  destruct (le x y) eqn:Hxy; [done|].
  rewrite !filter_cons. rewrite IH, filter_cons.
  unfold equiv_to.
  destruct (le k x) eqn:Hkx, (le x k) eqn:Hxk, (le k y) eqn:Hky, (le y k) eqn:Hyk;
    simpl; try done.
  exfalso. pose proof (le_trans x k y Hxk Hky). congruence.
Qed.

Lemma sort_by_stable k l :
  filter (fun a => equiv_to k a = true) (sort_by l) = filter (fun a => equiv_to k a = true) l.
Proof.
  induction l as [|x xs IH]; simpl; [done|].
  rewrite insert_by_filter_equiv, !filter_cons. by rewrite IH.
Qed.
End SortBy.

(** ** Rationals: clamping lemmas shared by the importance updates *)

Open Scope Q_scope.

Lemma Qmin_one_bounds (x d : Q) : 0 <= x -> 0 <= d -> 0 <= Qmin 1 (x + d) <= 1.
Proof. intros Hx Hd. split; [apply Q.min_glb; lra | apply Q.le_min_l]. Qed.

Lemma inject_Z_pos (z : Z) : (0 < z)%Z -> 0 < inject_Z z.
Proof. intros H. change 0 with (inject_Z 0). by rewrite <- Zlt_Qlt. Qed.

Lemma inject_Z_nonneg (z : Z) : (0 <= z)%Z -> 0 <= inject_Z z.
Proof. intros H. change 0 with (inject_Z 0). by rewrite <- Zle_Qle. Qed.

Lemma Qmax_floor_le (f x u : Q) : f <= u -> x <= u -> Qmax f x <= u.
Proof. intros. by apply Q.max_lub. Qed.

Lemma Qle_bool_true (x y : Q) : Qle_bool x y = true <-> x <= y.
Proof. apply Qle_bool_iff. Qed.

Lemma Qle_bool_false (x y : Q) : Qle_bool x y = false <-> y < x.
Proof.
  split; intros H.
  - apply Qnot_le_lt. intros Hc. apply Qle_bool_iff in Hc. congruence.
  - destruct (Qle_bool x y) eqn:E; [|done]. apply Qle_bool_iff in E. lra.
Qed.

Lemma Qle_bool_total (x y : Q) : Qle_bool x y = true \/ Qle_bool y x = true.
Proof. rewrite !Qle_bool_true. destruct (Qlt_le_dec x y); [left; lra | right; lra]. Qed.

Lemma Qle_bool_trans (x y z : Q) : Qle_bool x y = true -> Qle_bool y z = true -> Qle_bool x z = true.
Proof. rewrite !Qle_bool_true. lra. Qed.

Close Scope Q_scope.

Lemma Zleb_total (x y : Z) : (x <=? y)%Z = true \/ (y <=? x)%Z = true.
Proof. rewrite !Z.leb_le. lia. Qed.

Lemma Zleb_trans (x y z : Z) : (x <=? y)%Z = true -> (y <=? z)%Z = true -> (x <=? z)%Z = true.
Proof. rewrite !Z.leb_le. lia. Qed.

#[export] Hint Resolve Qle_bool_total Qle_bool_trans Zleb_total Zleb_trans : mem.

(** Tactic: turn the boolean comparisons of the code into propositions. *)
Ltac bool_to_prop :=
  repeat match goal with
  | H : Qle_bool _ _ = true |- _ => apply Qle_bool_true in H
  | H : Qle_bool _ _ = false |- _ => apply Qle_bool_false in H
  | H : (_ <=? _)%Z = true |- _ => apply Z.leb_le in H
  | H : (_ <=? _)%Z = false |- _ => apply Z.leb_gt in H
  | H : (_ <? _)%Z = true |- _ => apply Z.ltb_lt in H
  | H : (_ <? _)%Z = false |- _ => apply Z.ltb_ge in H
  | H : (_ && _)%bool = true |- _ => apply andb_prop in H as [? ?]
  end.

(** ** Sublists keep sortedness *)

Lemma sublist_List_filter {A} (p : A -> bool) (l : list A) : sublist (List.filter p l) l.
Proof.
  induction l as [|x l IH]; simpl; [constructor|].
  destruct (p x); by constructor.
Qed.

Lemma StronglySorted_sublist {A} (R : A -> A -> Prop) (l1 l2 : list A) :
  sublist l1 l2 -> StronglySorted R l2 -> StronglySorted R l1.
Proof.
  induction 1 as [|x l1 l2 Hs IH|x l1 l2 Hs IH]; intros H2; [constructor| |].
  - apply StronglySorted_inv in H2 as [H2 Hall]. constructor; [by apply IH|].
    rewrite Forall_forall in *. intros y Hy. apply Hall. by eapply elem_of_sublist.
  - apply StronglySorted_inv in H2 as [H2 _]. by apply IH.
Qed.

Lemma Sorted_sublist {A} (R : A -> A -> Prop) (l1 l2 : list A) :
  (forall a b c, R a b -> R b c -> R a c) ->
  sublist l1 l2 -> Sorted R l2 -> Sorted R l1.
Proof.
  intros Htr Hs H2. apply StronglySorted_Sorted.
  eapply StronglySorted_sublist; [exact Hs|]. apply Sorted_StronglySorted; [|done].
  intros a b c. apply Htr.
Qed.

Lemma length_filter_split {A} (p : A -> bool) (l : list A) :
  (length (List.filter p l) + length (List.filter (fun x => negb (p x)) l) = length l)%nat.
Proof. induction l as [|x l IH]; simpl; [done|]. destruct (p x); simpl; lia. Qed.

Lemma sublist_In {A} (l1 l2 : list A) x : sublist l1 l2 -> In x l1 -> In x l2.
Proof. intros Hs Hx. apply list_elem_of_In. eapply elem_of_sublist; [|exact Hs]. by apply list_elem_of_In. Qed.

Lemma StronglySorted_take_drop {A} (R : A -> A -> Prop) (l : list A) n x y :
  StronglySorted R l -> In x (take n l) -> In y (drop n l) -> R x y.
Proof.
  revert n. induction l as [|a l IH]; intros n Hs Hx Hy; [destruct n; simpl in *; done|].
  apply StronglySorted_inv in Hs as [Hs Hall].
  destruct n as [|n]; simpl in *; [done|].
  destruct Hx as [<-|Hx].
  - rewrite Forall_forall in Hall. apply Hall. apply list_elem_of_In.
    eapply sublist_In; [apply sublist_drop|exact Hy].
  - by eapply IH.
Qed.

Lemma In_take_or_drop {A} (l : list A) n x : In x l -> In x (take n l) \/ In x (drop n l).
Proof. intros H. rewrite <- (take_drop n l) in H. by apply in_app_or. Qed.

Lemma NoDup_map_inj {A B} (f : A -> B) (l : list A) :
  (forall x y, f x = f y -> x = y) -> NoDup l -> NoDup (map f l).
Proof.
  intros Hf. induction 1 as [|x l Hx Hl IH]; simpl; constructor; [|done].
  intros Hin. apply Hx. apply list_elem_of_In in Hin. apply list_elem_of_In.
  apply in_map_iff in Hin as [y [Hy Hin]]. apply Hf in Hy. by subst.
Qed.
