(* ===== verification/JsString.v ===== *)
(** * JavaScript string primitives used by the engine

    [String.prototype.trim], [toLowerCase], [split(/\s+/)] followed by
    [filter(Boolean)], [includes], [slice(0, n)] and [join(" ")], on
    byte strings.  JavaScript strings are UTF-16: the model covers the
    ASCII subset, where whitespace is the six characters 9-13 and 32 and
    case mapping is A-Z to a-z. *)

From stdpp Require Import base list strings.
From Stdlib Require Import String Ascii.
From S2P Require Import Prelude.

Definition is_space (c : ascii) : bool :=
  let n := nat_of_ascii c in (n =? 32)%nat || ((9 <=? n)%nat && (n <=? 13)%nat).

Fixpoint drop_spaces (cs : list ascii) : list ascii :=
  match cs with
  | [] => []
  | c :: cs' => if is_space c then drop_spaces cs' else cs
  end.

(** [s.trim()] *)
Definition trim (s : string) : string :=
  string_of_list_ascii (rev (drop_spaces (rev (drop_spaces (list_ascii_of_string s))))).

Definition lower_char (c : ascii) : ascii :=
  let n := nat_of_ascii c in
  if ((65 <=? n)%nat && (n <=? 90)%nat) then ascii_of_nat (n + 32) else c.

(** [s.toLowerCase()] *)
Definition toLowerCase (s : string) : string :=
  string_of_list_ascii (map lower_char (list_ascii_of_string s)).

(** [s.split(/\s+/).filter(Boolean)]: splitting at every whitespace
    character and dropping the empty pieces gives the same tokens as
    splitting at maximal whitespace runs and dropping the empty ends. *)
Fixpoint split_spaces (cs : list ascii) (cur : list ascii) : list (list ascii) :=
  match cs with
  | [] => [rev cur]
  | c :: cs' => if is_space c then rev cur :: split_spaces cs' [] else split_spaces cs' (c :: cur)
  end.

Definition tokens (s : string) : list string :=
  filter (fun t => t <> EmptyString)
    (map string_of_list_ascii (split_spaces (list_ascii_of_string s) [])).

(** [hay.includes(needle)] *)
Fixpoint includes (hay needle : string) : bool :=
  match hay with
  | EmptyString => String.eqb needle EmptyString
  | String _ rest => String.prefix needle hay || includes rest needle
  end.

(** [strings.join(sep)] *)
Definition join (sep : string) (xs : list string) : string := String.concat sep xs.

(** [s.split(sep)] for a one-character separator: the pieces between
    separators, empty ones included (["".split(",")] is [[""]]). *)
Fixpoint split_chars (sep : ascii) (cs : list ascii) (cur : list ascii) : list (list ascii) :=
  match cs with
  | [] => [rev cur]
  | c :: cs' => if Ascii.eqb c sep then rev cur :: split_chars sep cs' [] else split_chars sep cs' (c :: cur)
  end.

Definition split (sep : ascii) (s : string) : list string :=
  map string_of_list_ascii (split_chars sep (list_ascii_of_string s) []).

(** [s.slice(0, n)] for [n >= 0] *)
Definition slice0 (s : string) (n : nat) : string := String.substring 0 n s.

Lemma drop_spaces_head cs : match drop_spaces cs with [] => True | c :: _ => is_space c = false end.
Proof.
  induction cs as [|c cs IH]; simpl; [done|].
  destruct (is_space c) eqn:E; [done|]. done.
Qed.

Lemma drop_spaces_idem cs : drop_spaces (drop_spaces cs) = drop_spaces cs.
Proof.
  induction cs as [|c cs IH]; simpl; [done|].
  destruct (is_space c) eqn:E; [done|]. simpl. by rewrite E.
Qed.

Lemma includes_empty hay : includes hay EmptyString = true.
Proof. by destruct hay. Qed.

Lemma tokens_nonempty s t : In t (tokens s) -> t <> EmptyString.
Proof. unfold tokens. intros H. apply list_elem_of_In, list_elem_of_filter in H. tauto. Qed.

Lemma drop_spaces_suffix cs : exists p, cs = p ++ drop_spaces cs.
Proof.
  induction cs as [|c cs [p Hp]]; simpl; [by exists []|].
  destruct (is_space c); [exists (c :: p); by rewrite Hp at 1|by exists []].
Qed.

Lemma drop_spaces_keep cs : Forall (fun c => is_space c = false) (take 1 cs) -> drop_spaces cs = cs.
Proof. destruct cs as [|c cs]; simpl; [done|]. intros Hc. inversion Hc; subst. by rewrite H1. Qed.

(** [trim] is idempotent: a trimmed string starts and ends with a
    non-space character. *)
Lemma trim_idem s : trim (trim s) = trim s.
Proof.
  unfold trim. rewrite list_ascii_of_string_of_list_ascii.
  set (a := drop_spaces (list_ascii_of_string s)). set (b := drop_spaces (rev a)).
  assert (Hb : drop_spaces (rev b) = rev b).
  { destruct (drop_spaces_suffix (rev a)) as [p Hp]. fold b in Hp.
    destruct b as [|x b'] using rev_ind; [done|]. clear IHb'.
    assert (Hx : is_space x = false).
    { pose proof (drop_spaces_head (list_ascii_of_string s)) as Hh. fold a in Hh.
      apply (f_equal (@rev ascii)) in Hp. rewrite rev_involutive, !rev_app_distr in Hp. simpl in Hp.
      rewrite Hp in Hh. exact Hh. }
    rewrite rev_app_distr. simpl. by rewrite Hx. }
  rewrite Hb, rev_involutive. unfold b. rewrite drop_spaces_idem. reflexivity.
Qed.

(** A string without whitespace is its own trim. *)
Lemma trim_no_space s :
  Forall (fun c => is_space c = false) (list_ascii_of_string s) -> trim s = s.
Proof.
  intros H. unfold trim.
  assert (Hk : forall cs, Forall (fun c => is_space c = false) cs -> drop_spaces cs = cs).
  { intros [|c cs] Hc; [done|]. apply drop_spaces_keep. inversion Hc; subst. simpl. by constructor. }
  rewrite (Hk _ H), Hk by (by apply Forall_rev). rewrite rev_involutive. apply string_of_list_ascii_of_string.
Qed.

Lemma list_ascii_of_string_app (a b : string) :
  list_ascii_of_string (a ++ b)%string = list_ascii_of_string a ++ list_ascii_of_string b.
Proof. induction a as [|c a IH]; simpl; [done|by rewrite IH]. Qed.

Lemma drop_spaces_snoc cs c : is_space c = false -> drop_spaces (cs ++ [c]) <> [].
Proof.
  intros Hc. induction cs as [|x cs IH]; simpl; [by rewrite Hc|].
  destruct (is_space x); [exact IH|discriminate].
Qed.

(** A string whose first character is no space is not blank. *)
Lemma trim_nonblank s c rest :
  list_ascii_of_string s = c :: rest -> is_space c = false -> trim s <> EmptyString.
Proof.
  intros Hs Hc. unfold trim. rewrite Hs. cbn [drop_spaces]. rewrite Hc. cbn [rev].
  intros He. apply (f_equal list_ascii_of_string) in He. rewrite list_ascii_of_string_of_list_ascii in He.
  apply (f_equal (@rev ascii)) in He. rewrite rev_involutive in He. exact (drop_spaces_snoc _ _ Hc He).
Qed.
