(* ===== verification/Decimal.v ===== *)
(** * Decimal numerals

    JavaScript prints integers in base 10 ([String(n)], [JSON.stringify],
    [toISOString]'s fields) and reads them back ([Number("42")], the
    [\d+] group of a regular expression).  [dec_digits] is the printer,
    defined by well-founded recursion on the bit length of the value
    (Equations), so that it needs no fuel and computes by [vm_compute]; [read_digits] is the reader.  The reader inverts
    the printer on every non-negative integer, and a fuelled printer
    ([JsDate.digits]) agrees with [dec_digits] as soon as the fuel covers
    the number of digits. *)

From Equations Require Import Equations.
From stdpp Require Import base tactics.
From Stdlib Require Import ZArith String Ascii Lia Bool.

Local Open Scope Z_scope.

Definition digit_char (d : Z) : ascii := ascii_of_nat (48 + Z.to_nat d).

(** The value of a decimal digit character. *)
Definition digit_value (c : ascii) : option Z :=
  let n := nat_of_ascii c in
  if ((48 <=? n)%nat && (n <=? 57)%nat)%bool then Some (Z.of_nat n - 48) else None.

(** The digits of [n >= 0], most significant first, in front of [acc]. *)
Equations dec_digits (n : Z) (acc : string) : string by wf (Z.to_nat (Z.log2 n)) lt :=
  dec_digits n acc with Z_lt_dec n 10 := {
    | left _ => String (digit_char (n mod 10)) acc;
    | right _ => dec_digits (n / 10) (String (digit_char (n mod 10)) acc) }.
Next Obligation.
  intros n Hn _ _.
  assert (H2 : n / 10 <= n / 2) by (apply Z.div_le_compat_l; lia).
  assert (H3 : Z.log2 (n / 10) <= Z.log2 (n / 2)) by (apply Z.log2_le_mono; exact H2).
  assert (H4 : Z.log2 (n / 2) = Z.log2 n - 1).
  { pose proof (Z.shiftr_div_pow2 n 1 ltac:(lia)) as E. change (2 ^ 1) with 2 in E.
    rewrite <- E, Z.log2_shiftr by lia.
    assert (1 <= Z.log2 n) by (apply Z.log2_le_pow2; lia). lia. }
  assert (0 <= Z.log2 (n / 10)) by apply Z.log2_nonneg. lia.
Qed.

(** Accumulating reader: the digits of [s] appended to the value [v]. *)
Fixpoint read_digits_from (s : string) (v : Z) : option Z :=
  match s with
  | EmptyString => Some v
  | String c s' => match digit_value c with
                   | Some d => read_digits_from s' (v * 10 + d)
                   | None => None
                   end
  end.

(** A non-empty run of decimal digits, as [Number] reads [\d+]. *)
Definition read_digits (s : string) : option Z :=
  match s with
  | EmptyString => None
  | _ => read_digits_from s 0
  end.

Lemma string_app_assoc (a b c : string) : ((a ++ b) ++ c = a ++ (b ++ c))%string.
Proof. induction a as [|x a IH]; simpl; [done|by rewrite IH]. Qed.

Lemma string_length_app (a b : string) : String.length (a ++ b) = (String.length a + String.length b)%nat.
Proof. induction a as [|x a IH]; simpl; [done|by rewrite IH]. Qed.

Lemma dec_digits_eq n acc :
  dec_digits n acc = if n <? 10 then String (digit_char (n mod 10)) acc
                     else dec_digits (n / 10) (String (digit_char (n mod 10)) acc).
Proof.
  funelim (dec_digits n acc); simp dec_digits.
  - rewrite (proj2 (Z.ltb_lt _ _) l). reflexivity.
  - rewrite (proj2 (Z.ltb_ge _ _)) by lia. reflexivity.
Qed.

Lemma digit_value_char d : 0 <= d < 10 -> digit_value (digit_char d) = Some d.
Proof.
  intros Hd. unfold digit_value, digit_char.
  rewrite nat_ascii_embedding by lia.
  replace ((48 <=? 48 + Z.to_nat d)%nat && (48 + Z.to_nat d <=? 57)%nat)%bool with true
    by (symmetry; apply andb_true_iff; split; apply Nat.leb_le; lia).
  f_equal. lia.
Qed.

Lemma read_digits_from_app s1 s2 v :
  read_digits_from (s1 ++ s2) v =
  match read_digits_from s1 v with Some v' => read_digits_from s2 v' | None => None end.
Proof.
  revert v. induction s1 as [|c s1 IH]; intros v; simpl; [done|].
  destruct (digit_value c); [apply IH|done].
Qed.

(** Strong induction on a non-negative integer through [n / 10]. *)
Lemma dec_ind (P : Z -> Prop) :
  (forall n, 0 <= n -> (10 <= n -> P (n / 10)) -> P n) -> forall n, 0 <= n -> P n.
Proof.
  intros H n Hn. remember (Z.to_nat n) as k eqn:Ek. revert n Hn Ek.
  induction k as [k IH] using lt_wf_ind. intros n Hn ->. apply H; [done|].
  intros H10. apply (IH (Z.to_nat (n / 10))); [|apply Z.div_pos; lia|done].
  assert (n / 10 < n) by (apply Z.div_lt; lia). lia.
Qed.

Lemma dec_digits_app n : 0 <= n -> forall acc, dec_digits n acc = (dec_digits n EmptyString ++ acc)%string.
Proof.
  revert n. apply (dec_ind (fun n => forall acc, dec_digits n acc = (dec_digits n EmptyString ++ acc)%string)).
  intros n Hn IH acc.
  rewrite !(dec_digits_eq n). destruct (Z.ltb_spec n 10); [done|].
  rewrite (IH ltac:(lia) (String _ acc)), (IH ltac:(lia) (String _ EmptyString)).
  rewrite string_app_assoc. reflexivity.
Qed.

(** Reading the printed digits after a prefix value [v]. *)
Lemma read_dec_digits n :
  0 <= n -> forall v,
  read_digits_from (dec_digits n EmptyString) v
  = Some (v * 10 ^ Z.of_nat (String.length (dec_digits n EmptyString)) + n).
Proof.
  revert n. apply (dec_ind (fun n => forall v, read_digits_from (dec_digits n EmptyString) v
    = Some (v * 10 ^ Z.of_nat (String.length (dec_digits n EmptyString)) + n))).
  intros n Hn IH v.
  pose proof (Z.mod_pos_bound n 10 ltac:(lia)) as Hm.
  rewrite (dec_digits_eq n). destruct (Z.ltb_spec n 10).
  - cbn [read_digits_from String.length]. rewrite digit_value_char by lia.
    cbn [read_digits_from]. f_equal. rewrite Z.mod_small by lia. lia.
  - rewrite dec_digits_app by (apply Z.div_pos; lia).
    rewrite read_digits_from_app, IH by lia. cbn [read_digits_from].
    rewrite digit_value_char by lia. cbn [read_digits_from]. f_equal.
    rewrite string_length_app. cbn [String.length].
    set (k := String.length (dec_digits (n / 10) EmptyString)).
    rewrite Nat2Z.inj_add, Z.pow_add_r by lia. change (10 ^ Z.of_nat 1) with 10.
    pose proof (Z.div_mod n 10 ltac:(lia)) as Hd.
    set (p := 10 ^ Z.of_nat k). rewrite Hd at 3. ring.
Qed.

Lemma dec_digits_nonempty n acc : 0 <= n -> dec_digits n acc <> EmptyString.
Proof.
  intros Hn. rewrite dec_digits_app by done. rewrite dec_digits_eq.
  destruct (n <? 10); [discriminate|].
  rewrite dec_digits_app by (apply Z.div_pos; lia). destruct (dec_digits (n / 10) EmptyString); discriminate.
Qed.

(** Reading back the decimal digits of a non-negative integer gives it. *)
Theorem read_digits_dec n : 0 <= n -> read_digits (dec_digits n EmptyString) = Some n.
Proof.
  intros Hn. unfold read_digits. pose proof (dec_digits_nonempty n EmptyString Hn) as Hne.
  destruct (dec_digits n EmptyString) eqn:E; [done|]. rewrite <- E, read_dec_digits by done.
  f_equal; lia.
Qed.
