(* ===== verification/JsNumber.v ===== *)
(** * [Number(s)]: JavaScript's conversion of a string to a number

    The CLI and the HTTP server turn option and query strings into
    numbers with [Number(...)] (ECMA-262 StringToNumber).  The
    surrounding whitespace is dropped; the empty string is 0; a
    hexadecimal, octal or binary literal (0x, 0o, 0b; no sign) is its
    integer value; a decimal literal with an optional sign, fraction
    and exponent is its value; [Infinity] with an optional sign is
    infinite; anything else is NaN.  Finite values are exact rationals:
    the rounding to the nearest double is not modelled, so the model is
    exact for the integers below 2^53 and for the decimal fractions the
    code reads ("0.5").  Whitespace is ASCII whitespace ([JsString]). *)

From stdpp Require Import base list strings.
From Stdlib Require Import ZArith QArith String Ascii.
From S2P Require Import Prelude JsString Decimal.

Local Open Scope Z_scope.

(** A JavaScript number: NaN, a finite value, or an infinity of a sign. *)
Inductive number : Type :=
| NaN
| Fin (q : Q)
| Inf (positive : bool).

Definition is_digit (c : ascii) : bool := match digit_value c with Some _ => true | None => false end.

(** The value of a digit in radix [r] (letters a-z / A-Z count from 10). *)
Definition digit_in_radix (r : Z) (c : ascii) : option Z :=
  let n := Z.of_nat (nat_of_ascii c) in
  let d := if (48 <=? n) && (n <=? 57) then n - 48
           else if (97 <=? n) && (n <=? 122) then n - 87
           else if (65 <=? n) && (n <=? 90) then n - 55 else r in
  if d <? r then Some d else None.

Fixpoint radix_value (r : Z) (cs : list ascii) (v : Z) : option Z :=
  match cs with
  | [] => Some v
  | c :: cs' => match digit_in_radix r c with
                | Some d => radix_value r cs' (v * r + d)
                | None => None
                end
  end.

(** The longest prefix of decimal digits and the rest. *)
Fixpoint span_digits (cs : list ascii) : list ascii * list ascii :=
  match cs with
  | c :: cs' => if is_digit c then let '(ds, rest) := span_digits cs' in (c :: ds, rest) else ([], cs)
  | [] => ([], [])
  end.

(** [m * 10^e] as a rational. *)
Definition scale (m e : Z) : Q :=
  if 0 <=? e then inject_Z (m * 10 ^ e) else Qmake m (Z.to_pos (10 ^ (- e))).

(** ExponentPart, or nothing: [e] or [E], an optional sign, digits. *)
Definition exponent (cs : list ascii) : option Z :=
  match cs with
  | [] => Some 0
  | c :: cs' =>
      if Ascii.eqb c "e" || Ascii.eqb c "E" then
        let '(sgn, ds) := match cs' with
                          | s :: r => if Ascii.eqb s "+" then (1, r)
                                      else if Ascii.eqb s "-" then (-1, r) else (1, cs')
                          | [] => (1, cs')
                          end in
        match ds with
        | [] => None
        | _ => option_map (Z.mul sgn) (radix_value 10 ds 0)
        end
      else None
  end.

(** StrUnsignedDecimalLiteral: [Infinity], or digits with an optional
    fraction (at least one digit in all) and an optional exponent. *)
Definition decimal_unsigned (cs : list ascii) : number :=
  if bool_decide (cs = list_ascii_of_string "Infinity") then Inf true
  else
    let '(int, r1) := span_digits cs in
    let '(frac, r2) := match r1 with
                       | c :: r => if Ascii.eqb c "." then span_digits r else ([], r1)
                       | [] => ([], [])
                       end in
    match int, frac with
    | [], [] => NaN
    | _, _ => match radix_value 10 (int ++ frac) 0, exponent r2 with
              | Some m, Some e => Fin (scale m (e - Z.of_nat (List.length frac)))
              | _, _ => NaN
              end
    end.

Definition num_neg (x : number) : number :=
  match x with NaN => NaN | Fin q => Fin (- q)%Q | Inf b => Inf (negb b) end.

(** The radix of a prefix [0x], [0o] or [0b] (either case). *)
Definition radix_prefix (c : ascii) : option Z :=
  if Ascii.eqb c "x" || Ascii.eqb c "X" then Some 16
  else if Ascii.eqb c "o" || Ascii.eqb c "O" then Some 8
  else if Ascii.eqb c "b" || Ascii.eqb c "B" then Some 2 else None.

(** [Number(s)] *)
Definition Number (s : string) : number :=
  let cs := list_ascii_of_string (trim s) in
  match cs with
  | [] => Fin 0
  | c :: rest =>
      match rest with
      | x :: ds =>
          if Ascii.eqb c "0" then
            match radix_prefix x with
            | Some r => match ds with
                        | [] => NaN
                        | _ => match radix_value r ds 0 with Some v => Fin (inject_Z v) | None => NaN end
                        end
            | None => decimal_unsigned cs
            end
          else if Ascii.eqb c "+" then decimal_unsigned rest
          else if Ascii.eqb c "-" then num_neg (decimal_unsigned rest)
          else decimal_unsigned cs
      | [] => if Ascii.eqb c "+" then decimal_unsigned rest
              else if Ascii.eqb c "-" then num_neg (decimal_unsigned rest)
              else decimal_unsigned cs
      end
  end.

(** Truthiness of a number ([x ? a : b]): NaN and 0 are falsy. *)
Definition num_truthy (x : number) : bool :=
  match x with NaN => false | Fin q => negb (Qeq_bool q 0) | Inf _ => true end.

(** [x * k] for a positive finite [k]. *)
Definition num_mul_pos (x : number) (k : Q) : number :=
  match x with NaN => NaN | Fin q => Fin (q * k)%Q | Inf b => Inf b end.

(** The integer a finite number stands for, when it is one. *)
Definition num_to_int (x : number) : option Z :=
  match x with
  | Fin q => let q' := Qred q in if (Zpos (Qden q') =? 1) then Some (Qnum q') else None
  | _ => None
  end.

(** The end index [slice(0, x)] uses: ToIntegerOrInfinity truncates
    toward zero and reads NaN as 0; -Infinity selects nothing, like 0;
    +Infinity (everything) has no integer stand-in. *)
Definition to_slice_end (x : number) : option Z :=
  match x with
  | NaN => Some 0
  | Fin q => Some (Z.quot (Qnum q) (Zpos (Qden q)))
  | Inf false => Some 0
  | Inf true => None
  end.

(** ** Decimal digit strings *)

Lemma digit_in_radix_10 c : digit_in_radix 10 c = digit_value c.
Proof.
  unfold digit_in_radix, digit_value. set (n := nat_of_ascii c).
  assert (Hn : (n < 256)%nat) by (unfold n; apply nat_ascii_bounded).
  destruct ((48 <=? n)%nat && (n <=? 57)%nat) eqn:E.
  - apply andb_true_iff in E as [E1 E2]. apply Nat.leb_le in E1, E2.
    replace ((48 <=? Z.of_nat n) && (Z.of_nat n <=? 57)) with true
      by (symmetry; apply andb_true_iff; split; apply Z.leb_le; lia).
    rewrite (proj2 (Z.ltb_lt _ _)) by lia. reflexivity.
  - assert (Hz : (48 <=? Z.of_nat n) && (Z.of_nat n <=? 57) = false).
    { apply not_true_is_false. intros Hc. apply andb_true_iff in Hc as [C1 C2].
      apply Z.leb_le in C1, C2. apply not_true_iff_false in E. apply E.
      apply andb_true_iff; split; apply Nat.leb_le; lia. }
    rewrite Hz.
    destruct ((97 <=? Z.of_nat n) && (Z.of_nat n <=? 122)) eqn:E1;
      [apply andb_true_iff in E1 as [F1 F2]; apply Z.leb_le in F1, F2;
       rewrite (proj2 (Z.ltb_ge _ _)) by lia; reflexivity|].
    destruct ((65 <=? Z.of_nat n) && (Z.of_nat n <=? 90)) eqn:E2;
      [apply andb_true_iff in E2 as [F1 F2]; apply Z.leb_le in F1, F2;
       rewrite (proj2 (Z.ltb_ge _ _)) by lia; reflexivity|].
    reflexivity.
Qed.

Lemma radix_value_10 cs v : radix_value 10 cs v = read_digits_from (string_of_list_ascii cs) v.
Proof.
  revert v. induction cs as [|c cs IH]; intros v; simpl; [done|].
  rewrite digit_in_radix_10. destruct (digit_value c); [apply IH|done].
Qed.

Lemma read_digits_from_digits s v w :
  read_digits_from s v = Some w -> Forall (fun c => is_digit c = true) (list_ascii_of_string s).
Proof.
  revert v. induction s as [|c s IH]; intros v H; simpl; [constructor|].
  simpl in H. destruct (digit_value c) eqn:E; [|discriminate].
  constructor; [unfold is_digit; by rewrite E|]. eapply IH, H.
Qed.

Lemma span_digits_all cs : Forall (fun c => is_digit c = true) cs -> span_digits cs = (cs, []).
Proof. induction 1 as [|c cs Hc _ IH]; simpl; [done|]. by rewrite Hc, IH. Qed.

Lemma digit_not_space c : is_digit c = true -> is_space c = false.
Proof.
  unfold is_digit, digit_value, is_space. set (n := nat_of_ascii c).
  destruct ((48 <=? n)%nat && (n <=? 57)%nat) eqn:E; [|done]. intros _.
  apply andb_true_iff in E as [E1 E2]. apply Nat.leb_le in E1, E2.
  apply orb_false_iff; split; [apply Nat.eqb_neq; lia|].
  apply andb_false_iff; right. apply Nat.leb_gt. lia.
Qed.

Lemma digit_not_sign c : is_digit c = true -> Ascii.eqb c "+" = false /\ Ascii.eqb c "-" = false.
Proof.
  intros Hc. split; apply Ascii.eqb_neq; intros ->; discriminate.
Qed.

Lemma digit_not_radix c : is_digit c = true -> radix_prefix c = None.
Proof.
  intros Hc. unfold radix_prefix.
  repeat match goal with
         | |- context [Ascii.eqb c ?k] => destruct (Ascii.eqb_spec c k); [subst; discriminate|]
         end; reflexivity.
Qed.

(** A non-empty run of decimal digits reads as its decimal value. *)
Lemma Number_digits s v :
  read_digits s = Some v -> Number s = Fin (inject_Z v).
Proof.
  intros Hr. assert (Hf : read_digits_from s 0 = Some v) by (destruct s; [discriminate|exact Hr]).
  pose proof (read_digits_from_digits _ _ _ Hf) as Hd.
  assert (Hne : list_ascii_of_string s <> []) by (destruct s; [discriminate|done]).
  unfold Number. rewrite trim_no_space by (eapply Forall_impl; [exact Hd|apply digit_not_space]).
  assert (Hdec : decimal_unsigned (list_ascii_of_string s) = Fin (inject_Z v)).
  { unfold decimal_unsigned. rewrite bool_decide_false.
    2:{ intros Heq. rewrite Heq in Hd. inversion Hd. discriminate. }
    rewrite span_digits_all by done. cbn iota beta.
    destruct (list_ascii_of_string s) as [|c l] eqn:Ecs; [done|].
    rewrite app_nil_r, <- Ecs, radix_value_10, string_of_list_ascii_of_string, Hf.
    unfold scale. simpl. by rewrite Z.mul_1_r. }
  destruct (list_ascii_of_string s) as [|c rest]; [done|].
  inversion Hd as [|? ? Hc Hrest]; subst.
  destruct (digit_not_sign c Hc) as [-> ->].
  destruct rest as [|x ds]; [by destruct (Ascii.eqb c "0")|].
  inversion Hrest as [|? ? Hx _]; subst. rewrite (digit_not_radix x Hx).
  by destruct (Ascii.eqb c "0").
Qed.

(** The decimal numeral of a non-negative integer reads back as it. *)
Lemma Number_dec_digits n : 0 <= n -> Number (dec_digits n EmptyString) = Fin (inject_Z n).
Proof. intros Hn. by apply Number_digits, read_digits_dec. Qed.

Lemma dec_digits_all_digits n :
  (0 <= n)%Z -> Forall (fun c => is_digit c = true) (list_ascii_of_string (dec_digits n EmptyString)).
Proof.
  intros Hn. apply (read_digits_from_digits _ 0 n).
  pose proof (read_digits_dec n Hn) as Hr. pose proof (dec_digits_nonempty n EmptyString Hn) as Hne.
  destruct (dec_digits n EmptyString); [done|exact Hr].
Qed.
