(* ===== verification/Json.v ===== *)
(** * [JSON.stringify] and [JSON.parse]

    The log file holds one [JSON.stringify] text per line and
    [readAll] reads each line back with [JSON.parse]; the store keeps
    tags and embeddings as JSON text too.  [json] is the JSON value
    (objects keep their keys in insertion order, as JavaScript objects
    do for string keys).  [stringify] follows the ECMAScript algorithm:
    strings are quoted with the escapes of QuoteJSONString, numbers are
    printed by [Number::toString].  [parse] is a parser of the JSON
    grammar (RFC 8259) over the characters of the text.

    Numbers are rationals standing for doubles.  Every double is a
    finite decimal, and for a finite decimal with at most 17
    significant digits the shortest decimal that reads back as the
    double is that decimal: [number_to_string] prints it exactly, in
    JavaScript's plain or exponential format.  A rational that is no
    finite decimal stands for no double; it is printed rounded to 17
    significant digits.  Characters are the code units below 256; a
    [\uXXXX] escape above 255 is outside the model (the parser fails). *)

From stdpp Require Import base list.
From Stdlib Require Import ZArith QArith String Ascii.
From S2P Require Import Prelude JsString Decimal JsNumber.

Local Open Scope string_scope.
Local Open Scope Z_scope.

Inductive json : Type :=
| JNull
| JBool (b : bool)
| JNum (q : Q)
| JStr (s : string)
| JArr (items : list json)
| JObj (fields : list (string * json)).

(** ** Numbers: [Number::toString] *)

Definition zeros (n : nat) : string := string_of_list_ascii (repeat "0"%char n).

(** The least [k] from [k0] on, [fuel] of them, with [d | 10^k]. *)
Fixpoint pow10_search (d : positive) (fuel k : nat) : option nat :=
  match fuel with
  | O => None
  | S f => if (10 ^ Z.of_nat k) mod Zpos d =? 0 then Some k else pow10_search d f (S k)
  end.

(** Whether [d] divides some power of ten ([d = 2^a 5^b], and then
    [max a b < Pos.size d] is within the search). *)
Definition pow10_exponent (d : positive) : option nat :=
  pow10_search d (S (Pos.to_nat (Pos.size d))) 0%nat.

(** Remove the trailing zeros of [m > 0]: [m * 10^e] as [m' * 10^e']. *)
Fixpoint strip_zeros (fuel : nat) (m e : Z) : Z * Z :=
  match fuel with
  | O => (m, e)
  | S f => if (m mod 10 =? 0) && (0 <? m) then strip_zeros f (m / 10) (e + 1) else (m, e)
  end.

Definition digit_count (m : Z) : Z := Z.of_nat (String.length (dec_digits m EmptyString)).

(** A positive rational as [m * 10^e], [m] without trailing zeros:
    exactly when the rational is a finite decimal, otherwise rounded to
    17 significant digits. *)
Definition decimal_of_pos (q : Q) : Z * Z :=
  match pow10_exponent (Qden q) with
  | Some k => let m := Qnum q * (10 ^ Z.of_nat k / Zpos (Qden q)) in
              strip_zeros (Z.to_nat (digit_count m)) m (- Z.of_nat k)
  | None =>
      let mag := digit_count (Qnum q) - digit_count (Zpos (Qden q)) in
      let e := mag - 17 in
      let scaled := if 0 <=? e then Qnum q / (Zpos (Qden q) * 10 ^ e)
                    else (Qnum q * 10 ^ (- e)) / Zpos (Qden q) in
      strip_zeros 40 scaled e
  end.

Definition exponent_string (x : Z) : string :=
  if 0 <=? x then "+" ++ dec_digits x EmptyString else "-" ++ dec_digits (- x) EmptyString.

(** Number::toString of [m * 10^e] with [m > 0]: [s] the digits of [m],
    [k] their count, [n] the position of the decimal point. *)
Definition format_decimal (m e : Z) : string :=
  let s := dec_digits m EmptyString in
  let k := Z.of_nat (String.length s) in
  let n := k + e in
  if (k <=? n) && (n <=? 21) then s ++ zeros (Z.to_nat (n - k))
  else if (0 <? n) && (n <=? 21) then
    substring 0 (Z.to_nat n) s ++ "." ++ substring (Z.to_nat n) (Z.to_nat (k - n)) s
  else if (-6 <? n) && (n <=? 0) then "0." ++ zeros (Z.to_nat (- n)) ++ s
  else if k =? 1 then s ++ "e" ++ exponent_string (n - 1)
  else substring 0 1 s ++ "." ++ substring 1 (Z.to_nat (k - 1)) s ++ "e" ++ exponent_string (n - 1).

Definition number_to_string (q : Q) : string :=
  if Qnum q =? 0 then "0"
  else if Qnum q <? 0 then
    let '(m, e) := decimal_of_pos (Qmake (- Qnum q) (Qden q)) in "-" ++ format_decimal m e
  else let '(m, e) := decimal_of_pos q in format_decimal m e.

(** ** Strings: QuoteJSONString *)

Definition hex_digit (n : nat) : ascii := if (n <? 10)%nat then ascii_of_nat (48 + n) else ascii_of_nat (87 + n).

Definition backslash : ascii := "\"%char.

Definition escape_char (c : ascii) : string :=
  let n := nat_of_ascii c in
  if (n =? 8)%nat then "\b"
  else if (n =? 9)%nat then "\t"
  else if (n =? 10)%nat then "\n"
  else if (n =? 12)%nat then "\f"
  else if (n =? 13)%nat then "\r"
  else if (n =? 34)%nat then String backslash (String c EmptyString)
  else if (n =? 92)%nat then "\\"
  else if (n <? 32)%nat then
    String backslash (String "u" (String "0" (String "0"
      (String (hex_digit (n / 16)) (String (hex_digit (n mod 16)) EmptyString)))))
  else String c EmptyString.

Fixpoint escape (cs : list ascii) : string :=
  match cs with
  | [] => EmptyString
  | c :: cs' => escape_char c ++ escape cs'
  end.

Definition quote_char : ascii := ascii_of_nat 34.

Definition quote (s : string) : string :=
  String quote_char (escape (list_ascii_of_string s) ++ String quote_char EmptyString).

(** ** [JSON.stringify(value)] *)

Fixpoint stringify (v : json) : string :=
  match v with
  | JNull => "null"
  | JBool true => "true"
  | JBool false => "false"
  | JNum q => number_to_string q
  | JStr s => quote s
  | JArr items => "[" ++ String.concat "," (map stringify items) ++ "]"
  | JObj fields => "{" ++ String.concat "," (map (fun kv => quote (fst kv) ++ ":" ++ stringify (snd kv)) fields) ++ "}"
  end.

(** ** [JSON.parse(text)] *)

Definition is_json_ws (c : ascii) : bool :=
  let n := nat_of_ascii c in (n =? 32)%nat || (n =? 9)%nat || (n =? 10)%nat || (n =? 13)%nat.

Fixpoint skip_ws (cs : list ascii) : list ascii :=
  match cs with
  | c :: cs' => if is_json_ws c then skip_ws cs' else cs
  | [] => []
  end.

(** The rest of [cs] after the literal [lit]. *)
Fixpoint after_literal (lit cs : list ascii) : option (list ascii) :=
  match lit, cs with
  | [], _ => Some cs
  | l :: lit', c :: cs' => if Ascii.eqb l c then after_literal lit' cs' else None
  | _ :: _, [] => None
  end.

Definition hex_value (c : ascii) : option nat := option_map Z.to_nat (digit_in_radix 16 c).

(** The character of a two-character escape [\e]. *)
Definition simple_escape (e : ascii) : option ascii :=
  let n := nat_of_ascii e in
  if (n =? 34)%nat || (n =? 92)%nat || (n =? 47)%nat then Some e
  else if (n =? 98)%nat then Some (ascii_of_nat 8)
  else if (n =? 102)%nat then Some (ascii_of_nat 12)
  else if (n =? 110)%nat then Some (ascii_of_nat 10)
  else if (n =? 114)%nat then Some (ascii_of_nat 13)
  else if (n =? 116)%nat then Some (ascii_of_nat 9)
  else None.

(** The characters of a string literal up to its closing quote. *)
Fixpoint parse_chars (cs : list ascii) : option (list ascii * list ascii) :=
  match cs with
  | [] => None
  | c :: r =>
      if Ascii.eqb c quote_char then Some ([], r)
      else if Ascii.eqb c backslash then
        match r with
        | e :: r' =>
            if Ascii.eqb e "u" then
              match r' with
              | h1 :: h2 :: h3 :: h4 :: r'' =>
                  match hex_value h1, hex_value h2, hex_value h3, hex_value h4 with
                  | Some a, Some b, Some c', Some d =>
                      let v := (((a * 16 + b) * 16 + c') * 16 + d)%nat in
                      if (v <? 256)%nat then
                        match parse_chars r'' with
                        | Some (s, rest) => Some (ascii_of_nat v :: s, rest)
                        | None => None
                        end
                      else None
                  | _, _, _, _ => None
                  end
              | _ => None
              end
            else match simple_escape e with
                 | Some x => match parse_chars r' with
                             | Some (s, rest) => Some (x :: s, rest)
                             | None => None
                             end
                 | None => None
                 end
        | [] => None
        end
      else if (nat_of_ascii c <? 32)%nat then None
      else match parse_chars r with
           | Some (s, rest) => Some (c :: s, rest)
           | None => None
           end
  end.

(** A JSON number: [-? (0 | [1-9][0-9]* ) (. [0-9]+)? ([eE] [+-]? [0-9]+)?]. *)
Definition parse_int_part (cs : list ascii) : option (list ascii * list ascii) :=
  match cs with
  | c :: r => if Ascii.eqb c "0" then Some ([c], r)
              else if is_digit c then let '(ds, r') := span_digits r in Some (c :: ds, r')
              else None
  | [] => None
  end.

Definition parse_frac (cs : list ascii) : option (list ascii * list ascii) :=
  match cs with
  | c :: r => if Ascii.eqb c "." then
                match span_digits r with
                | ([], _) => None
                | (ds, r') => Some (ds, r')
                end
              else Some ([], cs)
  | [] => Some ([], [])
  end.

Definition parse_exp (cs : list ascii) : option (Z * list ascii) :=
  match cs with
  | c :: r =>
      if Ascii.eqb c "e" || Ascii.eqb c "E" then
        let '(sgn, r1) := match r with
                          | s :: r' => if Ascii.eqb s "+" then (1, r')
                                       else if Ascii.eqb s "-" then (-1, r') else (1, r)
                          | [] => (1, r)
                          end in
        match span_digits r1 with
        | ([], _) => None
        | (ds, r2) => match radix_value 10 ds 0 with
                      | Some x => Some (sgn * x, r2)
                      | None => None
                      end
        end
      else Some (0, cs)
  | [] => Some (0, [])
  end.

Definition parse_unsigned (cs : list ascii) : option (Q * list ascii) :=
  match parse_int_part cs with
  | Some (int, r1) =>
      match parse_frac r1 with
      | Some (frac, r2) =>
          match parse_exp r2, radix_value 10 (int ++ frac) 0 with
          | Some (x, r3), Some m => Some (scale m (x - Z.of_nat (List.length frac)), r3)
          | _, _ => None
          end
      | None => None
      end
  | None => None
  end.

Definition parse_number (cs : list ascii) : option (Q * list ascii) :=
  match cs with
  | c :: r => if Ascii.eqb c "-" then
                match parse_unsigned r with
                | Some (q, r') => Some (Qred (- q), r')
                | None => None
                end
              else match parse_unsigned cs with
                   | Some (q, r') => Some (Qred q, r')
                   | None => None
                   end
  | [] => None
  end.

Fixpoint parse_value (fuel : nat) (cs : list ascii) : option (json * list ascii) :=
  match fuel with
  | O => None
  | S f =>
      match skip_ws cs with
      | [] => None
      | c :: r =>
          if Ascii.eqb c "n" then option_map (fun r' => (JNull, r')) (after_literal (list_ascii_of_string "ull") r)
          else if Ascii.eqb c "t" then option_map (fun r' => (JBool true, r')) (after_literal (list_ascii_of_string "rue") r)
          else if Ascii.eqb c "f" then option_map (fun r' => (JBool false, r')) (after_literal (list_ascii_of_string "alse") r)
          else if Ascii.eqb c quote_char then
            option_map (fun '(s, r') => (JStr (string_of_list_ascii s), r')) (parse_chars r)
          else if Ascii.eqb c "[" then
            match skip_ws r with
            | c' :: r' => if Ascii.eqb c' "]" then Some (JArr [], r')
                          else option_map (fun '(vs, r'') => (JArr vs, r'')) (parse_items f (c' :: r'))
            | [] => None
            end
          else if Ascii.eqb c "{" then
            match skip_ws r with
            | c' :: r' => if Ascii.eqb c' "}" then Some (JObj [], r')
                          else option_map (fun '(kvs, r'') => (JObj kvs, r'')) (parse_members f (c' :: r'))
            | [] => None
            end
          else option_map (fun '(q, r') => (JNum q, r')) (parse_number (c :: r))
      end
  end
with parse_items (fuel : nat) (cs : list ascii) : option (list json * list ascii) :=
  match fuel with
  | O => None
  | S f =>
      match parse_value f cs with
      | Some (v, r) =>
          match skip_ws r with
          | c :: r' => if Ascii.eqb c "," then
                         option_map (fun '(vs, r'') => (v :: vs, r'')) (parse_items f r')
                       else if Ascii.eqb c "]" then Some ([v], r')
                       else None
          | [] => None
          end
      | None => None
      end
  end
with parse_members (fuel : nat) (cs : list ascii) : option (list (string * json) * list ascii) :=
  match fuel with
  | O => None
  | S f =>
      match skip_ws cs with
      | c :: r =>
          if Ascii.eqb c quote_char then
            match parse_chars r with
            | Some (k, r1) =>
                match skip_ws r1 with
                | c1 :: r2 =>
                    if Ascii.eqb c1 ":" then
                      match parse_value f r2 with
                      | Some (v, r3) =>
                          match skip_ws r3 with
                          | c3 :: r4 =>
                              if Ascii.eqb c3 "," then
                                option_map (fun '(kvs, r5) => ((string_of_list_ascii k, v) :: kvs, r5))
                                  (parse_members f r4)
                              else if Ascii.eqb c3 "}" then Some ([(string_of_list_ascii k, v)], r4)
                              else None
                          | [] => None
                          end
                      | None => None
                      end
                    else None
                | [] => None
                end
            | None => None
            end
          else None
      | [] => None
      end
  end.

(** [JSON.parse(text)]: one value, surrounded by whitespace only;
    [None] is the SyntaxError. *)
Definition parse (text : string) : option json :=
  let cs := list_ascii_of_string text in
  match parse_value (S (List.length cs)) cs with
  | Some (v, rest) => if bool_decide (skip_ws rest = []) then Some v else None
  | None => None
  end.

(** ** Well-formed values *)

Definition finite_decimal (q : Q) : bool :=
  match pow10_exponent (Qden q) with Some _ => true | None => false end.

(** A number as the program can hold it: reduced, and a finite decimal. *)
Definition number_ok (q : Q) : bool :=
  (Qnum (Qred q) =? Qnum q) && Pos.eqb (Qden (Qred q)) (Qden q) && finite_decimal q.

(** What may follow a number: no digit, point or exponent mark. *)
Definition num_stop (r : list ascii) : Prop :=
  match r with
  | [] => True
  | c :: _ => is_digit c = false /\ c <> "."%char /\ c <> "e"%char /\ c <> "E"%char
  end.

Definition digits (l : list ascii) : Prop := Forall (fun c => is_digit c = true) l.

(** Every number of [v] is one the program can hold. *)
Fixpoint json_ok (v : json) : bool :=
  match v with
  | JNum q => number_ok q
  | JArr items => forallb json_ok items
  | JObj fields => forallb (fun kv => json_ok kv.2) fields
  | _ => true
  end.

(** A bound on the fuel [parse_value] needs for [v]'s text. *)
Fixpoint json_size (v : json) : nat :=
  match v with
  | JArr items => S (list_sum (map (fun x => S (json_size x)) items))
  | JObj fields => S (list_sum (map (fun kv => S (json_size kv.2)) fields))
  | _ => 1%nat
  end.

(** What may follow a value inside a text: nothing, or a separator. *)
Definition value_stop (r : list ascii) : Prop :=
  match r with
  | [] => True
  | c :: _ => c = ","%char \/ c = "]"%char \/ c = "}"%char
  end.

(** The text of one member of an object. *)
Definition member (kv : string * json) : string := quote kv.1 ++ ":" ++ stringify kv.2.

(** [v]'s text reads back as [v] before any end of a value. *)
Definition reads_back (v : json) : Prop :=
  forall f r, (json_size v <= f)%nat -> value_stop r -> parse_value f (list_ascii_of_string (stringify v) ++ r) = Some (v, r).

(** No control character: every code is 32 or more. *)
Definition printable (cs : list ascii) : Prop := Forall (fun c => (32 <= nat_of_ascii c)%nat) cs.

(** ** Round trip of strings *)

Lemma hex_value_digit d : (d < 16)%nat -> hex_value (hex_digit d) = Some d.
Proof.
  intros Hd. unfold hex_value, hex_digit, digit_in_radix.
  destruct (Nat.ltb_spec d 10).
  - rewrite nat_ascii_embedding by lia.
    replace ((48 <=? Z.of_nat (48 + d)) && (Z.of_nat (48 + d) <=? 57)) with true
      by (symmetry; apply andb_true_iff; split; apply Z.leb_le; lia).
    rewrite (proj2 (Z.ltb_lt _ _)) by lia. simpl. f_equal. lia.
  - rewrite nat_ascii_embedding by lia.
    replace ((48 <=? Z.of_nat (87 + d)) && (Z.of_nat (87 + d) <=? 57)) with false
      by (symmetry; apply andb_false_iff; right; apply Z.leb_gt; lia).
    replace ((97 <=? Z.of_nat (87 + d)) && (Z.of_nat (87 + d) <=? 122)) with true
      by (symmetry; apply andb_true_iff; split; apply Z.leb_le; lia).
    rewrite (proj2 (Z.ltb_lt _ _)) by lia. simpl. f_equal. lia.
Qed.

Lemma ascii_eqb_code c d : Ascii.eqb c d = (nat_of_ascii c =? nat_of_ascii d)%nat.
Proof.
  destruct (Ascii.eqb_spec c d) as [->|Hne]; [by rewrite Nat.eqb_refl|].
  symmetry. apply Nat.eqb_neq. intros Heq. apply Hne.
  by rewrite <- (ascii_nat_embedding c), <- (ascii_nat_embedding d), Heq.
Qed.

(** The parser reads back one escaped character. *)
Lemma parse_chars_escape_char c r :
  parse_chars (list_ascii_of_string (escape_char c) ++ r)
  = option_map (fun '(s, rest) => (c :: s, rest)) (parse_chars r).
Proof.
  unfold escape_char. pose proof (nat_ascii_bounded c) as Hb. rewrite <- (ascii_nat_embedding c).
  set (n := nat_of_ascii c) in *. clearbody n. cbv zeta. rewrite !nat_ascii_embedding by lia.
  destruct (Nat.eqb_spec n 8) as [->|H8]; [simpl; by destruct (parse_chars r) as [[? ?]|]|].
  destruct (Nat.eqb_spec n 9) as [->|H9]; [simpl; by destruct (parse_chars r) as [[? ?]|]|].
  destruct (Nat.eqb_spec n 10) as [->|H10]; [simpl; by destruct (parse_chars r) as [[? ?]|]|].
  destruct (Nat.eqb_spec n 12) as [->|H12]; [simpl; by destruct (parse_chars r) as [[? ?]|]|].
  destruct (Nat.eqb_spec n 13) as [->|H13]; [simpl; by destruct (parse_chars r) as [[? ?]|]|].
  destruct (Nat.eqb_spec n 34) as [->|H34]; [simpl; by destruct (parse_chars r) as [[? ?]|]|].
  destruct (Nat.eqb_spec n 92) as [->|H92]; [simpl; by destruct (parse_chars r) as [[? ?]|]|].
  destruct (Nat.ltb_spec n 32) as [Hlt|Hge].
  - cbn [list_ascii_of_string app parse_chars].
    replace (Ascii.eqb backslash quote_char) with false by reflexivity.
    replace (Ascii.eqb backslash backslash) with true by reflexivity.
    replace (Ascii.eqb "u" "u") with true by reflexivity.
    assert (Hq : (n / 16 < 16)%nat) by (apply Nat.Div0.div_lt_upper_bound; lia).
    assert (Hm : (n mod 16 < 16)%nat) by (apply Nat.mod_upper_bound; lia).
    rewrite !hex_value_digit by assumption.
    replace (hex_value "0") with (Some 0%nat) by reflexivity.
    pose proof (Nat.div_mod_eq n 16) as Hd.
    replace ((((0 * 16 + 0) * 16 + n / 16) * 16 + n mod 16))%nat with n by lia.
    rewrite (proj2 (Nat.ltb_lt n 256)) by lia. by destruct (parse_chars r) as [[? ?]|].
  - cbn [list_ascii_of_string app parse_chars].
    rewrite !ascii_eqb_code, !nat_ascii_embedding by lia.
    replace (nat_of_ascii quote_char) with 34%nat by reflexivity.
    replace (nat_of_ascii backslash) with 92%nat by reflexivity.
    rewrite (proj2 (Nat.eqb_neq n 34)), (proj2 (Nat.eqb_neq n 92)), (proj2 (Nat.ltb_ge n 32)) by lia.
    by destruct (parse_chars r) as [[? ?]|].
Qed.

Lemma parse_chars_escape cs r :
  parse_chars (list_ascii_of_string (escape cs) ++ quote_char :: r) = Some (cs, r).
Proof.
  induction cs as [|c cs IH]; [reflexivity|]. cbn [escape].
  rewrite list_ascii_of_string_app, <- app_assoc, parse_chars_escape_char, IH. reflexivity.
Qed.

(** The parser reads a quoted string back. *)
Lemma parse_quote s r :
  (list_ascii_of_string (quote s) ++ r = quote_char :: list_ascii_of_string (escape (list_ascii_of_string s)) ++ quote_char :: r)%list
  /\ parse_chars (list_ascii_of_string (escape (list_ascii_of_string s)) ++ quote_char :: r)
     = Some (list_ascii_of_string s, r).
Proof.
  split; [|apply parse_chars_escape].
  unfold quote. cbn [list_ascii_of_string]. rewrite list_ascii_of_string_app. cbn. by rewrite <- app_assoc.
Qed.

(** ** Round trip of numbers *)

Lemma dec_digits_head m :
  0 < m -> exists c rest, list_ascii_of_string (dec_digits m EmptyString) = c :: rest /\ c <> "0"%char.
Proof.
  intros Hm. refine (dec_ind (fun m => 0 < m -> exists c rest,
    list_ascii_of_string (dec_digits m EmptyString) = c :: rest /\ c <> "0"%char) _ m _ Hm); [|lia].
  intros n Hn IH Hpos. rewrite dec_digits_eq. destruct (Z.ltb_spec n 10).
  - exists (digit_char (n mod 10)), []. split; [done|]. rewrite Z.mod_small by lia.
    intros Hc. apply (f_equal digit_value) in Hc. rewrite digit_value_char in Hc by lia.
    vm_compute in Hc. injection Hc. lia.
  - rewrite dec_digits_app by (apply Z.div_pos; lia).
    destruct (IH ltac:(lia) ltac:(apply Z.div_str_pos; lia)) as (c & rest & Hl & Hc).
    exists c, (rest ++ [digit_char (n mod 10)])%list. split; [|done].
    by rewrite list_ascii_of_string_app, Hl.
Qed.

Lemma list_zeros j : list_ascii_of_string (zeros j) = repeat "0"%char j.
Proof. unfold zeros. apply list_ascii_of_string_of_list_ascii. Qed.

Lemma substring_list a b s :
  list_ascii_of_string (substring a b s) = take b (drop a (list_ascii_of_string s)).
Proof.
  revert a b. induction s as [|c s IH]; intros a b.
  - destruct a, b; reflexivity.
  - destruct a as [|a]; [destruct b as [|b]; [reflexivity|]|]; simpl; [|apply IH].
    f_equal. rewrite IH. by rewrite drop_0.
Qed.

Lemma span_digits_stop r : num_stop r -> span_digits r = ([], r).
Proof. destruct r as [|c r]; [done|]. intros (Hd & _). simpl. by rewrite Hd. Qed.

Lemma span_digits_app ds r :
  digits ds -> span_digits (ds ++ r) = (ds ++ (span_digits r).1, (span_digits r).2)%list.
Proof.
  induction 1 as [|c ds Hc _ IH]; simpl; [by destruct (span_digits r)|].
  rewrite Hc, IH. reflexivity.
Qed.

Lemma span_digits_run ds r : digits ds -> num_stop r -> span_digits (ds ++ r) = (ds, r).
Proof. intros Hd Hr. rewrite span_digits_app, span_digits_stop by done. simpl. by rewrite app_nil_r. Qed.

Lemma parse_frac_stop r : num_stop r -> parse_frac r = Some ([], r).
Proof.
  destruct r as [|c r]; [done|]. intros (_ & Hp & _). simpl.
  by destruct (Ascii.eqb_spec c "."%char).
Qed.

Lemma parse_frac_digits ds r :
  ds <> [] -> digits ds -> span_digits r = ([], r) -> parse_frac ("."%char :: ds ++ r) = Some (ds, r).
Proof.
  intros Hne Hd Hr. cbn [parse_frac]. rewrite Ascii.eqb_refl, span_digits_app, Hr by done.
  cbn. rewrite app_nil_r. by destruct ds.
Qed.

Lemma parse_exp_stop r : num_stop r -> parse_exp r = Some (0, r).
Proof.
  destruct r as [|c r]; [done|]. intros (_ & _ & He & HE). simpl.
  by destruct (Ascii.eqb_spec c "e"%char), (Ascii.eqb_spec c "E"%char).
Qed.

Lemma radix_value_app r a b v :
  radix_value r (a ++ b) v = match radix_value r a v with Some v' => radix_value r b v' | None => None end.
Proof. revert v. induction a as [|c a IH]; intros v; simpl; [done|]. destruct (digit_in_radix r c); [apply IH|done]. Qed.

Lemma length_list_ascii_of_string s : List.length (list_ascii_of_string s) = String.length s.
Proof. induction s as [|c s IH]; simpl; [done|by rewrite IH]. Qed.

Lemma radix_value_dec m v :
  0 <= m -> radix_value 10 (list_ascii_of_string (dec_digits m EmptyString)) v
            = Some (v * 10 ^ Z.of_nat (List.length (list_ascii_of_string (dec_digits m EmptyString))) + m).
Proof.
  intros Hm. rewrite radix_value_10, string_of_list_ascii_of_string, read_dec_digits by done.
  by rewrite length_list_ascii_of_string.
Qed.

Lemma radix_value_zeros j v : radix_value 10 (repeat "0"%char j) v = Some (v * 10 ^ Z.of_nat j).
Proof.
  revert v. induction j as [|j IH]; intros v; [simpl; f_equal; lia|].
  cbn [repeat radix_value]. replace (digit_in_radix 10 "0") with (Some 0) by reflexivity.
  rewrite IH. f_equal. rewrite Nat2Z.inj_succ, Z.pow_succ_r by lia. ring.
Qed.

Lemma parse_exp_string x r :
  num_stop r -> parse_exp ("e"%char :: list_ascii_of_string (exponent_string x) ++ r) = Some (x, r).
Proof.
  intros Hr. unfold exponent_string. cbn [parse_exp]. rewrite Ascii.eqb_refl. cbn [orb].
  destruct (Z.leb_spec 0 x) as [Hx|Hx]; rewrite list_ascii_of_string_app; cbn [list_ascii_of_string app].
  all: cbn -[dec_digits span_digits radix_value].
  - rewrite span_digits_run by first [exact Hr | apply dec_digits_all_digits; lia].
    pose proof (dec_digits_nonempty x EmptyString Hx) as Hne.
    destruct (list_ascii_of_string (dec_digits x EmptyString)) eqn:E.
    { destruct (dec_digits x EmptyString); [done|discriminate]. }
    rewrite <- E, radix_value_dec by done. f_equal. f_equal. lia.
  - rewrite span_digits_run by first [exact Hr | apply dec_digits_all_digits; lia].
    pose proof (dec_digits_nonempty (- x) EmptyString ltac:(lia)) as Hne.
    destruct (list_ascii_of_string (dec_digits (- x) EmptyString)) eqn:E.
    { destruct (dec_digits (- x) EmptyString); [done|discriminate]. }
    rewrite <- E, radix_value_dec by lia. f_equal. f_equal. lia.
Qed.

Lemma span_digits_nondigit c r : is_digit c = false -> span_digits (c :: r) = ([], c :: r).
Proof. intros Hc. simpl. by rewrite Hc. Qed.

Lemma parse_int_lead d ds r :
  is_digit d = true -> d <> "0"%char -> digits ds -> span_digits r = ([], r) ->
  parse_int_part (d :: ds ++ r) = Some (d :: ds, r).
Proof.
  intros Hd H0 Hds Hr. cbn [parse_int_part].
  destruct (Ascii.eqb_spec d "0"%char); [done|]. rewrite Hd, span_digits_app, Hr by done.
  simpl. by rewrite app_nil_r.
Qed.

Lemma parse_unsigned_parts cs int r1 frac r2 x r3 v :
  parse_int_part cs = Some (int, r1) -> parse_frac r1 = Some (frac, r2) ->
  parse_exp r2 = Some (x, r3) -> radix_value 10 (int ++ frac) 0 = Some v ->
  parse_unsigned cs = Some (scale v (x - Z.of_nat (List.length frac)), r3).
Proof. intros H1 H2 H3 H4. unfold parse_unsigned. by rewrite H1, H2, H3, H4. Qed.


Lemma digits_repeat_zero j : digits (repeat "0"%char j).
Proof. induction j as [|j IH]; constructor; [done|exact IH]. Qed.

Lemma parse_unsigned_format m e r :
  0 < m -> num_stop r -> parse_unsigned (list_ascii_of_string (format_decimal m e) ++ r) = Some (scale m e, r).
Proof.
  intros Hm Hr. destruct (dec_digits_head m Hm) as (d & ls & Hl & Hd0).
  pose proof (dec_digits_all_digits m ltac:(lia)) as Hall. rewrite Hl in Hall.
  inversion Hall as [|? ? Hd Hds]; subst.
  pose proof (radix_value_dec m 0 ltac:(lia)) as Hv. rewrite Hl, Z.mul_0_l, Z.add_0_l in Hv.
  assert (Hr0 : span_digits r = ([], r)) by (apply span_digits_stop, Hr).
  unfold format_decimal. rewrite <- length_list_ascii_of_string, Hl. cbn [List.length].
  set (k := Z.of_nat (S (List.length ls))). set (n := k + e).
  destruct ((k <=? n) && (n <=? 21)) eqn:Ea.
  { apply andb_true_iff in Ea as [Ea _]. apply Z.leb_le in Ea.
    rewrite list_ascii_of_string_app, list_zeros, Hl, <- app_assoc. cbn [app].
    erewrite (parse_unsigned_parts _ (d :: ls ++ repeat "0"%char (Z.to_nat (n - k)))); cycle 1.
    - rewrite (app_assoc ls). apply parse_int_lead; try done.
      apply Forall_app; split; [done|apply digits_repeat_zero].
    - by apply parse_frac_stop.
    - by apply parse_exp_stop.
    - rewrite app_nil_r, app_comm_cons, radix_value_app, Hv. apply radix_value_zeros.
    - f_equal. unfold scale. cbn [List.length]. rewrite Z.sub_0_r, !(proj2 (Z.leb_le _ _)) by lia.
      f_equal. rewrite Z2Nat.id by lia. unfold n. rewrite Z.pow_0_r. f_equal. ring_simplify. f_equal. f_equal. lia. }
  assert (Hnd : forall c l, is_digit c = false -> span_digits (c :: l) = ([], c :: l))
    by (intros c l Hc; exact (span_digits_nondigit c l Hc)).
  destruct ((0 <? n) && (n <=? 21)) eqn:Eb.
  { apply andb_false_iff in Ea. apply andb_true_iff in Eb as [Eb1 Eb2].
    apply Z.ltb_lt in Eb1. apply Z.leb_le in Eb2.
    assert (Hnk : n < k) by (destruct Ea as [Ea|Ea]; apply Z.leb_gt in Ea; lia).
    rewrite !list_ascii_of_string_app, !substring_list, Hl, drop_0. cbn [list_ascii_of_string].
    set (p := (Z.to_nat n - 1)%nat). replace (Z.to_nat n) with (S p) by lia.
    cbn [take drop]. rewrite (take_ge (drop p ls)) by (rewrite length_drop; lia).
    rewrite <- ?app_assoc. cbn [app].
    erewrite (parse_unsigned_parts _ (d :: take p ls) _ (drop p ls) r 0 r m); cycle 1.
    - apply parse_int_lead; [done|done|by apply Forall_take|by apply Hnd].
    - apply parse_frac_digits; [|by apply Forall_drop|by apply span_digits_stop].
      intros Hn. apply (f_equal List.length) in Hn. rewrite length_drop in Hn. simpl in Hn. lia.
    - by apply parse_exp_stop.
    - by rewrite <- app_comm_cons, take_drop.
    - do 3 f_equal. rewrite length_drop. unfold n in *. lia. }
  destruct ((-6 <? n) && (n <=? 0)) eqn:Ec.
  { apply andb_true_iff in Ec as [Ec1 Ec2]. apply Z.ltb_lt in Ec1. apply Z.leb_le in Ec2.
    rewrite !list_ascii_of_string_app, list_zeros, Hl. cbn [list_ascii_of_string app].
    rewrite <- ?app_assoc. cbn [app].
    erewrite (parse_unsigned_parts _ ["0"%char] _ (repeat "0"%char (Z.to_nat (- n)) ++ d :: ls) r 0 r m); cycle 1.
    - reflexivity.
    - change (d :: ls ++ r)%list with ((d :: ls) ++ r)%list. rewrite app_assoc.
      apply parse_frac_digits; [by destruct (Z.to_nat (- n))| |by apply span_digits_stop].
      apply Forall_app; split; [apply digits_repeat_zero|by constructor].
    - by apply parse_exp_stop.
    - cbn [app radix_value]. replace (digit_in_radix 10 "0") with (Some 0) by reflexivity.
      rewrite radix_value_app, radix_value_zeros. exact Hv.
    - do 3 f_equal. rewrite length_app, repeat_length. cbn [List.length]. unfold n, k in *. lia. }
  destruct (Z.eqb_spec k 1) as [Hk|Hk].
  { destruct ls as [|x ls]; [|unfold k in Hk; simpl in Hk; lia].
    rewrite !list_ascii_of_string_app, Hl. cbn [list_ascii_of_string app]. rewrite <- ?app_assoc. cbn [app].
    erewrite (parse_unsigned_parts _ [d] _ [] _ (n - 1) r m); cycle 1.
    - apply (parse_int_lead d []); [done|done|constructor|by apply Hnd].
    - reflexivity.
    - by apply parse_exp_string.
    - exact Hv.
    - do 3 f_equal. unfold n, k in *. simpl. lia. }
  rewrite !list_ascii_of_string_app, !substring_list, Hl, drop_0. cbn [list_ascii_of_string take drop].
  rewrite take_0, drop_0, (take_ge ls (Z.to_nat (k - 1))) by (unfold k; lia). rewrite <- ?app_assoc. cbn [app].
  erewrite (parse_unsigned_parts _ [d] _ ls _ (n - 1) r m); cycle 1.
  - apply (parse_int_lead d []); [done|done|constructor|by apply Hnd].
  - apply parse_frac_digits; [|done|by apply Hnd].
    intros ->. unfold k in Hk. simpl in Hk. lia.
  - by apply parse_exp_string.
  - exact Hv.
  - do 3 f_equal. unfold n, k in *. lia.
Qed.

Lemma pow10_exponent_divides d k : pow10_exponent d = Some k -> (10 ^ Z.of_nat k) mod Zpos d = 0.
Proof.
  unfold pow10_exponent. generalize 0%nat. generalize (S (Pos.to_nat (Pos.size d))).
  intros fuel. induction fuel as [|fuel IH]; intros j H; cbn [pow10_search] in H; [discriminate|].
  destruct (Z.eqb_spec ((10 ^ Z.of_nat j) mod Zpos d) 0) as [E|_]; [|exact (IH _ H)].
  injection H as <-. exact E.
Qed.

Lemma Zpos_to_pos_pow10 x : 0 <= x -> Zpos (Z.to_pos (10 ^ x)) = 10 ^ x.
Proof. intros Hx. apply Z2Pos.id. apply Z.pow_pos_nonneg; lia. Qed.

Lemma scale_shift a b : (scale (a * 10) b == scale a (b + 1))%Q.
Proof.
  unfold scale, Qeq. destruct (Z.leb_spec 0 b); [rewrite (proj2 (Z.leb_le 0 (b + 1))) by lia|].
  - cbn [Qnum Qden inject_Z]. rewrite Z.pow_add_r by lia. ring.
  - destruct (Z.leb_spec 0 (b + 1)); cbn [Qnum Qden inject_Z].
    + replace b with (-1) by lia. change (- (-1)) with 1. change (-1 + 1) with 0. rewrite Z.pow_0_r. cbn. lia.
    + rewrite !Zpos_to_pos_pow10 by lia. replace (- b) with (- (b + 1) + 1) by lia.
      rewrite Z.pow_add_r by lia. ring.
Qed.

Lemma strip_zeros_spec fuel m e :
  0 < m -> 0 < (strip_zeros fuel m e).1 /\ (scale (strip_zeros fuel m e).1 (strip_zeros fuel m e).2 == scale m e)%Q.
Proof.
  revert m e. induction fuel as [|fuel IH]; intros m e Hm; cbn [strip_zeros]; [split; [done|apply Qeq_refl]|].
  destruct (Z.eqb_spec (m mod 10) 0) as [E|E]; [|split; [done|apply Qeq_refl]].
  rewrite (proj2 (Z.ltb_lt 0 m)) by done. cbn [andb].
  pose proof (Z.div_mod m 10 ltac:(lia)) as Hd. rewrite E, Z.add_0_r in Hd.
  assert (Hpos : 0 < m / 10) by lia.
  destruct (IH (m / 10) (e + 1) Hpos) as [H1 H2]. split; [done|].
  rewrite H2, <- scale_shift. rewrite Z.mul_comm, <- Hd. reflexivity.
Qed.

(** A finite decimal is [m * 10^e] exactly. *)
Lemma decimal_of_pos_exact q k :
  0 < Qnum q -> pow10_exponent (Qden q) = Some k ->
  0 < (decimal_of_pos q).1 /\ (scale (decimal_of_pos q).1 (decimal_of_pos q).2 == q)%Q.
Proof.
  intros Hq Hk. pose proof (pow10_exponent_divides _ _ Hk) as Hdiv.
  unfold decimal_of_pos. rewrite Hk.
  set (p := 10 ^ Z.of_nat k). set (d := Zpos (Qden q)) in *.
  assert (Hp : 0 < p) by (apply Z.pow_pos_nonneg; lia).
  assert (Hpd : p = d * (p / d)) by (apply Z.div_exact; [lia|exact Hdiv]).
  assert (Hq' : 0 < p / d) by (assert (0 < d) by lia; nia).
  destruct (strip_zeros_spec (Z.to_nat (digit_count (Qnum q * (p / d)))) (Qnum q * (p / d)) (- Z.of_nat k))
    as [H1 H2]; [nia|].
  split; [exact H1|]. rewrite H2. unfold scale, Qeq. cbn [Qnum Qden].
  destruct (Z.leb_spec 0 (- Z.of_nat k)).
  - assert (k = 0%nat) by lia. subst k. cbn [inject_Z Qnum Qden].
    change p with 1 in *. unfold d in *. assert (Hd1 : Zpos (Qden q) = 1) by nia.
    rewrite Hd1, Z.div_1_r. change (10 ^ (- Z.of_nat 0)) with 1. lia.
  - cbn [Qnum Qden]. rewrite Z.opp_involutive, Zpos_to_pos_pow10 by lia. fold p d. rewrite Hpd at 2. ring.
Qed.

Lemma number_ok_spec q : number_ok q = true -> Qred q = q /\ exists k, pow10_exponent (Qden q) = Some k.
Proof.
  unfold number_ok, finite_decimal. intros H. apply andb_true_iff in H as [H Hk].
  apply andb_true_iff in H as [H1 H2]. apply Z.eqb_eq in H1. apply Pos.eqb_eq in H2. split.
  - destruct (Qred q), q; cbn in *; congruence.
  - destruct (pow10_exponent (Qden q)); [eauto|discriminate].
Qed.

Lemma parse_unsigned_head c cs x : parse_unsigned (c :: cs) = Some x -> is_digit c = true.
Proof.
  unfold parse_unsigned, parse_int_part. destruct (Ascii.eqb_spec c "0"%char) as [->|_]; [done|].
  by destruct (is_digit c).
Qed.

Lemma parse_number_unsigned cs q r : parse_unsigned cs = Some (q, r) -> parse_number cs = Some (Qred q, r).
Proof.
  destruct cs as [|c cs]; [done|]. intros H. pose proof (parse_unsigned_head _ _ _ H) as Hd.
  cbn [parse_number]. destruct (Ascii.eqb_spec c "-"%char) as [->|_]; [discriminate|]. by rewrite H.
Qed.

(** The text of a number, read back: it starts with a sign or a digit. *)
Lemma number_to_string_parse q r :
  number_ok q = true -> num_stop r ->
  exists c rest, (list_ascii_of_string (number_to_string q) ++ r = c :: rest)%list
    /\ (c = "-"%char \/ is_digit c = true) /\ parse_number (c :: rest) = Some (q, r).
Proof.
  intros Hok Hr. destruct (number_ok_spec q Hok) as [Hred [k Hk]].
  unfold number_to_string. destruct (Z.eqb_spec (Qnum q) 0) as [H0|H0].
  { exists "0"%char, r. split; [done|]. split; [by right|].
    erewrite parse_number_unsigned; [|apply (parse_unsigned_parts _ ["0"%char] r [] r 0 r 0)];
      [| reflexivity | by apply parse_frac_stop | by apply parse_exp_stop | reflexivity].
    f_equal. f_equal. rewrite <- Hred. apply Qred_complete. unfold Qeq. rewrite H0. reflexivity. }
  destruct (Z.ltb_spec (Qnum q) 0) as [Hn|Hp].
  - destruct (decimal_of_pos_exact (Qmake (- Qnum q) (Qden q)) k) as [Hm Hs]; [cbn; lia|exact Hk|].
    destruct (decimal_of_pos (Qmake (- Qnum q) (Qden q))) as [m e]. cbn [fst snd] in Hm, Hs.
    rewrite list_ascii_of_string_app. cbn [list_ascii_of_string app].
    exists "-"%char, (list_ascii_of_string (format_decimal m e) ++ r)%list. split; [done|]. split; [by left|].
    cbn [parse_number]. rewrite Ascii.eqb_refl, parse_unsigned_format by done.
    f_equal. f_equal. rewrite <- Hred. apply Qred_complete. rewrite Hs. unfold Qeq. cbn. ring.
  - destruct (decimal_of_pos_exact q k) as [Hm Hs]; [lia|exact Hk|].
    destruct (decimal_of_pos q) as [m e]. cbn [fst snd] in Hm, Hs.
    pose proof (parse_unsigned_format m e r Hm Hr) as Hu.
    destruct (list_ascii_of_string (format_decimal m e) ++ r)%list as [|c rest] eqn:E; [discriminate|].
    exists c, rest. split; [done|]. split; [right; exact (parse_unsigned_head _ _ _ Hu)|].
    rewrite (parse_number_unsigned _ _ _ Hu). f_equal. f_equal. rewrite <- Hred. by apply Qred_complete.
Qed.

(** ** Round trip of values *)

Lemma json_ind' (P : json -> Prop) :
  P JNull -> (forall b, P (JBool b)) -> (forall q, P (JNum q)) -> (forall s, P (JStr s)) ->
  (forall items, Forall P items -> P (JArr items)) ->
  (forall fields, Forall (fun kv => P kv.2) fields -> P (JObj fields)) -> forall v, P v.
Proof.
  intros Hn Hb Hq Hs Ha Ho. fix IH 1. intros [|b|q|s|items|fields].
  - exact Hn.
  - apply Hb.
  - apply Hq.
  - apply Hs.
  - apply Ha. induction items as [|x items IHi]; constructor; [apply IH|exact IHi].
  - apply Ho. induction fields as [|kv fields IHf]; constructor; [apply IH|exact IHf].
Qed.

Ltac text_norm :=
  rewrite ?list_ascii_of_string_app; cbn [list_ascii_of_string app]; rewrite <- ?app_assoc; cbn [app].

Lemma value_head c :
  c = "-"%char \/ is_digit c = true ->
  is_json_ws c = false /\ Ascii.eqb c "n" = false /\ Ascii.eqb c "t" = false /\ Ascii.eqb c "f" = false
  /\ Ascii.eqb c quote_char = false /\ Ascii.eqb c "[" = false /\ Ascii.eqb c "{" = false
  /\ Ascii.eqb c "]" = false /\ Ascii.eqb c "}" = false.
Proof.
  intros [ -> | Hd]; [vm_compute; repeat split|].
  unfold is_digit, digit_value in Hd. rewrite !ascii_eqb_code. unfold is_json_ws.
  set (n := nat_of_ascii c) in *. clearbody n.
  destruct ((48 <=? n)%nat && (n <=? 57)%nat) eqn:E; [|discriminate].
  apply andb_true_iff in E as [E1 E2]. apply Nat.leb_le in E1, E2.
  vm_compute nat_of_ascii.
  repeat split; repeat (apply orb_false_iff; split); apply Nat.eqb_neq; lia.
Qed.

Lemma skip_ws_head c rest : is_json_ws c = false -> skip_ws (c :: rest) = c :: rest.
Proof. intros H. cbn. by rewrite H. Qed.

Lemma value_stop_num r : value_stop r -> num_stop r.
Proof. destruct r as [|c r]; [done|]. intros [ -> | [ -> | -> ] ]; vm_compute; repeat split; discriminate. Qed.

Lemma stringify_head v :
  json_ok v = true -> exists c rest, list_ascii_of_string (stringify v) = c :: rest
    /\ is_json_ws c = false /\ Ascii.eqb c "]" = false /\ Ascii.eqb c "}" = false.
Proof.
  intros Hok. destruct v as [|[|]|q|s|items|fields]; try (eexists _, _; split; [reflexivity|vm_compute; done]).
  cbn [stringify json_ok] in *. destruct (number_to_string_parse q [] Hok I) as (c & rest & E & Hc & _).
  rewrite app_nil_r in E. exists c, rest. split; [done|]. pose proof (value_head c Hc). naive_solver.
Qed.

Lemma concat_cons_text sep x xs :
  exists t, list_ascii_of_string (String.concat sep (x :: xs)) = (list_ascii_of_string x ++ t)%list.
Proof.
  destruct xs as [|y ys]; [exists []; by rewrite app_nil_r|].
  exists (list_ascii_of_string (sep ++ String.concat sep (y :: ys))). apply list_ascii_of_string_app.
Qed.

Lemma parse_items_text items :
  Forall (fun v => json_ok v = true -> reads_back v) items -> items <> [] -> forallb json_ok items = true ->
  forall g r, (list_sum (map (fun x => S (json_size x)) items) <= g)%nat ->
  parse_items g (list_ascii_of_string (String.concat "," (map stringify items)) ++ "]"%char :: r) = Some (items, r).
Proof.
  induction 1 as [|x xs Hx Hxs IH]; [done|]. intros _ Hok g r Hg.
  cbn [forallb] in Hok. apply andb_true_iff in Hok as [Hok1 Hok2].
  cbn [map list_sum fold_right] in Hg. destruct g as [|g]; [lia|].
  destruct xs as [|y ys].
  - cbn [map String.concat parse_items]. rewrite (Hx Hok1 g ("]"%char :: r)); [reflexivity|lia|by right; left].
  - change (String.concat "," (map stringify (x :: y :: ys)))
      with (stringify x ++ "," ++ String.concat "," (map stringify (y :: ys))).
    text_norm. cbn [parse_items].
    rewrite (Hx Hok1 g (","%char :: list_ascii_of_string (String.concat "," (map stringify (y :: ys))) ++ "]"%char :: r));
      [|lia|by left].
    cbv beta iota. rewrite skip_ws_head by reflexivity. rewrite Ascii.eqb_refl.
    rewrite IH by (done || (unfold list_sum in *; lia)). reflexivity.
Qed.

Lemma parse_member_step k v g c T :
  parse_value g (list_ascii_of_string (stringify v) ++ c :: T) = Some (v, c :: T) -> is_json_ws c = false ->
  parse_members (S g) (list_ascii_of_string (member (k, v)) ++ c :: T)
  = if Ascii.eqb c "," then option_map (fun '(kvs, r5) => ((k, v) :: kvs, r5)) (parse_members g T)
    else if Ascii.eqb c "}" then Some ([(k, v)], T) else None.
Proof.
  intros Hv Hc. unfold member. cbn [fst snd]. rewrite list_ascii_of_string_app, <- app_assoc.
  destruct (parse_quote k (list_ascii_of_string (":" ++ stringify v) ++ c :: T)) as [E Hq].
  rewrite E. cbn [parse_members]. rewrite skip_ws_head by reflexivity.
  replace (Ascii.eqb quote_char quote_char) with true by reflexivity. rewrite Hq.
  text_norm. cbv beta iota. rewrite skip_ws_head by reflexivity.
  replace (Ascii.eqb ":" ":") with true by reflexivity. rewrite Hv. cbv beta iota.
  rewrite skip_ws_head by exact Hc. by rewrite string_of_list_ascii_of_string.
Qed.

Lemma parse_members_text fields :
  Forall (fun kv => json_ok kv.2 = true -> reads_back kv.2) fields -> fields <> [] ->
  forallb (fun kv => json_ok kv.2) fields = true ->
  forall g r, (list_sum (map (fun kv => S (json_size kv.2)) fields) <= g)%nat ->
  parse_members g (list_ascii_of_string (String.concat "," (map member fields)) ++ "}"%char :: r) = Some (fields, r).
Proof.
  induction 1 as [|[k v] xs Hx Hxs IH]; [done|]. intros _ Hok g r Hg.
  cbn [forallb] in Hok. apply andb_true_iff in Hok as [Hok1 Hok2]. cbn [fst snd] in Hx, Hok1.
  cbn [map list_sum fold_right fst snd] in Hg. destruct g as [|g]; [lia|].
  destruct xs as [|y ys].
  - cbn [map String.concat]. rewrite parse_member_step; [reflexivity| |reflexivity].
    apply (Hx Hok1 g); [lia|by right; right].
  - change (String.concat "," (map member ((k, v) :: y :: ys)))
      with (member (k, v) ++ "," ++ String.concat "," (map member (y :: ys))).
    text_norm. rewrite parse_member_step; [|apply (Hx Hok1 g); [lia|by left]|reflexivity].
    rewrite Ascii.eqb_refl. rewrite IH by (done || (unfold list_sum in *; lia)). reflexivity.
Qed.

Theorem stringify_reads_back v : json_ok v = true -> reads_back v.
Proof.
  induction v as [| b | q | s | items IH | fields IH] using json_ind'; intros Hok f r Hf Hr;
    destruct f as [|f]; try (cbn in Hf; lia).
  - reflexivity.
  - by destruct b.
  - cbn [json_ok] in Hok. destruct (number_to_string_parse q r Hok (value_stop_num r Hr)) as (c & rest & E & Hc & Hp).
    destruct (value_head c Hc) as (Hw & Hn & Ht & Hfa & Hqu & Hbr & Hcu & _).
    cbn [stringify]. rewrite E. cbn [parse_value]. rewrite skip_ws_head by exact Hw.
    rewrite Hn, Ht, Hfa, Hqu, Hbr, Hcu, Hp. reflexivity.
  - destruct (parse_quote s r) as [E Hq]. cbn [stringify]. rewrite E. cbn [parse_value].
    rewrite skip_ws_head by reflexivity. cbv beta iota.
    replace (Ascii.eqb quote_char "n") with false by reflexivity.
    replace (Ascii.eqb quote_char "t") with false by reflexivity.
    replace (Ascii.eqb quote_char "f") with false by reflexivity.
    rewrite Ascii.eqb_refl, Hq. cbn. by rewrite string_of_list_ascii_of_string.
  - destruct items as [|x xs]; [reflexivity|].
    cbn [json_ok] in Hok. destruct (concat_cons_text "," (stringify x) (map stringify xs)) as [t Et].
    assert (Hx : json_ok x = true) by (cbn [forallb] in Hok; apply andb_true_iff in Hok; apply Hok).
    destruct (stringify_head x Hx) as (c & rest & Ex & Hw & Hb & _).
    cbn [stringify]. text_norm.
    set (L := (list_ascii_of_string (String.concat "," (map stringify (x :: xs))) ++ "]"%char :: r)%list).
    assert (EL : L = c :: (rest ++ t ++ "]"%char :: r)%list) by (unfold L; cbn [map]; rewrite Et, Ex, <- app_assoc; reflexivity).
    cbn [parse_value]. rewrite skip_ws_head by reflexivity. cbv beta iota.
    replace (Ascii.eqb "[" "n") with false by reflexivity.
    replace (Ascii.eqb "[" "t") with false by reflexivity.
    replace (Ascii.eqb "[" "f") with false by reflexivity.
    replace (Ascii.eqb "[" quote_char) with false by reflexivity. rewrite Ascii.eqb_refl.
    rewrite EL, skip_ws_head, Hb by exact Hw. rewrite <- EL. unfold L.
    rewrite parse_items_text; [reflexivity|exact IH|done|exact Hok|cbn [json_size] in Hf; lia].
  - destruct fields as [|[k v] xs]; [reflexivity|].
    cbn [json_ok] in Hok.
    destruct (concat_cons_text "," (member (k, v)) (map member xs)) as [t Et].
    cbn [stringify]. text_norm.
    change (map (fun kv => quote kv.1 ++ ":" ++ stringify kv.2) ((k, v) :: xs)) with (map member ((k, v) :: xs)).
    set (L := (list_ascii_of_string (String.concat "," (map member ((k, v) :: xs))) ++ "}"%char :: r)%list).
    assert (EL : L = quote_char :: (list_ascii_of_string (escape (list_ascii_of_string k)) ++ quote_char
                       :: list_ascii_of_string (":" ++ stringify v) ++ t ++ "}"%char :: r)%list).
    { unfold L. cbn [map]. rewrite Et. unfold member. cbn [fst snd]. rewrite list_ascii_of_string_app, <- !app_assoc.
      apply parse_quote. }
    cbn [parse_value]. rewrite skip_ws_head by reflexivity. cbv beta iota.
    replace (Ascii.eqb "{" "n") with false by reflexivity.
    replace (Ascii.eqb "{" "t") with false by reflexivity.
    replace (Ascii.eqb "{" "f") with false by reflexivity.
    replace (Ascii.eqb "{" quote_char) with false by reflexivity.
    replace (Ascii.eqb "{" "[") with false by reflexivity. rewrite Ascii.eqb_refl.
    rewrite EL, skip_ws_head by reflexivity.
    replace (Ascii.eqb quote_char "}") with false by reflexivity. rewrite <- EL. unfold L.
    rewrite parse_members_text; [reflexivity|exact IH|done|exact Hok|cbn [json_size] in Hf; lia].
Qed.

Lemma concat_comma_bound {A} (g : A -> nat) (h : A -> string) l :
  Forall (fun x => (g x <= List.length (list_ascii_of_string (h x)))%nat) l ->
  (list_sum (map (fun x => S (g x)) l) <= S (List.length (list_ascii_of_string (String.concat "," (map h l)))))%nat.
Proof.
  induction 1 as [|x xs Hx Hxs IH]; [cbn; lia|].
  destruct xs as [|y ys]; [cbn [map String.concat list_sum fold_right]; lia|].
  change (String.concat "," (map h (x :: y :: ys))) with (h x ++ "," ++ String.concat "," (map h (y :: ys))).
  rewrite !list_ascii_of_string_app, !List.length_app. cbn [map list_sum fold_right list_ascii_of_string List.length] in *.
  unfold list_sum in IH. lia.
Qed.

Lemma forallb_Forall {A} (f : A -> bool) l : forallb f l = true -> Forall (fun x => f x = true) l.
Proof. induction l as [|x l IH]; cbn; [constructor|]. intros [Hx Hl]%andb_true_iff. constructor; auto. Qed.

Lemma Forall_mp {A} (P Q : A -> Prop) l : Forall (fun x => P x -> Q x) l -> Forall P l -> Forall Q l.
Proof. induction 1; inversion 1; constructor; auto. Qed.

(** The text of a value is at least as long as its size. *)
Lemma json_size_text v : json_ok v = true -> (json_size v <= List.length (list_ascii_of_string (stringify v)))%nat.
Proof.
  induction v as [| b | q | s | items IH | fields IH] using json_ind'; intros Hok.
  - cbn; lia.
  - destruct b; cbn; lia.
  - destruct (stringify_head (JNum q) Hok) as (c & rest & E & _). rewrite E. cbn; lia.
  - destruct (parse_quote s []) as [E _]. rewrite app_nil_r in E. cbn [stringify]. rewrite E. cbn; lia.
  - cbn [stringify json_size]. text_norm. cbn [List.length]. rewrite List.length_app. cbn [List.length].
    pose proof (Forall_mp _ _ _ IH (forallb_Forall _ _ Hok)) as Hb.
    pose proof (concat_comma_bound json_size stringify items Hb). lia.
  - cbn [stringify json_size]. text_norm. cbn [List.length]. rewrite List.length_app. cbn [List.length].
    pose proof (Forall_mp _ _ _ IH (forallb_Forall _ _ Hok)) as Hb.
    pose proof (concat_comma_bound (fun kv => json_size kv.2) member fields) as Hc.
    enough (Forall (fun kv => (json_size kv.2 <= List.length (list_ascii_of_string (member kv)))%nat) fields)
      by (specialize (Hc H); change (fun kv => quote kv.1 ++ ":" ++ stringify kv.2) with member; lia).
    eapply Forall_impl; [exact Hb|]. intros [k v] Hv. unfold member. cbn [fst snd] in *.
    rewrite !list_ascii_of_string_app, !List.length_app. lia.
Qed.

(** Round trip of JSON: [JSON.parse(JSON.stringify(v))] is [v] for
    every value whose numbers are doubles (reduced finite decimals):
    strings with any character below 256, numbers in every format of
    [Number::toString], nested arrays and objects. *)
Theorem parse_stringify v : json_ok v = true -> parse (stringify v) = Some v.
Proof.
  intros Hok. unfold parse. set (cs := list_ascii_of_string (stringify v)).
  pose proof (stringify_reads_back v Hok (S (List.length cs)) []) as H.
  rewrite app_nil_r in H. fold cs in H. rewrite H; [reflexivity| |done].
  pose proof (json_size_text v Hok). unfold cs. lia.
Qed.

(** ** The text has no control character *)

Lemma printable_app a b : printable a -> printable b -> printable (a ++ b)%list.
Proof. intros Ha Hb. by apply Forall_app. Qed.

Lemma printable_digits l : digits l -> printable l.
Proof.
  intros Hl. eapply Forall_impl; [exact Hl|]. intros c Hc. unfold is_digit, digit_value in Hc.
  destruct ((48 <=? nat_of_ascii c)%nat && (nat_of_ascii c <=? 57)%nat) eqn:E; [|discriminate].
  apply andb_true_iff in E as [E _]. apply Nat.leb_le in E. lia.
Qed.

Lemma printable_dec_digits n : 0 <= n -> printable (list_ascii_of_string (dec_digits n EmptyString)).
Proof. intros Hn. apply printable_digits, dec_digits_all_digits, Hn. Qed.

Lemma hex_digit_code d : (d < 16)%nat -> (48 <= nat_of_ascii (hex_digit d))%nat.
Proof. intros Hd. unfold hex_digit. destruct (Nat.ltb_spec d 10); rewrite nat_ascii_embedding; lia. Qed.

Lemma printable_escape_char c : printable (list_ascii_of_string (escape_char c)).
Proof.
  unfold escape_char. pose proof (nat_ascii_bounded c) as Hb.
  destruct (Nat.eqb_spec (nat_of_ascii c) 8); [repeat constructor; cbn; lia|].
  destruct (Nat.eqb_spec (nat_of_ascii c) 9); [repeat constructor; cbn; lia|].
  destruct (Nat.eqb_spec (nat_of_ascii c) 10); [repeat constructor; cbn; lia|].
  destruct (Nat.eqb_spec (nat_of_ascii c) 12); [repeat constructor; cbn; lia|].
  destruct (Nat.eqb_spec (nat_of_ascii c) 13); [repeat constructor; cbn; lia|].
  destruct (Nat.eqb_spec (nat_of_ascii c) 34); [repeat constructor; cbn; lia|].
  destruct (Nat.eqb_spec (nat_of_ascii c) 92); [repeat constructor; cbn; lia|].
  destruct (Nat.ltb_spec (nat_of_ascii c) 32).
  - assert (nat_of_ascii c / 16 < 16)%nat by (apply Nat.Div0.div_lt_upper_bound; lia).
    assert (nat_of_ascii c mod 16 < 16)%nat by (apply Nat.mod_upper_bound; lia).
    cbn [list_ascii_of_string]. repeat constructor; try (cbn; lia).
    all: etransitivity; [|apply hex_digit_code; assumption]; lia.
  - repeat constructor. lia.
Qed.

Lemma printable_escape cs : printable (list_ascii_of_string (escape cs)).
Proof.
  induction cs as [|c cs IH]; [constructor|]. cbn [escape].
  rewrite list_ascii_of_string_app. by apply printable_app; [apply printable_escape_char|].
Qed.

Lemma printable_quote s : printable (list_ascii_of_string (quote s)).
Proof.
  destruct (parse_quote s []) as [E _]. rewrite app_nil_r in E. rewrite E.
  constructor; [apply Nat.leb_le; reflexivity|]. apply printable_app; [apply printable_escape|]. repeat constructor.
Qed.


Lemma printable_exponent_string x : printable (list_ascii_of_string (exponent_string x)).
Proof.
  unfold exponent_string. destruct (Z.leb_spec 0 x); rewrite list_ascii_of_string_app;
    (apply printable_app; [repeat constructor|apply printable_dec_digits; lia]).
Qed.

Lemma printable_format m e : 0 <= m -> printable (list_ascii_of_string (format_decimal m e)).
Proof.
  intros Hm. pose proof (printable_dec_digits m Hm) as Hd. unfold format_decimal.
  repeat case_match; rewrite ?list_ascii_of_string_app, ?substring_list, ?list_zeros;
    repeat apply printable_app; try apply Forall_take; try apply Forall_drop;
    first [exact Hd | apply printable_exponent_string | apply printable_digits, digits_repeat_zero | repeat constructor].
Qed.

Lemma printable_number q : number_ok q = true -> printable (list_ascii_of_string (number_to_string q)).
Proof.
  intros Hok. destruct (number_ok_spec q Hok) as [_ [k Hk]]. unfold number_to_string.
  destruct (Z.eqb_spec (Qnum q) 0); [repeat constructor|].
  destruct (Z.ltb_spec (Qnum q) 0).
  - destruct (decimal_of_pos_exact (Qmake (- Qnum q) (Qden q)) k) as [Hm _]; [cbn; lia|exact Hk|].
    destruct (decimal_of_pos (Qmake (- Qnum q) (Qden q))) as [m e]. cbn [fst] in Hm.
    rewrite list_ascii_of_string_app. apply printable_app; [repeat constructor|apply printable_format; lia].
  - destruct (decimal_of_pos_exact q k) as [Hm _]; [lia|exact Hk|].
    destruct (decimal_of_pos q) as [m e]. cbn [fst] in Hm. apply printable_format. lia.
Qed.

Lemma printable_concat sep l :
  printable (list_ascii_of_string sep) -> Forall (fun s => printable (list_ascii_of_string s)) l ->
  printable (list_ascii_of_string (String.concat sep l)).
Proof.
  intros Hs. induction 1 as [|x xs Hx _ IH]; [constructor|].
  destruct xs as [|y ys]; [exact Hx|].
  change (String.concat sep (x :: y :: ys)) with (x ++ sep ++ String.concat sep (y :: ys)).
  rewrite !list_ascii_of_string_app. by repeat apply printable_app.
Qed.

(** [JSON.stringify] writes no control character, a newline included:
    the text of a value is one line. *)
Lemma printable_stringify v : json_ok v = true -> printable (list_ascii_of_string (stringify v)).
Proof.
  induction v as [| b | q | s | items IH | fields IH] using json_ind'; intros Hok.
  - repeat constructor.
  - destruct b; repeat constructor.
  - by apply printable_number.
  - apply printable_quote.
  - cbn [stringify]. rewrite !list_ascii_of_string_app. repeat apply printable_app; try (repeat constructor; fail).
    apply printable_concat; [repeat constructor|]. apply Forall_map.
    exact (Forall_mp _ _ _ IH (forallb_Forall _ _ Hok)).
  - cbn [stringify]. rewrite !list_ascii_of_string_app. repeat apply printable_app; try (repeat constructor; fail).
    apply printable_concat; [repeat constructor|]. apply Forall_map.
    eapply Forall_impl; [exact (Forall_mp _ _ _ IH (forallb_Forall _ _ Hok))|]. intros [k v] Hv. cbn in *.
    rewrite !list_ascii_of_string_app. apply printable_app; [apply printable_quote|].
    apply printable_app; [repeat constructor|exact Hv].
Qed.

(** ** Example *)

(** A log entry's shape: nested objects, an escaped string, numbers in
    the plain, fractional, negative and exponential formats. *)
Definition sample_value : json :=
  JObj [("op", JStr "add");
        ("memory", JObj [("id", JStr (String backslash (String quote_char "x")));
                         ("importance", JNum (4 # 5)%Q);
                         ("tags", JArr [JStr "ui"; JNum (-1 # 20)%Q]);
                         ("embedding", JArr [JNum (1 # 10000000)%Q; JNum (10 ^ 21 # 1)%Q])]);
        ("ts", JNum (1700000000000 # 1)%Q)].

Lemma parse_stringify_witness : json_ok sample_value = true /\ parse (stringify sample_value) = Some sample_value.
Proof.
  assert (H : json_ok sample_value = true) by (vm_compute; reflexivity).
  split; [exact H|]. exact (parse_stringify sample_value H).
Defined.
