(* ===== verification/JsonParse.v ===== *)
(** * Meta-theory of the JSON parser of [Json.v]

    Three facts about [parse_value], [parse_items] and [parse_members],
    the fuelled model of [JSON.parse]:
    - more fuel never changes a result ([parse_mono], [parse_value_mono]);
    - what follows the point where a parse stops is never read: a parse
      of [cs] that stops at [r] is a parse of [cs ++ s] that stops at
      [r ++ s], provided a number does not stop at the end of its text
      (a number would read further digits) ([parse_ext], with the
      scanners' versions [skip_ws_app] ... [parse_number_ext]);
    - hence a proper prefix of the text of an object never parses
      ([parse_torn_object]): the JSON line [wal.ts] [append] writes,
      cut anywhere before its end, makes [JSON.parse] throw. *)
From stdpp Require Import base list.
From Stdlib Require Import ZArith QArith String Ascii.
From S2P Require Import Prelude JsString Decimal JsNumber Json.

(** Whether a value is a number: the one kind whose text a following
    digit would extend. *)
Definition is_num (v : json) : bool := match v with JNum _ => true | _ => false end.

(** Unfold one step of the mutual parser in [H] (or the goal), without
    letting [cbn] fold it back where [skip_ws] blocks the match. *)
Ltac parse_unfold_in H :=
  cbv beta iota fix delta [parse_value parse_items parse_members] in H;
  fold parse_value parse_items parse_members in H; cbv [option_map] in H.

Ltac parse_unfold_goal :=
  cbv beta iota fix delta [parse_value parse_items parse_members];
  fold parse_value parse_items parse_members; cbv [option_map].

Lemma parse_mono f :
  (forall cs x, parse_value f cs = Some x -> parse_value (S f) cs = Some x)
  /\ (forall cs x, parse_items f cs = Some x -> parse_items (S f) cs = Some x)
  /\ (forall cs x, parse_members f cs = Some x -> parse_members (S f) cs = Some x).
Proof.
  induction f as [|f (IHv & IHi & IHm)]; [repeat split; discriminate|].
  split; [|split]; intros cs x H; parse_unfold_in H; remember (S f) as g eqn:Hg; parse_unfold_goal;
    repeat case_match; simplify_eq;
    repeat match goal with
    | E : parse_value f ?X = Some _ |- _ => apply IHv in E
    | E : parse_items f ?X = Some _ |- _ => apply IHi in E
    | E : parse_members f ?X = Some _ |- _ => apply IHm in E
    end; try subst g; congruence.
Qed.

Lemma parse_value_mono f f' cs x : (f <= f')%nat -> parse_value f cs = Some x -> parse_value f' cs = Some x.
Proof.
  induction 1 as [|f' _ IH]; [done|]. intros H. apply (proj1 (parse_mono f')), IH, H.
Qed.

(** ** Parsing ignores what follows its stopping point *)

Lemma skip_ws_app cs s c r : skip_ws cs = c :: r -> skip_ws (cs ++ s) = c :: r ++ s.
Proof.
  induction cs as [|d cs IH]; [discriminate|]. cbn. destruct (is_json_ws d); [exact IH|]. by intros [= -> ->].
Qed.

Lemma skip_ws_nonempty cs c r : skip_ws cs = c :: r -> cs <> [].
Proof. by destruct cs. Qed.

Lemma after_literal_app lit cs r s : after_literal lit cs = Some r -> after_literal lit (cs ++ s) = Some (r ++ s).
Proof.
  revert cs. induction lit as [|a lit IH]; intros [|c cs] H; simpl in *; simplify_eq; try done.
  destruct (Ascii.eqb a c); [apply IH, H|discriminate].
Qed.

Lemma parse_chars_app cs x r s : parse_chars cs = Some (x, r) -> parse_chars (cs ++ s) = Some (x, r ++ s).
Proof.
  revert x r. induction cs as [cs IH] using (induction_ltof1 _ (@List.length ascii)); unfold ltof in IH.
  intros x r H. destruct cs as [|c r0]; [discriminate|]. cbn [app parse_chars] in H |- *.
  destr_in H; simplify_eq; cbn [app]; push_eqs; try done;
    match goal with
    | E : parse_chars ?X = Some _ |- _ => by rewrite (IH X ltac:(cbn; lia) _ _ E)
    end.
Qed.

Lemma span_digits_ext l s ds r : span_digits l = (ds, r) -> r <> [] -> span_digits (l ++ s) = (ds, r ++ s).
Proof.
  revert ds r. induction l as [|c l IH]; intros ds r H Hr; cbn in *; [by simplify_eq|].
  destr_in H; simplify_eq; [|done]. by rewrite (IH _ _ eq_refl Hr).
Qed.

Lemma parse_int_part_ext l s ds r : parse_int_part l = Some (ds, r) -> r <> [] -> parse_int_part (l ++ s) = Some (ds, r ++ s).
Proof.
  destruct l as [|c l]; [discriminate|]. cbn. intros H Hr. destr_in H; simplify_eq; [done|].
  by rewrite (span_digits_ext _ _ _ _ Heqp Hr).
Qed.

Lemma parse_frac_ext l s ds r : parse_frac l = Some (ds, r) -> r <> [] -> parse_frac (l ++ s) = Some (ds, r ++ s).
Proof.
  destruct l as [|c l]; cbn; intros H Hr; [by simplify_eq|]. destr_in H; simplify_eq; [|done].
  by rewrite (span_digits_ext _ _ _ _ Heqp Hr).
Qed.

Lemma parse_exp_ext l s x r : parse_exp l = Some (x, r) -> r <> [] -> parse_exp (l ++ s) = Some (x, r ++ s).
Proof.
  destruct l as [|c [|c' l]]; cbv beta iota delta [parse_exp app]; intros H Hr; [by simplify_eq|..]; destr_in H; simplify_eq; try done;
    push_eqs; rewrite ?app_comm_cons;
    match goal with E : span_digits _ = _ |- _ => by rewrite (span_digits_ext _ _ _ _ E Hr); push_eqs end.
Qed.

Lemma parse_unsigned_ext l s q r : parse_unsigned l = Some (q, r) -> r <> [] -> parse_unsigned (l ++ s) = Some (q, r ++ s).
Proof.
  unfold parse_unsigned. intros H Hr. destr_in H; simplify_eq.
  match goal with
  | Ei : parse_int_part _ = Some (_, ?r1), Ef : parse_frac _ = Some (_, ?r2), Ee : parse_exp _ = _,
    Er : radix_value _ _ _ = _ |- _ =>
      assert (R2 : r2 <> []) by (intros ->; cbn in Ee; simplify_eq);
      assert (R1 : r1 <> []) by (intros ->; cbn in Ef; simplify_eq);
      by rewrite (parse_int_part_ext _ _ _ _ Ei R1), (parse_frac_ext _ _ _ _ Ef R2), (parse_exp_ext _ _ _ _ Ee Hr), Er
  end.
Qed.

Lemma parse_number_ext l s q r : parse_number l = Some (q, r) -> r <> [] -> parse_number (l ++ s) = Some (q, r ++ s).
Proof.
  destruct l as [|c l]; [discriminate|]. cbv beta iota delta [parse_number app]. fold (app l s). intros H Hr.
  destr_in H; simplify_eq; rewrite ?app_comm_cons;
    match goal with E : parse_unsigned _ = _ |- _ => by rewrite (parse_unsigned_ext _ _ _ _ E Hr) end.
Qed.


Lemma parse_ext f :
  (forall cs s v r, parse_value f cs = Some (v, r) -> r <> [] \/ is_num v = false ->
     parse_value f (cs ++ s) = Some (v, r ++ s))
  /\ (forall cs s vs r, parse_items f cs = Some (vs, r) -> parse_items f (cs ++ s) = Some (vs, r ++ s))
  /\ (forall cs s kvs r, parse_members f cs = Some (kvs, r) -> parse_members f (cs ++ s) = Some (kvs, r ++ s)).
Proof.
  induction f as [|f (IHv & IHi & IHm)]; [repeat split; discriminate|].
  split; [|split]; intros cs s x r H; [intros Hr|..]; parse_unfold_in H; parse_unfold_goal;
    destr_in H; simplify_eq;
    repeat (cbn [app]; match goal with
    | E : skip_ws ?X = ?c :: ?r |- context [skip_ws (?X ++ s)] => rewrite (skip_ws_app X s c r E)
    | E : after_literal ?l ?X = Some ?r |- context [after_literal ?l (?X ++ s)] => rewrite (after_literal_app l X r s E)
    | E : parse_chars ?X = Some (?a, ?r) |- _ => rewrite ?app_comm_cons, (parse_chars_app X a r s E); clear E
    | E : parse_number ?X = Some (?a, ?r) |- _ =>
        rewrite ?app_comm_cons, (parse_number_ext X s a r E) by (destruct Hr; [done|discriminate]); clear E
    | E : parse_value f ?X = Some (?a, ?r), E' : skip_ws ?r = _ :: _ |- _ =>
        rewrite ?app_comm_cons, (IHv X s a r E) by (left; exact (skip_ws_nonempty _ _ _ E')); clear E
    | E : parse_items f ?X = Some (?a, ?r) |- _ => rewrite ?app_comm_cons, (IHi X s a r E); clear E
    | E : parse_members f ?X = Some (?a, ?r) |- _ => rewrite ?app_comm_cons, (IHm X s a r E); clear E
    | E : ?x = ?y |- context [?x] => rewrite E
    end); try done.
Qed.


Lemma parse_value_object f cs r v r' :
  skip_ws cs = "{"%char :: r -> parse_value f cs = Some (v, r') -> is_num v = false.
Proof.
  destruct f as [|f]; [discriminate|]. intros Hs H. parse_unfold_in H. rewrite Hs in H. cbn in H.
  destr_in H; by simplify_eq.
Qed.

Theorem parse_torn_object v p q :
  json_ok v = true -> (exists r, list_ascii_of_string (stringify v) = "{"%char :: r) ->
  (p ++ q)%list = list_ascii_of_string (stringify v) -> q <> [] -> parse (string_of_list_ascii p) = None.
Proof.
  intros Hok [r0 Hr0] Hpq Hq. unfold parse. rewrite list_ascii_of_string_of_list_ascii.
  destruct (parse_value (S (List.length p)) p) as [[v' r]|] eqn:E; [exfalso|done].
  destruct p as [|c p]; [done|]. rewrite Hr0 in Hpq. injection Hpq as -> Hpq.
  apply (parse_ext _) with (s := q) in E as E'; [|right; exact (parse_value_object _ ("{"%char :: p) p _ _ eq_refl E)].
  pose proof (stringify_reads_back v Hok (json_size v) [] (le_n _) I) as Hv. rewrite app_nil_r, Hr0, <- Hpq in Hv.
  apply (parse_value_mono _ (S (S (List.length p)) + json_size v)) in E'; [|cbn; lia].
  apply (parse_value_mono _ (S (S (List.length p)) + json_size v)) in Hv; [|lia].
  cbn [app] in E'. rewrite Hv in E'. simplify_eq. by destruct r, q.
Qed.
