(* ===== verification/Types.v ===== *)
(** * Data model of src/src/types.ts

    The closed category set, memory records and inputs, the option bags
    of listing and search, and the errors the engine can raise.  Numbers
    are modelled by their use: timestamps and epoch milliseconds as [Z]
    (an SQLite INTEGER column), importance, scores and embedding
    components as [Q] (exact rationals standing for the doubles). *)

From stdpp Require Import base list strings.
From Stdlib Require Import String ZArith QArith.
From S2P Require Import Prelude.

(** [type MemoryCategory = "decision" | ... | "project"] *)
Inductive MemoryCategory : Type :=
| decision | lesson | preference | episode | fact | person | project.

#[export] Instance MemoryCategory_eq_dec : EqDecision MemoryCategory.
Proof. solve_decision. Defined.

Definition category_to_string (c : MemoryCategory) : string :=
  match c with
  | decision => "decision" | lesson => "lesson" | preference => "preference"
  | episode => "episode" | fact => "fact" | person => "person" | project => "project"
  end.

(** [const CATEGORIES = new Set([...])] of src/src/index.ts and the runtime
    membership test [CATEGORIES.has(c)]. *)
Definition CATEGORIES : list MemoryCategory :=
  [decision; lesson; preference; episode; fact; person; project].

Definition category_of_string (s : string) : option MemoryCategory :=
  List.find (fun c => String.eqb (category_to_string c) s) CATEGORIES.

(** [interface MemoryRecord] *)
Record MemoryRecord : Type := mkMemoryRecord {
  id : string;
  content : string;
  category : MemoryCategory;
  tags : list string;
  timestamp : Z;
  importance : Q;
  embedding : list Q;
  lastAccessed : Z
}.

(** Record updates of the two mutable columns. *)
Definition with_importance (m : MemoryRecord) (q : Q) : MemoryRecord :=
  mkMemoryRecord (id m) (content m) (category m) (tags m) (timestamp m) q (embedding m) (lastAccessed m).

Definition with_lastAccessed (m : MemoryRecord) (t : Z) : MemoryRecord :=
  mkMemoryRecord (id m) (content m) (category m) (tags m) (timestamp m) (importance m) (embedding m) t.

(** [interface MemoryInput]: what callers pass to [addMemory].  The
    category is the raw runtime value (a string from JSON or the CLI);
    the optional fields are [option]s ([??] tests for [undefined]). *)
Module MemoryInput.
Record t : Type := mk {
  content : string;
  category : string;
  tags : option (list string);
  timestamp : option Z;
  importance : option Q
}.
End MemoryInput.

(** [interface SearchOptions] *)
Module SearchOptions.
Record t : Type := mk {
  limit : option Z;
  category : option MemoryCategory;
  tags : option (list string);
  keyword : option string
}.
Definition empty : t := mk None None None None.
End SearchOptions.

(** [interface SearchResult] *)
Record SearchResult : Type := mkSearchResult {
  memory : MemoryRecord;
  score : Q
}.

(** [interface ListOptions] *)
Module ListOptions.
Record t : Type := mk {
  category : option MemoryCategory;
  tags : option (list string);
  since : option Z;
  until : option Z;
  limit : option Z;
  offset : option Z
}.
Definition empty : t := mk None None None None None None.
End ListOptions.

(** [interface HealthStatus] *)
Record HealthStatus : Type := mkHealthStatus {
  ok : bool;
  memoryCount : nat;
  dbPath : string;
  walPath : string
}.

(** The exceptions the modelled code throws, by their origin. *)
Inductive MemoryError : Type :=
| ContentRequired                 (* index.ts: "Memory content is required." *)
| CategoryRequired                (* index.ts: "Memory category is required." *)
| InvalidCategory (c : string)    (* index.ts: "Invalid memory category: c" *)
| SearchQueryEmpty                (* index.ts: "Search query cannot be empty." *)
| IdRequired                      (* index.ts: "Memory id is required for deletion." *)
| ApiKeyRequired                  (* embeddings.ts: no client configured *)
| EmbeddingFailed                 (* embeddings.ts: no vector in the response *)
| SqliteConstraintPrimaryKey      (* store.ts: INSERT of an existing id *)
| SqliteSyntaxError               (* store.ts: OFFSET without LIMIT *)
| InvalidTimeValue                (* Date.prototype.toISOString on an invalid date *)
| UndefinedProperty.              (* reading a property of [undefined] *)

#[export] Instance MemoryError_eq_dec : EqDecision MemoryError.
Proof. solve_decision. Defined.

(** [tags.every(tag => memory.tags.includes(tag))] *)
Definition has_all_tags (required have : list string) : bool :=
  forallb (fun t => bool_decide (t ∈ have)) required.

Lemma has_all_tags_spec required have :
  has_all_tags required have = true <-> forall t, t ∈ required -> t ∈ have.
Proof.
  unfold has_all_tags. rewrite forallb_forall.
  split; intros H t Ht; [apply list_elem_of_In in Ht|apply list_elem_of_In in Ht];
    specialize (H t Ht); by apply bool_decide_eq_true in H || apply bool_decide_eq_true.
Qed.

Lemma category_of_string_to_string c : category_of_string (category_to_string c) = Some c.
Proof. by destruct c. Qed.

Lemma category_of_string_some s c : category_of_string s = Some c -> s = category_to_string c.
Proof.
  unfold category_of_string. intros H. apply find_some in H as [_ H].
  by apply String.eqb_eq in H.
Qed.
