(* ===== verification/Store.v ===== *)
(** * The record store: src/src/store.ts ([class SQLiteStore])

    The SQLite table [memories] is modelled by its rows in rowid order
    (the order of a scan without ORDER BY).  [id] is the PRIMARY KEY:
    INSERT of an existing id raises a constraint error; the upsert of
    the log replay replaces the row in place (ON CONFLICT DO UPDATE keeps
    the rowid).  [tags] and [embedding] are kept as values: the JSON text
    [serialize] writes into those columns reads back by [deserialize] as
    the record itself ([WalFile.deserialize_serialize]).

    The abstract specification of the table is a finite map from id to
    record ([to_map], a stdpp [gmap]); every mutation is proved to refine
    the corresponding map operation, and [store_equiv] (same map, rows in
    any order) is a congruence for them. *)

From stdpp Require Import base list gmap strings fin_maps.
From Stdlib Require Import ZArith QArith Lqa Sorting.Sorted.
From Stdlib Require String.
From S2P Require Import Prelude Types.

Module Store.

Record SQLiteStore : Type := mkStore {
  path : string;
  rows : list MemoryRecord
}.

Definition set_rows (s : SQLiteStore) (rs : list MemoryRecord) : SQLiteStore :=
  mkStore (path s) rs.

Definition has_id (i : string) (r : MemoryRecord) : bool := String.eqb (id r) i.

(** [UPDATE ... WHERE id = ?] applies [f] to the matching rows. *)
Definition update_where (i : string) (f : MemoryRecord -> MemoryRecord)
    (rs : list MemoryRecord) : list MemoryRecord :=
  map (fun r => if has_id i r then f r else r) rs.

(** [addMemory]: plain INSERT. *)
Definition addMemory (m : MemoryRecord) (s : SQLiteStore) : result MemoryError SQLiteStore :=
  if existsb (has_id (id m)) (rows s) then Err SqliteConstraintPrimaryKey
  else Ok (set_rows s (rows s ++ [m])).

(** [upsertMemory]: INSERT ... ON CONFLICT(id) DO UPDATE SET every column. *)
Definition upsertMemory (m : MemoryRecord) (s : SQLiteStore) : SQLiteStore :=
  if existsb (has_id (id m)) (rows s) then set_rows s (update_where (id m) (fun _ => m) (rows s))
  else set_rows s (rows s ++ [m]).

(** [getMemory]: SELECT * WHERE id = ?; [null] is [None]. *)
Definition getMemory (i : string) (s : SQLiteStore) : option MemoryRecord :=
  List.find (has_id i) (rows s).

(** [deleteMemory]: DELETE WHERE id = ?, returning [info.changes > 0]. *)
Definition deleteMemory (i : string) (s : SQLiteStore) : SQLiteStore * bool :=
  (set_rows s (List.filter (fun r => negb (has_id i r)) (rows s)), existsb (has_id i) (rows s)).

(** [getAllMemories]: SELECT * (rowid order). *)
Definition getAllMemories (s : SQLiteStore) : list MemoryRecord := rows s.

(** [updateAccess] and [updateImportance]: single-column UPDATEs. *)
Definition updateAccess (i : string) (t : Z) (s : SQLiteStore) : SQLiteStore :=
  set_rows s (update_where i (fun r => with_lastAccessed r t) (rows s)).

Definition updateImportance (i : string) (q : Q) (s : SQLiteStore) : SQLiteStore :=
  set_rows s (update_where i (fun r => with_importance r q) (rows s)).

(** [pruneBelowImportance]: DELETE WHERE importance < ? AND timestamp < ?,
    returning [info.changes]. *)
Definition prune_match (threshold : Q) (olderThan : Z) (r : MemoryRecord) : bool :=
  negb (Qle_bool threshold (importance r)) && (timestamp r <? olderThan)%Z.

Definition pruneBelowImportance (threshold : Q) (olderThan : Z) (s : SQLiteStore)
    : SQLiteStore * nat :=
  (set_rows s (List.filter (fun r => negb (prune_match threshold olderThan r)) (rows s)),
   length (List.filter (prune_match threshold olderThan) (rows s))).

(** [count]: SELECT COUNT( * ). *)
Definition count (s : SQLiteStore) : nat := length (rows s).

(** [listMemories].  The WHERE clauses are added only for truthy
    options: [if (options.since)] skips a [since] (or [until]) of 0.
    ORDER BY timestamp DESC leaves ties to the query plan; the model
    keeps ties in rowid order.  LIMIT is added when [limit] is a number,
    OFFSET when [offset] is; SQLite's grammar has no OFFSET without
    LIMIT, so that query fails to prepare.  A negative LIMIT means no
    limit and a negative OFFSET counts as 0.  The tag filter runs in
    JavaScript on the rows the query returned. *)
Definition truthy (o : option Z) : option Z :=
  match o with
  | Some n => if (n =? 0)%Z then None else Some n
  | None => None
  end.

Definition where_clause (o : ListOptions.t) (r : MemoryRecord) : bool :=
  match ListOptions.category o with Some c => bool_decide (category r = c) | None => true end
  && match truthy (ListOptions.since o) with Some t => (t <=? timestamp r)%Z | None => true end
  && match truthy (ListOptions.until o) with Some t => (timestamp r <=? t)%Z | None => true end.

Definition timestamp_desc (a b : MemoryRecord) : bool := (timestamp b <=? timestamp a)%Z.

Definition limit_offset (limit offset : option Z) (rs : list MemoryRecord)
    : result MemoryError (list MemoryRecord) :=
  match limit, offset with
  | None, None => Ok rs
  | None, Some _ => Err SqliteSyntaxError
  | Some l, o =>
      let after := drop (match o with Some k => Z.to_nat k | None => 0%nat end) rs in
      Ok (if (l <? 0)%Z then after else take (Z.to_nat l) after)
  end.

Definition tag_filter (o : ListOptions.t) (ms : list MemoryRecord) : list MemoryRecord :=
  match ListOptions.tags o with
  | Some ts => if (0 <? length ts)%nat then List.filter (fun m => has_all_tags ts (tags m)) ms else ms
  | None => ms
  end.

Definition listMemories (o : ListOptions.t) (s : SQLiteStore) : result MemoryError (list MemoryRecord) :=
  match limit_offset (ListOptions.limit o) (ListOptions.offset o)
          (sort_by timestamp_desc (List.filter (where_clause o) (rows s))) with
  | Err e => Err e
  | Ok ms => Ok (tag_filter o ms)
  end.

(** ** Abstract specification: the table as a finite map *)

Fixpoint to_map (rs : list MemoryRecord) : gmap string MemoryRecord :=
  match rs with
  | [] => ∅
  | r :: rs' => <[id r := r]> (to_map rs')
  end.

(** The primary-key invariant of the table. *)
Definition wf (s : SQLiteStore) : Prop := NoDup (map id (rows s)).

Definition store_equiv (s1 s2 : SQLiteStore) : Prop := to_map (rows s1) = to_map (rows s2).

(** *** Row-list lemmas *)

Lemma has_id_true i r : has_id i r = true <-> id r = i.
Proof. apply String.eqb_eq. Qed.

Lemma has_id_false i r : has_id i r = false <-> id r <> i.
Proof. unfold has_id. rewrite String.eqb_neq. done. Qed.

Lemma to_map_find i rs : to_map rs !! i = List.find (has_id i) rs.
Proof.
  induction rs as [|r rs IH]; simpl; [done|].
  destruct (has_id i r) eqn:E.
  - apply has_id_true in E. subst. apply lookup_insert_eq.
  - apply has_id_false in E. by rewrite lookup_insert_ne.
Qed.

Lemma to_map_lookup_None i rs : to_map rs !! i = None <-> existsb (has_id i) rs = false.
Proof.
  induction rs as [|r rs IH]; simpl; [done|].
  destruct (has_id i r) eqn:E.
  - apply has_id_true in E. subst. rewrite lookup_insert_eq. done.
  - apply has_id_false in E. by rewrite lookup_insert_ne.
Qed.

Lemma to_map_snoc rs m :
  existsb (has_id (id m)) rs = false -> to_map (rs ++ [m]) = <[id m := m]> (to_map rs).
Proof.
  induction rs as [|r rs IH]; simpl; intros H; [done|].
  apply orb_false_iff in H as [Hr H]. apply has_id_false in Hr.
  rewrite IH by done. by apply insert_insert_ne.
Qed.

Lemma to_map_update_where i f rs :
  (forall r, id r = i -> id (f r) = i) ->
  to_map (update_where i f rs) = alter f i (to_map rs).
Proof.
  intros Hf. induction rs as [|r rs IH]; simpl; [done|].
  rewrite IH, alter_insert.
  destruct (has_id i r) eqn:E.
  - apply has_id_true in E. rewrite (Hf r E), decide_True by done.
    subst. apply map_eq. intros j. destruct (decide (id r = j)) as [->|Hne].
    + by rewrite !lookup_insert_eq.
    + by rewrite !lookup_insert_ne, ?lookup_alter_ne.
  - apply has_id_false in E. by rewrite decide_False by congruence.
Qed.

Lemma to_map_remove i rs :
  to_map (List.filter (fun r => negb (has_id i r)) rs) = delete i (to_map rs).
Proof.
  induction rs as [|r rs IH]; simpl; [by rewrite delete_empty|].
  destruct (has_id i r) eqn:E; simpl.
  - apply has_id_true in E. subst. by rewrite IH, delete_insert_eq.
  - apply has_id_false in E. rewrite IH. by rewrite delete_insert_ne.
Qed.

Lemma to_map_filter (p : MemoryRecord -> bool) rs :
  NoDup (map id rs) ->
  to_map (List.filter p rs) = filter (fun kv => p kv.2 = true) (to_map rs).
Proof.
  induction rs as [|r rs IH]; simpl; intros Hnd; [by rewrite map_filter_empty|].
  apply NoDup_cons in Hnd as [Hni Hnd].
  assert (Hnone : to_map rs !! id r = None).
  { rewrite to_map_find. destruct (List.find (has_id (id r)) rs) eqn:F; [|done].
    exfalso. apply List.find_some in F as [Hin Hh]. apply has_id_true in Hh.
    apply Hni. apply list_elem_of_In, in_map_iff. eauto. }
  destruct (p r) eqn:Hp; simpl.
  - rewrite map_filter_insert_True by done. by rewrite IH.
  - rewrite map_filter_insert_False by (simpl; congruence).
    rewrite delete_id by done. by rewrite IH.
Qed.

Lemma to_map_size rs : NoDup (map id rs) -> size (to_map rs) = length rs.
Proof.
  induction rs as [|r rs IH]; simpl; intros Hnd; [apply map_size_empty|].
  apply NoDup_cons in Hnd as [Hni Hnd].
  rewrite map_size_insert_None; [by rewrite IH|].
  apply to_map_lookup_None. apply Bool.not_true_iff_false. intros Hex.
  apply existsb_exists in Hex as [r' [Hin Hh]]. apply has_id_true in Hh.
  apply Hni, list_elem_of_In, in_map_iff. eauto.
Qed.

Lemma map_id_update_where i f rs :
  (forall r, id r = i -> id (f r) = i) -> map id (update_where i f rs) = map id rs.
Proof.
  intros Hf. induction rs as [|r rs IH]; simpl; [done|]. rewrite IH.
  destruct (has_id i r) eqn:E; [|done]. apply has_id_true in E. by rewrite (Hf r E), E.
Qed.

Lemma NoDup_map_id_filter p rs : NoDup (map id rs) -> NoDup (map id (List.filter p rs)).
Proof.
  induction rs as [|r rs IH]; simpl; intros H; [constructor|].
  apply NoDup_cons in H as [Hni Hnd].
  destruct (p r); simpl; [|by apply IH].
  apply NoDup_cons. split; [|by apply IH].
  intros Hin. apply Hni. apply list_elem_of_In in Hin. apply list_elem_of_In.
  apply in_map_iff in Hin as [r' [Hr Hin]]. apply in_map_iff. exists r'.
  split; [done|]. by apply filter_In in Hin as [? _].
Qed.

Lemma NoDup_map_id_snoc rs m :
  NoDup (map id rs) -> existsb (has_id (id m)) rs = false -> NoDup (map id (rs ++ [m])).
Proof.
  intros Hnd Hex. rewrite map_app. apply NoDup_app. split; [done|]. split; [|apply NoDup_singleton].
  intros x Hx Hm. apply list_elem_of_singleton in Hm. subst.
  apply list_elem_of_In, in_map_iff in Hx as [r [Hr Hin]].
  assert (existsb (has_id (id m)) rs = true) by (apply existsb_exists; exists r; split; [done|by apply has_id_true]).
  congruence.
Qed.

#[export] Hint Resolve NoDup_map_id_filter NoDup_map_id_snoc : mem.

(** *** The store as a setoid *)

#[export] Instance store_equiv_Equivalence : Equivalence store_equiv.
Proof. unfold store_equiv. split; [intros x; done | intros x y H; done | intros x y z H1 H2; by rewrite H1]. Qed.

Lemma update_with_importance_id i q r : id r = i -> id (with_importance r q) = i.
Proof. done. Qed.

Lemma update_with_lastAccessed_id i t r : id r = i -> id (with_lastAccessed r t) = i.
Proof. done. Qed.

Lemma to_map_upsertMemory m s :
  to_map (rows (upsertMemory m s)) = <[id m := m]> (to_map (rows s)).
Proof.
  unfold upsertMemory. destruct (existsb (has_id (id m)) (rows s)) eqn:E; simpl.
  - rewrite to_map_update_where by done.
    assert (Hs : is_Some (to_map (rows s) !! id m)).
    { destruct (to_map (rows s) !! id m) eqn:F; [by eexists|].
      apply to_map_lookup_None in F. congruence. }
    destruct Hs as [r Hr]. apply map_eq. intros j.
    destruct (decide (id m = j)) as [<-|Hne].
    + by rewrite lookup_alter_eq, Hr, lookup_insert_eq.
    + by rewrite lookup_alter_ne, lookup_insert_ne.
  - by apply to_map_snoc.
Qed.

Lemma to_map_deleteMemory i s :
  to_map (rows (deleteMemory i s).1) = delete i (to_map (rows s)).
Proof. apply to_map_remove. Qed.

Lemma to_map_updateImportance i q s :
  to_map (rows (updateImportance i q s)) = alter (fun r => with_importance r q) i (to_map (rows s)).
Proof. apply to_map_update_where. done. Qed.

Lemma to_map_updateAccess i t s :
  to_map (rows (updateAccess i t s)) = alter (fun r => with_lastAccessed r t) i (to_map (rows s)).
Proof. apply to_map_update_where. done. Qed.

#[export] Instance upsertMemory_proper m : Proper (store_equiv ==> store_equiv) (upsertMemory m).
Proof. intros s1 s2 H. unfold store_equiv in *. by rewrite !to_map_upsertMemory, H. Qed.

#[export] Instance deleteMemory_proper i : Proper (store_equiv ==> store_equiv) (fun s => (deleteMemory i s).1).
Proof. intros s1 s2 H. unfold store_equiv in *. by rewrite !to_map_deleteMemory, H. Qed.

#[export] Instance updateImportance_proper i q : Proper (store_equiv ==> store_equiv) (updateImportance i q).
Proof. intros s1 s2 H. unfold store_equiv in *. by rewrite !to_map_updateImportance, H. Qed.

#[export] Instance updateAccess_proper i t : Proper (store_equiv ==> store_equiv) (updateAccess i t).
Proof. intros s1 s2 H. unfold store_equiv in *. by rewrite !to_map_updateAccess, H. Qed.

#[export] Instance getMemory_proper i : Proper (store_equiv ==> eq) (getMemory i).
Proof. intros s1 s2 H. unfold store_equiv, getMemory in *. by rewrite <- !to_map_find, H. Qed.

(** *** Well-formedness is preserved *)

Lemma wf_upsertMemory m s : wf s -> wf (upsertMemory m s).
Proof.
  unfold wf, upsertMemory. intros H. destruct (existsb (has_id (id m)) (rows s)) eqn:E; simpl.
  - by rewrite map_id_update_where.
  - by apply NoDup_map_id_snoc.
Qed.

Lemma wf_deleteMemory i s : wf s -> wf (deleteMemory i s).1.
Proof. apply NoDup_map_id_filter. Qed.

Lemma wf_updateImportance i q s : wf s -> wf (updateImportance i q s).
Proof. unfold wf. simpl. by rewrite map_id_update_where. Qed.

Lemma wf_updateAccess i t s : wf s -> wf (updateAccess i t s).
Proof. unfold wf. simpl. by rewrite map_id_update_where. Qed.

Lemma wf_pruneBelowImportance th c s : wf s -> wf (pruneBelowImportance th c s).1.
Proof. apply NoDup_map_id_filter. Qed.

#[export] Hint Resolve wf_upsertMemory wf_deleteMemory wf_updateImportance wf_updateAccess
  wf_pruneBelowImportance : mem.

Lemma timestamp_desc_total a b : timestamp_desc a b = true \/ timestamp_desc b a = true.
Proof. unfold timestamp_desc. apply Zleb_total. Qed.

Lemma timestamp_desc_trans a b c :
  timestamp_desc a b = true -> timestamp_desc b c = true -> timestamp_desc a c = true.
Proof. unfold timestamp_desc. intros H1 H2. eapply Zleb_trans; eauto. Qed.

(** Whether the JavaScript tag filter keeps a record. *)
Definition tag_ok (o : ListOptions.t) (r : MemoryRecord) : bool :=
  match ListOptions.tags o with
  | Some ts => if (0 <? length ts)%nat then has_all_tags ts (tags r) else true
  | None => true
  end.

Lemma tag_filter_spec o ms : tag_filter o ms = List.filter (tag_ok o) ms.
Proof.
  unfold tag_filter, tag_ok. destruct (ListOptions.tags o) as [ts|]; [|by rewrite List.filter_true].
  destruct (0 <? length ts)%nat; [done|]. by rewrite List.filter_true.
Qed.

Lemma sorted_listing o rs :
  Sorted (fun a b => timestamp_desc a b = true)
    (sort_by timestamp_desc (List.filter (where_clause o) rs)).
Proof. apply sort_by_sorted, timestamp_desc_total. Qed.

Lemma getMemory_refines i s : getMemory i s = to_map (rows s) !! i.
Proof. unfold getMemory. by rewrite to_map_find. Qed.

Lemma deleteMemory_removed i s :
  (deleteMemory i s).2 = bool_decide (is_Some (to_map (rows s) !! i)).
Proof.
  simpl. destruct (existsb (has_id i) (rows s)) eqn:E.
  - rewrite bool_decide_eq_true_2; [done|].
    destruct (to_map (rows s) !! i) eqn:F; [by eexists|]. apply to_map_lookup_None in F. congruence.
  - rewrite bool_decide_eq_false_2; [done|]. apply to_map_lookup_None in E. rewrite E. by intros [? ?].
Qed.

(** ** Properties of the store *)

(** C20 Refinement of INSERT: on a table satisfying the primary-key
    invariant, [addMemory] fails with the constraint error exactly when
    the id is already present; otherwise it adds the record to the
    abstract map and keeps the invariant. *)
Theorem addMemory_refines m s :
  wf s ->
  match addMemory m s with
  | Ok s' => to_map (rows s) !! id m = None /\ wf s' /\ to_map (rows s') = <[id m := m]> (to_map (rows s))
  | Err e => e = SqliteConstraintPrimaryKey /\ is_Some (to_map (rows s) !! id m)
  end.
Proof.
  intros Hwf. unfold addMemory. destruct (existsb (has_id (id m)) (rows s)) eqn:E.
  - split; [done|]. destruct (to_map (rows s) !! id m) eqn:F; [by eexists|].
    apply to_map_lookup_None in F. congruence.
  - split; [by apply to_map_lookup_None|]. split; [by apply NoDup_map_id_snoc|].
    by apply to_map_snoc.
Qed.

(** C21 Refinement of the replay upsert: [upsertMemory] inserts or
    replaces the record under its id in the abstract map, whatever the
    table held, and keeps the primary-key invariant. *)
Theorem upsertMemory_refines m s :
  wf s -> wf (upsertMemory m s) /\ to_map (rows (upsertMemory m s)) = <[id m := m]> (to_map (rows s)).
Proof. intros H. split; [by apply wf_upsertMemory | apply to_map_upsertMemory]. Qed.

(** C22 Refinement of DELETE: [deleteMemory] removes the id from the
    abstract map and reports [true] exactly when a row had that id. *)
Theorem deleteMemory_refines i s :
  wf s ->
  wf (deleteMemory i s).1 /\ to_map (rows (deleteMemory i s).1) = delete i (to_map (rows s))
  /\ (deleteMemory i s).2 = bool_decide (is_Some (to_map (rows s) !! i)).
Proof.
  intros H. split; [by apply wf_deleteMemory|]. split; [apply to_map_deleteMemory|].
  apply deleteMemory_removed.
Qed.

(** C23 Pruning removes exactly the records whose importance is below the
    threshold AND whose timestamp is before the cutoff: a record failing
    either condition survives; the returned count plus the remaining
    count is the former count, and the abstract map is filtered by the
    same condition. *)
Theorem pruneBelowImportance_spec th c s :
  wf s ->
  let '(s', n) := pruneBelowImportance th c s in
  wf s'
  /\ (forall r, In r (rows s') <-> In r (rows s) /\ ~ (importance r < th /\ (timestamp r < c)%Z)%Q)
  /\ (n + count s' = count s)%nat
  /\ to_map (rows s') = filter (fun kv => prune_match th c kv.2 = false) (to_map (rows s)).
Proof.
  intros H. unfold pruneBelowImportance, count. simpl.
  split; [by apply NoDup_map_id_filter|]. split; [|split].
  - intros r. rewrite filter_In. unfold prune_match.
    rewrite negb_true_iff, andb_false_iff, negb_false_iff, Qle_bool_true, Z.ltb_ge.
    split; intros [Hin Hc]; split; try done.
    + intros [Hq Ht]. destruct Hc; lra || lia.
    + destruct (Qlt_le_dec (importance r) th); [right; destruct (Z.lt_ge_cases (timestamp r) c); [tauto|lia] | by left].
  - apply length_filter_split.
  - rewrite to_map_filter by done.
    apply map_filter_ext. intros k r _. simpl. by rewrite negb_true_iff.
Qed.

(** The row count is the size of the abstract map on a table
    satisfying the primary-key invariant. *)
Theorem count_refines s : wf s -> count s = size (to_map (rows s)).
Proof. intros H. unfold count. by rewrite to_map_size. Qed.

Lemma category_test_spec (oc : option MemoryCategory) r :
  match oc with Some c => bool_decide (category r = c) | None => true end = true
  <-> forall c, oc = Some c -> category r = c.
Proof.
  destruct oc as [c|]; [rewrite bool_decide_eq_true|done].
  split; [by intros -> ? [= <-]|intros H; by apply H].
Qed.

Lemma since_test_spec ot x :
  match truthy ot with Some t => (t <=? x)%Z | None => true end = true
  <-> forall t, ot = Some t -> t <> 0%Z -> (t <= x)%Z.
Proof.
  destruct ot as [t|]; cbn; [|done]. destruct (Z.eqb_spec t 0) as [->|Ht].
  - split; [by intros _ ? [= <-]|done].
  - rewrite Z.leb_le. split; [by intros H ? [= <-]|intros H; by apply H].
Qed.

Lemma until_test_spec ot x :
  match truthy ot with Some t => (x <=? t)%Z | None => true end = true
  <-> forall t, ot = Some t -> t <> 0%Z -> (x <= t)%Z.
Proof.
  destruct ot as [t|]; cbn; [|done]. destruct (Z.eqb_spec t 0) as [->|Ht].
  - split; [by intros _ ? [= <-]|done].
  - rewrite Z.leb_le. split; [by intros H ? [= <-]|intros H; by apply H].
Qed.

Lemma where_clause_spec o r :
  where_clause o r = true <->
  (forall c, ListOptions.category o = Some c -> category r = c)
  /\ (forall t, ListOptions.since o = Some t -> t <> 0%Z -> (t <= timestamp r)%Z)
  /\ (forall t, ListOptions.until o = Some t -> t <> 0%Z -> (timestamp r <= t)%Z).
Proof.
  unfold where_clause. rewrite !andb_true_iff, category_test_spec, since_test_spec, until_test_spec. tauto.
Qed.

Lemma tag_ok_spec o r :
  tag_ok o r = true <-> forall ts, ListOptions.tags o = Some ts -> ts <> [] -> forall t, t ∈ ts -> t ∈ tags r.
Proof.
  unfold tag_ok. destruct (ListOptions.tags o) as [ts|]; [|split; [done|by intros _]].
  destruct (Nat.ltb_spec 0 (length ts)) as [Hl|Hl].
  - rewrite has_all_tags_spec. split; [intros H ? [= <-] _; exact H|intros H; apply H; [done|destruct ts; [cbn in Hl; lia|done]]].
  - split; [|done]. intros _ ? [= <-] Hne. destruct ts; [done|cbn in Hl; lia].
Qed.

Lemma Sorted_timestamp ms :
  Sorted (fun a b => timestamp_desc a b = true) ms -> Sorted (fun a b => (timestamp b <= timestamp a)%Z) ms.
Proof. induction 1 as [|a l _ IH Hd]; constructor; [done|]. destruct Hd; constructor. by apply Z.leb_le. Qed.

(** C24 A listing without LIMIT and OFFSET returns exactly the rows of
    the table of the requested category, with a timestamp at least a
    non-zero [since] and at most a non-zero [until] (0 is falsy and
    filters nothing), that carry every requested tag, ordered by
    descending timestamp. *)
Theorem listMemories_unpaged o s :
  ListOptions.limit o = None -> ListOptions.offset o = None ->
  exists ms, listMemories o s = Ok ms
    /\ (forall r, In r ms <->
          In r (rows s)
          /\ (forall c, ListOptions.category o = Some c -> category r = c)
          /\ (forall t, ListOptions.since o = Some t -> t <> 0%Z -> (t <= timestamp r)%Z)
          /\ (forall t, ListOptions.until o = Some t -> t <> 0%Z -> (timestamp r <= t)%Z)
          /\ (forall ts, ListOptions.tags o = Some ts -> ts <> [] -> forall t, t ∈ ts -> t ∈ tags r))
    /\ Sorted (fun a b => (timestamp b <= timestamp a)%Z) ms.
Proof.
  intros Hl Ho. unfold listMemories. rewrite Hl, Ho. simpl.
  eexists. split; [done|]. rewrite tag_filter_spec. split.
  - intros r. rewrite filter_In, sort_by_In, filter_In, where_clause_spec, tag_ok_spec. tauto.
  - apply Sorted_timestamp.
    eapply Sorted_sublist; [apply timestamp_desc_trans | apply sublist_List_filter | apply sorted_listing].
Qed.

(** Listing with OFFSET but no LIMIT fails: the query text
    "... ORDER BY timestamp DESC OFFSET @offset" is not valid SQLite. *)
Theorem listMemories_offset_without_limit o s k :
  ListOptions.limit o = None -> ListOptions.offset o = Some k ->
  listMemories o s = Err SqliteSyntaxError.
Proof. intros Hl Ho. unfold listMemories. by rewrite Hl, Ho. Qed.

End Store.

(** ** Concrete runs: the scenarios of the test suite and their witnesses *)

Module StoreExamples.
Import Store.

Definition rec (i c : string) (cat : MemoryCategory) (tg : list string) (t : Z) (q : Q) : MemoryRecord :=
  mkMemoryRecord i c cat tg t q [1; 0]%Q t.

Definition abdullah : MemoryRecord :=
  rec "test-1" "Abdullah prefers Arabic communication" preference ["language"; "communication"] 1000 (8#10).

Definition empty_store : SQLiteStore := mkStore "test.db" [].

Definition list_preference : ListOptions.t :=
  ListOptions.mk (Some preference) None None None None None.

(** The store scenario of the test suite: a record added to an empty
    table is found by id, listed under its category and counted once;
    after its deletion the count is 0 and the lookup is empty. *)
Example store_scenario :
  match addMemory abdullah empty_store with
  | Ok s1 =>
      getMemory "test-1" s1 = Some abdullah
      /\ listMemories list_preference s1 = Ok [abdullah]
      /\ count s1 = 1%nat
      /\ count (deleteMemory "test-1" s1).1 = 0%nat
      /\ getMemory "test-1" (deleteMemory "test-1" s1).1 = None
  | Err _ => False
  end.
Proof. vm_compute. repeat split. Qed.

(** The tag filter runs after LIMIT: with one newer untagged record
    and one older record tagged "x", listing tag "x" with limit 1
    returns nothing although the older record matches every filter. *)
Example listMemories_tags_after_limit :
  let newer := rec "n" "newer" fact [] 2000 (1#2) in
  let older := rec "o" "older" fact ["x"] 1000 (1#2) in
  let o := ListOptions.mk None (Some ["x"]) None None (Some 1%Z) None in
  let s := mkStore "memory.db" [older; newer] in
  listMemories o s = Ok [] /\ In older (rows s) /\ where_clause o older = true /\ tag_ok o older = true.
Proof. split; [vm_compute; reflexivity|]. split; [simpl; tauto|]. split; vm_compute; reflexivity. Qed.

(** An [until] of 0 is dropped by the truthiness test, so a listing
    "until epoch 0" returns records stamped after it. *)
Example listMemories_until_zero_ignored :
  let later := rec "l" "later" fact [] 5000 (1#2) in
  listMemories (ListOptions.mk None None None (Some 0%Z) None None) (mkStore "memory.db" [later])
  = Ok [later].
Proof. vm_compute. reflexivity. Qed.

Lemma addMemory_refines_witness :
  wf empty_store /\
  match addMemory abdullah empty_store with
  | Ok s' => to_map (rows empty_store) !! id abdullah = None /\ wf s'
             /\ to_map (rows s') = <[id abdullah := abdullah]> (to_map (rows empty_store))
  | Err e => e = SqliteConstraintPrimaryKey /\ is_Some (to_map (rows empty_store) !! id abdullah)
  end.
Proof.
  assert (H : wf empty_store) by (unfold wf; simpl; constructor).
  split; [exact H | exact (addMemory_refines abdullah empty_store H)].
Defined.

Definition stale : MemoryRecord := rec "test-2" "old standup notes" episode [] 10 (5#100).

Definition pair_store : SQLiteStore := mkStore "test.db" [abdullah; stale].

Lemma upsertMemory_refines_witness :
  wf pair_store
  /\ wf (upsertMemory (with_importance abdullah (9#10)) pair_store)
  /\ to_map (rows (upsertMemory (with_importance abdullah (9#10)) pair_store))
     = <[id (with_importance abdullah (9#10)) := with_importance abdullah (9#10)]> (to_map (rows pair_store)).
Proof.
  assert (H : wf pair_store) by (unfold wf; simpl; apply (bool_decide_unpack _); reflexivity).
  split; [exact H | exact (upsertMemory_refines (with_importance abdullah (9#10)) pair_store H)].
Defined.

Lemma deleteMemory_refines_witness :
  wf pair_store
  /\ wf (deleteMemory "test-2" pair_store).1
  /\ to_map (rows (deleteMemory "test-2" pair_store).1) = delete "test-2" (to_map (rows pair_store))
  /\ (deleteMemory "test-2" pair_store).2 = bool_decide (is_Some (to_map (rows pair_store) !! "test-2")).
Proof.
  assert (H : wf pair_store) by (unfold wf; simpl; apply (bool_decide_unpack _); reflexivity).
  split; [exact H | exact (deleteMemory_refines "test-2" pair_store H)].
Defined.

Lemma pruneBelowImportance_spec_witness :
  wf pair_store
  /\ let '(s', n) := pruneBelowImportance (1#10) 1000 pair_store in
     wf s'
     /\ (forall r, In r (rows s') <-> In r (rows pair_store) /\ ~ (importance r < 1#10 /\ (timestamp r < 1000)%Z)%Q)
     /\ (n + count s' = count pair_store)%nat
     /\ to_map (rows s') = filter (fun kv => prune_match (1#10) 1000 kv.2 = false) (to_map (rows pair_store)).
Proof.
  assert (H : wf pair_store) by (unfold wf; simpl; apply (bool_decide_unpack _); reflexivity).
  split; [exact H | exact (pruneBelowImportance_spec (1#10) 1000 pair_store H)].
Defined.

Lemma listMemories_unpaged_witness :
  ListOptions.limit list_preference = None /\ ListOptions.offset list_preference = None
  /\ exists ms, listMemories list_preference pair_store = Ok ms
    /\ (forall r, In r ms <->
          In r (rows pair_store)
          /\ (forall c, ListOptions.category list_preference = Some c -> category r = c)
          /\ (forall t, ListOptions.since list_preference = Some t -> t <> 0%Z -> (t <= timestamp r)%Z)
          /\ (forall t, ListOptions.until list_preference = Some t -> t <> 0%Z -> (timestamp r <= t)%Z)
          /\ (forall ts, ListOptions.tags list_preference = Some ts -> ts <> [] -> forall t, t ∈ ts -> t ∈ tags r))
    /\ Sorted (fun a b => (timestamp b <= timestamp a)%Z) ms.
Proof.
  split; [reflexivity|]. split; [reflexivity|].
  apply listMemories_unpaged; reflexivity.
Defined.

Lemma listMemories_offset_without_limit_witness :
  (ListOptions.limit (ListOptions.mk None None None None None (Some 5%Z)) = None
   /\ ListOptions.offset (ListOptions.mk None None None None None (Some 5%Z)) = Some 5%Z)
  /\ listMemories (ListOptions.mk None None None None None (Some 5%Z)) pair_store = Err SqliteSyntaxError.
Proof.
  assert (H1 : ListOptions.limit (ListOptions.mk None None None None None (Some 5%Z)) = None) by reflexivity.
  assert (H2 : ListOptions.offset (ListOptions.mk None None None None None (Some 5%Z)) = Some 5%Z) by reflexivity.
  split; [split; [exact H1|exact H2]|].
  exact (listMemories_offset_without_limit _ pair_store 5%Z H1 H2).
Defined.

End StoreExamples.
