(* ===== verification/Wal.v ===== *)
(** * The durability log: src/src/wal.ts ([class WriteAheadLog])

    The log file holds one JSON object per line.  The model keeps the
    file as the list of its parsed lines, in file order: [append] adds a
    line at the end, [clear] truncates the file, [readAll] returns every
    line parsed (an empty or whitespace-only file reads as no entry).
    The text of the file is modelled in [WalFile.v], which proves that
    it reads back as the entries kept here. *)

From stdpp Require Import base list strings.
From Stdlib Require Import ZArith.
From S2P Require Import Prelude Types.

(** [type WalOperation = "add" | "delete"] *)
Inductive WalOperation : Type := op_add | op_delete.

#[export] Instance WalOperation_eq_dec : EqDecision WalOperation.
Proof. solve_decision. Defined.

(** [interface WalEntry]: an add carries the record, a delete the id. *)
Module WalEntry.
Record t : Type := mk {
  op : WalOperation;
  memory : option MemoryRecord;
  id : option string;
  ts : Z
}.
End WalEntry.

Module Wal.

Record WriteAheadLog : Type := mkWal {
  path : string;
  entries : list WalEntry.t
}.

(** [private append(entry)]: appendFileSync of one line. *)
Definition append (e : WalEntry.t) (w : WriteAheadLog) : WriteAheadLog :=
  mkWal (path w) (entries w ++ [e]).

(** [appendAdd(memory)]: [{ op: "add", memory, ts: Date.now() }]. *)
Definition appendAdd (now : Z) (m : MemoryRecord) (w : WriteAheadLog) : WriteAheadLog :=
  append (WalEntry.mk op_add (Some m) None now) w.

(** [appendDelete(id)]: [{ op: "delete", id, ts: Date.now() }]. *)
Definition appendDelete (now : Z) (i : string) (w : WriteAheadLog) : WriteAheadLog :=
  append (WalEntry.mk op_delete None (Some i) now) w.

(** [readAll()]: the entries in file order. *)
Definition readAll (w : WriteAheadLog) : list WalEntry.t := entries w.

(** [clear()]: writeFileSync(path, ""). *)
Definition clear (w : WriteAheadLog) : WriteAheadLog := mkWal (path w) [].

(** [constructor] with [ensureDir]: a missing file is created empty, an
    existing file is kept. *)
Definition open_log (p : string) (existing : option (list WalEntry.t)) : WriteAheadLog :=
  mkWal p (default [] existing).

Lemma readAll_append e w : readAll (append e w) = readAll w ++ [e].
Proof. done. Qed.

Lemma readAll_clear w : readAll (clear w) = [].
Proof. done. Qed.

Lemma length_append e w : length (entries (append e w)) = S (length (entries w)).
Proof. simpl. rewrite length_app. simpl. lia. Qed.

(** The log scenario of the test suite: after an add of one record and
    a delete of another id, [readAll] returns exactly two entries in
    append order with the right operations and payloads; after [clear]
    it returns none. *)
Example wal_scenario (m : MemoryRecord) (t1 t2 : Z) :
  let w := appendDelete t2 "old-id" (appendAdd t1 m (open_log "test.wal" None)) in
  readAll w = [WalEntry.mk op_add (Some m) None t1; WalEntry.mk op_delete None (Some "old-id") t2]
  /\ readAll (clear w) = [].
Proof. split; reflexivity. Qed.

End Wal.
