(* ===== verification/WalFile.v ===== *)
(** * The log file and the store row as text

    [Wal.v] models the log as the list of its entries and [Store.v]
    keeps a record's [tags] and [embedding] as values.  Here is the
    text under both.  [WalFile.line] is what [append] writes (wal.ts:
    [JSON.stringify(entry)] and a newline), [readAll_text] what
    [readAll] reads back (trim test, [split("\n")], [filter(Boolean)],
    [JSON.parse] of each line), [entry_of_json] the [as WalEntry] cast
    as recovery uses it, and [serialize] / [deserialize] the row
    conversion of store.ts.  The theorems show that the text of a log
    reads back as the abstract log and that a row reads back as its
    record: the identity [Wal.v] and [Store.v] take for the JSON round
    trip holds for every record whose numbers are doubles (reduced
    finite decimals, [number_ok]).  A line cut short by a crash during
    [appendFileSync] does not parse, and [readAll] then throws. *)

From stdpp Require Import base list option.
From Stdlib Require Import ZArith QArith String Ascii.
From S2P Require Import Prelude JsString Decimal JsNumber Json Types Wal.

Local Open Scope string_scope.
Local Open Scope Z_scope.

Module WalFile.

Definition newline : ascii := ascii_of_nat 10.

(** A JavaScript number holding an integer (a timestamp). *)
Definition int_json (z : Z) : json := JNum (inject_Z z).

(** [obj[k]] of a parsed object: [JSON.parse] keeps the last of
    duplicate keys. *)
Definition get_field (k : string) (fields : list (string * json)) : option json :=
  option_map snd (List.find (fun kv => String.eqb kv.1 k) (rev fields)).

Definition as_string (v : json) : option string := match v with JStr s => Some s | _ => None end.

Definition as_number (v : json) : option Q := match v with JNum q => Some q | _ => None end.

Definition as_int (v : json) : option Z :=
  match v with JNum q => if Zpos (Qden q) =? 1 then Some (Qnum q) else None | _ => None end.

Definition as_array (v : json) : option (list json) := match v with JArr xs => Some xs | _ => None end.

(** An optional key: absent is [undefined], present must decode. *)
Definition opt_field {A} (f : json -> option A) (k : string) (fields : list (string * json)) : option (option A) :=
  match get_field k fields with None => Some None | Some v => option_map Some (f v) end.

(** The record object index.ts builds in [addMemory], keys in its order. *)
Definition record_json (m : MemoryRecord) : json :=
  JObj [("id", JStr (id m)); ("content", JStr (content m));
        ("category", JStr (category_to_string (category m)));
        ("tags", JArr (map JStr (tags m))); ("timestamp", int_json (timestamp m));
        ("importance", JNum (importance m)); ("embedding", JArr (map JNum (embedding m)));
        ("lastAccessed", int_json (lastAccessed m))].

(** A parsed record read through the [MemoryRecord] type. *)
Definition record_of_json (v : json) : option MemoryRecord :=
  match v with
  | JObj fs =>
      i ← get_field "id" fs ≫= as_string;
      c ← get_field "content" fs ≫= as_string;
      cat ← (get_field "category" fs ≫= as_string) ≫= category_of_string;
      tg ← (get_field "tags" fs ≫= as_array) ≫= mapM as_string;
      t ← get_field "timestamp" fs ≫= as_int;
      imp ← get_field "importance" fs ≫= as_number;
      em ← (get_field "embedding" fs ≫= as_array) ≫= mapM as_number;
      la ← get_field "lastAccessed" fs ≫= as_int;
      Some (mkMemoryRecord i c cat tg t imp em la)
  | _ => None
  end.

Definition op_string (o : WalOperation) : string :=
  match o with op_add => "add" | op_delete => "delete" end.

Definition op_of_string (s : string) : option WalOperation :=
  if String.eqb s "add" then Some op_add else if String.eqb s "delete" then Some op_delete else None.

(** [{ op: "add", memory, ts }] and [{ op: "delete", id, ts }]: the keys
    of the object literal, [memory] or [id] present as the entry has it. *)
Definition entry_json (e : WalEntry.t) : json :=
  JObj ([("op", JStr (op_string (WalEntry.op e)))]
        ++ match WalEntry.memory e with Some m => [("memory", record_json m)] | None => [] end
        ++ match WalEntry.id e with Some i => [("id", JStr i)] | None => [] end
        ++ [("ts", int_json (WalEntry.ts e))]).

(** [JSON.parse(line) as WalEntry], read as recovery reads it. *)
Definition entry_of_json (v : json) : option WalEntry.t :=
  match v with
  | JObj fs =>
      o ← (get_field "op" fs ≫= as_string) ≫= op_of_string;
      m ← opt_field record_of_json "memory" fs;
      i ← opt_field as_string "id" fs;
      t ← get_field "ts" fs ≫= as_int;
      Some (WalEntry.mk o m i t)
  | _ => None
  end.

(** ** The log file *)

(** [`${JSON.stringify(entry)}\n`] *)
Definition line (e : WalEntry.t) : string := stringify (entry_json e) ++ String newline EmptyString.

(** [private append(entry)]: [appendFileSync] of the line. *)
Definition append_text (e : WalEntry.t) (content : string) : string := content ++ line e.

(** [clear()]: [writeFileSync(path, "")]. *)
Definition clear_text : string := EmptyString.

(** [readAll()] up to the cast: a missing file or a blank content is no
    entry; otherwise every non-empty line is parsed, and [None] is the
    SyntaxError [JSON.parse] throws. *)
Definition readAll_text (file : option string) : option (list json) :=
  match file with
  | None => Some []
  | Some content =>
      if String.eqb (trim content) EmptyString then Some []
      else mapM parse (List.filter (fun l => negb (String.eqb l EmptyString)) (split newline content))
  end.

(** [readAll()] with each line read as a [WalEntry]. *)
Definition readAll_entries (file : option string) : option (list WalEntry.t) :=
  readAll_text file ≫= mapM entry_of_json.

(** The text of an abstract log: its lines in order. *)
Definition file_text (w : Wal.WriteAheadLog) : string := String.concat EmptyString (map line (Wal.entries w)).

(** ** The store row *)

(** A row of the [memories] table. *)
Record Row : Type := mkRow {
  row_id : string;
  row_content : string;
  row_category : string;
  row_tags : string;
  row_timestamp : Z;
  row_importance : Q;
  row_embedding : string;
  row_lastAccessed : Z
}.

(** [private serialize(memory)]: [{...memory, tags: JSON.stringify(tags),
    embedding: JSON.stringify(embedding)}]. *)
Definition serialize (m : MemoryRecord) : Row :=
  mkRow (id m) (content m) (category_to_string (category m)) (stringify (JArr (map JStr (tags m))))
        (timestamp m) (importance m) (stringify (JArr (map JNum (embedding m)))) (lastAccessed m).

(** [private deserialize(row)]: [String], [Number] and the category cast
    keep the column; [JSON.parse] of [tags] and [embedding] may throw. *)
Definition deserialize (r : Row) : option MemoryRecord :=
  cat ← category_of_string (row_category r);
  tg ← (parse (row_tags r) ≫= as_array) ≫= mapM as_string;
  em ← (parse (row_embedding r) ≫= as_array) ≫= mapM as_number;
  Some (mkMemoryRecord (row_id r) (row_content r) cat tg (row_timestamp r) (row_importance r) em (row_lastAccessed r)).

(** A write to the log: [append] of an entry or [clear]. *)
Inductive log_op : Type := write_entry (e : WalEntry.t) | truncate.

Definition apply_text (o : log_op) (content : string) : string :=
  match o with write_entry e => append_text e content | truncate => clear_text end.

Definition apply_log (o : log_op) (w : Wal.WriteAheadLog) : Wal.WriteAheadLog :=
  match o with write_entry e => Wal.append e w | truncate => Wal.clear w end.

Definition run_text (ops : list log_op) (content : string) : string := fold_left (fun t o => apply_text o t) ops content.

Definition run_log (ops : list log_op) (w : Wal.WriteAheadLog) : Wal.WriteAheadLog := fold_left (fun w o => apply_log o w) ops w.

(** The numbers of a record are doubles. *)
Definition record_ok (m : MemoryRecord) : bool :=
  number_ok (importance m) && forallb number_ok (embedding m).

Definition entry_ok (e : WalEntry.t) : bool :=
  match WalEntry.memory e with Some m => record_ok m | None => true end.

Definition op_ok (o : log_op) : bool := match o with write_entry e => entry_ok e | truncate => true end.

(** ** The codec of records and entries *)

Lemma mapM_map_Some {A B} (f : B -> option A) (g : A -> B) xs :
  (forall x, f (g x) = Some x) -> mapM f (map g xs) = Some xs.
Proof. intros H. induction xs as [|x xs IH]; [done|]. cbn. by rewrite H, IH. Qed.

Lemma Qred_inject_Z z : Qred (inject_Z z) = inject_Z z.
Proof.
  unfold Qred, inject_Z. destruct (Z.ggcd z 1) as [g [a b]] eqn:E.
  pose proof (Z.ggcd_gcd z 1) as Hg. pose proof (Z.ggcd_correct_divisors z 1) as Hd.
  rewrite E in Hg, Hd. cbn in Hg, Hd. rewrite Z.gcd_1_r in Hg. subst g. destruct Hd as [Ha Hb].
  rewrite Z.mul_1_l in Ha, Hb. subst a b. reflexivity.
Qed.

Lemma number_ok_int z : number_ok (inject_Z z) = true.
Proof.
  unfold number_ok, finite_decimal. rewrite Qred_inject_Z. cbn [inject_Z Qden Qnum].
  replace (pow10_exponent 1) with (Some 0%nat) by reflexivity.
  rewrite Z.eqb_refl, Pos.eqb_refl. reflexivity.
Qed.

Lemma as_int_json z : as_int (int_json z) = Some z.
Proof. reflexivity. Qed.

Lemma record_of_json_record_json m : record_of_json (record_json m) = Some m.
Proof.
  destruct m as [i c cat tg t imp em la]. unfold record_json, record_of_json. cbn -[mapM category_of_string].
  rewrite category_of_string_to_string, !mapM_map_Some by done. reflexivity.
Qed.

Lemma entry_of_json_entry_json e : entry_of_json (entry_json e) = Some e.
Proof.
  destruct e as [[] [m|] [i|] t]; unfold entry_json, entry_of_json, opt_field; cbn -[record_of_json record_json];
    rewrite ?record_of_json_record_json; reflexivity.
Qed.

Lemma json_ok_strings l : forallb json_ok (map JStr l) = true.
Proof. induction l; cbn; auto. Qed.

Lemma json_ok_numbers l : forallb json_ok (map JNum l) = forallb number_ok l.
Proof. induction l as [|q l IH]; cbn; [done|by rewrite IH]. Qed.

Lemma record_json_ok m : record_ok m = true -> json_ok (record_json m) = true.
Proof.
  unfold record_ok. intros [Hi He]%andb_true_iff. unfold record_json, int_json.
  cbn [json_ok forallb snd]. rewrite !number_ok_int, Hi, json_ok_strings, json_ok_numbers, He. reflexivity.
Qed.

(** ** Reading the log file back *)

Lemma mapM_map_Forall {A B} (f : B -> option A) (g : A -> B) xs :
  Forall (fun x => f (g x) = Some x) xs -> mapM f (map g xs) = Some xs.
Proof. induction 1 as [|x xs Hx _ IH]; [done|]. cbn. by rewrite Hx, IH. Qed.

Lemma split_chars_line sep l rest cur :
  ~ In sep l -> split_chars sep (l ++ sep :: rest) cur = (rev cur ++ l)%list :: split_chars sep rest [].
Proof.
  revert cur. induction l as [|c l IH]; intros cur Hl; cbn [app split_chars].
  - by rewrite Ascii.eqb_refl, app_nil_r.
  - destruct (Ascii.eqb_spec c sep) as [->|Hc]; [destruct Hl; by left|].
    rewrite IH by (intros H; apply Hl; by right). cbn. by rewrite <- app_assoc.
Qed.

Lemma list_concat_empty l :
  list_ascii_of_string (String.concat EmptyString l) = List.concat (map list_ascii_of_string l).
Proof.
  induction l as [|x [|y ys] IH]; [done|cbn; by rewrite app_nil_r|].
  change (String.concat EmptyString (x :: y :: ys)) with (x ++ String.concat EmptyString (y :: ys))%string.
  rewrite list_ascii_of_string_app, IH. reflexivity.
Qed.

Lemma newline_not_printable l : printable l -> ~ In newline l.
Proof. intros Hp Hin. unfold printable in Hp. rewrite List.Forall_forall in Hp. apply Hp in Hin. unfold newline in Hin. rewrite nat_ascii_embedding in Hin; lia. Qed.

Lemma entry_json_ok e : entry_ok e = true -> json_ok (entry_json e) = true.
Proof.
  destruct e as [o [m|] [i|] t]; unfold entry_ok, entry_json; cbn [WalEntry.memory WalEntry.id WalEntry.ts WalEntry.op];
    intros Hm; cbn [app json_ok forallb snd int_json]; rewrite ?(record_json_ok m Hm), number_ok_int; reflexivity.
Qed.

Lemma line_text e :
  list_ascii_of_string (line e) = (list_ascii_of_string (stringify (entry_json e)) ++ [newline])%list.
Proof. unfold line. by rewrite list_ascii_of_string_app. Qed.

Lemma stringify_entry_head e : exists rest, list_ascii_of_string (stringify (entry_json e)) = "{"%char :: rest.
Proof. eexists. reflexivity. Qed.

Lemma split_file es :
  Forall (fun e => entry_ok e = true) es ->
  split_chars newline (list_ascii_of_string (String.concat EmptyString (map line es))) []
  = (map (fun e => list_ascii_of_string (stringify (entry_json e))) es ++ [[]])%list.
Proof.
  rewrite list_concat_empty. induction 1 as [|e es He _ IH]; [reflexivity|].
  cbn [map List.concat]. rewrite line_text, <- app_assoc. cbn [app].
  rewrite split_chars_line, IH; [reflexivity|].
  apply newline_not_printable, printable_stringify, entry_json_ok, He.
Qed.

Lemma filter_map_all {A} (p : string -> bool) (f : A -> string) l :
  (forall x, p (f x) = true) -> List.filter p (map f l) = map f l.
Proof. intros H. induction l as [|x l IH]; [done|]. cbn. by rewrite H, IH. Qed.

(** The text of a log reads back, line by line, as the JSON of its
    entries. *)
Lemma readAll_text_file w :
  Forall (fun e => entry_ok e = true) (Wal.entries w) ->
  readAll_text (Some (file_text w)) = Some (map entry_json (Wal.entries w)).
Proof.
  intros Hok. unfold readAll_text, file_text. destruct (Wal.entries w) as [|e es] eqn:Ew; [reflexivity|].
  destruct (stringify_entry_head e) as [rest Hr].
  assert (Hne : String.eqb (trim (String.concat EmptyString (map line (e :: es)))) EmptyString = false).
  { apply String.eqb_neq. eapply trim_nonblank.
    - rewrite list_concat_empty. cbn [map List.concat]. rewrite line_text, Hr. reflexivity.
    - reflexivity. }
  rewrite Hne. unfold split. rewrite split_file by exact Hok.
  replace (map string_of_list_ascii (map (fun e => list_ascii_of_string (stringify (entry_json e))) (e :: es) ++ [[]]))
    with (map (fun x => stringify (entry_json x)) (e :: es) ++ [EmptyString])%list
    by (rewrite map_app, map_map; f_equal; apply map_ext; intros; symmetry; apply string_of_list_ascii_of_string).
  rewrite filter_app, filter_map_all.
  2:{ intros x. destruct (stringify_entry_head x) as [r Hx]. by destruct (stringify (entry_json x)). }
  cbn [List.filter String.eqb negb]. rewrite app_nil_r, <- (map_map entry_json stringify).
  apply mapM_map_Forall, Forall_map.
  eapply List.Forall_impl; [|exact Hok]. intros x Hx. apply parse_stringify, entry_json_ok, Hx.
Qed.

Lemma list_ascii_of_string_inj s t : list_ascii_of_string s = list_ascii_of_string t -> s = t.
Proof. intros H. by rewrite <- (string_of_list_ascii_of_string s), H, string_of_list_ascii_of_string. Qed.

(** [append] and [clear] on the text follow [Wal.append] and [Wal.clear]. *)
Lemma file_text_apply o w : file_text (apply_log o w) = apply_text o (file_text w).
Proof.
  destruct o as [e|]; [|reflexivity]. apply list_ascii_of_string_inj.
  unfold file_text, append_text. cbn [apply_log apply_text Wal.append Wal.entries].
  unfold append_text. rewrite list_ascii_of_string_app, !list_concat_empty, !map_app, List.concat_app. cbn. by rewrite app_nil_r.
Qed.

Lemma file_text_run ops w : run_text ops (file_text w) = file_text (run_log ops w).
Proof.
  revert w. induction ops as [|o ops IH]; intros w; [reflexivity|].
  cbn [run_text run_log fold_left]. rewrite <- file_text_apply. apply IH.
Qed.

Lemma run_log_ok ops w :
  Forall (fun e => entry_ok e = true) (Wal.entries w) -> Forall (fun o => op_ok o = true) ops ->
  Forall (fun e => entry_ok e = true) (Wal.entries (run_log ops w)).
Proof.
  intros Hw Hops. revert w Hw. induction Hops as [|o ops Ho _ IH]; intros w Hw; [exact Hw|].
  apply IH. destruct o as [e|]; cbn; [|constructor]. apply Forall_app; split; [exact Hw|by constructor].
Qed.

(** C10 Refinement of the log file: after any sequence of [append]s and
    [clear]s on a new log, [readAll] parses the text on disk back to the
    entries of the abstract log [Wal.v] keeps, in order, for every entry
    whose numbers are doubles. *)
Theorem readAll_after_writes p ops :
  Forall (fun o => op_ok o = true) ops ->
  readAll_entries (Some (run_text ops EmptyString)) = Some (Wal.readAll (run_log ops (Wal.open_log p None))).
Proof.
  intros Hops. change EmptyString with (file_text (Wal.open_log p None)). rewrite file_text_run.
  unfold readAll_entries. rewrite readAll_text_file by (apply run_log_ok; [constructor|exact Hops]).
  cbn [mbind option_bind]. apply mapM_map_Some, entry_of_json_entry_json.
Qed.

(** ** The store row *)

(** C11 Round trip of the store row: [deserialize] of [serialize m] is
    [m] for every record whose numbers are doubles, so keeping [tags]
    and [embedding] as values in [Store.v] is exact. *)
Theorem deserialize_serialize m : record_ok m = true -> deserialize (serialize m) = Some m.
Proof.
  intros Hok. unfold record_ok in Hok. apply andb_true_iff in Hok as [Hi He].
  destruct m as [i c cat tg t imp em la]. unfold deserialize, serialize. cbn [row_category row_tags row_embedding].
  rewrite category_of_string_to_string. cbn [mbind option_bind].
  rewrite !parse_stringify by (cbn [json_ok]; by rewrite ?json_ok_strings, ?json_ok_numbers).
  cbn [mbind option_bind as_array]. rewrite !mapM_map_Some by done. reflexivity.
Qed.

(** ** Examples *)

Module WalFileExamples.

Definition sample_record : MemoryRecord :=
  mkMemoryRecord "m1" "prefers dark mode" preference ["ui"; "theme"] 1700000000000 (1 # 2)%Q
    [1 # 10; -3 # 4; 0]%Q 1700000000000.

Definition add_entry : WalEntry.t := WalEntry.mk op_add (Some sample_record) None 1700000000001.

Definition delete_entry : WalEntry.t := WalEntry.mk op_delete None (Some "m0") 1700000000002.

Definition writes : list log_op := [write_entry add_entry; truncate; write_entry add_entry; write_entry delete_entry].

Lemma readAll_after_writes_witness :
  Forall (fun o => op_ok o = true) writes
  /\ readAll_entries (Some (run_text writes EmptyString)) = Some [add_entry; delete_entry].
Proof.
  assert (H : Forall (fun o => op_ok o = true) writes) by (repeat constructor).
  split; [exact H|]. exact (readAll_after_writes "memory.wal" writes H).
Defined.

Lemma deserialize_serialize_witness :
  record_ok sample_record = true /\ deserialize (serialize sample_record) = Some sample_record.
Proof.
  assert (H : record_ok sample_record = true) by reflexivity.
  split; [exact H|]. exact (deserialize_serialize sample_record H).
Defined.

(** A torn last line: a crash inside [appendFileSync] that leaves
    the first 30 characters of a delete line after a complete add line
    makes [readAll] throw (JSON.parse fails on the torn line), so the
    engine's constructor cannot replay the log; the complete file
    reads back. *)
Example torn_line_unreadable :
  readAll_entries (Some (line add_entry ++ substring 0 30 (line delete_entry))) = None
  /\ readAll_entries (Some (line add_entry ++ line delete_entry)) = Some [add_entry; delete_entry].
Proof. split; vm_compute; reflexivity. Qed.

(** The keys of the lines [append] writes: [op], [memory] or [id], [ts]. *)
Example line_keys :
  map fst (match entry_json add_entry with JObj fs => fs | _ => [] end) = ["op"; "memory"; "ts"]
  /\ map fst (match entry_json delete_entry with JObj fs => fs | _ => [] end) = ["op"; "id"; "ts"].
Proof. split; reflexivity. Qed.

End WalFileExamples.

End WalFile.
