(* ===== verification/Decay.v ===== *)
(** * The decay function: src/src/decay.ts ([applyDecay])

    [Math.exp] is not a rational function: it is a parameter of the
    model, a type class [MathExp] with the laws the proofs use
    ([MathExpLaws]: positive, monotone, [exp 0 = 1], a morphism for
    [Qeq]).  The real exponential satisfies them; [clipped_exp] is an
    executable instance used to run concrete cases. *)

From stdpp Require Import base list strings.
From Stdlib Require Import ZArith QArith Qminmax Lqa.
From S2P Require Import Prelude Types.

Open Scope Q_scope.

Class MathExp : Type := math_exp : Q -> Q.

Class MathExpLaws `{MathExp} : Prop := {
  exp_pos : forall x, 0 < math_exp x;
  exp_zero : math_exp 0 == 1;
  exp_mono : forall x y, x <= y -> math_exp x <= math_exp y;
  exp_proper :: Proper (Qeq ==> Qeq) math_exp
}.

(** [interface DecayOptions] *)
Record DecayOptions : Type := mkDecayOptions {
  decayRate : Q;
  minimumImportance : Q
}.

Definition MS_PER_DAY : Z := 1000 * 60 * 60 * 24.

Lemma inv_ms_per_day_nonneg : 0 <= / inject_Z MS_PER_DAY.
Proof. vm_compute. discriminate. Qed.

Section Decay.
Context `{MathExp}.

(** [applyDecay(memory, now, options)] *)
Definition applyDecay (m : MemoryRecord) (now : Z) (o : DecayOptions) : MemoryRecord :=
  let ageMs := Z.max 0 (now - lastAccessed m) in
  let ageDays := inject_Z ageMs / inject_Z MS_PER_DAY in
  let decayed := importance m * math_exp (- decayRate o * ageDays) in
  let importance := Qmax (minimumImportance o) decayed in
  with_importance m importance.

Context `{!MathExpLaws}.

Lemma exp_le_one x : x <= 0 -> math_exp x <= 1.
Proof. intros Hx. rewrite <- exp_zero. by apply exp_mono. Qed.

Lemma age_days_nonneg (t : Z) : 0 <= inject_Z (Z.max 0 t) / inject_Z MS_PER_DAY.
Proof.
  apply Qle_shift_div_l; [unfold MS_PER_DAY; reflexivity|].
  rewrite Qmult_0_l. change 0 with (inject_Z 0). rewrite <- Zle_Qle. lia.
Qed.

Lemma age_days_mono (t1 t2 : Z) : (t1 <= t2)%Z ->
  inject_Z (Z.max 0 t1) / inject_Z MS_PER_DAY <= inject_Z (Z.max 0 t2) / inject_Z MS_PER_DAY.
Proof.
  intros Ht. apply Qmult_le_compat_r; [|apply inv_ms_per_day_nonneg].
  rewrite <- Zle_Qle. lia.
Qed.

Lemma decay_factor_le_one (r d : Q) : 0 <= r -> 0 <= d -> math_exp (- r * d) <= 1.
Proof. intros Hr Hd. apply exp_le_one. nra. Qed.

(** Decay never drops below the floor: the new importance is at least
    [minimumImportance]. *)
Theorem applyDecay_floor m now o : minimumImportance o <= importance (applyDecay m now o).
Proof. apply Q.le_max_l. Qed.

(** The decayed value before the floor lies between 0 and the old importance. *)
Lemma decayed_le m now r :
  0 <= r -> 0 <= importance m ->
  0 <= importance m * math_exp (- r * (inject_Z (Z.max 0 (now - lastAccessed m)) / inject_Z MS_PER_DAY))
    <= importance m.
Proof.
  intros Hr Hi.
  pose proof (exp_pos (- r * (inject_Z (Z.max 0 (now - lastAccessed m)) / inject_Z MS_PER_DAY))).
  pose proof (decay_factor_le_one r _ Hr (age_days_nonneg (now - lastAccessed m))).
  split; nra.
Qed.

Lemma applyDecay_unit m now o :
  0 <= minimumImportance o <= 1 -> 0 <= importance m <= 1 -> 0 <= decayRate o ->
  0 <= importance (applyDecay m now o) <= 1.
Proof.
  intros Hf Hi Hr. pose proof (decayed_le m now (decayRate o) Hr (proj1 Hi)). simpl.
  split; [eapply Qle_trans; [apply Hf | apply Q.le_max_l] | apply Q.max_lub; lra].
Qed.

(** C27 Bounds: with a floor and an importance in [0,1] and a
    non-negative rate, the decayed importance is in [0,1] and is at most
    the larger of the floor and the old importance. *)
Theorem applyDecay_bounds m now o :
  0 <= minimumImportance o <= 1 -> 0 <= importance m <= 1 -> 0 <= decayRate o ->
  0 <= importance (applyDecay m now o) <= Qmax (minimumImportance o) (importance m)
  /\ importance (applyDecay m now o) <= 1.
Proof.
  intros Hf Hi Hr. pose proof (applyDecay_unit m now o Hf Hi Hr) as Hu.
  pose proof (decayed_le m now (decayRate o) Hr (proj1 Hi)) as Hd.
  split; [split|]; try apply Hu. simpl. apply Q.max_le_compat_l. apply Hd.
Qed.

(** C28 Decay is monotone in age: reading the same record later (a larger
    [now]) never gives a larger importance, for a non-negative rate and
    importance. *)
Theorem applyDecay_antitone m now1 now2 o :
  (now1 <= now2)%Z -> 0 <= decayRate o -> 0 <= importance m ->
  importance (applyDecay m now2 o) <= importance (applyDecay m now1 o).
Proof.
  intros Hn Hr Hi. simpl. apply Q.max_le_compat_l.
  pose proof (age_days_mono (now1 - lastAccessed m) (now2 - lastAccessed m) ltac:(lia)).
  assert (He : math_exp (- decayRate o * (inject_Z (Z.max 0 (now2 - lastAccessed m)) / inject_Z MS_PER_DAY))
            <= math_exp (- decayRate o * (inject_Z (Z.max 0 (now1 - lastAccessed m)) / inject_Z MS_PER_DAY)))
    by (apply exp_mono; nra).
  nra.
Qed.

(** Age is clamped at 0: a record accessed at or after [now] (clock
    skew) keeps its importance, raised to the floor. *)
Theorem applyDecay_clock_skew m now o :
  (now <= lastAccessed m)%Z ->
  importance (applyDecay m now o) == Qmax (minimumImportance o) (importance m).
Proof.
  intros Hn. simpl.
  replace (Z.max 0 (now - lastAccessed m)) with 0%Z by lia.
  assert (E : - decayRate o * (inject_Z 0 / inject_Z MS_PER_DAY) == 0) by (unfold Qdiv; rewrite Qmult_0_l, Qmult_0_r; reflexivity).
  rewrite E, exp_zero, Qmult_1_r. reflexivity.
Qed.

End Decay.

(** An executable exponential: the tangent line [1 + x] clipped below at
    a small positive constant.  It meets [MathExpLaws] and is used to run
    concrete cases. *)
#[export] Instance clipped_exp : MathExp := fun x => Qmax (1 # 1000000) (1 + x).

#[export] Instance clipped_exp_laws : MathExpLaws (H := clipped_exp).
Proof.
  split; unfold math_exp, clipped_exp.
  - intros x. eapply Qlt_le_trans; [|apply Q.le_max_l]. reflexivity.
  - reflexivity.
  - intros x y Hxy. apply Q.max_le_compat_l. lra.
  - intros x y Hxy. rewrite Hxy. reflexivity.
Qed.

(** ** Concrete runs with the clipped exponential *)

Definition week_old : MemoryRecord := mkMemoryRecord "m1" "weekly sync" fact [] 0 (8 # 10) [] 0.

Definition default_decay : DecayOptions := mkDecayOptions (5 # 100) (5 # 100).

Lemma applyDecay_bounds_witness :
  (0 <= minimumImportance default_decay <= 1 /\ 0 <= importance week_old <= 1 /\ 0 <= decayRate default_decay)
  /\ 0 <= importance (applyDecay week_old (7 * MS_PER_DAY) default_decay)
       <= Qmax (minimumImportance default_decay) (importance week_old)
  /\ importance (applyDecay week_old (7 * MS_PER_DAY) default_decay) <= 1.
Proof.
  assert (Hf : 0 <= minimumImportance default_decay <= 1) by (vm_compute; split; discriminate).
  assert (Hi : 0 <= importance week_old <= 1) by (vm_compute; split; discriminate).
  assert (Hr : 0 <= decayRate default_decay) by (vm_compute; discriminate).
  split; [split; [exact Hf|split; [exact Hi|exact Hr]]|].
  exact (applyDecay_bounds week_old (7 * MS_PER_DAY) default_decay Hf Hi Hr).
Defined.

Lemma applyDecay_antitone_witness :
  ((MS_PER_DAY <= 7 * MS_PER_DAY)%Z /\ 0 <= decayRate default_decay /\ 0 <= importance week_old)
  /\ importance (applyDecay week_old (7 * MS_PER_DAY) default_decay)
     <= importance (applyDecay week_old MS_PER_DAY default_decay).
Proof.
  assert (Hn : (MS_PER_DAY <= 7 * MS_PER_DAY)%Z) by (vm_compute; discriminate).
  assert (Hr : 0 <= decayRate default_decay) by (vm_compute; discriminate).
  assert (Hi : 0 <= importance week_old) by (vm_compute; discriminate).
  split; [split; [exact Hn|split; [exact Hr|exact Hi]]|].
  exact (applyDecay_antitone week_old MS_PER_DAY (7 * MS_PER_DAY) default_decay Hn Hr Hi).
Defined.

Lemma applyDecay_clock_skew_witness :
  ((-5 <= lastAccessed week_old)%Z)
  /\ importance (applyDecay week_old (-5) default_decay)
     == Qmax (minimumImportance default_decay) (importance week_old).
Proof.
  assert (Hn : (-5 <= lastAccessed week_old)%Z) by (vm_compute; discriminate).
  split; [exact Hn | exact (applyDecay_clock_skew week_old (-5) default_decay Hn)].
Defined.

Close Scope Q_scope.
