(* ===== verification/Embeddings.v ===== *)
(** * Embeddings: src/src/embeddings.ts

    [EmbeddingsClient] wraps the remote embedding service, an external
    collaborator modelled as a function from (model, text) to an
    optional vector ([None] when the response carries no
    [data[0].embedding]).  The client exists only when an API key is
    configured.  [cosineSimilarity] is the loop of the source over
    rationals; [Math.sqrt] is the parameter [MathSqrt].  The sums the
    loop accumulates satisfy the Cauchy-Schwarz inequality
    ([accumulate_cauchy_schwarz]), so the cosine lies in [-1, 1]
    whenever the square root rounds no root down
    ([cosineSimilarity_bounds], with the instance [sqrt_up]). *)

From stdpp Require Import base list strings.
From Stdlib Require Import ZArith QArith Qminmax Lqa.
From S2P Require Import Prelude Types.

Class MathSqrt : Type := math_sqrt : Q -> Q.

Open Scope Q_scope.

Module Embeddings.

Record EmbeddingsClient : Type := mkClient {
  client : option (string -> string -> option (list Q));
  model : string
}.

(** [constructor(apiKey, model)]: [if (apiKey) this.client = new OpenAI(...)]. *)
Definition new_client (apiKey model : string) (service : string -> string -> option (list Q))
    : EmbeddingsClient :=
  mkClient (if String.eqb apiKey "" then None else Some service) model.

(** [embedText(text)] *)
Definition embedText (c : EmbeddingsClient) (text : string) : result MemoryError (list Q) :=
  match client c with
  | None => Err ApiKeyRequired
  | Some service =>
      match service (model c) text with
      | None => Err EmbeddingFailed
      | Some [] => Err EmbeddingFailed
      | Some v => Ok v
      end
  end.

(** The accumulation loop of [cosineSimilarity]: [dot], [normA], [normB]. *)
Fixpoint accumulate (a b : list Q) (dot normA normB : Q) : Q * Q * Q :=
  match a, b with
  | x :: a', y :: b' => accumulate a' b' (dot + x * y) (normA + x * x) (normB + y * y)
  | _, _ => (dot, normA, normB)
  end.

(** [cosineSimilarity(a, b)] *)
Definition cosineSimilarity `{MathSqrt} (a b : list Q) : Q :=
  if negb (length a =? length b)%nat || (length a =? 0)%nat then 0
  else
    let '(dot, normA, normB) := accumulate a b 0 0 0 in
    if Qeq_bool normA 0 || Qeq_bool normB 0 then 0
    else dot / (math_sqrt normA * math_sqrt normB).

(** An executable square root, exact on squares of rationals:
    sqrt(n/d) = isqrt(n*d)/d. *)
#[export] Instance isqrt_q : MathSqrt := fun x => Z.sqrt (Qnum x * Zpos (Qden x)) # Qden x.

(** A square root rounded up: [sqrt(n/d) <= (isqrt(n*d) + 1)/d]; it
    never underestimates, as the exact square root. *)
Definition sqrt_up : MathSqrt := fun x => (Z.sqrt (Qnum x * Zpos (Qden x)) + 1)%Z # Qden x.

(** *** Lemmas on the accumulation loop *)

Definition dot_of (a b : list Q) : Q := fst (fst (accumulate a b 0 0 0)).
Definition normA_of (a b : list Q) : Q := snd (fst (accumulate a b 0 0 0)).
Definition normB_of (a b : list Q) : Q := snd (accumulate a b 0 0 0).

Lemma accumulate_shift a b d na nb :
  let '(d', na', nb') := accumulate a b d na nb in
  let '(d0, na0, nb0) := accumulate a b 0 0 0 in
  d' == d + d0 /\ na' == na + na0 /\ nb' == nb + nb0.
Proof.
  revert b d na nb. induction a as [|x a IH]; intros [|y b] d na nb; simpl; try (split; [|split]; ring).
  pose proof (IH b (d + x * y) (na + x * x) (nb + y * y)) as H1.
  pose proof (IH b (0 + x * y) (0 + x * x) (0 + y * y)) as H2.
  destruct (accumulate a b (d + x * y) (na + x * x) (nb + y * y)) as [[d1 n1] m1].
  destruct (accumulate a b (0 + x * y) (0 + x * x) (0 + y * y)) as [[d2 n2] m2].
  destruct (accumulate a b 0 0 0) as [[d3 n3] m3].
  destruct H1 as [? [? ?]], H2 as [? [? ?]]. split; [|split]; lra.
Qed.

Lemma Qmult_comm_leibniz (x y : Q) : x * y = y * x.
Proof. destruct x as [a b], y as [c d]. unfold Qmult. simpl. by rewrite Z.mul_comm, Pos.mul_comm. Qed.

Lemma accumulate_swap a b d na nb :
  accumulate b a d nb na = let '(d', na', nb') := accumulate a b d na nb in (d', nb', na').
Proof.
  revert b d na nb. induction a as [|x a IH]; intros [|y b] d na nb; simpl; try done.
  rewrite (Qmult_comm_leibniz y x). apply IH.
Qed.

Lemma accumulate_self_nonneg a d na nb :
  0 <= na -> 0 <= nb ->
  let '(_, na', nb') := accumulate a a d na nb in 0 <= na' /\ 0 <= nb'.
Proof.
  revert d na nb. induction a as [|x a IH]; intros d na nb Hna Hnb; simpl; [done|].
  apply IH; nra.
Qed.

Lemma accumulate_self a d n :
  let '(d', na', nb') := accumulate a a d n n in d' - d == na' - n /\ na' = nb'.
Proof.
  revert d n. induction a as [|x a IH]; intros d n; simpl; [split; [ring|done]|].
  pose proof (IH (d + x * x) (n + x * x)) as IH'.
  destruct (accumulate a a (d + x * x) (n + x * x) (n + x * x)) as [[d' na'] nb'].
  destruct IH' as [H1 H2]. split; [lra|done].
Qed.

Lemma accumulate_dot a b :
  accumulate a b 0 0 0 = (dot_of a b, normA_of a b, normB_of a b).
Proof. unfold dot_of, normA_of, normB_of. by destruct (accumulate a b 0 0 0) as [[? ?] ?]. Qed.

Lemma accumulate_cons x y a b :
  dot_of (x :: a) (y :: b) == x * y + dot_of a b
  /\ normA_of (x :: a) (y :: b) == x * x + normA_of a b
  /\ normB_of (x :: a) (y :: b) == y * y + normB_of a b.
Proof.
  unfold dot_of, normA_of, normB_of. cbn [accumulate].
  pose proof (accumulate_shift a b (0 + x * y) (0 + x * x) (0 + y * y)) as H.
  destruct (accumulate a b (0 + x * y) (0 + x * x) (0 + y * y)) as [[d1 n1] m1].
  destruct (accumulate a b 0 0 0) as [[d0 n0] m0]. cbn. destruct H as [? [? ?]]. split; [|split]; lra.
Qed.

Lemma Qsquare_nonneg q : 0 <= q * q.
Proof. destruct (Qlt_le_dec q 0); nra. Qed.

(** The cross term of Lagrange's identity is a sum of squares. *)
Lemma accumulate_cross x y a b :
  0 <= x * x * normB_of a b + y * y * normA_of a b - 2 * x * y * dot_of a b.
Proof.
  revert b. induction a as [|u a IH]; intros [|v b].
  1-3: unfold dot_of, normA_of, normB_of; cbn [accumulate fst snd]; nra.
  destruct (accumulate_cons u v a b) as [Hd [Ha Hb]]. rewrite Hd, Ha, Hb. specialize (IH b).
  set (nA := normA_of a b) in *. set (nB := normB_of a b) in *. set (D := dot_of a b) in *.
  assert (E : x * x * (v * v + nB) + y * y * (u * u + nA) - 2 * x * y * (u * v + D)
               == (x * v - y * u) * (x * v - y * u) + (x * x * nB + y * y * nA - 2 * x * y * D)) by ring.
  rewrite E.
  apply (Qplus_le_compat 0 _ 0); [apply Qsquare_nonneg|exact IH].
Qed.

(** Cauchy-Schwarz: [dot^2 <= normA * normB]. *)
Lemma accumulate_cauchy_schwarz a b : dot_of a b * dot_of a b <= normA_of a b * normB_of a b.
Proof.
  revert b. induction a as [|x a IH]; intros [|y b].
  1-3: unfold dot_of, normA_of, normB_of; cbn [accumulate fst snd]; nra.
  destruct (accumulate_cons x y a b) as [Hd [Ha Hb]]. rewrite Hd, Ha, Hb.
  specialize (IH b). pose proof (accumulate_cross x y a b). nra.
Qed.

Lemma accumulate_norms_nonneg a b : 0 <= normA_of a b /\ 0 <= normB_of a b.
Proof.
  revert b. induction a as [|x a IH]; intros [|y b].
  1-3: unfold normA_of, normB_of; cbn [accumulate fst snd]; split; lra.
  destruct (accumulate_cons x y a b) as [_ [Ha Hb]]. rewrite Ha, Hb. destruct (IH b). split; nra.
Qed.

(** A quotient by a positive bound of its absolute value lies in [-1, 1]. *)
Lemma Qdiv_unit d p : 0 < p -> - p <= d <= p -> -1 <= d / p <= 1.
Proof.
  intros Hp [H1 H2]. assert (Ht : d / p * p == d) by (field; lra).
  set (t := d / p) in *. split; nra.
Qed.

Lemma sqrt_up_upper x : 0 <= x -> 0 <= sqrt_up x /\ x <= sqrt_up x * sqrt_up x.
Proof.
  destruct x as [n d]. unfold sqrt_up, Qle, Qmult. cbn [Qnum Qden]. intros Hn. rewrite Z.mul_1_r in Hn.
  pose proof (Z.sqrt_spec (n * Zpos d) ltac:(lia)) as [_ Hs].
  pose proof (Z.sqrt_nonneg (n * Zpos d)). cbn [Z.succ] in Hs. split; [lia|].
  rewrite Pos2Z.inj_mul. nia.
Qed.

Section Cosine.
Context `{MathSqrt}.

(** The undefined-similarity guard: vectors of different lengths, or
    an empty vector, have similarity exactly 0. *)
Theorem cosineSimilarity_guard a b :
  length a <> length b \/ a = [] -> cosineSimilarity a b = 0.
Proof.
  unfold cosineSimilarity. intros [Hl| ->]; [|simpl; by rewrite orb_true_r].
  by rewrite (proj2 (Nat.eqb_neq _ _) Hl).
Qed.

(** Orthogonal vectors (dot product 0) have similarity 0, whatever
    [Math.sqrt] returns. *)
Theorem cosineSimilarity_orthogonal a b : dot_of a b == 0 -> cosineSimilarity a b == 0.
Proof.
  intros Hd. unfold cosineSimilarity. rewrite accumulate_dot.
  destruct (negb _ || _)%bool; [reflexivity|].
  destruct (Qeq_bool _ 0 || Qeq_bool _ 0)%bool; [reflexivity|].
  rewrite Hd. unfold Qdiv. apply Qmult_0_l.
Qed.

(** A non-zero vector has similarity 1 with itself when [Math.sqrt]
    is exact on its squared norm. *)
Theorem cosineSimilarity_self a :
  ~ (normA_of a a == 0) -> math_sqrt (normA_of a a) * math_sqrt (normA_of a a) == normA_of a a ->
  cosineSimilarity a a == 1.
Proof.
  intros Hn Hs. unfold cosineSimilarity. rewrite Nat.eqb_refl. simpl.
  destruct (length a =? 0)%nat eqn:El.
  { apply Nat.eqb_eq, length_zero_iff_nil in El. subst. by destruct Hn. }
  simpl. rewrite accumulate_dot.
  pose proof (accumulate_self a 0 0) as Hself. rewrite accumulate_dot in Hself.
  destruct Hself as [Hdn Hab]. rewrite <- Hab.
  destruct (Qeq_bool (normA_of a a) 0) eqn:E; [apply Qeq_bool_iff in E; by destruct Hn|]. simpl.
  rewrite Hs. assert (dot_of a a == normA_of a a) as -> by lra. field. exact Hn.
Qed.

(** Cosine similarity is symmetric. *)
Theorem cosineSimilarity_sym a b : cosineSimilarity a b == cosineSimilarity b a.
Proof.
  unfold cosineSimilarity. rewrite (accumulate_swap a b), accumulate_dot. cbn zeta.
  rewrite (Nat.eqb_sym (length b) (length a)).
  destruct (length a =? length b)%nat eqn:E; simpl; [|reflexivity].
  apply Nat.eqb_eq in E. rewrite <- E.
  destruct (length a =? 0)%nat; simpl; [reflexivity|].
  rewrite (orb_comm (Qeq_bool (normB_of a b) 0)).
  destruct (Qeq_bool (normA_of a b) 0 || Qeq_bool (normB_of a b) 0)%bool; [reflexivity|].
  rewrite (Qmult_comm (math_sqrt (normB_of a b))). reflexivity.
Qed.

(** The similarity lies in [-1, 1] whenever [Math.sqrt] does not
    underestimate the two norms ([x <= sqrt x * sqrt x], [sqrt x >= 0]),
    as the exact square root does. *)
Theorem cosineSimilarity_bounds a b :
  0 <= math_sqrt (normA_of a b) -> normA_of a b <= math_sqrt (normA_of a b) * math_sqrt (normA_of a b) ->
  0 <= math_sqrt (normB_of a b) -> normB_of a b <= math_sqrt (normB_of a b) * math_sqrt (normB_of a b) ->
  -1 <= cosineSimilarity a b <= 1.
Proof.
  intros HsA HA HsB HB. unfold cosineSimilarity. rewrite accumulate_dot.
  destruct (negb _ || _)%bool; [split; discriminate|].
  destruct (Qeq_bool (normA_of a b) 0) eqn:EA; [split; discriminate|].
  destruct (Qeq_bool (normB_of a b) 0) eqn:EB; [split; discriminate|]. cbn [orb].
  apply Qeq_bool_neq in EA, EB. destruct (accumulate_norms_nonneg a b) as [NA NB].
  pose proof (accumulate_cauchy_schwarz a b) as CS.
  set (A := normA_of a b) in *. set (B := normB_of a b) in *. set (D := dot_of a b) in *.
  set (sA := math_sqrt A) in *. set (sB := math_sqrt B) in *.
  assert (0 < A) by (apply Qle_lt_or_eq in NA as [?|E]; [done|symmetry in E; contradiction]).
  assert (0 < B) by (apply Qle_lt_or_eq in NB as [?|E]; [done|symmetry in E; contradiction]).
  assert (0 < sA) by nra. assert (0 < sB) by nra.
  assert (HAB : A * B <= (sA * sB) * (sA * sB)).
  { assert (A * B <= sA * sA * B) by (apply Qmult_le_compat_r; lra).
    assert (sA * sA * B <= sA * sA * (sB * sB)) by (apply Qmult_le_l; nra).
    nra. }
  set (P := sA * sB) in *. assert (0 < P) by (unfold P; nra).
  apply Qdiv_unit; [done|]. split; nra.
Qed.

End Cosine.

(** The similarity tests of the test suite, run with [isqrt_q]. *)
Example cosine_identical : cosineSimilarity [1; 0; 0] [1; 0; 0] == 1.
Proof. reflexivity. Qed.

Example cosine_orthogonal : cosineSimilarity [1; 0; 0] [0; 1; 0] == 0.
Proof. reflexivity. Qed.

Lemma cosineSimilarity_self_witness :
  ~ (normA_of [3; 4] [3; 4] == 0)
  /\ math_sqrt (normA_of [3; 4] [3; 4]) * math_sqrt (normA_of [3; 4] [3; 4]) == normA_of [3; 4] [3; 4]
  /\ cosineSimilarity [3; 4] [3; 4] == 1.
Proof.
  assert (H1 : ~ (normA_of [3; 4] [3; 4] == 0)) by (vm_compute; discriminate).
  assert (H2 : math_sqrt (normA_of [3; 4] [3; 4]) * math_sqrt (normA_of [3; 4] [3; 4]) == normA_of [3; 4] [3; 4])
    by (vm_compute; reflexivity).
  split; [exact H1|]. split; [exact H2|]. exact (cosineSimilarity_self [3; 4] H1 H2).
Defined.

Lemma cosineSimilarity_guard_witness :
  (length [1; 2] <> length [1] \/ [1; 2] = []) /\ cosineSimilarity [1; 2] [1] = 0.
Proof.
  assert (H : length [1; 2] <> length [1] \/ [1; 2] = []) by (left; simpl; lia).
  split; [exact H | exact (cosineSimilarity_guard [1; 2] [1] H)].
Defined.

End Embeddings.

Close Scope Q_scope.
