(* ===== verification/Search.v ===== *)
(** * The search ranker: src/src/search.ts ([keywordScore], [semanticSearch])

    [semanticSearch] reads every row of the store, embeds the query
    (fallible), filters by category and tags, scores each candidate with
    0.8 * cosine + 0.2 * keyword score, sorts by descending score with
    the stable [Array.prototype.sort], and keeps [slice(0, limit)].  The
    weights 0.8 and 0.2 are the rationals 4/5 and 1/5.  Every returned
    score lies in [-4/5, 1] ([semanticSearch_scores_bounded]). *)

From stdpp Require Import base list strings.
From Stdlib Require Import ZArith QArith Qminmax Lqa Sorting.Sorted.
From Stdlib Require String.
From S2P Require Import Prelude JsString Types Store Embeddings.

Open Scope Q_scope.

Module Search.
Import Store Embeddings.

(** [`${memory.content} ${memory.tags.join(" ")}`.toLowerCase()] *)
Definition search_text (m : MemoryRecord) : string :=
  toLowerCase (String.append (content m) (String.append " " (join " " (tags m)))).

(** [keywordScore(memory, keyword)] with its counting loop. *)
Definition keywordScore (m : MemoryRecord) (keyword : string) : Q :=
  let text := search_text m in
  let toks := tokens (toLowerCase keyword) in
  if (length toks =? 0)%nat then 0
  else
    let matches := fold_left (fun n t => if includes text t then S n else n) toks 0%nat in
    inject_Z (Z.of_nat matches) / inject_Z (Z.of_nat (length toks)).

Definition score_desc (a b : SearchResult) : bool := Qle_bool (score b) (score a).

Definition category_filter (o : SearchOptions.t) (ms : list MemoryRecord) : list MemoryRecord :=
  match SearchOptions.category o with
  | Some c => List.filter (fun m => bool_decide (category m = c)) ms
  | None => ms
  end.

Definition tags_filter (o : SearchOptions.t) (ms : list MemoryRecord) : list MemoryRecord :=
  match SearchOptions.tags o with
  | Some ts => if (0 <? length ts)%nat then List.filter (fun m => has_all_tags ts (tags m)) ms else ms
  | None => ms
  end.

Definition score_of `{MathSqrt} (queryEmbedding : list Q) (keyword : string) (m : MemoryRecord) : Q :=
  cosineSimilarity queryEmbedding (embedding m) * (8 # 10) + keywordScore m keyword * (2 # 10).

(** [semanticSearch(store, embeddings, query, options)] *)
Definition semanticSearch `{MathSqrt} (s : SQLiteStore) (emb : EmbeddingsClient) (query : string)
    (o : SearchOptions.t) : result MemoryError (list SearchResult) :=
  let allMemories := getAllMemories s in
  if (length allMemories =? 0)%nat then Ok []
  else
    match embedText emb query with
    | Err e => Err e
    | Ok queryEmbedding =>
        let keyword := default query (SearchOptions.keyword o) in
        let candidates := tags_filter o (category_filter o allMemories) in
        let scored := map (fun m => mkSearchResult m (score_of queryEmbedding keyword m)) candidates in
        let sorted := sort_by score_desc scored in
        Ok (js_slice0 sorted (default 10%Z (SearchOptions.limit o)))
    end.

(** Whether a record passes the category and tag filters. *)
Definition search_filter_ok (o : SearchOptions.t) (m : MemoryRecord) : bool :=
  match SearchOptions.category o with Some c => bool_decide (category m = c) | None => true end
  && match SearchOptions.tags o with
     | Some ts => if (0 <? length ts)%nat then has_all_tags ts (tags m) else true
     | None => true
     end.

Lemma candidates_spec o ms m :
  In m (tags_filter o (category_filter o ms)) <-> In m ms /\ search_filter_ok o m = true.
Proof.
  unfold tags_filter, category_filter, search_filter_ok.
  destruct (SearchOptions.category o), (SearchOptions.tags o) as [ts|];
    try destruct (0 <? length ts)%nat; rewrite ?filter_In, ?andb_true_iff; simpl; tauto.
Qed.

Lemma score_desc_total a b : score_desc a b = true \/ score_desc b a = true.
Proof. apply Qle_bool_total. Qed.

Lemma score_desc_trans a b c : score_desc a b = true -> score_desc b c = true -> score_desc a c = true.
Proof. unfold score_desc. intros H1 H2. eapply Qle_bool_trans; eauto. Qed.

Lemma fold_count_le (text : string) (toks : list string) (n : nat) :
  (fold_left (fun n t => if includes text t then S n else n) toks n <= n + length toks)%nat.
Proof.
  revert n. induction toks as [|t toks IH]; intros n; simpl; [lia|].
  specialize (IH (if includes text t then S n else n)). destruct (includes text t); simpl in *; lia.
Qed.

Lemma fold_count_all (text : string) (toks : list string) (n : nat) :
  (forall t, In t toks -> includes text t = true) ->
  fold_left (fun n t => if includes text t then S n else n) toks n = (n + length toks)%nat.
Proof.
  revert n. induction toks as [|t toks IH]; intros n Hall; simpl; [lia|].
  rewrite Hall by (left; done). rewrite IH; [lia|]. intros u Hu. apply Hall. by right.
Qed.

(** The keyword score is a fraction of matched tokens: it lies in
    [0,1], and it is 1 when every query token occurs in the text. *)
Theorem keywordScore_bounds m keyword :
  0 <= keywordScore m keyword <= 1
  /\ ((tokens (toLowerCase keyword) <> [] /\
       forall t, In t (tokens (toLowerCase keyword)) ->
         includes (search_text m) t = true)
      -> keywordScore m keyword == 1).
Proof.
  unfold keywordScore.
  set (toks := tokens _).
  destruct (length toks =? 0)%nat eqn:E.
  - split; [split; lra|]. intros [Hne _]. apply Nat.eqb_eq, length_zero_iff_nil in E. contradiction.
  - apply Nat.eqb_neq in E.
    pose proof (fold_count_le (search_text m) toks 0) as Hle.
    assert (Hpos : 0 < inject_Z (Z.of_nat (length toks))) by (apply inject_Z_pos; lia).
    split.
    + split.
      * apply Qle_shift_div_l; [done|]. rewrite Qmult_0_l. apply inject_Z_nonneg. lia.
      * apply Qle_shift_div_r; [done|]. rewrite Qmult_1_l. rewrite <- Zle_Qle. apply Nat2Z.inj_le. eapply Nat.le_trans; [exact Hle|]. lia.
    + intros [_ Hall]. rewrite fold_count_all by done. simpl. field. lra.
Qed.

Definition scored_of `{MathSqrt} (s : SQLiteStore) (qe : list Q) (query : string) (o : SearchOptions.t)
    : list SearchResult :=
  map (fun m => mkSearchResult m (score_of qe (default query (SearchOptions.keyword o)) m))
    (tags_filter o (category_filter o (getAllMemories s))).

Lemma semanticSearch_unfold `{MathSqrt} s emb query o qe :
  rows s <> [] -> embedText emb query = Ok qe ->
  semanticSearch s emb query o
  = Ok (js_slice0 (sort_by score_desc (scored_of s qe query o)) (default 10%Z (SearchOptions.limit o))).
Proof.
  intros Hne Hq. unfold semanticSearch, getAllMemories. destruct (rows s) eqn:E; [done|].
  simpl. rewrite Hq. unfold scored_of, getAllMemories. by rewrite E.
Qed.

Lemma In_scored_of `{MathSqrt} s qe query o r :
  In r (scored_of s qe query o) <->
  In (memory r) (rows s) /\ search_filter_ok o (memory r) = true
  /\ r = mkSearchResult (memory r) (score_of qe (default query (SearchOptions.keyword o)) (memory r)).
Proof.
  unfold scored_of. rewrite in_map_iff. split.
  - intros [m [<- Hm]]. apply candidates_spec in Hm. simpl. tauto.
  - intros (Hin & Hok & Hr). exists (memory r). split; [by rewrite Hr at 2|].
    by apply candidates_spec.
Qed.

Section Ranking.
Context `{MathSqrt}.

(** Searching an empty store returns no result without calling the
    embedding service, so it succeeds even when no API key is configured. *)
Theorem semanticSearch_empty_store s emb query o :
  rows s = [] -> semanticSearch s emb query o = Ok [].
Proof. intros E. unfold semanticSearch, getAllMemories. by rewrite E. Qed.

(** On a non-empty store an unavailable or failing embedding aborts the
    search with that error. *)
Theorem semanticSearch_embedding_error s emb query o e :
  rows s <> [] -> embedText emb query = Err e -> semanticSearch s emb query o = Err e.
Proof.
  intros Hne Hq. unfold semanticSearch, getAllMemories.
  destruct (rows s) eqn:E; [done|]. simpl. by rewrite Hq.
Qed.

(** C33 Ranking: the results are sorted by descending score; each is a
    stored record passing the category and tag filters, scored
    0.8 * cosine + 0.2 * keyword score; and a matching record that is
    not returned scores no higher than every result, which then number
    exactly [limit] (top-k selection, for a non-negative limit). *)
Theorem semanticSearch_ranking s emb query o qe rs :
  embedText emb query = Ok qe -> semanticSearch s emb query o = Ok rs ->
  Sorted (fun a b => score_desc a b = true) rs
  /\ (forall r, In r rs -> In (memory r) (rows s) /\ search_filter_ok o (memory r) = true
        /\ score r = score_of qe (default query (SearchOptions.keyword o)) (memory r))
  /\ (forall m, In m (rows s) -> search_filter_ok o m = true -> (0 <= default 10%Z (SearchOptions.limit o))%Z ->
        (exists r, In r rs /\ memory r = m)
        \/ (length rs = Z.to_nat (default 10%Z (SearchOptions.limit o))
            /\ forall r, In r rs -> score_of qe (default query (SearchOptions.keyword o)) m <= score r)).
Proof.
  intros Hq Hs. destruct (rows s) as [|r0 rs0] eqn:E.
  { unfold semanticSearch, getAllMemories in Hs. rewrite E in Hs. injection Hs as <-.
    split; [constructor|]. split; [done|]. intros m []. }
  rewrite (semanticSearch_unfold s emb query o qe) in Hs by (rewrite ?E; done). injection Hs as <-.
  set (lim := default 10%Z (SearchOptions.limit o)).
  set (S := sort_by score_desc (scored_of s qe query o)).
  assert (HS : Sorted (fun a b => score_desc a b = true) S) by apply sort_by_sorted, score_desc_total.
  assert (HSS : StronglySorted (fun a b => score_desc a b = true) S)
    by (apply Sorted_StronglySorted; [intros a b c; apply score_desc_trans|exact HS]).
  split; [|split].
  - eapply Sorted_sublist; [apply score_desc_trans | apply js_slice0_sublist | exact HS].
  - intros r Hr. apply js_slice0_incl in Hr. apply sort_by_In, In_scored_of in Hr as (Hin & Hok & Hr).
    rewrite E in Hin. split; [done|]. split; [done|]. by rewrite Hr.
  - intros m Hm Hok Hlim.
    set (r := mkSearchResult m (score_of qe (default query (SearchOptions.keyword o)) m)).
    assert (HrS : In r S) by (apply sort_by_In, In_scored_of; simpl; rewrite E; tauto).
    unfold js_slice0. destruct (In_take_or_drop S (js_slice_end_index (length S) lim) r HrS) as [Ht|Hd].
    + left. by exists r.
    + right. assert (Hlt : (js_slice_end_index (length S) lim < length S)%nat).
      { destruct (Nat.lt_ge_cases (js_slice_end_index (length S) lim) (length S)) as [?|Hge]; [done|].
        rewrite drop_ge in Hd by done. done. }
      unfold js_slice_end_index in *. destruct (Z.ltb_spec lim 0); [lia|].
      split; [rewrite length_take; lia|].
      intros r' Hr'. pose proof (StronglySorted_take_drop _ S _ r' r HSS Hr' Hd) as Hle.
      unfold score_desc in Hle. apply Qle_bool_true in Hle. exact Hle.
Qed.

End Ranking.

Section Bounds.
Context `{MathSqrt}.
Hypothesis sqrt_upper : forall x, 0 <= x -> 0 <= math_sqrt x /\ x <= math_sqrt x * math_sqrt x.

Lemma score_of_bounds qe kw m : -(4 # 5) <= score_of qe kw m <= 1.
Proof.
  destruct (accumulate_norms_nonneg qe (embedding m)) as [NA NB].
  destruct (sqrt_upper _ NA), (sqrt_upper _ NB).
  assert (Hc : -1 <= cosineSimilarity qe (embedding m) <= 1) by (apply cosineSimilarity_bounds; assumption).
  destruct (keywordScore_bounds m kw) as [[K1 K2] _]. unfold score_of. destruct Hc. split; lra.
Qed.

(** C34 Bounds of the hybrid score: every result [semanticSearch]
    returns has a score in [-0.8, 1] (0.8 * cosine + 0.2 * keyword
    score, the cosine in [-1, 1] by Cauchy-Schwarz), whenever
    [Math.sqrt] does not underestimate, as the exact square root. *)
Theorem semanticSearch_scores_bounded s emb query o rs :
  semanticSearch s emb query o = Ok rs -> forall r, In r rs -> -(4 # 5) <= score r <= 1.
Proof.
  intros Hs r Hr. destruct (rows s) as [|r0 rs0] eqn:E.
  { rewrite semanticSearch_empty_store in Hs by exact E. injection Hs as <-. destruct Hr. }
  destruct (embedText emb query) as [qe|err] eqn:Hq.
  - rewrite (semanticSearch_unfold s emb query o qe) in Hs by (rewrite ?E; done). injection Hs as <-.
    apply js_slice0_incl, sort_by_In, In_scored_of in Hr as (_ & _ & ->). apply score_of_bounds.
  - unfold semanticSearch, getAllMemories in Hs. rewrite E in Hs. cbn in Hs. by rewrite Hq in Hs.
Qed.

End Bounds.

(** A fixed embedding service for concrete runs. *)
Definition const_client (v : list Q) : EmbeddingsClient :=
  new_client "sk-test" "text-embedding-3-small" (fun _ _ => Some v).

(** A negative [limit] is passed to [slice(0, limit)], which then drops
    that many results from the end: with two matching records and limit
    -1 the search returns one result instead of none or all. *)
Example semanticSearch_negative_limit :
  let s := mkStore "memory.db"
             [StoreExamples.rec "a" "alpha" fact [] 1000 (1#2);
              StoreExamples.rec "b" "beta" fact [] 2000 (1#2)] in
  match semanticSearch s (const_client [1; 0]) "alpha"
          (SearchOptions.mk (Some (-1)%Z) None None None) with
  | Ok rs => map (fun r => id (memory r)) rs = ["a"]
  | Err _ => False
  end.
Proof. vm_compute. reflexivity. Qed.

Definition two_store : SQLiteStore :=
  mkStore "memory.db" [StoreExamples.rec "a" "alpha" fact [] 1000 (1#2);
                       StoreExamples.rec "b" "beta" fact [] 2000 (1#2)].

Definition ranked : list SearchResult :=
  match semanticSearch two_store (const_client [1; 0]) "alpha" SearchOptions.empty with
  | Ok rs => rs
  | Err _ => []
  end.

Lemma semanticSearch_ranking_witness :
  (embedText (const_client [1; 0]) "alpha" = Ok [1; 0]
   /\ semanticSearch two_store (const_client [1; 0]) "alpha" SearchOptions.empty = Ok ranked)
  /\ Sorted (fun a b => score_desc a b = true) ranked
  /\ (forall r, In r ranked -> In (memory r) (rows two_store) /\ search_filter_ok SearchOptions.empty (memory r) = true
        /\ score r = score_of [1; 0] (default "alpha" (SearchOptions.keyword SearchOptions.empty)) (memory r))
  /\ (forall m, In m (rows two_store) -> search_filter_ok SearchOptions.empty m = true ->
        (0 <= default 10%Z (SearchOptions.limit SearchOptions.empty))%Z ->
        (exists r, In r ranked /\ memory r = m)
        \/ (length ranked = Z.to_nat (default 10%Z (SearchOptions.limit SearchOptions.empty))
            /\ forall r, In r ranked ->
                 score_of [1; 0] (default "alpha" (SearchOptions.keyword SearchOptions.empty)) m <= score r)).
Proof.
  assert (H1 : embedText (const_client [1; 0]) "alpha" = Ok [1; 0]) by reflexivity.
  assert (H2 : semanticSearch two_store (const_client [1; 0]) "alpha" SearchOptions.empty = Ok ranked)
    by (vm_compute; reflexivity).
  split; [split; [exact H1|exact H2]|].
  exact (semanticSearch_ranking two_store (const_client [1; 0]) "alpha" SearchOptions.empty [1; 0] ranked H1 H2).
Defined.

Lemma semanticSearch_empty_store_witness :
  rows StoreExamples.empty_store = []
  /\ semanticSearch StoreExamples.empty_store (new_client "" "text-embedding-3-small" (fun _ _ => None))
       "alpha" SearchOptions.empty = Ok [].
Proof.
  assert (H : rows StoreExamples.empty_store = []) by reflexivity.
  split; [exact H|exact (semanticSearch_empty_store _ _ "alpha" SearchOptions.empty H)].
Defined.

Lemma semanticSearch_embedding_error_witness :
  (rows two_store <> [] /\ embedText (new_client "" "text-embedding-3-small" (fun _ _ => None)) "alpha" = Err ApiKeyRequired)
  /\ semanticSearch two_store (new_client "" "text-embedding-3-small" (fun _ _ => None)) "alpha" SearchOptions.empty
     = Err ApiKeyRequired.
Proof.
  assert (H1 : rows two_store <> []) by discriminate.
  assert (H2 : embedText (new_client "" "text-embedding-3-small" (fun _ _ => None)) "alpha" = Err ApiKeyRequired)
    by reflexivity.
  split; [split; [exact H1|exact H2]|].
  exact (semanticSearch_embedding_error two_store _ "alpha" SearchOptions.empty ApiKeyRequired H1 H2).
Defined.

Lemma semanticSearch_scores_bounded_witness :
  (forall x, 0 <= x -> 0 <= sqrt_up x /\ x <= sqrt_up x * sqrt_up x)
  /\ @semanticSearch sqrt_up two_store (const_client [3; 4]) "alpha" SearchOptions.empty
      = Ok (match @semanticSearch sqrt_up two_store (const_client [3; 4]) "alpha" SearchOptions.empty with
            | Ok rs => rs | Err _ => [] end)
  /\ forall r, In r (match @semanticSearch sqrt_up two_store (const_client [3; 4]) "alpha" SearchOptions.empty with
                     | Ok rs => rs | Err _ => [] end) -> -(4 # 5) <= score r <= 1.
Proof.
  assert (Hs : @semanticSearch sqrt_up two_store (const_client [3; 4]) "alpha" SearchOptions.empty
      = Ok (match @semanticSearch sqrt_up two_store (const_client [3; 4]) "alpha" SearchOptions.empty with
            | Ok rs => rs | Err _ => [] end)) by (vm_compute; reflexivity).
  split; [exact sqrt_up_upper|]. split; [exact Hs|].
  exact (@semanticSearch_scores_bounded sqrt_up sqrt_up_upper _ _ _ _ _ Hs).
Defined.

End Search.

Close Scope Q_scope.
