(* ===== verification/JsDate.v ===== *)
(** * [new Date(t).toISOString()] on epoch milliseconds

    The compaction planner prints the first and last timestamps of a
    group with [Date.prototype.toISOString].  A time value beyond
    8.64e15 ms from the epoch is an invalid date and the call throws a
    RangeError.  Otherwise the civil date is computed from the day
    number (proleptic Gregorian calendar) and printed as
    YYYY-MM-DDTHH:mm:ss.sssZ, with a signed six-digit year outside
    0..9999. *)

From stdpp Require Import base list strings.
From Stdlib Require Import ZArith Ascii.
From Stdlib Require String.
From S2P Require Import Prelude Decimal Types.

Module JsDate.
Local Open Scope Z_scope.

Definition MAX_TIME : Z := 8640000000000000.
Definition MS_PER_DAY : Z := 86400000.

Definition digit (d : Z) : ascii := ascii_of_nat (48 + Z.to_nat d)%nat.

(** Decimal digits of [n >= 0], at least [width] of them. *)
Fixpoint digits (fuel : nat) (n : Z) (acc : string) : string :=
  match fuel with
  | O => acc
  | S f => let acc' := String.String (digit (n mod 10)) acc in
           if (n <? 10)%Z then acc' else digits f (n / 10) acc'
  end.

Definition pad (width : nat) (n : Z) : string :=
  let s := digits 20%nat n EmptyString in
  String.append (String.concat "" (repeat "0" (width - String.length s)%nat)) s.

(** Civil date of a day number counted from 1970-01-01. *)
Definition civil_from_days (days : Z) : Z * Z * Z :=
  let z := days + 719468 in
  let era := z / 146097 in
  let doe := z - era * 146097 in
  let yoe := (doe - doe / 1460 + doe / 36524 - doe / 146096) / 365 in
  let y := yoe + era * 400 in
  let doy := doe - (365 * yoe + yoe / 4 - yoe / 100) in
  let mp := (5 * doy + 2) / 153 in
  let d := doy - (153 * mp + 2) / 5 + 1 in
  let m := if (mp <? 10)%Z then mp + 3 else mp - 9 in
  ((if (m <=? 2)%Z then y + 1 else y), m, d).

Definition year_string (y : Z) : string :=
  if ((0 <=? y) && (y <=? 9999))%Z then pad 4%nat y
  else String.append (if (y <? 0)%Z then "-" else "+") (pad 6%nat (Z.abs y)).

Definition toISOString (t : Z) : result MemoryError string :=
  if (MAX_TIME <? Z.abs t)%Z then Err InvalidTimeValue
  else
    let days := t / MS_PER_DAY in
    let ms := t mod MS_PER_DAY in
    let '(y, mo, d) := civil_from_days days in
    Ok (String.concat "" [year_string y; "-"; pad 2%nat mo; "-"; pad 2%nat d; "T";
                          pad 2%nat (ms / 3600000); ":"; pad 2%nat (ms / 60000 mod 60); ":";
                          pad 2%nat (ms / 1000 mod 60); "."; pad 3%nat (ms mod 1000); "Z"]).

Example toISOString_epoch : toISOString 0 = Ok "1970-01-01T00:00:00.000Z".
Proof. reflexivity. Qed.

Example toISOString_2023 : toISOString 1700000000000 = Ok "2023-11-14T22:13:20.000Z".
Proof. reflexivity. Qed.

Example toISOString_before_epoch : toISOString (-1) = Ok "1969-12-31T23:59:59.999Z".
Proof. reflexivity. Qed.

Example toISOString_leap_day : toISOString 951782400000 = Ok "2000-02-29T00:00:00.000Z".
Proof. reflexivity. Qed.

Example toISOString_max : toISOString 8640000000000000 = Ok "+275760-09-13T00:00:00.000Z".
Proof. reflexivity. Qed.

(** The RangeError boundary is exactly 8.64e15 ms. *)
Lemma toISOString_ok_iff t : (exists s, toISOString t = Ok s) <-> (Z.abs t <= MAX_TIME)%Z.
Proof.
  unfold toISOString. destruct (Z.ltb_spec MAX_TIME (Z.abs t)).
  - split; [intros [s Hs]; discriminate | lia].
  - split; [lia|]. intros _. destruct (civil_from_days _) as [[? ?] ?]. by eexists.
Qed.

(** Termination of the digit printer: [digits] runs on fuel, and
    with at least one unit of fuel per decimal digit it computes exactly
    the terminating printer [dec_digits]; the fuel 20 of [pad] covers
    every field of a valid time value (years have at most 6 digits). *)
Theorem digits_fuel_enough fuel n acc :
  (0 < fuel)%nat -> 0 <= n < 10 ^ Z.of_nat fuel -> digits fuel n acc = dec_digits n acc.
Proof.
  revert n acc. induction fuel as [|f IH]; intros n acc Hf Hn; [lia|].
  rewrite dec_digits_eq. cbn [digits]. destruct (Z.ltb_spec n 10); [reflexivity|].
  rewrite Nat2Z.inj_succ, Z.pow_succ_r in Hn by lia.
  destruct f as [|f']; [simpl in Hn; lia|].
  apply IH; [lia|]. split; [apply Z.div_pos; lia|]. apply Z.div_lt_upper_bound; lia.
Qed.

Lemma digits_fuel_enough_witness :
  ((0 < 20)%nat /\ 0 <= 275760 < 10 ^ Z.of_nat 20)
  /\ digits 20 275760 EmptyString = dec_digits 275760 EmptyString.
Proof.
  assert (H1 : (0 < 20)%nat) by lia.
  assert (H2 : 0 <= 275760 < 10 ^ Z.of_nat 20) by (split; [lia|vm_compute; reflexivity]).
  split; [split; [exact H1|exact H2]|]. exact (digits_fuel_enough 20 275760 EmptyString H1 H2).
Defined.

End JsDate.
