(* ===== verification/Summarizer.v ===== *)
(** * The compaction planner: src/src/summarizer.ts ([buildSummaries])

    Records at or above the preserve threshold are skipped; the others
    are grouped by category in a [Map] (keys in first-insertion order,
    each group in scan order).  A group of at least two records is
    sorted by ascending timestamp (stable sort), cut to [maxGroupSize]
    with [slice], and becomes one summary plan: a [MemoryInput] whose
    content concatenates the snippets and whose importance is the
    threshold, with the ids of the records it replaces.  Reading
    [slice[0]] of an empty slice throws, and so does [toISOString] on an
    invalid date. *)

From stdpp Require Import base list strings.
From Stdlib Require Import ZArith QArith Qminmax Lqa Sorting.Sorted.
From Stdlib Require String.
From S2P Require Import Prelude JsString Types JsDate.

Module Summarizer.

(** [interface SummarizeOptions] *)
Record SummarizeOptions : Type := mkSummarizeOptions {
  maxGroupSize : Z;
  preserveImportanceThreshold : Q
}.

(** [interface SummaryPlan] *)
Record SummaryPlan : Type := mkSummaryPlan {
  summary : MemoryInput.t;
  sourceIds : list string
}.

(** One snippet of [summarizeText]. *)
Definition snippet (m : MemoryRecord) : string :=
  let trimmed := trim (content m) in
  if (String.length trimmed <=? 140)%nat then trimmed
  else String.append (slice0 trimmed 137) "...".

(** [summarizeText(memories)] *)
Definition summarizeText (ms : list MemoryRecord) : string := join " " (map snippet ms).

(** [grouped.get(c) ?? []], [list.push(m)], [grouped.set(c, list)]: a key
    already present keeps its position in the Map. *)
Fixpoint group_push (g : list (MemoryCategory * list MemoryRecord)) (c : MemoryCategory)
    (m : MemoryRecord) : list (MemoryCategory * list MemoryRecord) :=
  match g with
  | [] => [(c, [m])]
  | (c', l) :: g' => if decide (c = c') then (c', l ++ [m]) :: g' else (c', l) :: group_push g' c m
  end.

Definition is_preserved (threshold : Q) (m : MemoryRecord) : bool := Qle_bool threshold (importance m).

(** The first loop of [buildSummaries]. *)
Definition group_low (threshold : Q) (ms : list MemoryRecord) : list (MemoryCategory * list MemoryRecord) :=
  fold_left (fun g m => if is_preserved threshold m then g else group_push g (category m) m) ms [].

Definition timestamp_asc (a b : MemoryRecord) : bool := (timestamp a <=? timestamp b)%Z.

(** The body of the second loop for one group. *)
Definition plan_of (now : Z) (o : SummarizeOptions) (c : MemoryCategory) (group : list MemoryRecord)
    : result MemoryError (option SummaryPlan) :=
  if (length group <? 2)%nat then Ok None
  else
    let slice := js_slice0 (sort_by timestamp_asc group) (maxGroupSize o) in
    match slice with
    | [] => Err UndefinedProperty
    | first :: _ =>
        match JsDate.toISOString (timestamp first), JsDate.toISOString (timestamp (List.last slice first)) with
        | Ok start, Ok fin =>
            let content := String.concat "" ["Summary ("; category_to_string c; ") "; start; " - "; fin;
                                             ": "; summarizeText slice] in
            Ok (Some (mkSummaryPlan
                        (MemoryInput.mk content (category_to_string c) (Some ["summary"]) (Some now)
                           (Some (preserveImportanceThreshold o)))
                        (map id slice)))
        | Err e, _ => Err e
        | _, Err e => Err e
        end
    end.

Fixpoint plans_of (now : Z) (o : SummarizeOptions) (g : list (MemoryCategory * list MemoryRecord))
    : result MemoryError (list SummaryPlan) :=
  match g with
  | [] => Ok []
  | (c, group) :: g' =>
      match plan_of now o c group with
      | Err e => Err e
      | Ok p => match plans_of now o g' with
                | Err e => Err e
                | Ok ps => Ok (match p with Some pl => pl :: ps | None => ps end)
                end
      end
  end.

(** [buildSummaries(memories, options)]; [now] is the [Date.now()] of the
    summaries' timestamps. *)
Definition buildSummaries (ms : list MemoryRecord) (o : SummarizeOptions) (now : Z)
    : result MemoryError (list SummaryPlan) :=
  plans_of now o (group_low (preserveImportanceThreshold o) ms).

(** ** The grouping loop *)

(** The records of category [c] that the loop does not skip. *)
Definition low_of (threshold : Q) (c : MemoryCategory) (m : MemoryRecord) : bool :=
  negb (is_preserved threshold m) && bool_decide (category m = c).

Definition groups_ok (threshold : Q) (ms : list MemoryRecord) (g : list (MemoryCategory * list MemoryRecord)) :=
  NoDup (map fst g)
  /\ forall c l, In (c, l) g <-> l = List.filter (low_of threshold c) ms /\ l <> [].

Lemma group_push_keys g c m :
  map fst (group_push g c m) = if decide (c ∈ map fst g) then map fst g else map fst g ++ [c].
Proof.
  induction g as [|[c' l] g IH]; simpl; [done|].
  destruct (decide (c = c')) as [->|Hne].
  - rewrite decide_True; [done|]. by left.
  - simpl. rewrite IH. destruct (decide (c ∈ map fst g)) as [Hin|Hnin].
    + rewrite decide_True; [done|]. by right.
    + rewrite decide_False; [done|]. intros Hc. apply elem_of_cons in Hc as [?|?]; contradiction.
Qed.

Lemma group_push_In g c m c' l' :
  NoDup (map fst g) ->
  In (c', l') (group_push g c m) <->
  (c' <> c /\ In (c', l') g)
  \/ (c' = c /\ ((exists l, In (c, l) g /\ l' = l ++ [m]) \/ (~ In c (map fst g) /\ l' = [m]))).
Proof.
  induction g as [|[c0 l0] g IH]; intros Hnd; simpl.
  - split.
    + intros [Heq|[]]. injection Heq as H1 H2. subst. right. split; [done|]. right. tauto.
    + intros [[_ []]|[-> [[l [[] _]]|[_ ->]]]]. by left.
  - apply NoDup_cons in Hnd as [Hni Hnd]. rewrite list_elem_of_In in Hni.
    assert (Hkey : forall l, In (c0, l) g -> False) by (intros l Hl; apply Hni, in_map_iff; by exists (c0, l)).
    destruct (decide (c = c0)) as [->|Hne]; simpl.
    + split.
      * intros [Heq|Hin].
        -- injection Heq as H1 H2. subst. right. split; [done|]. left. exists l0. tauto.
        -- left. split; [|tauto]. intros ->. by apply (Hkey l').
      * intros [[Hne' [Heq|Hin]]|[-> [[l [[Heq|Hin] ->]]|[Hnin _]]]].
        -- injection Heq as H1 H2. congruence.
        -- by right.
        -- injection Heq as H1. subst. by left.
        -- exfalso. by apply (Hkey l).
        -- exfalso. apply Hnin. by left.
    + rewrite IH by done. split.
      * intros [Heq|[[? ?]|[-> [[l [? ->]]|[? ->]]]]].
        -- injection Heq as H1 H2. subst. left. split; [congruence|by left].
        -- left. tauto.
        -- right. split; [done|]. left. exists l. tauto.
        -- right. split; [done|]. right. split; [|done]. intros [?|?]; [congruence|contradiction].
      * intros [[Hne' [Heq|Hin]]|[-> [[l [[Heq|Hin] ->]]|[Hnin ->]]]].
        -- by left.
        -- right. left. tauto.
        -- injection Heq as H1. congruence.
        -- right. right. split; [done|]. left. exists l. tauto.
        -- right. right. split; [done|]. right. split; [|done]. tauto.
Qed.

Lemma group_low_ok th ms : groups_ok th ms (group_low th ms).
Proof.
  unfold group_low. induction ms as [|m ms IH] using rev_ind; simpl.
  - split; [constructor|]. intros c l. simpl. split; [done|]. intros [-> Hne]. by destruct Hne.
  - rewrite fold_left_app. simpl. set (g := fold_left _ ms []) in *.
    destruct IH as [Hnd Hspec].
    destruct (is_preserved th m) eqn:Hp.
    + split; [done|]. intros c l. rewrite Hspec, List.filter_app. simpl. unfold low_of at 3.
      rewrite Hp. simpl. by rewrite app_nil_r.
    + split.
      * rewrite group_push_keys. destruct (decide _); [done|].
        apply NoDup_app. split; [done|]. split; [|apply NoDup_singleton].
        intros x Hx Hy. apply list_elem_of_singleton in Hy. subst. contradiction.
      * intros c l. rewrite group_push_In by done. rewrite List.filter_app. simpl.
        unfold low_of at 2. rewrite Hp. simpl.
        destruct (decide (category m = c)) as [<-|Hne].
        -- rewrite bool_decide_eq_true_2 by done. simpl.
           split.
           ++ intros [[Hne _]|[_ [[l0 [Hin ->]]|[Hnin ->]]]]; [done| |].
              ** apply Hspec in Hin as [-> _]. split; [done|]. by destruct (List.filter _ ms).
              ** split; [|done]. destruct (List.filter (low_of th (category m)) ms) as [|r0 rest] eqn:F; [done|].
                 exfalso. apply Hnin. apply in_map_iff. exists (category m, r0 :: rest). split; [done|].
                 apply Hspec. rewrite F. split; [done|done].
           ++ intros [-> _]. right. split; [done|].
              destruct (List.filter (low_of th (category m)) ms) as [|r0 rest] eqn:F.
              ** right. split; [|done]. intros Hin. apply in_map_iff in Hin as [[c' l'] [Hc Hin]].
                 simpl in Hc. subst c'. apply Hspec in Hin as [-> Hne]. rewrite F in Hne. done.
              ** left. exists (r0 :: rest). split; [apply Hspec; rewrite F; done|done].
        -- rewrite bool_decide_eq_false_2 by done. simpl. rewrite app_nil_r.
           split; [intros [[_ Hin]|[-> _]]; [by apply Hspec|done] | intros H; left; split; [congruence|by apply Hspec]].
Qed.

(** ** The planning loop *)

Lemma plans_of_In now o g ps p :
  plans_of now o g = Ok ps -> In p ps -> exists c l, In (c, l) g /\ plan_of now o c l = Ok (Some p).
Proof.
  revert ps. induction g as [|[c l] g IH]; intros ps Hps Hp; simpl in Hps; [by injection Hps as <-|].
  destruct (plan_of now o c l) as [[pl|]|e] eqn:E1; [| |done];
    destruct (plans_of now o g) as [ps'|e] eqn:E2; try done; injection Hps as <-.
  - destruct Hp as [<-|Hp]; [exists c, l; split; [by left|done]|].
    destruct (IH ps' eq_refl Hp) as (c' & l' & Hin & Hpl). exists c', l'. split; [by right|done].
  - destruct (IH ps' eq_refl Hp) as (c' & l' & Hin & Hpl). exists c', l'. split; [by right|done].
Qed.

Lemma plans_of_complete now o g ps c l p :
  plans_of now o g = Ok ps -> In (c, l) g -> plan_of now o c l = Ok (Some p) -> In p ps.
Proof.
  revert ps. induction g as [|[c0 l0] g IH]; intros ps Hps Hin Hpl; [done|]. simpl in Hps.
  destruct (plan_of now o c0 l0) as [[pl|]|e] eqn:E1; [| |done];
    destruct (plans_of now o g) as [ps'|e] eqn:E2; try done; injection Hps as <-.
  - destruct Hin as [Heq|Hin].
    + injection Heq as -> ->. rewrite E1 in Hpl. injection Hpl as ->. by left.
    + right. by apply (IH ps').
  - destruct Hin as [Heq|Hin].
    + injection Heq as -> ->. congruence.
    + by apply (IH ps').
Qed.

Lemma plan_of_spec now o c l p :
  plan_of now o c l = Ok (Some p) ->
  (2 <= length l)%nat
  /\ sourceIds p = map id (js_slice0 (sort_by timestamp_asc l) (maxGroupSize o))
  /\ exists text, summary p = MemoryInput.mk text (category_to_string c) (Some ["summary"]) (Some now)
                                 (Some (preserveImportanceThreshold o)).
Proof.
  unfold plan_of. destruct (length l <? 2)%nat eqn:El; [done|]. apply Nat.ltb_ge in El.
  destruct (js_slice0 (sort_by timestamp_asc l) (maxGroupSize o)) as [|first rest] eqn:Es; [done|].
  destruct (JsDate.toISOString (timestamp first)) eqn:E1,
           (JsDate.toISOString (timestamp (List.last (first :: rest) first))) eqn:E2; try done.
  intros H. injection H as <-. simpl. split; [done|]. split; [done|]. by eexists.
Qed.

Lemma plan_of_none now o c l : plan_of now o c l = Ok None -> (length l < 2)%nat.
Proof.
  unfold plan_of. destruct (length l <? 2)%nat eqn:El; [intros _; by apply Nat.ltb_lt|].
  destruct (js_slice0 _ _) as [|first rest]; [done|].
  destruct (JsDate.toISOString (timestamp first)),
           (JsDate.toISOString (timestamp (List.last (first :: rest) first))); done.
Qed.

Lemma low_of_spec th c m : low_of th c m = true <-> (importance m < th)%Q /\ category m = c.
Proof.
  unfold low_of, is_preserved. rewrite andb_true_iff, negb_true_iff, Qle_bool_false, bool_decide_eq_true.
  done.
Qed.

Lemma In_low_group th ms c l m :
  In (c, l) (group_low th ms) -> In m l -> In m ms /\ (importance m < th)%Q /\ category m = c.
Proof.
  intros Hin Hm. apply (group_low_ok th ms) in Hin as [-> _].
  apply filter_In in Hm as [Hm Hl]. apply low_of_spec in Hl. tauto.
Qed.

(** ** Properties of the planner *)

(** Every plan is the plan of one category's records below the threshold. *)
Lemma buildSummaries_plan_of ms o now ps p :
  buildSummaries ms o now = Ok ps -> In p ps ->
  exists c, plan_of now o c (List.filter (low_of (preserveImportanceThreshold o) c) ms) = Ok (Some p).
Proof.
  unfold buildSummaries. intros Hps Hp.
  destruct (plans_of_In _ _ _ _ _ Hps Hp) as (c & l & Hin & Hpl).
  apply (group_low_ok (preserveImportanceThreshold o) ms) in Hin as [-> _]. by exists c.
Qed.

(** Every plan comes from one category [c] with at least two records
    below the preserve threshold, replaces the oldest of them up to
    [maxGroupSize] (the stable ascending sort cut by [slice]), and its
    summary input has category [c], tags ["summary"], the compaction time
    and importance exactly the threshold. *)
Theorem buildSummaries_plans ms o now ps :
  buildSummaries ms o now = Ok ps ->
  forall p, In p ps -> exists c,
    let low := List.filter (low_of (preserveImportanceThreshold o) c) ms in
    (2 <= length low)%nat
    /\ sourceIds p = map id (js_slice0 (sort_by timestamp_asc low) (maxGroupSize o))
    /\ exists text, summary p = MemoryInput.mk text (category_to_string c) (Some ["summary"]) (Some now)
                                   (Some (preserveImportanceThreshold o)).
Proof.
  intros Hps p Hp. destruct (buildSummaries_plan_of _ _ _ _ _ Hps Hp) as [c Hpl].
  exists c. by apply plan_of_spec.
Qed.

Lemma plans_of_group now o g ps c l :
  plans_of now o g = Ok ps -> In (c, l) g -> (2 <= length l)%nat ->
  exists p, plan_of now o c l = Ok (Some p) /\ In p ps.
Proof.
  revert ps. induction g as [|[c0 l0] g IH]; intros ps Hps Hin Hlen; [done|]. simpl in Hps.
  destruct (plan_of now o c0 l0) as [[pl|]|e] eqn:E1; [| |done];
    destruct (plans_of now o g) as [ps'|e] eqn:E2; try done; injection Hps as <-.
  - destruct Hin as [Heq|Hin].
    + injection Heq as -> ->. exists pl. split; [done|by left].
    + destruct (IH ps' eq_refl Hin Hlen) as (p & Hp & Hin'). exists p. split; [done|by right].
  - destruct Hin as [Heq|Hin].
    + injection Heq as -> ->. apply plan_of_none in E1. lia.
    + by apply (IH ps').
Qed.

Definition plan_category (p : SummaryPlan) : string := MemoryInput.category (summary p).

Lemma plans_of_categories now o g ps :
  plans_of now o g = Ok ps -> sublist (map plan_category ps) (map (fun cl => category_to_string cl.1) g).
Proof.
  revert ps. induction g as [|[c0 l0] g IH]; intros ps Hps; simpl in Hps; [injection Hps as <-; constructor|].
  destruct (plan_of now o c0 l0) as [[pl|]|e] eqn:E1; [| |done];
    destruct (plans_of now o g) as [ps'|e] eqn:E2; try done; injection Hps as <-; simpl.
  - destruct (plan_of_spec _ _ _ _ _ E1) as (_ & _ & text & Hs).
    unfold plan_category at 1. rewrite Hs. simpl. constructor. by apply IH.
  - constructor. by apply IH.
Qed.

Lemma category_to_string_inj c1 c2 : category_to_string c1 = category_to_string c2 -> c1 = c2.
Proof.
  intros H. apply (f_equal category_of_string) in H. rewrite !category_of_string_to_string in H.
  by injection H.
Qed.

(** C30 Every category with at least two records below the threshold gets
    a plan, and no two plans share a category. *)
Theorem buildSummaries_complete ms o now ps :
  buildSummaries ms o now = Ok ps ->
  (forall c, (2 <= length (List.filter (low_of (preserveImportanceThreshold o) c) ms))%nat ->
     exists p, In p ps /\ plan_category p = category_to_string c)
  /\ NoDup (map plan_category ps).
Proof.
  unfold buildSummaries. intros Hps.
  destruct (group_low_ok (preserveImportanceThreshold o) ms) as [Hnd Hg]. split.
  - intros c Hlen.
    assert (Hin : In (c, List.filter (low_of (preserveImportanceThreshold o) c) ms)
                     (group_low (preserveImportanceThreshold o) ms))
      by (apply Hg; split; [done|]; intros E; rewrite E in Hlen; simpl in Hlen; lia).
    destruct (plans_of_group _ _ _ _ _ _ Hps Hin Hlen) as (p & Hpl & Hp).
    exists p. split; [done|]. unfold plan_category.
    by destruct (plan_of_spec _ _ _ _ _ Hpl) as (_ & _ & text & ->).
  - eapply sublist_NoDup; [|by apply plans_of_categories in Hps].
    rewrite <- (map_map fst category_to_string). apply NoDup_map_inj; [|done].
    apply category_to_string_inj.
Qed.

Lemma timestamp_asc_total a b : timestamp_asc a b = true \/ timestamp_asc b a = true.
Proof. apply Zleb_total. Qed.

Lemma timestamp_asc_trans a b c : timestamp_asc a b = true -> timestamp_asc b c = true -> timestamp_asc a c = true.
Proof. apply Zleb_trans. Qed.

Lemma In_slice_low th c ms k m :
  In m (js_slice0 (sort_by timestamp_asc (List.filter (low_of th c) ms)) k) ->
  In m ms /\ (importance m < th)%Q /\ category m = c.
Proof.
  intros Hm. apply js_slice0_incl, sort_by_In, filter_In in Hm as [Hm Hl].
  apply low_of_spec in Hl. tauto.
Qed.

(** C29 Safety of compaction: with [maxGroupSize >= 2] every plan replaces
    between 2 and [maxGroupSize] records, each a record of the input
    below the preserve threshold and of the plan's category; records at
    or above the threshold are never replaced. *)
Theorem buildSummaries_safe ms o now ps :
  buildSummaries ms o now = Ok ps -> (2 <= maxGroupSize o)%Z ->
  forall p, In p ps ->
    (2 <= length (sourceIds p) <= Z.to_nat (maxGroupSize o))%nat
    /\ forall i, In i (sourceIds p) -> exists m, In m ms /\ id m = i
         /\ (importance m < preserveImportanceThreshold o)%Q
         /\ plan_category p = category_to_string (category m).
Proof.
  intros Hps Hk p Hp.
  destruct (buildSummaries_plan_of _ _ _ _ _ Hps Hp) as [c Hpl].
  destruct (plan_of_spec _ _ _ _ _ Hpl) as (Hlen & Hids & text & Hs).
  rewrite Hids. split.
  - rewrite length_map, js_slice0_length_nonneg by lia. rewrite sort_by_length. lia.
  - intros i Hi. apply in_map_iff in Hi as [m [<- Hm]].
    apply In_slice_low in Hm as (Hm & Himp & Hc). exists m.
    unfold plan_category. rewrite Hs, Hc. tauto.
Qed.

(** C31 Oldest first: the records a plan replaces are a prefix of the
    category's low-importance records in ascending timestamp order, so
    every such record left for a later pass is at least as new as every
    replaced one. *)
Theorem buildSummaries_oldest_first ms o now ps :
  buildSummaries ms o now = Ok ps ->
  forall p, In p ps -> exists c sel,
    sourceIds p = map id sel
    /\ (forall s, In s sel -> In s ms /\ low_of (preserveImportanceThreshold o) c s = true)
    /\ (forall m, In m ms -> low_of (preserveImportanceThreshold o) c m = true -> ~ In m sel ->
          forall s, In s sel -> (timestamp s <= timestamp m)%Z).
Proof.
  intros Hps p Hp.
  destruct (buildSummaries_plan_of _ _ _ _ _ Hps Hp) as [c Hpl].
  destruct (plan_of_spec _ _ _ _ _ Hpl) as (_ & Hids & _).
  set (low := List.filter (low_of (preserveImportanceThreshold o) c) ms) in *.
  set (S := sort_by timestamp_asc low).
  exists c, (js_slice0 S (maxGroupSize o)). split; [done|]. split.
  - intros x Hx. apply js_slice0_incl, sort_by_In, filter_In in Hx. done.
  - intros m Hm Hl Hnin x Hx.
    assert (HSS : StronglySorted (fun a b => timestamp_asc a b = true) S).
    { apply Sorted_StronglySorted; [intros a b d; apply timestamp_asc_trans|].
      apply sort_by_sorted, timestamp_asc_total. }
    assert (HmS : In m S) by (apply sort_by_In, filter_In; done).
    unfold js_slice0 in *. destruct (In_take_or_drop S (js_slice_end_index (length S) (maxGroupSize o)) m HmS)
      as [Ht|Hd]; [contradiction|].
    pose proof (StronglySorted_take_drop _ S _ x m HSS Hx Hd) as H.
    unfold timestamp_asc in H. by apply Z.leb_le in H.
Qed.

Lemma last_In {A} (x d : A) (l : list A) : In (List.last (x :: l) d) (x :: l).
Proof.
  revert x. induction l as [|y l IH]; intros x; [by left|].
  right. exact (IH y).
Qed.

Lemma plan_of_total now o c l :
  (1 <= maxGroupSize o)%Z -> (forall m, In m l -> (Z.abs (timestamp m) <= JsDate.MAX_TIME)%Z) ->
  exists r, plan_of now o c l = Ok r.
Proof.
  intros Hk Ht. unfold plan_of. destruct (length l <? 2)%nat eqn:El; [by eexists|].
  apply Nat.ltb_ge in El.
  destruct (js_slice0 (sort_by timestamp_asc l) (maxGroupSize o)) as [|first rest] eqn:Es.
  { pose proof (js_slice0_length_nonneg (sort_by timestamp_asc l) (maxGroupSize o) ltac:(lia)) as HL.
    rewrite Es, sort_by_length in HL. simpl in HL. lia. }
  assert (Hin : forall x, In x (first :: rest) -> In x l)
    by (intros x Hx; rewrite <- Es in Hx; by apply js_slice0_incl, sort_by_In in Hx).
  destruct (proj2 (JsDate.toISOString_ok_iff (timestamp first))) as [s1 ->]; [apply Ht, Hin; by left|].
  destruct (proj2 (JsDate.toISOString_ok_iff (timestamp (List.last (first :: rest) first)))) as [s2 ->];
    [apply Ht, Hin, last_In|].
  by eexists.
Qed.

(** C32 The planner succeeds when [maxGroupSize >= 1] and every record
    below the threshold has a valid date (|timestamp| <= 8.64e15 ms);
    otherwise reading [slice[0]] or [toISOString] can throw. *)
Theorem buildSummaries_total ms o now :
  (1 <= maxGroupSize o)%Z ->
  (forall m, In m ms -> low_of (preserveImportanceThreshold o) (category m) m = true ->
     (Z.abs (timestamp m) <= JsDate.MAX_TIME)%Z) ->
  exists ps, buildSummaries ms o now = Ok ps.
Proof.
  intros Hk Ht. unfold buildSummaries.
  destruct (group_low_ok (preserveImportanceThreshold o) ms) as [_ Hg].
  assert (Hgroups : forall c l, In (c, l) (group_low (preserveImportanceThreshold o) ms) ->
            forall m, In m l -> (Z.abs (timestamp m) <= JsDate.MAX_TIME)%Z).
  { intros c l Hin m Hm. apply Hg in Hin as [-> _]. apply filter_In in Hm as [Hm Hl].
    apply Ht; [done|]. apply low_of_spec in Hl as [Hi Hc]. subst. by apply low_of_spec. }
  clear Hg. induction (group_low (preserveImportanceThreshold o) ms) as [|[c l] g IH]; simpl; [by eexists|].
  destruct (plan_of_total now o c l Hk (Hgroups c l (or_introl eq_refl))) as [r ->].
  destruct IH as [ps ->]; [intros c' l' Hin; apply (Hgroups c' l'); by right|].
  by eexists.
Qed.

(** The compaction scenario of the specification: two "fact" records
    of importance 0.3 and 0.2 and one of 0.9, threshold 0.7: exactly one
    plan, for "fact", replacing the two low records (oldest first) and
    leaving the important one. *)
Example buildSummaries_scenario :
  let r1 := mkMemoryRecord "f1" "first fact" fact [] 1000 (3#10)%Q [] 1000 in
  let r2 := mkMemoryRecord "f2" "second fact" fact [] 2000 (2#10)%Q [] 2000 in
  let r3 := mkMemoryRecord "f3" "key fact" fact [] 500 (9#10)%Q [] 500 in
  match buildSummaries [r3; r2; r1] (mkSummarizeOptions 12 (7#10)%Q) 5000 with
  | Ok [p] => sourceIds p = ["f1"; "f2"] /\ plan_category p = "fact"
              /\ MemoryInput.importance (summary p) = Some (7#10)%Q
  | _ => False
  end.
Proof. vm_compute. repeat split. Qed.

(** A concrete planner run: three low "fact" records and an important
    one, groups of at most 2. *)
Definition sample_records : list MemoryRecord :=
  [mkMemoryRecord "f3" "key fact" fact [] 500 (9#10)%Q [] 500;
   mkMemoryRecord "f4" "third fact" fact [] 3000 (1#10)%Q [] 3000;
   mkMemoryRecord "f2" "second fact" fact [] 2000 (2#10)%Q [] 2000;
   mkMemoryRecord "f1" "first fact" fact [] 1000 (3#10)%Q [] 1000].

Definition sample_options : SummarizeOptions := mkSummarizeOptions 2 (7#10)%Q.

Definition sample_plans : list SummaryPlan :=
  match buildSummaries sample_records sample_options 5000 with Ok ps => ps | Err _ => [] end.

Lemma buildSummaries_plans_witness :
  buildSummaries sample_records sample_options 5000 = Ok sample_plans
  /\ forall p, In p sample_plans -> exists c,
    let low := List.filter (low_of (preserveImportanceThreshold sample_options) c) sample_records in
    (2 <= length low)%nat
    /\ sourceIds p = map id (js_slice0 (sort_by timestamp_asc low) (maxGroupSize sample_options))
    /\ exists text, summary p = MemoryInput.mk text (category_to_string c) (Some ["summary"]) (Some 5000%Z)
                                   (Some (preserveImportanceThreshold sample_options)).
Proof.
  assert (Hok : buildSummaries sample_records sample_options 5000 = Ok sample_plans) by (vm_compute; reflexivity).
  split; [exact Hok|].
  exact (buildSummaries_plans sample_records sample_options 5000 sample_plans Hok).
Defined.

Lemma buildSummaries_complete_witness :
  buildSummaries sample_records sample_options 5000 = Ok sample_plans
  /\ (forall c, (2 <= length (List.filter (low_of (preserveImportanceThreshold sample_options) c) sample_records))%nat ->
        exists p, In p sample_plans /\ plan_category p = category_to_string c)
  /\ NoDup (map plan_category sample_plans).
Proof.
  assert (Hok : buildSummaries sample_records sample_options 5000 = Ok sample_plans) by (vm_compute; reflexivity).
  split; [exact Hok|].
  exact (buildSummaries_complete sample_records sample_options 5000 sample_plans Hok).
Defined.

Lemma buildSummaries_safe_witness :
  (buildSummaries sample_records sample_options 5000 = Ok sample_plans /\ (2 <= maxGroupSize sample_options)%Z)
  /\ forall p, In p sample_plans ->
    (2 <= length (sourceIds p) <= Z.to_nat (maxGroupSize sample_options))%nat
    /\ forall i, In i (sourceIds p) -> exists m, In m sample_records /\ id m = i
         /\ (importance m < preserveImportanceThreshold sample_options)%Q
         /\ plan_category p = category_to_string (category m).
Proof.
  assert (Hk : (2 <= maxGroupSize sample_options)%Z) by (vm_compute; discriminate).
  assert (Hok : buildSummaries sample_records sample_options 5000 = Ok sample_plans) by (vm_compute; reflexivity).
  split; [split; [exact Hok|exact Hk]|].
  exact (buildSummaries_safe sample_records sample_options 5000 sample_plans Hok Hk).
Defined.

Lemma buildSummaries_oldest_first_witness :
  buildSummaries sample_records sample_options 5000 = Ok sample_plans
  /\ map sourceIds sample_plans = [["f1"; "f2"]]
  /\ forall p, In p sample_plans -> exists c sel,
    sourceIds p = map id sel
    /\ (forall s, In s sel -> In s sample_records /\ low_of (preserveImportanceThreshold sample_options) c s = true)
    /\ (forall m, In m sample_records -> low_of (preserveImportanceThreshold sample_options) c m = true -> ~ In m sel ->
          forall s, In s sel -> (timestamp s <= timestamp m)%Z).
Proof.
  assert (Hok : buildSummaries sample_records sample_options 5000 = Ok sample_plans) by (vm_compute; reflexivity).
  split; [exact Hok|]. split; [vm_compute; reflexivity|].
  exact (buildSummaries_oldest_first sample_records sample_options 5000 sample_plans Hok).
Defined.

Lemma buildSummaries_total_witness :
  ((1 <= maxGroupSize sample_options)%Z
   /\ forall m, In m sample_records -> low_of (preserveImportanceThreshold sample_options) (category m) m = true ->
        (Z.abs (timestamp m) <= JsDate.MAX_TIME)%Z)
  /\ exists ps, buildSummaries sample_records sample_options 5000 = Ok ps.
Proof.
  assert (Hk : (1 <= maxGroupSize sample_options)%Z) by (vm_compute; discriminate).
  assert (Ht : forall m, In m sample_records -> low_of (preserveImportanceThreshold sample_options) (category m) m = true ->
                 (Z.abs (timestamp m) <= JsDate.MAX_TIME)%Z)
    by (intros m Hm _; repeat destruct Hm as [<-|Hm]; [..|destruct Hm]; vm_compute; discriminate).
  split; [split; [exact Hk|exact Ht]|].
  exact (buildSummaries_total sample_records sample_options 5000 Hk Ht).
Defined.

End Summarizer.
