(* ===== verification/Engine.v ===== *)
(** * The orchestrator: src/src/index.ts ([class MemoryEngine])

    The engine owns a store, a log and an embeddings client, the
    configuration read by its constructor, and the counter [walPending]
    of logged writes since the last flush.  Every public method is a
    computation of the state-and-error monad [st] of the prelude: an
    exception keeps the mutations done before it.

    The environment enters as arguments: [now] is the value of
    [Date.now()] during the call (one reading per call), and
    [crypto.randomUUID()] draws the next value of the generator
    [randomUUID] (a section variable) at the position [rng] of the
    engine state, which only moves forward. *)

From stdpp Require Import base list strings gmap fin_maps.
From Stdlib Require Import ZArith QArith Qminmax Lqa Ascii.
From Stdlib Require String.
From S2P Require Import Prelude JsString Types Store Wal Decay Embeddings Search JsDate Summarizer.

Module Engine.
Import Store Wal Embeddings.

(** [interface MemoryEngineOptions] *)
Record MemoryEngineOptions : Type := mkOptions {
  opt_dbPath : option string;
  opt_walPath : option string;
  opt_openaiApiKey : option string;
  opt_embeddingModel : option string;
  opt_decayRate : option Q;
  opt_summaryThreshold : option Z;
  opt_preserveImportanceThreshold : option Q
}.

(** The fields of [class MemoryEngine], and the state of the UUID source. *)
Record MemoryEngine : Type := mkEngine {
  store : SQLiteStore;
  wal : WriteAheadLog;
  embeddings : EmbeddingsClient;
  decayRate : Q;
  summaryThreshold : Z;
  preserveImportanceThreshold : Q;
  walFlushThreshold : nat;
  walPending : nat;
  rng : nat
}.

Definition set_store (s : SQLiteStore) (e : MemoryEngine) : MemoryEngine :=
  mkEngine s (wal e) (embeddings e) (decayRate e) (summaryThreshold e) (preserveImportanceThreshold e)
    (walFlushThreshold e) (walPending e) (rng e).

Definition set_wal (w : WriteAheadLog) (e : MemoryEngine) : MemoryEngine :=
  mkEngine (store e) w (embeddings e) (decayRate e) (summaryThreshold e) (preserveImportanceThreshold e)
    (walFlushThreshold e) (walPending e) (rng e).

Definition set_walPending (n : nat) (e : MemoryEngine) : MemoryEngine :=
  mkEngine (store e) (wal e) (embeddings e) (decayRate e) (summaryThreshold e) (preserveImportanceThreshold e)
    (walFlushThreshold e) n (rng e).

Definition set_rng (n : nat) (e : MemoryEngine) : MemoryEngine :=
  mkEngine (store e) (wal e) (embeddings e) (decayRate e) (summaryThreshold e) (preserveImportanceThreshold e)
    (walFlushThreshold e) (walPending e) n.

Definition EM (A : Type) : Type := st MemoryEngine MemoryError A.

Local Open Scope st_scope.

(** Store and log steps, lifted to the engine. *)
Definition on_store (f : SQLiteStore -> SQLiteStore) : EM unit :=
  st_modify (fun e => set_store (f (store e)) e).

Definition on_wal (f : WriteAheadLog -> WriteAheadLog) : EM unit :=
  st_modify (fun e => set_wal (f (wal e)) e).

Definition store_result {A} (f : SQLiteStore -> SQLiteStore * A) : EM A :=
  fun e => let '(s', a) := f (store e) in (set_store s' e, Ok a).

Definition store_try (f : SQLiteStore -> result MemoryError SQLiteStore) : EM unit :=
  fun e => match f (store e) with
           | Ok s' => (set_store s' e, Ok tt)
           | Err err => (e, Err err)
           end.

Definition boost (q d : Q) : Q := Qmin 1 (q + d).

(** [const CATEGORIES] and [assertValidInput(input)]; the parsed category
    is returned. *)
Definition assertValidInput (input : MemoryInput.t) : result MemoryError MemoryCategory :=
  if String.eqb (MemoryInput.content input) "" || String.eqb (trim (MemoryInput.content input)) ""
  then Err ContentRequired
  else if String.eqb (MemoryInput.category input) "" then Err CategoryRequired
  else match category_of_string (MemoryInput.category input) with
       | Some c => Ok c
       | None => Err (InvalidCategory (MemoryInput.category input))
       end.

Section Operations.
Context `{MathExp} `{MathSqrt}.
Variable randomUUID : nat -> string.

(** [flushWal()] *)
Definition flushWal : EM unit :=
  on_wal Wal.clear ;; st_modify (set_walPending 0).

(** [private maybeFlushWal()] *)
Definition maybeFlushWal : EM unit :=
  st_modify (fun e => set_walPending (S (walPending e)) e) ;;
  e <- st_get ;;
  if (walFlushThreshold e <=? walPending e)%nat then flushWal else st_ret tt.

(** [crypto.randomUUID()] *)
Definition nextUUID : EM string :=
  fun e => (set_rng (S (rng e)) e, Ok (randomUUID (rng e))).

(** [addMemory(input)] *)
Definition addMemory (now : Z) (input : MemoryInput.t) : EM MemoryRecord :=
  c <- st_lift (assertValidInput input) ;;
  let timestamp := default now (MemoryInput.timestamp input) in
  let lastAccessed := timestamp in
  let importance := default (1 # 2)%Q (MemoryInput.importance input) in
  let tags := default [] (MemoryInput.tags input) in
  e <- st_get ;;
  embedding <- st_lift (embedText (embeddings e) (MemoryInput.content input)) ;;
  i <- nextUUID ;;
  let memory := mkMemoryRecord i (trim (MemoryInput.content input)) c tags timestamp importance
                  embedding lastAccessed in
  on_wal (appendAdd now memory) ;;
  store_try (Store.addMemory memory) ;;
  maybeFlushWal ;;
  st_ret memory.

(** One access boost of a search hit. *)
Definition boost_hit (now : Z) (r : SearchResult) : EM unit :=
  let boosted := boost (importance (memory r)) (3 # 100)%Q in
  on_store (updateAccess (id (memory r)) now) ;;
  on_store (updateImportance (id (memory r)) boosted).

(** [search(query, options)] *)
Definition search (now : Z) (query : string) (o : SearchOptions.t) : EM (list SearchResult) :=
  if String.eqb query "" || String.eqb (trim query) "" then st_throw SearchQueryEmpty
  else
    e <- st_get ;;
    let o' := SearchOptions.mk (SearchOptions.limit o) (SearchOptions.category o) (SearchOptions.tags o)
                (Some (default query (SearchOptions.keyword o))) in
    results <- st_lift (Search.semanticSearch (store e) (embeddings e) query o') ;;
    st_for results (boost_hit now) ;;
    st_ret results.

(** [list(options)] (renamed: [list] is the list type) *)
Definition list_memories (o : ListOptions.t) : EM (list MemoryRecord) :=
  e <- st_get ;; st_lift (listMemories o (store e)).

(** [get(id)] *)
Definition get (now : Z) (i : string) : EM (option MemoryRecord) :=
  e <- st_get ;;
  match getMemory i (store e) with
  | None => st_ret None
  | Some m =>
      let boosted := boost (importance m) (2 # 100)%Q in
      on_store (updateAccess (id m) now) ;;
      on_store (updateImportance (id m) boosted) ;;
      st_ret (Some (with_importance (with_lastAccessed m now) boosted))
  end.

(** [delete(id)] *)
Definition delete (now : Z) (i : string) : EM bool :=
  if String.eqb i "" then st_throw IdRequired
  else
    on_wal (appendDelete now i) ;;
    removed <- store_result (deleteMemory i) ;;
    maybeFlushWal ;;
    st_ret removed.

(** [summarize()]; the planner runs with [maxGroupSize: 12]. *)
Definition apply_plan (now : Z) (acc : nat * nat) (plan : Summarizer.SummaryPlan) : EM (nat * nat) :=
  _ <- addMemory now (Summarizer.summary plan) ;;
  deleted <- st_fold (fun d i => removed <- delete now i ;; st_ret (if removed then S d else d))
               (Summarizer.sourceIds plan) (snd acc) ;;
  st_ret (S (fst acc), deleted).

Definition summarize (now : Z) : EM (nat * nat) :=
  e <- st_get ;;
  if (Z.of_nat (count (store e)) <? summaryThreshold e)%Z then st_ret (0%nat, 0%nat)
  else
    plans <- st_lift (Summarizer.buildSummaries (getAllMemories (store e))
                        (Summarizer.mkSummarizeOptions 12 (preserveImportanceThreshold e)) now) ;;
    st_fold (apply_plan now) plans (0%nat, 0%nat).

(** One step of the decay loop. *)
Definition decay_one (now : Z) (rate : Q) (updated : nat) (memory : MemoryRecord) : EM nat :=
  let decayed := applyDecay memory now (mkDecayOptions rate (5 # 100)%Q) in
  if negb (Qeq_bool (importance decayed) (importance memory)) then
    on_store (updateImportance (id memory) (importance decayed)) ;; st_ret (S updated)
  else st_ret updated.

Definition MS_PER_YEAR : Z := 1000 * 60 * 60 * 24 * 365.

(** [decay()] *)
Definition decay (now : Z) : EM (nat * nat) :=
  e <- st_get ;;
  updated <- st_fold (decay_one now (decayRate e)) (getAllMemories (store e)) 0%nat ;;
  pruned <- store_result (pruneBelowImportance (1 # 10)%Q (now - MS_PER_YEAR)) ;;
  st_ret (updated, pruned).

(** [health()] *)
Definition health : EM HealthStatus :=
  e <- st_get ;;
  st_ret (mkHealthStatus true (count (store e)) (Store.path (store e)) (Wal.path (wal e))).

(** One entry of [recoverWal]: the two [if]s of the loop body. *)
Definition replay_entry (s : SQLiteStore) (en : WalEntry.t) : SQLiteStore :=
  let s1 := match WalEntry.op en, WalEntry.memory en with
            | op_add, Some m => upsertMemory m s
            | _, _ => s
            end in
  match WalEntry.op en, WalEntry.id en with
  | op_delete, Some i => if String.eqb i "" then s1 else (deleteMemory i s1).1
  | _, _ => s1
  end.

Definition replay (entries : list WalEntry.t) (s : SQLiteStore) : SQLiteStore :=
  fold_left replay_entry entries s.

(** [private recoverWal()] *)
Definition recoverWal : EM unit :=
  e <- st_get ;;
  let entries := readAll (wal e) in
  if (length entries =? 0)%nat then st_ret tt
  else on_store (replay entries) ;; flushWal.

End Operations.

(** The process environment the constructor reads. *)
Record Environment : Type := mkEnvironment {
  env_MEMORY_DB_PATH : option string;
  env_OPENAI_API_KEY : option string;
  DEFAULT_DB_PATH : string;
  DEFAULT_WAL_PATH : string;
  embedding_service : string -> string -> option (list Q)
}.

(** [constructor(options)]: the store and log files are opened with what
    they hold on disk ([disk_rows], [disk_wal]; a missing log file is
    [None]), then the log is replayed. *)
Definition create (randomUUID : nat -> string) (o : MemoryEngineOptions) (env : Environment)
    (disk_rows : list MemoryRecord) (disk_wal : option (list WalEntry.t)) (rng0 : nat)
    : MemoryEngine * result MemoryError unit :=
  let dbPath := default (default (DEFAULT_DB_PATH env) (env_MEMORY_DB_PATH env)) (opt_dbPath o) in
  let walPath := default (DEFAULT_WAL_PATH env) (opt_walPath o) in
  let apiKey := default (default "" (env_OPENAI_API_KEY env)) (opt_openaiApiKey o) in
  let model := default "text-embedding-3-small" (opt_embeddingModel o) in
  let e0 := mkEngine (mkStore dbPath disk_rows) (open_log walPath disk_wal)
              (new_client apiKey model (embedding_service env))
              (default (5 # 100)%Q (opt_decayRate o)) (default 200%Z (opt_summaryThreshold o))
              (default (7 # 10)%Q (opt_preserveImportanceThreshold o)) 20 0 rng0 in
  recoverWal e0.

Local Close Scope st_scope.

(** ** Functional behaviour of the operations *)

#[local] Arguments Store.updateImportance : simpl never.
#[local] Arguments Store.updateAccess : simpl never.
#[local] Arguments Store.deleteMemory : simpl never.
#[local] Arguments Store.upsertMemory : simpl never.
#[local] Arguments Store.pruneBelowImportance : simpl never.
#[local] Arguments Store.getMemory : simpl never.
#[local] Arguments Wal.appendAdd : simpl never.
#[local] Arguments Wal.appendDelete : simpl never.

Ltac em_unfold :=
  unfold EM, maybeFlushWal, flushWal, nextUUID, on_store, on_wal, store_try, store_result,
    st_bind, st_ret, st_lift, st_get, st_modify, st_throw in *; simpl in *.

Section Behaviour.
Context `{MathExp} `{MathSqrt}.
Variable randomUUID : nat -> string.

Definition new_record (now : Z) (input : MemoryInput.t) (c : MemoryCategory) (i : string) (v : list Q)
    : MemoryRecord :=
  mkMemoryRecord i (trim (MemoryInput.content input)) c (default [] (MemoryInput.tags input))
    (default now (MemoryInput.timestamp input)) (default (1 # 2)%Q (MemoryInput.importance input)) v
    (default now (MemoryInput.timestamp input)).

(** The log and counter after one logged write [en]. *)
Definition logged (e : MemoryEngine) (en : WalEntry.t) (w : list WalEntry.t) (pending : nat) : Prop :=
  if (walFlushThreshold e <=? S (walPending e))%nat then w = [] /\ pending = 0%nat
  else w = entries (wal e) ++ [en] /\ pending = S (walPending e).

(** C8 A rejected input or an embedding failure aborts [addMemory]
    before any mutation: the engine state is unchanged and the error is
    returned (no key gives the key error, an empty response the
    embedding error). *)
Theorem addMemory_abort now input e err :
  (assertValidInput input = Err err
   \/ exists c, assertValidInput input = Ok c /\ embedText (embeddings e) (MemoryInput.content input) = Err err) ->
  addMemory randomUUID now input e = (e, Err err).
Proof.
  unfold addMemory. em_unfold. intros [->|[c [-> ->]]]; reflexivity.
Qed.

(** C7 A successful [addMemory] with a fresh id stores the new record
    (trimmed content, defaults 0.5, no tags and [now]), logs it first
    and counts the write: the log is cleared and the counter reset when
    the counter reaches the flush threshold, otherwise the entry is
    appended. *)
Theorem addMemory_spec now input e c v :
  assertValidInput input = Ok c ->
  embedText (embeddings e) (MemoryInput.content input) = Ok v ->
  to_map (rows (store e)) !! randomUUID (rng e) = None ->
  exists e', addMemory randomUUID now input e = (e', Ok (new_record now input c (randomUUID (rng e)) v))
    /\ to_map (rows (store e')) = <[randomUUID (rng e) := new_record now input c (randomUUID (rng e)) v]> (to_map (rows (store e)))
    /\ rng e' = S (rng e)
    /\ logged e (WalEntry.mk op_add (Some (new_record now input c (randomUUID (rng e)) v)) None now)
         (entries (wal e')) (walPending e').
Proof.
  intros Hv He Hf. unfold addMemory. em_unfold. rewrite Hv, He. simpl.
  unfold Store.addMemory. simpl. apply to_map_lookup_None in Hf. rewrite Hf. simpl.
  unfold logged. destruct (walFlushThreshold e <=? S (walPending e))%nat eqn:Ht; simpl.
  - eexists. split; [reflexivity|]. simpl. split; [by apply to_map_snoc|]. done.
  - eexists. split; [reflexivity|]. simpl. split; [by apply to_map_snoc|]. done.
Qed.

(** C18 [get] of a missing id returns [None] and changes nothing; of a
    present id it raises the importance by 0.02 capped at 1, sets
    [lastAccessed] to now, and returns exactly the record now stored. *)
Theorem get_spec now i e :
  match to_map (rows (store e)) !! i with
  | None => get now i e = (e, Ok None)
  | Some m =>
      exists e', get now i e = (e', Ok (Some (with_importance (with_lastAccessed m now) (boost (importance m) (2 # 100)))))
        /\ to_map (rows (store e')) = <[i := with_importance (with_lastAccessed m now) (boost (importance m) (2 # 100))]> (to_map (rows (store e)))
        /\ getMemory i (store e') = Some (with_importance (with_lastAccessed m now) (boost (importance m) (2 # 100)))
  end.
Proof.
  unfold get. em_unfold. rewrite <- getMemory_refines.
  destruct (getMemory i (store e)) as [m|] eqn:Hg; [|done].
  assert (Hid : id m = i) by (unfold getMemory in Hg; apply List.find_some in Hg as [_ Hh]; by apply has_id_true in Hh).
  eexists. split; [reflexivity|]. rewrite getMemory_refines in Hg.
  assert (Hmap : to_map (rows (updateImportance (id m) (boost (importance m) (2 # 100))
                   (updateAccess (id m) now (store e)))) =
                 <[i := with_importance (with_lastAccessed m now) (boost (importance m) (2 # 100))]> (to_map (rows (store e)))).
  { rewrite to_map_updateImportance, to_map_updateAccess, Hid.
    apply map_eq. intros j. destruct (decide (i = j)) as [<-|Hne].
    - by rewrite lookup_alter_eq, lookup_alter_eq, Hg, lookup_insert_eq.
    - by rewrite lookup_alter_ne, lookup_alter_ne, lookup_insert_ne. }
  split; [exact Hmap|]. rewrite getMemory_refines.
  exact (eq_trans (f_equal (fun M => M !! i) Hmap) (lookup_insert_eq _ _ _)).
Qed.

(** C9 [delete] of the empty id throws and changes nothing; otherwise it
    logs the delete before removing the row, counts the write like
    [addMemory], and returns whether a row was removed. *)
Theorem delete_spec now i e :
  (i = "" -> delete now i e = (e, Err IdRequired))
  /\ (i <> "" -> exists e', delete now i e = (e', Ok (bool_decide (is_Some (to_map (rows (store e)) !! i))))
        /\ to_map (rows (store e')) = stdpp.base.delete i (to_map (rows (store e)))
        /\ logged e (WalEntry.mk op_delete None (Some i) now) (entries (wal e')) (walPending e')).
Proof.
  split.
  - intros ->. reflexivity.
  - intros Hi. unfold delete. em_unfold. destruct (String.eqb_spec i ""); [done|]. simpl.
    pose proof (deleteMemory_removed i (store e)) as Hb.
    unfold logged. destruct (walFlushThreshold e <=? S (walPending e))%nat eqn:Ht; simpl;
      (eexists; split; [rewrite <- Hb; reflexivity|]); simpl; (split; [apply to_map_deleteMemory|done]).
Qed.

(** The configuration fields, which no operation changes. *)
Definition config_of (e : MemoryEngine) : EmbeddingsClient * Q * Z * Q * nat :=
  (embeddings e, decayRate e, summaryThreshold e, preserveImportanceThreshold e, walFlushThreshold e).

Lemma addMemory_effect now input e e' m :
  addMemory randomUUID now input e = (e', Ok m) ->
  to_map (rows (store e')) = <[id m := m]> (to_map (rows (store e)))
  /\ logged e (WalEntry.mk op_add (Some m) None now) (entries (wal e')) (walPending e')
  /\ rng e' = S (rng e) /\ id m = randomUUID (rng e)
  /\ (Store.wf (store e) -> Store.wf (store e')) /\ config_of e' = config_of e
  /\ (forall r, In r (rows (store e')) -> In r (rows (store e)) \/ r = m)
  /\ exists c v, assertValidInput input = Ok c /\ m = new_record now input c (randomUUID (rng e)) v.
Proof.
  unfold addMemory. em_unfold.
  destruct (assertValidInput input) as [c|err] eqn:Hv; [|done].
  destruct (embedText (embeddings e) (MemoryInput.content input)) as [v|err]; [|done].
  unfold Store.addMemory. simpl.
  destruct (existsb _ _) eqn:Hex; [done|]. simpl.
  unfold logged. destruct (walFlushThreshold e <=? S (walPending e))%nat; simpl;
    intros H'; injection H' as <- <-; simpl;
    (split; [by apply to_map_snoc|]); (split; [done|]); (split; [done|]); (split; [done|]);
    (split; [intros Hwf; by apply NoDup_map_id_snoc|]); (split; [done|]);
    (split; [intros r Hr; apply in_app_or in Hr as [?|[?|[]]]; [by left|by right]|]); eauto.
Qed.

(** With a fresh identifier the only failures of [addMemory] are the
    validation and embedding errors, which leave the state unchanged. *)
Lemma addMemory_error_unchanged now input e e' err :
  to_map (rows (store e)) !! randomUUID (rng e) = None ->
  addMemory randomUUID now input e = (e', Err err) -> e' = e.
Proof.
  intros Hf. unfold addMemory. em_unfold.
  destruct (assertValidInput input) as [c|err'] eqn:Hv; [|congruence].
  destruct (embedText (embeddings e) (MemoryInput.content input)) as [v|err']; [|congruence].
  unfold Store.addMemory. simpl. apply to_map_lookup_None in Hf. rewrite Hf. simpl.
  destruct (walFlushThreshold e <=? S (walPending e))%nat; done.
Qed.

Lemma delete_effect now i e e' b :
  delete now i e = (e', Ok b) ->
  i <> "" /\ to_map (rows (store e')) = stdpp.base.delete i (to_map (rows (store e)))
  /\ logged e (WalEntry.mk op_delete None (Some i) now) (entries (wal e')) (walPending e')
  /\ rng e' = rng e /\ (Store.wf (store e) -> Store.wf (store e')) /\ config_of e' = config_of e
  /\ (forall r, In r (rows (store e')) -> In r (rows (store e))).
Proof.
  unfold delete. em_unfold. destruct (String.eqb_spec i ""); [done|]. simpl.
  unfold logged. destruct (walFlushThreshold e <=? S (walPending e))%nat; simpl;
    intros H'; injection H' as <- <-; simpl; (split; [done|]); (split; [apply to_map_deleteMemory|]);
    (split; [done|]); (split; [done|]); (split; [apply wf_deleteMemory|]); (split; [done|]);
    intros r Hr; apply filter_In in Hr; tauto.
Qed.

Lemma delete_error_unchanged now i e e' err : delete now i e = (e', Err err) -> e' = e.
Proof.
  unfold delete. em_unfold. destruct (String.eqb_spec i ""); [congruence|]. simpl.
  destruct (walFlushThreshold e <=? S (walPending e))%nat; done.
Qed.

Lemma recoverWal_spec e :
  recoverWal e = (fst (recoverWal e), Ok tt)
  /\ store (fst (recoverWal e)) = replay (entries (wal e)) (store e)
  /\ entries (wal (fst (recoverWal e))) = []
  /\ rng (fst (recoverWal e)) = rng e.
Proof.
  unfold recoverWal, readAll. em_unfold.
  destruct (entries (wal e)) eqn:E; simpl; [by rewrite E|]. done.
Qed.

End Behaviour.

End Engine.

(** ** Concrete runs

    A UUID source that numbers its draws, an environment whose embedding
    service returns [[1; 0]], and the engine constructed over empty
    files. *)

Module EngineExamples.
Import Store Wal Embeddings Engine.

Definition test_uuid (n : nat) : string :=
  String.append "mem-" (String.string_of_list_ascii (repeat "x"%char n)).

Definition test_env : Environment :=
  mkEnvironment None (Some "sk-test") "memory.db" "memory.wal" (fun _ _ => Some [1; 0]%Q).

Definition default_options : MemoryEngineOptions := mkOptions None None None None None None None.

(** A fresh engine over empty files. *)
Definition fresh_engine : MemoryEngine := fst (create test_uuid default_options test_env [] None 0).

Definition importance_of (i : string) (e : MemoryEngine) : option Q :=
  importance <$> getMemory i (store e).

(** Equality of optional rationals by value. *)
Definition opt_Qeq (a b : option Q) : Prop :=
  match a, b with
  | Some x, Some y => Qeq_bool x y = true
  | None, None => True
  | _, _ => False
  end.

Definition pref_input : MemoryInput.t :=
  MemoryInput.mk "Abdullah prefers Arabic communication" "preference"
    (Some ["language"; "communication"]) None (Some (8 # 10)%Q).

Definition blank_input : MemoryInput.t := MemoryInput.mk "   " "fact" None None None.

Lemma addMemory_abort_witness :
  (assertValidInput blank_input = Err ContentRequired
   \/ exists c, assertValidInput blank_input = Ok c
                /\ embedText (embeddings fresh_engine) (MemoryInput.content blank_input) = Err ContentRequired)
  /\ addMemory test_uuid 1000 blank_input fresh_engine = (fresh_engine, Err ContentRequired).
Proof.
  assert (H : assertValidInput blank_input = Err ContentRequired
              \/ exists c, assertValidInput blank_input = Ok c
                 /\ embedText (embeddings fresh_engine) (MemoryInput.content blank_input) = Err ContentRequired)
    by (left; reflexivity).
  split; [exact H | exact (addMemory_abort test_uuid 1000 blank_input fresh_engine ContentRequired H)].
Defined.

Lemma addMemory_spec_witness :
  (assertValidInput pref_input = Ok preference
   /\ embedText (embeddings fresh_engine) (MemoryInput.content pref_input) = Ok [1; 0]%Q
   /\ to_map (rows (store fresh_engine)) !! test_uuid (rng fresh_engine) = None)
  /\ exists e', addMemory test_uuid 1000 pref_input fresh_engine
                = (e', Ok (new_record 1000 pref_input preference (test_uuid (rng fresh_engine)) [1; 0]%Q))
    /\ to_map (rows (store e')) = <[test_uuid (rng fresh_engine) := new_record 1000 pref_input preference (test_uuid (rng fresh_engine)) [1; 0]%Q]> (to_map (rows (store fresh_engine)))
    /\ rng e' = S (rng fresh_engine)
    /\ logged fresh_engine (WalEntry.mk op_add (Some (new_record 1000 pref_input preference (test_uuid (rng fresh_engine)) [1; 0]%Q)) None 1000)
         (entries (wal e')) (walPending e').
Proof.
  assert (H1 : assertValidInput pref_input = Ok preference) by reflexivity.
  assert (H2 : embedText (embeddings fresh_engine) (MemoryInput.content pref_input) = Ok [1; 0]%Q) by reflexivity.
  assert (H3 : to_map (rows (store fresh_engine)) !! test_uuid (rng fresh_engine) = None) by reflexivity.
  split; [split; [exact H1|split; [exact H2|exact H3]]|].
  exact (addMemory_spec test_uuid 1000 pref_input fresh_engine preference [1; 0]%Q H1 H2 H3).
Defined.

(** [delete] rejects only the empty id: a blank id is logged as a
    delete intent and counted, and the call returns [false]. *)
Example delete_blank_id_logged :
  let '(e1, r) := delete 1000 " " fresh_engine in
  r = Ok false /\ length (entries (wal e1)) = 1%nat /\ walPending e1 = 1%nat.
Proof. vm_compute. repeat split. Qed.

End EngineExamples.
