(* ===== verification/Recovery.v ===== *)
(** * Log replay and crash recovery ([recoverWal] of src/src/index.ts)

    The replay of the log is specified on the abstract table (a finite
    map): an add entry inserts its record, a delete entry with a
    non-empty id removes it.  The replay of the row list refines it;
    the abstract replay is idempotent, which is what makes recovery
    after a crash between the log append and the store write correct for
    the logged operations ([addMemory], [delete]).  The unlogged
    mutations ([get] and [search] boosts, [decay] updates and pruning)
    are not covered: a restart replays the add entries still in the log
    over them. *)

From stdpp Require Import base list strings gmap fin_maps.
From Stdlib Require Import ZArith QArith Ascii.
From Stdlib Require String.
From S2P Require Import Prelude JsString Types Store Wal Decay Embeddings Search Summarizer Engine.

Module Recovery.
Import Store Wal Engine.

(** ** The abstract replay *)

Abbreviation Table := (gmap string MemoryRecord) (only parsing).

Definition replay_map_entry (m : Table) (en : WalEntry.t) : Table :=
  let m1 := match WalEntry.op en, WalEntry.memory en with
            | op_add, Some r => <[id r := r]> m
            | _, _ => m
            end in
  match WalEntry.op en, WalEntry.id en with
  | op_delete, Some i => if String.eqb i "" then m1 else stdpp.base.delete i m1
  | _, _ => m1
  end.

Definition replay_map (m : Table) (es : list WalEntry.t) : Table := fold_left replay_map_entry es m.

(** Which key an entry writes, and what it writes there. *)
Definition entry_effect (en : WalEntry.t) (k : string) : option (option MemoryRecord) :=
  match WalEntry.op en, WalEntry.memory en, WalEntry.id en with
  | op_add, Some r, _ => if String.eqb (id r) k then Some (Some r) else None
  | op_delete, _, Some i => if String.eqb i "" then None else if String.eqb i k then Some None else None
  | _, _, _ => None
  end.

(** The last write of the log to key [k], if any. *)
Definition last_write (es : list WalEntry.t) (k : string) : option (option MemoryRecord) :=
  fold_left (fun acc en => match entry_effect en k with Some v => Some v | None => acc end) es None.

Lemma replay_entry_refines s en :
  to_map (rows (replay_entry s en)) = replay_map_entry (to_map (rows s)) en.
Proof.
  destruct en as [[|] [r|] [i|] ts]; unfold replay_entry, replay_map_entry;
    cbn [WalEntry.op WalEntry.memory WalEntry.id]; rewrite ?to_map_upsertMemory; try done;
    destruct (String.eqb i ""); rewrite ?to_map_deleteMemory; done.
Qed.

(** Refinement of the replay loop: replaying the log over the rows
    gives the table of the abstract replay. *)
Lemma replay_to_map es s : to_map (rows (replay es s)) = replay_map (to_map (rows s)) es.
Proof.
  unfold replay, replay_map. revert s. induction es as [|en es IH]; intros s; simpl; [done|].
  by rewrite IH, replay_entry_refines.
Qed.

Lemma replay_map_entry_lookup m en k :
  replay_map_entry m en !! k = match entry_effect en k with Some v => v | None => m !! k end.
Proof.
  destruct en as [[|] [r|] [i|] ts]; unfold replay_map_entry, entry_effect;
    cbn [WalEntry.op WalEntry.memory WalEntry.id]; try done.
  all: try (destruct (String.eqb_spec (id r) k) as [<-|Hne];
            [apply lookup_insert_eq|by apply lookup_insert_ne]).
  all: destruct (String.eqb i ""); [done|].
  all: destruct (String.eqb_spec i k) as [<-|Hne]; [apply lookup_delete_eq|by apply lookup_delete_ne].
Qed.

Lemma replay_map_lookup m es k :
  replay_map m es !! k = match last_write es k with Some v => v | None => m !! k end.
Proof.
  unfold replay_map, last_write. induction es as [|en es IH] using rev_ind; simpl; [done|].
  rewrite !fold_left_app. simpl. rewrite replay_map_entry_lookup, IH.
  by destruct (entry_effect en k).
Qed.

(** Replay is idempotent: replaying the same log twice gives the
    table of replaying it once, whatever the starting table; so a log
    whose writes already reached the store can be replayed again. *)
Lemma replay_map_idempotent m es : replay_map (replay_map m es) es = replay_map m es.
Proof.
  apply map_eq. intros k. rewrite !replay_map_lookup.
  by destruct (last_write es k).
Qed.

Lemma replay_map_app m es es' : replay_map m (es ++ es') = replay_map (replay_map m es) es'.
Proof. apply fold_left_app. Qed.

(** Replaying [es] over a table that differs from a replay of [es] only
    at key [k], then writing [k] again, gives the replay with that write. *)
Lemma replay_map_over_insert base es k r :
  <[k := r]> (replay_map (<[k := r]> (replay_map base es)) es) = <[k := r]> (replay_map base es).
Proof.
  apply map_eq. intros j. destruct (decide (k = j)) as [<-|Hne]; [by rewrite !lookup_insert_eq|].
  rewrite !lookup_insert_ne by done. rewrite !replay_map_lookup.
  destruct (last_write es j) eqn:E; [done|]. rewrite lookup_insert_ne by done.
  by rewrite replay_map_lookup, E.
Qed.

Lemma replay_map_over_delete base es k :
  stdpp.base.delete k (replay_map (stdpp.base.delete k (replay_map base es)) es)
  = stdpp.base.delete k (replay_map base es).
Proof.
  apply map_eq. intros j. destruct (decide (k = j)) as [<-|Hne]; [by rewrite !lookup_delete_eq|].
  rewrite !lookup_delete_ne by done. rewrite !replay_map_lookup.
  destruct (last_write es j) eqn:E; [done|]. rewrite lookup_delete_ne by done.
  by rewrite replay_map_lookup, E.
Qed.

(** ** Crash consistency of the logged writes *)

(** The table a restart recovers from a store and a log file. *)
Definition recovered (s : SQLiteStore) (w : list WalEntry.t) : Table := to_map (rows (replay w s)).

Lemma recovered_lookup s es k :
  recovered s es !! k = match last_write es k with Some v => v | None => to_map (rows s) !! k end.
Proof. unfold recovered. by rewrite replay_to_map, replay_map_lookup. Qed.

(** C19 What the constructor's replay recovers, key by key: the last
    write the log holds for the key (an add entry's record, or absence
    after a delete entry with a non-empty id) wins, and a key the log
    does not write keeps the row the store has.  Replaying again over
    the replayed store (a crash during recovery, before the log was
    cleared) recovers the same table. *)
Theorem replay_last_write_wins es s :
  (forall k, recovered s es !! k = match last_write es k with Some v => v | None => to_map (rows s) !! k end)
  /\ recovered (replay es s) es = recovered s es.
Proof.
  split; [apply recovered_lookup|].
  unfold recovered. rewrite !replay_to_map. apply replay_map_idempotent.
Qed.

(** The log explains the store: the store is the replay of the log over
    the table of the last flush. *)
Definition log_consistent (e : MemoryEngine) : Prop :=
  exists base, to_map (rows (store e)) = replay_map base (entries (wal e)).

Lemma recovered_consistent e : log_consistent e ->
  recovered (store e) (entries (wal e)) = to_map (rows (store e)).
Proof.
  intros [base Hb]. unfold recovered. rewrite replay_to_map, Hb. apply replay_map_idempotent.
Qed.

Lemma recovered_snoc s w en : recovered s (w ++ [en]) = replay_map_entry (recovered s w) en.
Proof. unfold recovered. by rewrite !replay_to_map, replay_map_app. Qed.

Section Crash.
Context `{MathExp} `{MathSqrt}.
Variable randomUUID : nat -> string.

(** C2 Crash consistency of [addMemory]: from a state whose log explains
    its store, a restart after a crash at any point of the write recovers
    either the table before the call (crash before the log append) or
    the table after it (crash between the log append and the store
    write, after the store write, or after the call), and the state after
    the call is again explained by its log. *)
Theorem addMemory_crash_recovery now input e e' m :
  log_consistent e -> addMemory randomUUID now input e = (e', Ok m) ->
  let en := WalEntry.mk op_add (Some m) None now in
  recovered (store e) (entries (wal e)) = to_map (rows (store e))
  /\ recovered (store e) (entries (wal e) ++ [en]) = to_map (rows (store e'))
  /\ recovered (store e') (entries (wal e) ++ [en]) = to_map (rows (store e'))
  /\ recovered (store e') (entries (wal e')) = to_map (rows (store e'))
  /\ log_consistent e'.
Proof.
  intros Hc Hadd en. destruct (addMemory_effect randomUUID now input e e' m Hadd) as (Hmap & Hlog & _).
  pose proof (recovered_consistent e Hc) as H1. destruct Hc as [base Hb].
  assert (H3 : recovered (store e') (entries (wal e) ++ [en]) = to_map (rows (store e'))).
  { unfold recovered. rewrite replay_to_map, replay_map_app, Hmap, Hb. simpl.
    apply replay_map_over_insert. }
  split; [done|]. split.
  - rewrite recovered_snoc, H1, Hmap. done.
  - split; [done|]. unfold logged, log_consistent in *.
    destruct (walFlushThreshold e <=? S (walPending e))%nat; destruct Hlog as [-> _].
    + split; [reflexivity|]. exists (to_map (rows (store e'))). reflexivity.
    + split; [done|]. exists base. rewrite replay_map_app, <- Hb, Hmap. reflexivity.
Qed.

(** C3 Crash consistency of [delete]: the same four crash points recover
    the table before or after the deletion. *)
Theorem delete_crash_recovery now i e e' b :
  log_consistent e -> delete now i e = (e', Ok b) ->
  let en := WalEntry.mk op_delete None (Some i) now in
  recovered (store e) (entries (wal e) ++ [en]) = to_map (rows (store e'))
  /\ recovered (store e') (entries (wal e) ++ [en]) = to_map (rows (store e'))
  /\ recovered (store e') (entries (wal e')) = to_map (rows (store e'))
  /\ log_consistent e'.
Proof.
  intros Hc Hdel en. destruct (delete_effect now i e e' b Hdel) as (Hi & Hmap & Hlog & _).
  pose proof (recovered_consistent e Hc) as H1. destruct Hc as [base Hb].
  assert (Hen : forall M, replay_map_entry M en = stdpp.base.delete i M).
  { intros M. unfold replay_map_entry. simpl. by destruct (String.eqb_spec i ""). }
  assert (H3 : recovered (store e') (entries (wal e) ++ [en]) = to_map (rows (store e'))).
  { unfold recovered. rewrite replay_to_map, replay_map_app, Hmap, Hb. unfold replay_map at 1. simpl.
    rewrite Hen. apply replay_map_over_delete. }
  split; [rewrite recovered_snoc, H1, Hmap; apply Hen|].
  split; [done|]. unfold logged, log_consistent in *.
  destruct (walFlushThreshold e <=? S (walPending e))%nat; destruct Hlog as [-> _].
  - split; [reflexivity|]. exists (to_map (rows (store e'))). reflexivity.
  - split; [done|]. exists base. rewrite replay_map_app, <- Hb, Hmap. unfold replay_map. simpl. by rewrite Hen.
Qed.

End Crash.

(** ** What a restart does to the unlogged writes *)

Module RestartScenarios.
Import Embeddings EngineExamples.

(** A restart undoes the importance boost of [get]: the boost is
    written to the store but not logged, and the next construction of
    the engine recovers the table by replaying the logged add over it
    (the log was not flushed: fewer than 20 writes, and [close] does
    not flush). *)
Example restart_reverts_get_boost :
  let e1 := fst (addMemory test_uuid 1000 pref_input fresh_engine) in
  let e2 := fst (get 2000 (test_uuid 0) e1) in
  opt_Qeq (importance_of (test_uuid 0) e2) (Some (82 # 100)%Q)
  /\ opt_Qeq (importance <$> recovered (store e2) (entries (wal e2)) !! test_uuid 0) (Some (8 # 10)%Q).
Proof. vm_compute. split; reflexivity. Qed.

Definition old_input : MemoryInput.t :=
  MemoryInput.mk "stale note" "episode" None (Some 0%Z) (Some (5 # 100)%Q).

(** A restart resurrects a record pruned by [decay]: pruning deletes
    the row without logging, and the replay of the still-logged add
    inserts it again. *)
Example restart_resurrects_pruned :
  let year := Engine.MS_PER_YEAR in
  let e1 := fst (addMemory test_uuid 0 old_input fresh_engine) in
  let e2 := fst (decay (2 * year) e1) in
  let e3 := fst (recoverWal e2) in
  count (store e1) = 1%nat /\ count (store e2) = 0%nat /\ count (store e3) = 1%nat.
Proof. vm_compute. split; [|split]; reflexivity. Qed.

(** The record [addMemory] stores for [pref_input] on the fresh engine. *)
Definition pref_record : MemoryRecord := new_record 1000 pref_input preference (test_uuid 0) [1; 0]%Q.

Definition after_add : MemoryEngine := fst (addMemory test_uuid 1000 pref_input fresh_engine).

Lemma addMemory_crash_recovery_witness :
  (log_consistent fresh_engine /\ addMemory test_uuid 1000 pref_input fresh_engine = (after_add, Ok pref_record))
  /\ let en := WalEntry.mk op_add (Some pref_record) None 1000 in
  recovered (store fresh_engine) (entries (wal fresh_engine)) = to_map (rows (store fresh_engine))
  /\ recovered (store fresh_engine) (entries (wal fresh_engine) ++ [en]) = to_map (rows (store after_add))
  /\ recovered (store after_add) (entries (wal fresh_engine) ++ [en]) = to_map (rows (store after_add))
  /\ recovered (store after_add) (entries (wal after_add)) = to_map (rows (store after_add))
  /\ log_consistent after_add.
Proof.
  assert (H1 : log_consistent fresh_engine) by (exists ∅; reflexivity).
  assert (H2 : addMemory test_uuid 1000 pref_input fresh_engine = (after_add, Ok pref_record))
    by (vm_compute; reflexivity).
  split; [split; [exact H1|exact H2]|].
  exact (addMemory_crash_recovery test_uuid 1000 pref_input fresh_engine after_add pref_record H1 H2).
Defined.

Lemma delete_crash_recovery_witness :
  (log_consistent after_add
   /\ delete 2000 (test_uuid 0) after_add = (fst (delete 2000 (test_uuid 0) after_add), Ok true))
  /\ let en := WalEntry.mk op_delete None (Some (test_uuid 0)) 2000 in
  let e' := fst (delete 2000 (test_uuid 0) after_add) in
  recovered (store after_add) (entries (wal after_add) ++ [en]) = to_map (rows (store e'))
  /\ recovered (store e') (entries (wal after_add) ++ [en]) = to_map (rows (store e'))
  /\ recovered (store e') (entries (wal e')) = to_map (rows (store e'))
  /\ log_consistent e'.
Proof.
  assert (H1 : log_consistent after_add) by (exists ∅; vm_compute; reflexivity).
  assert (H2 : delete 2000 (test_uuid 0) after_add = (fst (delete 2000 (test_uuid 0) after_add), Ok true))
    by (vm_compute; reflexivity).
  split; [split; [exact H1|exact H2]|].
  exact (delete_crash_recovery 2000 (test_uuid 0) after_add _ true H1 H2).
Defined.

End RestartScenarios.

End Recovery.
