(* ===== verification/WalCrash.v ===== *)
(** * A crash during [append]: the torn log file and the restart

    [appendFileSync] of wal.ts is not atomic: a crash while it runs
    leaves the file with the first [n] characters of the new line
    ([torn_append_text]).  [readAll_torn_append] computes what
    [readAll] then returns for every [n]: the old entries when nothing
    was written, the old entries and the new one once the JSON text is
    complete (with or without its newline), and a thrown SyntaxError
    for every cut inside the JSON text, since a proper prefix of an
    object never parses ([JsonParse.parse_torn_object]). *)

From stdpp Require Import base list.
From Stdlib Require Import ZArith QArith String Ascii.
From stdpp Require Import gmap.
From S2P Require Import Prelude JsString Decimal JsNumber Json JsonParse Types Store Wal WalFile Decay Embeddings Search Summarizer Engine Recovery.

Local Open Scope string_scope.

Module WalCrash.
Import WalFile Store Wal Engine Recovery.

(** The file after a crash that kept the first [n] characters of the
    line [append(entry)] writes. *)
Definition torn_append_text (e : WalEntry.t) (n : nat) (content : string) : string :=
  content ++ substring 0 n (line e).

(** What [readAll] returns on that file: nothing written, a cut inside
    the JSON text (the SyntaxError), or the whole text written. *)
Definition torn_outcome (w : Wal.WriteAheadLog) (e : WalEntry.t) (n : nat) : option (list WalEntry.t) :=
  if (n =? 0)%nat then Some (Wal.readAll w)
  else if (n <? String.length (stringify (entry_json e)))%nat then None
  else Some (Wal.readAll (Wal.append e w)).

(** ** The text of the torn file *)

Lemma substring0_firstn n s : list_ascii_of_string (substring 0 n s) = firstn n (list_ascii_of_string s).
Proof. revert n. induction s as [|c s IH]; intros [|n]; cbn; rewrite ?IH; reflexivity. Qed.

Lemma string_length_chars s : String.length s = List.length (list_ascii_of_string s).
Proof. induction s as [|c s IH]; cbn; auto. Qed.

Lemma split_chars_nosep sep t cur : ~ In sep t -> split_chars sep t cur = [(rev cur ++ t)%list].
Proof.
  revert cur. induction t as [|c t IH]; intros cur Ht; cbn; [by rewrite app_nil_r|].
  destruct (Ascii.eqb_spec c sep) as [->|Hc]; [destruct Ht; by left|].
  rewrite IH by (intros H; apply Ht; by right). cbn. by rewrite <- app_assoc.
Qed.

Lemma split_lines_tail es t :
  Forall (fun e => entry_ok e = true) es ->
  split_chars newline (List.concat (map list_ascii_of_string (map line es)) ++ t) []
  = (map (fun e => list_ascii_of_string (stringify (entry_json e))) es ++ split_chars newline t [])%list.
Proof.
  induction 1 as [|e es He _ IH]; [reflexivity|].
  cbn [map List.concat]. rewrite line_text, <- !app_assoc. cbn [app].
  rewrite split_chars_line, IH; [reflexivity|].
  apply newline_not_printable, printable_stringify, entry_json_ok, He.
Qed.

(** The log text read as entries is the abstract log. *)
Lemma readAll_entries_file w :
  Forall (fun e => entry_ok e = true) (Wal.entries w) -> readAll_entries (Some (file_text w)) = Some (Wal.readAll w).
Proof.
  intros Hok. unfold readAll_entries. rewrite readAll_text_file by exact Hok.
  cbn [mbind option_bind]. apply mapM_map_Some, entry_of_json_entry_json.
Qed.

(** The lines of a log text followed by an unterminated line [t] that
    starts an object. *)
Lemma readAll_text_tail w t :
  Forall (fun e => entry_ok e = true) (Wal.entries w) -> ~ In newline t -> head t = Some "{"%char ->
  readAll_text (Some (file_text w ++ string_of_list_ascii t))
  = mapM parse (map (fun e => stringify (entry_json e)) (Wal.entries w) ++ [string_of_list_ascii t]).
Proof.
  intros Hok Hnl Ht. unfold readAll_text.
  assert (Hc : list_ascii_of_string (file_text w ++ string_of_list_ascii t)
               = (List.concat (map list_ascii_of_string (map line (Wal.entries w))) ++ t)%list).
  { unfold file_text. by rewrite list_ascii_of_string_app, list_concat_empty, list_ascii_of_string_of_list_ascii. }
  assert (Hne : String.eqb (trim (file_text w ++ string_of_list_ascii t)) EmptyString = false).
  { apply String.eqb_neq. destruct (Wal.entries w) as [|e es].
    - destruct t as [|c t]; [done|]. cbn in Ht. simplify_eq.
      apply (trim_nonblank _ "{"%char t); [exact Hc|reflexivity].
    - destruct (stringify_entry_head e) as [r Hr]. eapply (trim_nonblank _ "{"%char); [|reflexivity].
      rewrite Hc. cbn [map List.concat]. rewrite line_text, Hr. reflexivity. }
  rewrite Hne. unfold split. rewrite Hc, split_lines_tail, split_chars_nosep by done. cbn [rev app].
  rewrite map_app, map_map, List.filter_app. cbn [map List.filter].
  rewrite filter_map_all.
  2:{ intros x. destruct (stringify_entry_head x) as [r Hx].
      rewrite string_of_list_ascii_of_string. by destruct (stringify (entry_json x)). }
  replace (String.eqb (string_of_list_ascii t) EmptyString) with false by (by destruct t).
  cbn [negb]. f_equal. f_equal. apply map_ext. intros x. apply string_of_list_ascii_of_string.
Qed.

Lemma parse_lines es :
  Forall (fun e => entry_ok e = true) es ->
  mapM parse (map (fun e => stringify (entry_json e)) es) = Some (map entry_json es).
Proof.
  intros Hok. rewrite <- (map_map entry_json stringify). apply mapM_map_Forall, Forall_map.
  eapply List.Forall_impl; [|exact Hok]. intros x Hx. apply parse_stringify, entry_json_ok, Hx.
Qed.

Lemma entry_text_head e n :
  n <> 0%nat -> head (firstn n (list_ascii_of_string (stringify (entry_json e)))) = Some "{"%char.
Proof. intros Hn. destruct (stringify_entry_head e) as [r ->]. by destruct n. Qed.

Lemma entry_text_nonl e t :
  entry_ok e = true -> t `prefix_of` list_ascii_of_string (stringify (entry_json e)) -> ~ In newline t.
Proof.
  intros He [u Hu] Hin. apply (newline_not_printable _ (printable_stringify _ (entry_json_ok e He))).
  rewrite Hu. apply in_or_app. by left.
Qed.

Lemma torn_text_chars e n c :
  list_ascii_of_string (torn_append_text e n c)
  = (list_ascii_of_string c ++ firstn n (list_ascii_of_string (stringify (entry_json e)) ++ [newline]))%list.
Proof. unfold torn_append_text. by rewrite list_ascii_of_string_app, substring0_firstn, line_text. Qed.

(** Nothing of the line written: the old entries. *)
Lemma readAll_torn_nothing w e :
  Forall (fun x => entry_ok x = true) (Wal.entries w) ->
  readAll_entries (Some (torn_append_text e 0 (file_text w))) = Some (Wal.readAll w).
Proof.
  intros Hok. replace (torn_append_text e 0 (file_text w)) with (file_text w).
  - by apply readAll_entries_file.
  - apply list_ascii_of_string_inj. by rewrite torn_text_chars, app_nil_r.
Qed.

(** A cut inside the JSON text: the SyntaxError. *)
Lemma readAll_torn_cut w e n :
  Forall (fun x => entry_ok x = true) (Wal.entries w) -> entry_ok e = true ->
  (0 < n < String.length (stringify (entry_json e)))%nat ->
  readAll_entries (Some (torn_append_text e n (file_text w))) = None.
Proof.
  intros Hok He Hn. rewrite string_length_chars in Hn.
  set (L := list_ascii_of_string (stringify (entry_json e))) in Hn.
  replace (torn_append_text e n (file_text w)) with (file_text w ++ string_of_list_ascii (firstn n L)).
  2:{ apply list_ascii_of_string_inj. rewrite torn_text_chars, list_ascii_of_string_app, list_ascii_of_string_of_list_ascii.
      fold L. by rewrite firstn_app, (proj2 (Nat.sub_0_le n _)), app_nil_r by lia. }
  unfold readAll_entries. rewrite readAll_text_tail; [|done|apply (entry_text_nonl e _ He), prefix_take|apply entry_text_head; lia].
  rewrite (proj2 (mapM_None _ _)); [done|]. apply Exists_app. right. apply Exists_cons_hd.
  apply (parse_torn_object (entry_json e) _ (skipn n L)); [by apply entry_json_ok|apply stringify_entry_head|apply firstn_skipn|].
  intros Hs. apply (f_equal (@List.length _)) in Hs. rewrite length_skipn in Hs. cbn [Datatypes.length] in Hs. lia.
Qed.

(** The JSON text whole, with or without its newline: the old entries
    and the new one. *)
Lemma readAll_torn_whole w e n :
  Forall (fun x => entry_ok x = true) (Wal.entries w) -> entry_ok e = true ->
  (String.length (stringify (entry_json e)) <= n)%nat ->
  readAll_entries (Some (torn_append_text e n (file_text w))) = Some (Wal.readAll (Wal.append e w)).
Proof.
  intros Hok He Hn. rewrite string_length_chars in Hn.
  set (L := list_ascii_of_string (stringify (entry_json e))) in Hn.
  assert (Hs : Forall (fun x => entry_ok x = true) (Wal.entries (Wal.append e w)))
    by (apply Forall_app; split; [exact Hok|by constructor]).
  pose proof (torn_text_chars e n (file_text w)) as Hl. fold L in Hl.
  destruct (Nat.eq_dec n (List.length L)) as [->|Hgt].
  - rewrite firstn_app, firstn_all, Nat.sub_diag, app_nil_r in Hl.
    replace (torn_append_text e _ (file_text w)) with (file_text w ++ string_of_list_ascii L)
      by (apply list_ascii_of_string_inj; by rewrite Hl, list_ascii_of_string_app, list_ascii_of_string_of_list_ascii).
    unfold readAll_entries. rewrite readAll_text_tail; [|done|apply (entry_text_nonl e _ He); done|].
    2:{ destruct (stringify_entry_head e) as [r Hr]. fold L in Hr. by rewrite Hr. }
    unfold L. rewrite string_of_list_ascii_of_string.
    change [stringify (entry_json e)] with (map (fun x => stringify (entry_json x)) [e]).
    rewrite <- map_app, parse_lines by exact Hs. cbn [mbind option_bind]. apply mapM_map_Some, entry_of_json_entry_json.
  - rewrite firstn_all2 in Hl by (rewrite length_app; cbn [Datatypes.length]; lia).
    replace (torn_append_text e n (file_text w)) with (file_text (Wal.append e w)).
    { by apply readAll_entries_file. }
    apply list_ascii_of_string_inj. rewrite Hl. change (Wal.append e w) with (apply_log (write_entry e) w).
    rewrite file_text_apply. cbn [apply_text]. unfold append_text. by rewrite list_ascii_of_string_app, line_text.
Qed.

(** C12 Crash inside [appendFileSync]: for a log whose entries are
    doubles, [readAll] of the file left by a crash after [n] characters
    of the appended line returns the entries before the append when
    [n = 0], throws (JSON.parse's SyntaxError) for every cut inside the
    JSON text, and returns the entries with the new one once the JSON
    text is whole, with or without its newline. *)
Theorem readAll_torn_append w e n :
  Forall (fun x => entry_ok x = true) (Wal.entries w) -> entry_ok e = true ->
  readAll_entries (Some (torn_append_text e n (file_text w))) = torn_outcome w e n.
Proof.
  intros Hok He. unfold torn_outcome.
  destruct (Nat.eqb_spec n 0) as [->|Hn0]; [by apply readAll_torn_nothing|].
  destruct (Nat.ltb_spec n (String.length (stringify (entry_json e)))).
  - apply readAll_torn_cut; [done|done|lia].
  - by apply readAll_torn_whole.
Qed.

(** ** A restart after a crash inside [addMemory]'s log append *)

Section Restart.
Context `{MathExp} `{MathSqrt}.
Variable randomUUID : nat -> string.

(** C13 The composition of the torn file, [readAll] and the replay of
    [recoverWal]: a restart after a crash that cut the add line of
    [addMemory] (the store not yet written) either throws in
    [readAll], only when the cut falls inside the JSON text, or
    recovers the table before the call when nothing of the line was
    written and the table after it otherwise. *)
Theorem addMemory_torn_restart now input e e' m n :
  log_consistent e -> Forall (fun x => entry_ok x = true) (entries (wal e)) ->
  addMemory randomUUID now input e = (e', Ok m) ->
  let en := WalEntry.mk op_add (Some m) None now in
  entry_ok en = true ->
  match readAll_entries (Some (torn_append_text en n (file_text (wal e)))) with
  | Some es => recovered (store e) es = to_map (rows (if (n =? 0)%nat then store e else store e'))
  | None => (0 < n < String.length (stringify (entry_json en)))%nat
  end.
Proof.
  intros Hc Hok Hadd en Hen.
  destruct (Nat.eqb_spec n 0) as [->|Hn0]; [rewrite readAll_torn_nothing by done; by apply recovered_consistent|].
  destruct (Nat.lt_ge_cases n (String.length (stringify (entry_json en)))); [rewrite readAll_torn_cut by (done || lia); lia|].
  rewrite readAll_torn_whole by done. destruct (addMemory_effect randomUUID now input e e' m Hadd) as (Hmap & _).
  unfold Wal.readAll, Wal.append. cbn [entries]. by rewrite recovered_snoc, recovered_consistent, Hmap.
Qed.

End Restart.

Module WalCrashExamples.
Import EngineExamples RestartScenarios.

(** The input of [pref_input] with its importance as the double [0.8]
    (the reduced fraction JSON.parse gives back). *)
Definition note_input : MemoryInput.t :=
  MemoryInput.mk "Abdullah prefers Arabic communication" "preference"
    (Some ["language"; "communication"]) None (Some (4 # 5)%Q).

Definition note_record : MemoryRecord := new_record 1000 note_input preference (test_uuid 0) [1; 0]%Q.

Definition after_note : MemoryEngine := fst (addMemory test_uuid 1000 note_input fresh_engine).

Definition note_entry : WalEntry.t := WalEntry.mk op_add (Some note_record) None 1000.

Lemma readAll_torn_append_witness :
  (Forall (fun x => entry_ok x = true) (Wal.entries (Wal.mkWal "memory.wal" [note_entry])) /\ entry_ok note_entry = true)
  /\ readAll_entries (Some (torn_append_text note_entry 40 (file_text (Wal.mkWal "memory.wal" [note_entry]))))
     = torn_outcome (Wal.mkWal "memory.wal" [note_entry]) note_entry 40.
Proof.
  assert (H : entry_ok note_entry = true) by (vm_compute; reflexivity).
  assert (HF : Forall (fun x => entry_ok x = true) (Wal.entries (Wal.mkWal "memory.wal" [note_entry])))
    by (repeat constructor; exact H).
  split; [exact (conj HF H)|].
  exact (readAll_torn_append (Wal.mkWal "memory.wal" [note_entry]) note_entry 40 HF H).
Defined.

Lemma addMemory_torn_restart_witness :
  (log_consistent fresh_engine /\ Forall (fun x => entry_ok x = true) (entries (wal fresh_engine))
   /\ addMemory test_uuid 1000 note_input fresh_engine = (after_note, Ok note_record)
   /\ entry_ok note_entry = true)
  /\ match readAll_entries (Some (torn_append_text note_entry 40 (file_text (wal fresh_engine)))) with
     | Some es => recovered (store fresh_engine) es
                  = to_map (rows (if (40 =? 0)%nat then store fresh_engine else store after_note))
     | None => (0 < 40 < String.length (stringify (entry_json note_entry)))%nat
     end.
Proof.
  assert (H1 : log_consistent fresh_engine) by (exists ∅; reflexivity).
  assert (H2 : addMemory test_uuid 1000 note_input fresh_engine = (after_note, Ok note_record))
    by (vm_compute; reflexivity).
  assert (H3 : entry_ok note_entry = true) by (vm_compute; reflexivity).
  split; [exact (conj H1 (conj (List.Forall_nil _) (conj H2 H3)))|].
  exact (addMemory_torn_restart test_uuid 1000 note_input fresh_engine after_note note_record 40 H1 (List.Forall_nil _) H2 H3).
Defined.

End WalCrashExamples.

End WalCrash.
