(* ===== verification/Invariants.v ===== *)
(** * The engine as a state machine, and its invariants

    [engine_step] is one public operation of [MemoryEngine] on any
    arguments, or a restart of the process (the constructor runs again
    on the same files: the counter starts at 0 and the log is replayed).
    [reachable] is its reflexive-transitive closure.  The invariant
    [engine_inv] ties the counter to the log (the counter is the number
    of log lines and stays below the flush threshold), keeps the primary
    key of the table, and keeps the identifiers the UUID source has not
    yet produced out of the table and the log; the last part needs the
    source to be injective, which is how [crypto.randomUUID] is used.
    [importance_inv] keeps every importance of the table and of the log
    in [0,1]; it holds for inputs and options in range, and the module
    [EngineScenarios] shows the inputs the code does not check. *)

From stdpp Require Import base list strings gmap fin_maps.
From Stdlib Require Import ZArith QArith Lqa Ascii.
From Stdlib Require String.
From S2P Require Import Prelude JsString Types Store Wal Decay Embeddings Search JsDate Summarizer Engine Recovery.

Module Invariants.
Import Store Wal Embeddings Search Engine Recovery.

#[local] Arguments Store.updateImportance : simpl never.
#[local] Arguments Store.updateAccess : simpl never.
#[local] Arguments Store.deleteMemory : simpl never.
#[local] Arguments Store.pruneBelowImportance : simpl never.
#[local] Arguments Store.getMemory : simpl never.

Section Machine.
Context `{MathExp} `{MathSqrt}.
Variable randomUUID : nat -> string.

(** One step of the engine; [input_ok] restricts the inputs of [addMemory]. *)
Inductive engine_step (input_ok : MemoryInput.t -> Prop) : MemoryEngine -> MemoryEngine -> Prop :=
| step_addMemory now input e : input_ok input -> engine_step input_ok e (fst (addMemory randomUUID now input e))
| step_search now q o e : engine_step input_ok e (fst (search now q o e))
| step_list o e : engine_step input_ok e (fst (list_memories o e))
| step_get now i e : engine_step input_ok e (fst (get now i e))
| step_delete now i e : engine_step input_ok e (fst (delete now i e))
| step_summarize now e : engine_step input_ok e (fst (summarize randomUUID now e))
| step_decay now e : engine_step input_ok e (fst (decay now e))
| step_flushWal e : engine_step input_ok e (fst (flushWal e))
| step_health e : engine_step input_ok e (fst (health e))
| step_restart e : engine_step input_ok e (fst (recoverWal (set_walPending 0 e))).

Inductive reachable (input_ok : MemoryInput.t -> Prop) (e0 : MemoryEngine) : MemoryEngine -> Prop :=
| reach_init : reachable input_ok e0 e0
| reach_step e e' : reachable input_ok e0 e -> engine_step input_ok e e' -> reachable input_ok e0 e'.

(** The identifier source has not produced [randomUUID k] for [k >= rng]. *)
Definition fresh_from (e : MemoryEngine) : Prop :=
  forall k, (rng e <= k)%nat ->
    to_map (rows (store e)) !! randomUUID k = None
    /\ forall en r, In en (entries (wal e)) -> WalEntry.memory en = Some r -> id r <> randomUUID k.

Record engine_inv (e : MemoryEngine) : Prop := {
  inv_threshold : walFlushThreshold e = 20%nat;
  inv_pending : walPending e = length (entries (wal e));
  inv_bound : (walPending e < walFlushThreshold e)%nat;
  inv_wf : Store.wf (store e);
  inv_fresh : fresh_from e
}.

(** *** Steps that only shrink or update the table *)

Lemma inv_set_store e s' :
  engine_inv e -> Store.wf s' ->
  (forall k, to_map (rows (store e)) !! k = None -> to_map (rows s') !! k = None) ->
  engine_inv (set_store s' e).
Proof.
  intros [Ht Hp Hb Hw Hf] Hw' Hk. split; simpl; try done.
  intros k Hle. destruct (Hf k Hle) as [H1 H2]. split; [by apply Hk|done].
Qed.

Lemma lookup_alter_None (f : MemoryRecord -> MemoryRecord) (i k : string) (m : gmap string MemoryRecord) :
  m !! k = None -> alter f i m !! k = None.
Proof.
  intros Hk. destruct (decide (i = k)) as [<-|Hne]; [by rewrite lookup_alter_eq, Hk|by rewrite lookup_alter_ne].
Qed.

Lemma on_store_update_inv (f : SQLiteStore -> SQLiteStore) :
  (forall s, Store.wf s -> Store.wf (f s)) ->
  (forall s k, to_map (rows s) !! k = None -> to_map (rows (f s)) !! k = None) ->
  st_preserves engine_inv (on_store f).
Proof. intros Hw Hk e He. apply inv_set_store; [done|by apply Hw, inv_wf|by apply Hk]. Qed.

Lemma updateAccess_inv i t : st_preserves engine_inv (on_store (updateAccess i t)).
Proof.
  apply on_store_update_inv; [apply wf_updateAccess|].
  intros s k Hk. rewrite to_map_updateAccess. by apply lookup_alter_None.
Qed.

Lemma updateImportance_inv i q : st_preserves engine_inv (on_store (updateImportance i q)).
Proof.
  apply on_store_update_inv; [apply wf_updateImportance|].
  intros s k Hk. rewrite to_map_updateImportance. by apply lookup_alter_None.
Qed.

Lemma prune_inv th c : st_preserves engine_inv (store_result (pruneBelowImportance th c)).
Proof.
  intros e He. unfold store_result. simpl. apply inv_set_store; [done|by apply wf_pruneBelowImportance, inv_wf|].
  intros k Hk. unfold pruneBelowImportance. simpl.
  rewrite to_map_filter by apply He. rewrite map_lookup_filter, Hk. done.
Qed.

#[local] Hint Resolve updateAccess_inv updateImportance_inv prune_inv : mem.

(** *** Logged writes and the identifier source *)

Hypothesis randomUUID_inj : forall a b, randomUUID a = randomUUID b -> a = b.

Lemma logged_In e en w p x : logged e en w p -> In x w -> In x (entries (wal e)) \/ x = en.
Proof.
  unfold logged. destruct (walFlushThreshold e <=? S (walPending e))%nat; intros [-> _]; [done|].
  intros Hx. apply in_app_or in Hx as [?|[?|[]]]; auto.
Qed.

Lemma logged_inv e en w p :
  engine_inv e -> logged e en w p ->
  p = length w /\ (p < walFlushThreshold e)%nat /\ (forall x, In x w -> In x (entries (wal e)) \/ x = en).
Proof.
  intros He. pose proof (inv_bound e He). pose proof (inv_pending e He).
  unfold logged. destruct (Nat.leb_spec (walFlushThreshold e) (S (walPending e))) as [Hl|Hl];
    intros [-> ->]; simpl; [split; [done|split; [lia|done]]|].
  rewrite length_app. simpl. split; [lia|split; [lia|]].
  intros x Hx. apply in_app_or in Hx as [?|[?|[]]]; auto.
Qed.

Lemma config_threshold e e' : config_of e' = config_of e -> walFlushThreshold e' = walFlushThreshold e.
Proof. unfold config_of. by intros [=]. Qed.

Lemma addMemory_inv now input : st_preserves engine_inv (addMemory randomUUID now input).
Proof.
  intros e He. destruct (addMemory randomUUID now input e) as [e' [m|err]] eqn:E; simpl.
  - destruct (addMemory_effect _ _ _ _ _ _ E) as (Hmap & Hlog & Hrng & Hid & Hwf & Hcfg & _).
    destruct (logged_inv _ _ _ _ He Hlog) as (Hp & Hb & Hw).
    apply config_threshold in Hcfg. split; try lia.
    + rewrite Hcfg. apply He.
    + by apply Hwf, He.
    + intros k Hk. rewrite Hrng in Hk. destruct (inv_fresh e He k) as [Hs Hwal]; [lia|].
      assert (Hne : id m <> randomUUID k) by (rewrite Hid; intros Heq; apply randomUUID_inj in Heq; lia).
      split; [rewrite Hmap; by rewrite lookup_insert_ne|].
      intros en r Hin Hr. destruct (Hw en Hin) as [Hold| ->]; [by apply (Hwal en)|].
      simpl in Hr. by injection Hr as <-.
  - apply addMemory_error_unchanged in E as ->; [done|].
    apply (inv_fresh e He); lia.
Qed.

Lemma delete_inv now i : st_preserves engine_inv (delete now i).
Proof.
  intros e He. destruct (delete now i e) as [e' [b|err]] eqn:E; simpl.
  - destruct (delete_effect _ _ _ _ _ E) as (_ & Hmap & Hlog & Hrng & Hwf & Hcfg & _).
    destruct (logged_inv _ _ _ _ He Hlog) as (Hp & Hb & Hw).
    apply config_threshold in Hcfg. split; try lia.
    + rewrite Hcfg. apply He.
    + by apply Hwf, He.
    + intros k Hk. rewrite Hrng in Hk. destruct (inv_fresh e He k) as [Hs Hwal]; [lia|].
      split; [rewrite Hmap; by rewrite lookup_delete_None; right|].
      intros en r Hin Hr. destruct (Hw en Hin) as [Hold| ->]; [by apply (Hwal en)|done].
  - by apply delete_error_unchanged in E as ->.
Qed.

Lemma flushWal_inv : st_preserves engine_inv flushWal.
Proof.
  intros e [Ht Hp Hb Hw Hf]. split; simpl; try done; [lia|].
  intros k Hk. split; [apply (Hf k Hk)|done].
Qed.

#[local] Hint Resolve addMemory_inv delete_inv flushWal_inv : mem.

(** *** Replay keeps the table keyed and the fresh identifiers out *)

Lemma last_write_some es k r :
  last_write es k = Some (Some r) -> exists en, In en es /\ WalEntry.memory en = Some r /\ id r = k.
Proof.
  unfold last_write. induction es as [|en es IH] using rev_ind; simpl; [done|].
  rewrite fold_left_app. simpl. destruct (entry_effect en k) as [v|] eqn:Hv.
  - intros [= ->]. exists en. split; [apply in_or_app; simpl; auto|].
    destruct en as [[|] [r'|] [i|] ts]; unfold entry_effect in Hv; simpl in *;
      repeat (case_match; try done); simplify_eq; split; try done; by apply String.eqb_eq.
  - intros H'. destruct (IH H') as (en' & Hin & Hm & Hid). exists en'. split; [apply in_or_app|]; auto.
Qed.

Lemma wf_replay es s : Store.wf s -> Store.wf (replay es s).
Proof.
  unfold replay. revert s. induction es as [|en es IH]; intros s Hs; simpl; [done|].
  apply IH. unfold replay_entry. repeat case_match; auto with mem.
Qed.

Lemma replay_fresh es s k :
  to_map (rows s) !! k = None -> (forall en r, In en es -> WalEntry.memory en = Some r -> id r <> k) ->
  to_map (rows (replay es s)) !! k = None.
Proof.
  intros Hs Hes. rewrite replay_to_map, replay_map_lookup.
  destruct (last_write es k) as [[r|]|] eqn:Hl; [|done|done].
  destruct (last_write_some _ _ _ Hl) as (en & Hin & Hm & Hid). by destruct (Hes en r Hin Hm).
Qed.

(** The constructor's replay: from a zero counter, [recoverWal] reaches the invariant. *)
Lemma recoverWal_inv e :
  walFlushThreshold e = 20%nat -> walPending e = 0%nat -> Store.wf (store e) -> fresh_from e ->
  engine_inv (fst (recoverWal e)).
Proof.
  intros Ht Hp Hw Hf. unfold recoverWal, readAll. em_unfold.
  destruct (entries (wal e)) as [|en es] eqn:E; simpl.
  - split; try done; rewrite ?Hp, ?E; simpl; lia.
  - split; simpl; try done; [lia|apply (wf_replay (en :: es)), Hw|].
    intros k Hk. split; [|done]. simpl.
    change (replay es (replay_entry (store e) en)) with (replay (en :: es) (store e)). rewrite <- E.
    apply (replay_fresh (entries (wal e))); apply (Hf k Hk).
Qed.

Lemma restart_inv e : engine_inv e -> engine_inv (fst (recoverWal (set_walPending 0 e))).
Proof. intros [Ht Hp Hb Hw Hf]. by apply recoverWal_inv. Qed.

(** *** The other operations *)

Lemma search_inv now q o : st_preserves engine_inv (search now q o).
Proof. unfold search, boost_hit. st_auto. Qed.

Lemma get_inv now i : st_preserves engine_inv (get now i).
Proof. unfold get. st_auto. Qed.

Lemma summarize_inv now : st_preserves engine_inv (summarize randomUUID now).
Proof. unfold summarize, apply_plan. st_auto. Qed.

Lemma decay_inv now : st_preserves engine_inv (decay now).
Proof. unfold decay, decay_one. st_auto. Qed.

Lemma list_inv o : st_preserves engine_inv (list_memories o).
Proof. unfold list_memories. st_auto. Qed.

Lemma health_inv : st_preserves engine_inv health.
Proof. unfold health. st_auto. Qed.

Lemma step_inv input_ok e e' : engine_step input_ok e e' -> engine_inv e -> engine_inv e'.
Proof.
  destruct 1; intros He;
    [apply addMemory_inv|apply search_inv|apply list_inv|apply get_inv|apply delete_inv
    |apply summarize_inv|apply decay_inv|apply flushWal_inv|apply health_inv|apply restart_inv]; exact He.
Qed.

Lemma reachable_inv input_ok e0 e : engine_inv e0 -> reachable input_ok e0 e -> engine_inv e.
Proof. intros Hinit. induction 1; [done|]. eapply step_inv; eauto. Qed.

(** The files the constructor opens: a table keyed by [id], and a store
    and log that hold no identifier the source has yet to produce. *)
Definition disk_ok (disk_rows : list MemoryRecord) (disk_wal : option (list WalEntry.t)) (rng0 : nat) : Prop :=
  NoDup (map id disk_rows)
  /\ forall k, (rng0 <= k)%nat ->
       Forall (fun r => id r <> randomUUID k) disk_rows
       /\ Forall (fun en => forall r, WalEntry.memory en = Some r -> id r <> randomUUID k) (default [] disk_wal).

Lemma create_inv o env disk_rows disk_wal rng0 :
  disk_ok disk_rows disk_wal rng0 -> engine_inv (fst (create randomUUID o env disk_rows disk_wal rng0)).
Proof.
  intros [Hnd Hk]. apply recoverWal_inv; try done.
  intros k Hle. destruct (Hk k Hle) as [Hr Hw]. split; simpl.
  - apply to_map_lookup_None, not_true_is_false. rewrite existsb_exists.
    intros [r [Hin Hid]]. apply has_id_true in Hid. rewrite List.Forall_forall in Hr. exact (Hr r Hin Hid).
  - intros en r Hin. rewrite List.Forall_forall in Hw. by apply Hw.
Qed.

(** C1 The write-ahead counter, the primary key and the identifier
    source: on every state reachable from a freshly constructed engine by
    any sequence of public calls and restarts, [walPending] is the number
    of lines of the log and stays below 20, the ids of the table are
    distinct, and no id of the table is one the UUID source has yet to
    produce. *)
Theorem engine_reachable_inv input_ok o env disk_rows disk_wal rng0 e :
  disk_ok disk_rows disk_wal rng0 ->
  reachable input_ok (fst (create randomUUID o env disk_rows disk_wal rng0)) e ->
  walPending e = length (entries (wal e)) /\ (walPending e < 20)%nat /\ NoDup (map id (rows (store e)))
  /\ forall k, (rng e <= k)%nat -> to_map (rows (store e)) !! randomUUID k = None.
Proof.
  intros Hd Hr. pose proof (reachable_inv _ _ _ (create_inv _ _ _ _ _ Hd) Hr) as [Ht Hp Hb Hw Hf].
  split; [done|split; [lia|split; [exact Hw|]]]. intros k Hk. apply (Hf k Hk).
Qed.

Lemma addMemory_error_cases now input e e' err :
  to_map (rows (store e)) !! randomUUID (rng e) = None ->
  addMemory randomUUID now input e = (e', Err err) ->
  e' = e /\ (assertValidInput input = Err err
             \/ exists c, assertValidInput input = Ok c /\ embedText (embeddings e) (MemoryInput.content input) = Err err).
Proof.
  intros Hf E. pose proof (addMemory_error_unchanged _ _ _ _ _ _ Hf E) as ->. split; [done|].
  destruct (assertValidInput input) as [c|err'] eqn:Hv; [right|left].
  - exists c. split; [done|]. destruct (embedText (embeddings e) (MemoryInput.content input)) as [l|err2] eqn:Hm.
    + unfold addMemory in E. em_unfold. rewrite Hv, Hm in E. unfold Store.addMemory in E. simpl in E.
      apply to_map_lookup_None in Hf. rewrite Hf in E. simpl in E.
      destruct (walFlushThreshold e <=? S (walPending e))%nat; discriminate.
    + unfold addMemory in E. em_unfold. rewrite Hv, Hm in E. simpl in E. congruence.
  - unfold addMemory in E. em_unfold. rewrite Hv in E. simpl in E. congruence.
Qed.

(** C6 No primary-key clash: on every reachable state, [addMemory] fails
    only on a rejected input or a failed embedding, and then leaves the
    engine as it was (no log line is written, no row inserted). *)
Theorem engine_addMemory_errors input_ok o env disk_rows disk_wal rng0 e now input e' err :
  disk_ok disk_rows disk_wal rng0 ->
  reachable input_ok (fst (create randomUUID o env disk_rows disk_wal rng0)) e ->
  addMemory randomUUID now input e = (e', Err err) ->
  e' = e /\ (assertValidInput input = Err err
             \/ exists c, assertValidInput input = Ok c /\ embedText (embeddings e) (MemoryInput.content input) = Err err).
Proof.
  intros Hd Hr. apply addMemory_error_cases.
  pose proof (reachable_inv _ _ _ (create_inv _ _ _ _ _ Hd) Hr) as He. apply (inv_fresh e He). lia.
Qed.

End Machine.


(** ** Importance stays in [0,1] *)

Section Importance.
Context `{MathExp} `{!MathExpLaws} `{MathSqrt}.
Variable randomUUID : nat -> string.
Local Open Scope Q_scope.

Definition imp_ok (q : Q) : Prop := 0 <= q <= 1.

(** Inputs whose importance, when given, is in [0,1]. *)
Definition input_ok (input : MemoryInput.t) : Prop :=
  forall q, MemoryInput.importance input = Some q -> imp_ok q.

Record importance_inv (e : MemoryEngine) : Prop := {
  imp_rows : forall r, In r (rows (store e)) -> imp_ok (importance r);
  imp_wal : forall en r, In en (entries (wal e)) -> WalEntry.memory en = Some r -> imp_ok (importance r);
  imp_rate : 0 <= decayRate e;
  imp_threshold : imp_ok (preserveImportanceThreshold e)
}.

Lemma In_update_where i f rs r' :
  In r' (update_where i f rs) -> In r' rs \/ exists r, In r rs /\ r' = f r.
Proof.
  unfold update_where. rewrite in_map_iff. intros (r & <- & Hr).
  destruct (has_id i r); [right; eauto|by left].
Qed.

Lemma In_upsertMemory m s r : In r (rows (upsertMemory m s)) -> In r (rows s) \/ r = m.
Proof.
  unfold upsertMemory. destruct (existsb _ _); simpl; intros Hin.
  - apply In_update_where in Hin as [?| (? & ? & ->)]; auto.
  - apply in_app_or in Hin as [?|[?|[]]]; auto.
Qed.

Lemma In_deleteMemory i s r : In r (rows (deleteMemory i s).1) -> In r (rows s).
Proof. unfold deleteMemory. simpl. rewrite filter_In. tauto. Qed.

Lemma In_replay_entry s en r :
  In r (rows (replay_entry s en)) -> In r (rows s) \/ WalEntry.memory en = Some r.
Proof.
  destruct en as [[|] [m|] [i|] ts]; unfold replay_entry; cbn [WalEntry.op WalEntry.memory WalEntry.id];
    try destruct (String.eqb i ""); intros Hin; try (apply In_deleteMemory in Hin); auto;
    apply In_upsertMemory in Hin as [?| ->]; auto.
Qed.

Lemma In_replay es s r :
  In r (rows (replay es s)) -> In r (rows s) \/ exists en, In en es /\ WalEntry.memory en = Some r.
Proof.
  unfold replay. revert s. induction es as [|en es IH]; intros s Hin; simpl in *; [by left|].
  destruct (IH _ Hin) as [Hs|(en' & ? & ?)]; [|eauto].
  apply In_replay_entry in Hs as [?|?]; eauto.
Qed.

Lemma imp_on_store (f : SQLiteStore -> SQLiteStore) :
  (forall s r', In r' (rows (f s)) -> In r' (rows s) \/ exists r, In r (rows s) /\ importance r' = importance r) ->
  st_preserves importance_inv (on_store f).
Proof.
  intros Hf e [Hr Hw Hrate Ht]. split; simpl; try done.
  intros r' Hin. destruct (Hf _ _ Hin) as [?| (r & Hr' & ->)]; auto.
Qed.

Lemma imp_updateAccess i t : st_preserves importance_inv (on_store (updateAccess i t)).
Proof. apply imp_on_store. intros s r' Hin. apply In_update_where in Hin as [?| (r & ? & ->)]; eauto. Qed.

Lemma imp_updateImportance i q : imp_ok q -> st_preserves importance_inv (on_store (updateImportance i q)).
Proof.
  intros Hq e [Hr Hw Hrate Ht]. split; simpl; try done.
  intros r' Hin. apply In_update_where in Hin as [?| (r & ? & ->)]; auto.
Qed.

Lemma imp_prune th c : st_preserves importance_inv (store_result (pruneBelowImportance th c)).
Proof.
  intros e [Hr Hw Hrate Ht]. split; simpl; try done.
  intros r' Hin. apply filter_In in Hin as [? _]. auto.
Qed.

Lemma imp_flushWal : st_preserves importance_inv flushWal.
Proof. intros e [Hr Hw Hrate Ht]. by split. Qed.

Lemma imp_recoverWal e : importance_inv e -> importance_inv (fst (recoverWal e)).
Proof.
  intros [Hr Hw Hrate Ht]. unfold recoverWal, readAll. em_unfold.
  destruct (entries (wal e)) as [|en es] eqn:E; simpl; [split; try done; intros ? ? Hin; by rewrite E in Hin|].
  split; simpl; try done. intros r Hin.
  change (replay es (replay_entry (store e) en)) with (replay (en :: es) (store e)) in Hin.
  apply In_replay in Hin as [?| (en' & ? & ?)]; eauto.
Qed.

Lemma config_fields e e' :
  config_of e' = config_of e ->
  decayRate e' = decayRate e /\ preserveImportanceThreshold e' = preserveImportanceThreshold e.
Proof. unfold config_of. by intros [=]. Qed.

(** Every outcome of [addMemory], an error after the log write included:
    the configuration is kept, and the only record added to the table or
    the log is the new one. *)
Lemma addMemory_trace now input e :
  config_of (fst (addMemory randomUUID now input e)) = config_of e
  /\ exists c v, let m := new_record now input c (randomUUID (rng e)) v in
     (forall r, In r (rows (store (fst (addMemory randomUUID now input e)))) -> In r (rows (store e)) \/ r = m)
     /\ (forall en, In en (entries (wal (fst (addMemory randomUUID now input e)))) ->
           In en (entries (wal e)) \/ en = WalEntry.mk op_add (Some m) None now).
Proof.
  unfold addMemory. em_unfold.
  destruct (assertValidInput input) as [c|err]; simpl; [|split; [done|exists decision, []; auto]].
  destruct (embedText (embeddings e) (MemoryInput.content input)) as [v|err]; simpl;
    [|split; [done|exists c, []; auto]].
  unfold Store.addMemory, appendAdd, append. simpl.
  destruct (existsb _ _); simpl; [|destruct (walFlushThreshold e <=? S (walPending e))%nat]; simpl;
    (split; [done|exists c, v; split]); intros x Hx;
    first [by auto | by destruct Hx | apply in_app_or in Hx as [?|[?|[]]]; auto].
Qed.

Lemma imp_new_record now input c i v : input_ok input -> imp_ok (importance (new_record now input c i v)).
Proof. unfold input_ok, imp_ok. simpl. destruct (MemoryInput.importance input) as [q|]; simpl; [auto|lra]. Qed.

Lemma imp_addMemory now input : input_ok input -> st_preserves importance_inv (addMemory randomUUID now input).
Proof.
  intros Hin e [Hr Hw Hrate Ht]. destruct (addMemory_trace now input e) as (Hcfg & c & v & Hrows & Hwal).
  destruct (config_fields _ _ Hcfg) as [Hd Hp]. split; [| |by rewrite Hd|by rewrite Hp].
  - intros r Hx. destruct (Hrows r Hx) as [?| ->]; [auto|by apply imp_new_record].
  - intros en r Hx Hm. destruct (Hwal en Hx) as [?| ->]; [eauto|].
    simpl in Hm. injection Hm as <-. by apply imp_new_record.
Qed.

Lemma imp_delete now i : st_preserves importance_inv (delete now i).
Proof.
  intros e He. destruct (delete now i e) as [e' [b|err]] eqn:E; simpl; [|by apply delete_error_unchanged in E as ->].
  destruct (delete_effect _ _ _ _ _ E) as (_ & _ & Hlog & _ & _ & Hcfg & Hrows).
  destruct He as [Hr Hw Hrate Ht]. destruct (config_fields _ _ Hcfg) as [Hd Hp].
  split; [auto| |by rewrite Hd|by rewrite Hp].
  intros en r Hx Hm. destruct (logged_In _ _ _ _ _ Hlog Hx) as [?| ->]; [eauto|done].
Qed.

Lemma imp_boost q d : imp_ok q -> 0 <= d -> imp_ok (boost q d).
Proof. intros [Hq _] Hd. by apply Qmin_one_bounds. Qed.

Lemma getMemory_In i s m : getMemory i s = Some m -> In m (rows s).
Proof. unfold getMemory. intros Hf. by apply List.find_some in Hf as [? _]. Qed.

Lemma semanticSearch_In s emb q o rs r : semanticSearch s emb q o = Ok rs -> In r rs -> In (memory r) (rows s).
Proof.
  intros Hs Hr. destruct (decide (rows s = [])) as [E|E].
  - unfold semanticSearch, getAllMemories in Hs. rewrite E in Hs. simpl in Hs. by injection Hs as <-.
  - destruct (embedText emb q) as [qe|err] eqn:Hq.
    + rewrite (semanticSearch_unfold s emb q o qe E Hq) in Hs. injection Hs as <-.
      by apply js_slice0_incl, sort_by_In, In_scored_of in Hr as [Hm _].
    + unfold semanticSearch, getAllMemories in Hs. destruct (rows s); [done|]. simpl in Hs. by rewrite Hq in Hs.
Qed.

Lemma summary_importance ms o now ps p :
  Summarizer.buildSummaries ms o now = Ok ps -> In p ps ->
  MemoryInput.importance (Summarizer.summary p) = Some (Summarizer.preserveImportanceThreshold o).
Proof.
  unfold Summarizer.buildSummaries. intros Hps Hp.
  destruct (Summarizer.plans_of_In _ _ _ _ _ Hps Hp) as (c & l & _ & Hpl).
  by destruct (Summarizer.plan_of_spec _ _ _ _ _ Hpl) as (_ & _ & text & ->).
Qed.

#[local] Hint Resolve imp_updateAccess imp_updateImportance imp_prune imp_delete : mem.

Lemma imp_get now i : st_preserves importance_inv (get now i).
Proof.
  unfold get. apply st_preserves_get_bind. intros e0 He0.
  destruct (getMemory i (store e0)) as [m|] eqn:Hg; [|auto with mem].
  apply st_preserves_bind; [auto with mem|intros _].
  apply st_preserves_bind; [|auto with mem]. apply imp_updateImportance, imp_boost; [|lra].
  apply (imp_rows e0 He0), (getMemory_In i), Hg.
Qed.

Lemma imp_search now q o : st_preserves importance_inv (search now q o).
Proof.
  unfold search. case_match; [auto with mem|]. apply st_preserves_get_bind. intros e0 He0.
  apply st_preserves_lift_bind. intros rs Hrs. apply st_preserves_bind; [|auto with mem].
  apply st_preserves_for. intros r Hr. unfold boost_hit.
  apply st_preserves_bind; [auto with mem|intros _]. apply imp_updateImportance, imp_boost; [|lra].
  apply (imp_rows e0 He0). by apply (semanticSearch_In _ _ _ _ _ _ Hrs).
Qed.

Lemma imp_summarize now : st_preserves importance_inv (summarize randomUUID now).
Proof.
  unfold summarize. apply st_preserves_get_bind. intros e0 He0. case_match; [auto with mem|].
  apply st_preserves_lift_bind. intros ps Hps. apply st_preserves_fold. intros acc p Hp. unfold apply_plan.
  apply st_preserves_bind; [|intros _; apply st_preserves_bind; [|auto with mem]].
  - apply imp_addMemory. intros q Hq. rewrite (summary_importance _ _ _ _ _ Hps Hp) in Hq.
    injection Hq as <-. apply (imp_threshold e0 He0).
  - apply st_preserves_fold. intros d x _. apply st_preserves_bind; auto with mem.
Qed.

Lemma imp_decay now : st_preserves importance_inv (decay now).
Proof.
  unfold decay. apply st_preserves_get_bind. intros e0 He0.
  apply st_preserves_bind; [|intros upd; apply st_preserves_bind; auto with mem].
  apply st_preserves_fold. intros u x Hx. unfold decay_one. case_match; [|auto with mem].
  apply st_preserves_bind; [|auto with mem]. apply imp_updateImportance, applyDecay_unit; simpl.
  - lra.
  - by apply (imp_rows e0 He0).
  - apply (imp_rate e0 He0).
Qed.

Lemma imp_list o : st_preserves importance_inv (list_memories o).
Proof. apply st_preserves_get_bind. auto with mem. Qed.

Lemma imp_health : st_preserves importance_inv health.
Proof. apply st_preserves_get_bind. auto with mem. Qed.

Lemma imp_step e e' : engine_step randomUUID input_ok e e' -> importance_inv e -> importance_inv e'.
Proof.
  destruct 1 as [now input e Hin| | | | | | | | |]; intros He;
    [apply imp_addMemory|apply imp_search|apply imp_list|apply imp_get|apply imp_delete
    |apply imp_summarize|apply imp_decay|apply imp_flushWal|apply imp_health|]; try done.
  apply imp_recoverWal. destruct He. by split.
Qed.

(** C5 The importance invariant of the record table: if the files the
    constructor opens and the configured rates hold importances in
    [0,1], then in every state reachable by calls whose inputs give no
    importance or one in [0,1] (and by restarts), every stored record has
    its importance in [0,1]: the boosts of [get] and [search] are capped,
    decay with a non-negative rate stays between the floor and the old
    value, and summaries take the preserve threshold. *)
Theorem engine_importance_bounded o env disk_rows disk_wal rng0 e :
  Forall (fun r => 0 <= importance r <= 1) disk_rows ->
  Forall (fun en => forall r, WalEntry.memory en = Some r -> 0 <= importance r <= 1) (default [] disk_wal) ->
  0 <= default (5 # 100) (opt_decayRate o) ->
  0 <= default (7 # 10) (opt_preserveImportanceThreshold o) <= 1 ->
  reachable randomUUID input_ok (fst (create randomUUID o env disk_rows disk_wal rng0)) e ->
  forall r, In r (rows (store e)) -> 0 <= importance r <= 1.
Proof.
  intros Hr Hw Hd Ht Hreach. apply imp_rows.
  induction Hreach as [|e1 e2 _ IH Hs]; [|by apply (imp_step e1)].
  apply imp_recoverWal. rewrite List.Forall_forall in Hr, Hw.
  split; simpl; [auto|intros en r Hin; by apply Hw|done|exact Ht].
Qed.

End Importance.

(** ** Inputs the engine does not check *)

Module EngineScenarios.
Import Embeddings EngineExamples.

Definition loud_input : MemoryInput.t :=
  MemoryInput.mk "deadline is Friday" "fact" None None (Some (2 # 1)%Q).

(** [assertValidInput] checks content and category only: an input
    with importance 2 is stored with importance 2, outside the [0,1]
    range the record model promises. *)
Example addMemory_importance_unchecked :
  let '(e1, r) := addMemory test_uuid 1000 loud_input fresh_engine in
  (exists m, r = Ok m /\ importance m = (2 # 1)%Q)
  /\ opt_Qeq (importance_of (test_uuid 0) e1) (Some (2 # 1)%Q).
Proof. vm_compute. split; [eexists; split; reflexivity|reflexivity]. Qed.

Definition negative_rate_engine : MemoryEngine :=
  fst (create test_uuid (mkOptions None None None None (Some (-1)%Q) None None) test_env [] None 0).

Definition steady_input : MemoryInput.t :=
  MemoryInput.mk "weekly sync on Monday" "fact" None (Some 0%Z) (Some (8 # 10)%Q).

(** The decay rate of the options is not checked: with a rate of -1
    per day, one day of [decay] raises an importance of 0.8 above 1
    (here with the clipped exponential, [exp 1 = 2]). *)
Example decay_negative_rate_exceeds_one :
  let e1 := fst (addMemory test_uuid 0 steady_input negative_rate_engine) in
  let e2 := fst (decay Decay.MS_PER_DAY e1) in
  opt_Qeq (importance_of (test_uuid 0) e2) (Some (16 # 10)%Q).
Proof. vm_compute. reflexivity. Qed.

(** After one [addMemory] on the fresh engine. *)
Definition after_pref : MemoryEngine := fst (addMemory test_uuid 1000 pref_input fresh_engine).

(** The test UUID source never repeats an identifier. *)
Lemma test_uuid_inj : forall a b, test_uuid a = test_uuid b -> a = b.
Proof.
  assert (Hx : forall n, String.length (String.string_of_list_ascii (repeat "x"%char n)) = n)
    by (induction n; simpl; congruence).
  assert (Hl : forall n, String.length (test_uuid n) = 4 + n).
  { intros n. unfold test_uuid.
    change (String.length (String.append "mem-" (String.string_of_list_ascii (repeat "x"%char n))))
      with (4 + String.length (String.string_of_list_ascii (repeat "x"%char n))).
    by rewrite Hx. }
  intros a b Hab. apply (f_equal String.length) in Hab. rewrite !Hl in Hab. lia.
Qed.

Lemma engine_reachable_inv_witness :
  ((forall a b, test_uuid a = test_uuid b -> a = b) /\ disk_ok test_uuid [] None 0
   /\ reachable test_uuid (fun _ => True) (fst (create test_uuid default_options test_env [] None 0)) after_pref)
  /\ walPending after_pref = length (entries (wal after_pref)) /\ (walPending after_pref < 20)%nat
  /\ NoDup (map id (rows (store after_pref)))
  /\ forall k, (rng after_pref <= k)%nat -> to_map (rows (store after_pref)) !! test_uuid k = None.
Proof.
  pose proof test_uuid_inj as Hinj.
  assert (Hd : disk_ok test_uuid [] None 0) by (split; [constructor|intros k _; split; constructor]).
  assert (Hr : reachable test_uuid (fun _ => True) (fst (create test_uuid default_options test_env [] None 0)) after_pref)
    by (eapply reach_step; [apply reach_init|apply step_addMemory; exact I]).
  split; [split; [exact Hinj|split; [exact Hd|exact Hr]]|].
  exact (engine_reachable_inv test_uuid Hinj (fun _ => True) default_options test_env [] None 0 after_pref Hd Hr).
Defined.

Definition odd_input : MemoryInput.t := MemoryInput.mk "note" "gossip" None None None.

Lemma engine_addMemory_errors_witness :
  ((forall a b, test_uuid a = test_uuid b -> a = b) /\ disk_ok test_uuid [] None 0
   /\ reachable test_uuid (fun _ => True) (fst (create test_uuid default_options test_env [] None 0)) after_pref
   /\ addMemory test_uuid 2000 odd_input after_pref = (after_pref, Err (InvalidCategory "gossip")))
  /\ after_pref = after_pref
  /\ (assertValidInput odd_input = Err (InvalidCategory "gossip")
      \/ exists c, assertValidInput odd_input = Ok c
                   /\ embedText (embeddings after_pref) (MemoryInput.content odd_input) = Err (InvalidCategory "gossip")).
Proof.
  pose proof test_uuid_inj as Hinj.
  assert (Hd : disk_ok test_uuid [] None 0) by (split; [constructor|intros k _; split; constructor]).
  assert (Hr : reachable test_uuid (fun _ => True) (fst (create test_uuid default_options test_env [] None 0)) after_pref)
    by (eapply reach_step; [apply reach_init|apply step_addMemory; exact I]).
  assert (He : addMemory test_uuid 2000 odd_input after_pref = (after_pref, Err (InvalidCategory "gossip")))
    by reflexivity.
  split; [split; [exact Hinj|split; [exact Hd|split; [exact Hr|exact He]]]|].
  exact (engine_addMemory_errors test_uuid Hinj (fun _ => True) default_options test_env [] None 0 after_pref
           2000 odd_input after_pref (InvalidCategory "gossip") Hd Hr He).
Defined.

Lemma engine_importance_bounded_witness :
  (Forall (fun r => 0 <= importance r <= 1)%Q []
   /\ Forall (fun en => forall r, WalEntry.memory en = Some r -> 0 <= importance r <= 1)%Q (default [] None)
   /\ (0 <= default (5 # 100) (opt_decayRate default_options))%Q
   /\ (0 <= default (7 # 10) (opt_preserveImportanceThreshold default_options) <= 1)%Q
   /\ reachable test_uuid input_ok (fst (create test_uuid default_options test_env [] None 0)) after_pref)
  /\ forall r, In r (rows (store after_pref)) -> (0 <= importance r <= 1)%Q.
Proof.
  assert (H1 : Forall (fun r => 0 <= importance r <= 1)%Q []) by constructor.
  assert (H2 : Forall (fun en => forall r, WalEntry.memory en = Some r -> 0 <= importance r <= 1)%Q (default [] None))
    by constructor.
  assert (H3 : (0 <= default (5 # 100) (opt_decayRate default_options))%Q) by (vm_compute; discriminate).
  assert (H4 : (0 <= default (7 # 10) (opt_preserveImportanceThreshold default_options) <= 1)%Q)
    by (vm_compute; split; discriminate).
  assert (Hr : reachable test_uuid input_ok (fst (create test_uuid default_options test_env [] None 0)) after_pref).
  { eapply reach_step; [apply reach_init|apply step_addMemory].
    intros q Hq. injection Hq as <-. vm_compute. split; discriminate. }
  split; [split; [exact H1|split; [exact H2|split; [exact H3|split; [exact H4|exact Hr]]]]|].
  exact (engine_importance_bounded test_uuid default_options test_env [] None 0 after_pref H1 H2 H3 H4 Hr).
Defined.

End EngineScenarios.

End Invariants.
