(* ===== verification/Server.v ===== *)
(** * The HTTP server: src/src/server.ts

    [createServer(engine)] registers seven routes on one engine; every
    request runs its handler against the engine's current state and the
    state is kept for the next request.  The model takes a request after
    Express has parsed it: the method, the path as its decoded segments,
    the query string as key/value pairs (the first value of a key; the
    arrays of repeated keys are not modelled) and the JSON body as a
    [MemoryInput.t] (a body with a field of another JSON type is outside
    the model).  Routes are tried in registration order; a request that
    matches none gets Express's 404 page; an exception that escapes a
    handler gets Express's 500 page.

    [Date.parse] is a section variable returning an integer time value
    or NaN ([None]).  A query number that reaches the store and is not
    an integer (or a search limit of +Infinity) stops the model with
    [NumberOutsideModel], as in [Cli]. *)

From stdpp Require Import base list strings gmap.
From Stdlib Require Import ZArith QArith String Ascii.
From S2P Require Import Prelude JsString Decimal JsNumber Types Store Wal Embeddings Decay Search Summarizer Engine Recovery Invariants.

Module Server.
Import Store Wal Embeddings Engine Invariants.

(** [const CATEGORIES] of server.ts *)
Definition CATEGORIES : list string :=
  ["decision"; "lesson"; "preference"; "episode"; "fact"; "person"; "project"].

(** [parseCategory(value)]: an unknown category is dropped. *)
Definition parseCategory (value : option string) : option MemoryCategory :=
  match value with
  | None => None
  | Some v => if String.eqb v "" then None
              else if existsb (String.eqb v) CATEGORIES then category_of_string v else None
  end.

(** [parseTags(value)] *)
Definition parseTags (value : option string) : option (list string) :=
  match value with
  | None => None
  | Some v => if String.eqb v "" then None
              else Some (List.filter (fun t => negb (String.eqb t "")) (map trim (split "," v)))
  end.

Inductive Method : Type := GET | POST | DELETE | OtherMethod (m : string).

Record Request : Type := mkRequest {
  method : Method;
  path : list string;
  query : list (string * string);
  body : MemoryInput.t
}.

(** [req.query[k]] *)
Definition query_get (k : string) (qs : list (string * string)) : option string :=
  snd <$> List.find (fun kv => String.eqb (fst kv) k) qs.

(** What a response carries. *)
Inductive Body : Type :=
| JsonRecord (m : MemoryRecord)
| JsonRecords (ms : list MemoryRecord)
| JsonResults (rs : list SearchResult)
| JsonHealth (h : HealthStatus)
| JsonSummary (summaries deleted : nat)
| JsonError (message : string)
| NoBody
| ExpressNotFound
| ExpressError.

Record Response : Type := mkResponse { status : Z; payload : Body }.

(** A number the engine model cannot hold. *)
Inductive Gap : Type := NumberOutsideModel (raw : string).

Definition dq : string := String (ascii_of_nat 34) EmptyString.

(** [(error as Error).message] of the exceptions the engine raises. *)
Definition message (err : MemoryError) : string :=
  match err with
  | ContentRequired => "Memory content is required."
  | CategoryRequired => "Memory category is required."
  | InvalidCategory c => "Invalid memory category: " ++ c
  | SearchQueryEmpty => "Search query cannot be empty."
  | IdRequired => "Memory id is required for deletion."
  | ApiKeyRequired => "OPENAI_API_KEY is required for embeddings."
  | EmbeddingFailed => "Failed to generate embedding."
  | SqliteConstraintPrimaryKey => "UNIQUE constraint failed: memories.id"
  | SqliteSyntaxError => "near " ++ dq ++ "OFFSET" ++ dq ++ ": syntax error"
  | InvalidTimeValue => "Invalid time value"
  | UndefinedProperty => "Cannot read properties of undefined (reading 'timestamp')"
  end.

Definition SM (A : Type) : Type := st MemoryEngine Gap A.

Local Open Scope st_scope.

(** A handler's engine call whose exception the handler does not catch. *)
Definition uncaught {A} (m : EM A) (k : A -> SM Response) : SM Response :=
  fun e => match m e with
           | (e', Ok a) => k a e'
           | (e', Err _) => (e', Ok (mkResponse 500 ExpressError))
           end.

(** [try { body } catch (error) { res.status(400).json({ error: error.message }) }] *)
Definition try400 (m : EM Response) : SM Response :=
  st_catch m (fun err => st_ret (mkResponse 400 (JsonError (message err)))).

Definition gap_lift {A} (r : result Gap A) : SM A := st_lift r.

(** [req.query.k ? Number(req.query.k) : undefined], as an integer. *)
Definition int_param (v : option string) : result Gap (option Z) :=
  match v with
  | Some s => if String.eqb s "" then Ok None
              else match num_to_int (Number s) with
                   | Some z => Ok (Some z)
                   | None => Err (NumberOutsideModel s)
                   end
  | None => Ok None
  end.

(** [req.query.limit ? Number(req.query.limit) : undefined], as the end of [slice]. *)
Definition slice_param (v : option string) : result Gap (option Z) :=
  match v with
  | Some s => if String.eqb s "" then Ok None
              else match to_slice_end (Number s) with
                   | Some z => Ok (Some z)
                   | None => Err (NumberOutsideModel s)
                   end
  | None => Ok None
  end.

(** ** Routing *)

#[export] Instance Method_eq_dec : EqDecision Method.
Proof. solve_decision. Defined.

(** A path pattern segment: a literal, or a parameter [:id], which
    matches one non-empty segment. *)
Inductive Segment : Type := Lit (s : string) | Param.

Inductive RouteName : Type := RHealth | RPostMemories | RSearch | RList | RGet | RDelete | RSummarize.

(** The [app.get/post/delete] calls of [createServer], in order. *)
Definition routes : list (Method * list Segment * RouteName) :=
  [(GET, [Lit "health"], RHealth);
   (POST, [Lit "memories"], RPostMemories);
   (GET, [Lit "memories"; Lit "search"], RSearch);
   (GET, [Lit "memories"], RList);
   (GET, [Lit "memories"; Param], RGet);
   (DELETE, [Lit "memories"; Param], RDelete);
   (POST, [Lit "memories"; Lit "summarize"], RSummarize)].

(** The parameters of a path that matches a pattern. *)
Fixpoint match_segments (ps : list Segment) (xs : list string) : option (list string) :=
  match ps, xs with
  | [], [] => Some []
  | Lit l :: ps', x :: xs' => if String.eqb l x then match_segments ps' xs' else None
  | Param :: ps', x :: xs' => if String.eqb x "" then None else (fun r => x :: r) <$> match_segments ps' xs'
  | _, _ => None
  end.

(** The first route that matches, with its parameters. *)
Fixpoint route_in (rs : list (Method * list Segment * RouteName)) (m : Method) (p : list string)
    : option (RouteName * list string) :=
  match rs with
  | [] => None
  | (m', ps, n) :: rs' =>
      if bool_decide (m = m') then
        match match_segments ps p with
        | Some args => Some (n, args)
        | None => route_in rs' m p
        end
      else route_in rs' m p
  end.

Definition route (m : Method) (p : list string) : option (RouteName * list string) := route_in routes m p.

Section Handlers.
Context `{MathExp} `{MathSqrt}.
Variable randomUUID : nat -> string.
Variable Date_parse : string -> option Z.

(** [parseDate(value)] *)
Definition parseDate (value : option string) : option number :=
  match value with
  | None => None
  | Some v => if String.eqb v "" then None
              else match Date_parse v with
                   | Some t => Some (Fin (inject_Z t))
                   | None => match Number v with NaN => None | x => Some x end
                   end
  end.

Definition date_param (v : option string) : result Gap (option Z) :=
  match parseDate v with
  | Some x => match num_to_int x with
              | Some z => Ok (Some z)
              | None => Err (NumberOutsideModel (default "" v))
              end
  | None => Ok None
  end.

(** [GET /health] *)
Definition health_handler : SM Response :=
  uncaught health (fun h => st_ret (mkResponse 200 (JsonHealth h))).

(** [POST /memories] *)
Definition post_memories (now : Z) (input : MemoryInput.t) : SM Response :=
  try400 (m <- addMemory randomUUID now input ;; st_ret (mkResponse 201 (JsonRecord m))).

(** [GET /memories/search] *)
Definition search_handler (now : Z) (qs : list (string * string)) : SM Response :=
  limit <- gap_lift (slice_param (query_get "limit" qs)) ;;
  let q := default "" (query_get "q" qs) in
  let category := parseCategory (query_get "category" qs) in
  let tags := parseTags (query_get "tags" qs) in
  try400 (results <- search now q (SearchOptions.mk limit category tags None) ;;
          st_ret (mkResponse 200 (JsonResults results))).

(** [GET /memories] *)
Definition list_handler (qs : list (string * string)) : SM Response :=
  limit <- gap_lift (int_param (query_get "limit" qs)) ;;
  offset <- gap_lift (int_param (query_get "offset" qs)) ;;
  since <- gap_lift (date_param (query_get "since" qs)) ;;
  until <- gap_lift (date_param (query_get "until" qs)) ;;
  let category := parseCategory (query_get "category" qs) in
  let tags := parseTags (query_get "tags" qs) in
  try400 (ms <- list_memories (ListOptions.mk category tags since until limit offset) ;;
          st_ret (mkResponse 200 (JsonRecords ms))).

(** [GET /memories/:id] *)
Definition get_handler (now : Z) (i : string) : SM Response :=
  uncaught (get now i) (fun r => match r with
                                 | None => st_ret (mkResponse 404 (JsonError "Memory not found."))
                                 | Some m => st_ret (mkResponse 200 (JsonRecord m))
                                 end).

(** [DELETE /memories/:id] *)
Definition delete_handler (now : Z) (i : string) : SM Response :=
  try400 (removed <- delete now i ;;
          if removed then st_ret (mkResponse 204 NoBody)
          else st_ret (mkResponse 404 (JsonError "Memory not found."))).

(** [POST /memories/summarize] *)
Definition summarize_handler (now : Z) : SM Response :=
  try400 (r <- summarize randomUUID now ;; st_ret (mkResponse 200 (JsonSummary (fst r) (snd r)))).

(** The handler of the first matching route; Express answers a
    request no route matches with its 404 page. *)
Definition dispatch (now : Z) (req : Request) : SM Response :=
  match route (method req) (path req) with
  | Some (RHealth, []) => health_handler
  | Some (RPostMemories, []) => post_memories now (body req)
  | Some (RSearch, []) => search_handler now (query req)
  | Some (RList, []) => list_handler (query req)
  | Some (RGet, [i]) => get_handler now i
  | Some (RDelete, [i]) => delete_handler now i
  | Some (RSummarize, []) => summarize_handler now
  | _ => st_ret (mkResponse 404 ExpressNotFound)
  end.

(** [startServer()]: the port ([Number(process.env.MEMORY_PORT ?? 3200)])
    and the engine constructed over the files on disk; [app.listen]
    then serves requests with [dispatch]. *)
Definition startServer (env : Environment) (MEMORY_PORT : option string)
    (disk_rows : list MemoryRecord) (disk_wal : option (list WalEntry.t)) (rng0 : nat)
    : number * (MemoryEngine * result MemoryError unit) :=
  let port := match MEMORY_PORT with Some p => Number p | None => Fin 3200 end in
  (port, create randomUUID (mkOptions None None None None None None None) env disk_rows disk_wal rng0).

(** The engine serving a sequence of requests, each at its own time. *)
Fixpoint serve_all (reqs : list (Z * Request)) : SM (list Response) :=
  match reqs with
  | [] => st_ret []
  | (now, req) :: rest => r <- dispatch now req ;; rs <- serve_all rest ;; st_ret (r :: rs)
  end.

End Handlers.


(** ** Handler combinators *)

Local Open Scope Z_scope.

Lemma try400_ok (m : EM Response) e e' resp :
  try400 m e = (e', Ok resp) ->
  m e = (e', Ok resp) \/ (status resp = 400 /\ exists err, m e = (e', Err err) /\ payload resp = JsonError (message err)).
Proof.
  unfold try400, st_catch. destruct (m e) as [e1 [a|err]]; intros H; inversion H; subst; [by left|].
  right. split; [done|]. by exists err.
Qed.

Lemma try400_state (m : EM Response) e : fst (try400 m e) = fst (m e).
Proof. unfold try400, st_catch. by destruct (m e) as [e1 [a|err]]. Qed.

Lemma bind_ret_ok {A} (m : EM A) (k : A -> Response) e e' resp :
  st_bind m (fun x => st_ret (k x)) e = (e', Ok resp) -> exists a, m e = (e', Ok a) /\ resp = k a.
Proof.
  unfold st_bind, st_ret. destruct (m e) as [e1 [a|err]]; intros H; inversion H; subst. by exists a.
Qed.

Lemma bind_state {A B} (m : EM A) (k : A -> EM B) e :
  (forall a e1, fst (k a e1) = e1) -> fst (st_bind m k e) = fst (m e).
Proof. intros Hk. unfold st_bind. destruct (m e) as [e1 [a|err]]; [apply Hk|done]. Qed.

Lemma uncaught_state {A} (m : EM A) (k : A -> SM Response) e :
  (forall a e', fst (k a e') = e') -> fst (uncaught m k e) = fst (m e).
Proof. intros Hk. unfold uncaught. destruct (m e) as [e1 [a|err]]; [apply Hk|done]. Qed.

Lemma gap_bind_state {A} (r : result Gap A) (k : A -> SM Response) e :
  fst (st_bind (gap_lift r) k e) = match r with Ok a => fst (k a e) | Err _ => e end.
Proof. by destruct r. Qed.

Lemma gap_bind_ok {A} (r : result Gap A) (k : A -> SM Response) e e' resp :
  st_bind (gap_lift r) k e = (e', Ok resp) -> exists a, r = Ok a /\ k a e = (e', Ok resp).
Proof. destruct r as [a|g]; simpl; [by exists a|done]. Qed.


(** ** Routing lemmas *)

Lemma match_segments_args ps xs args :
  match_segments ps xs = Some args ->
  List.length args = List.length (List.filter (fun p => match p with Param => true | Lit _ => false end) ps)
  /\ Forall (fun a => a <> EmptyString) args.
Proof.
  revert xs args. induction ps as [|[l|] ps IH]; intros [|x xs] args H; simpl in H; try discriminate.
  - by injection H as <-.
  - destruct (String.eqb l x); [exact (IH xs args H)|discriminate].
  - destruct (String.eqb_spec x ""); [discriminate|].
    destruct (match_segments ps xs) as [r|] eqn:E; [|discriminate]. injection H as <-.
    destruct (IH xs r E) as [Hl Hf]. simpl. split; [by rewrite Hl|by constructor].
Qed.

Lemma route_in_sound rs m p n args :
  route_in rs m p = Some (n, args) -> exists ps, In (m, ps, n) rs /\ match_segments ps p = Some args.
Proof.
  induction rs as [|[[m' ps] n'] rs IH]; simpl; [done|].
  case_bool_decide as Hm; [subst m'|intros H; destruct (IH H) as [ps' [Hin Hs]]; eauto].
  destruct (match_segments ps p) as [a|] eqn:E.
  - intros [= -> ->]. eauto.
  - intros H. destruct (IH H) as [ps' [Hin Hs]]. eauto.
Qed.

(** A matched route has one non-empty parameter for [:id] and none otherwise. *)
Lemma route_args m p n args :
  route m p = Some (n, args) ->
  match n with RGet | RDelete => exists i, args = [i] /\ i <> EmptyString | _ => args = [] end.
Proof.
  intros H. destruct (route_in_sound _ _ _ _ _ H) as [ps [Hin Hs]].
  destruct (match_segments_args _ _ _ Hs) as [Hl Hf].
  simpl in Hin. repeat destruct Hin as [Hin|Hin]; try done; injection Hin as <- <- <-; simpl in Hl;
    destruct args as [|a [|? ?]]; simpl in Hl; try lia; try done.
  all: exists a; split; [done|]; by inversion Hf.
Qed.

(** [DELETE /memories/:id] reaches the delete handler with its id. *)
Lemma route_delete i : i <> EmptyString -> route DELETE ["memories"; i] = Some (RDelete, [i]).
Proof.
  intros Hi. unfold route, routes. cbn -[String.eqb]. rewrite !String.eqb_refl.
  destruct (String.eqb_spec i ""); [done|]. reflexivity.
Qed.

Lemma route_post_memories : route POST ["memories"] = Some (RPostMemories, []).
Proof. reflexivity. Qed.

Lemma route_list : route GET ["memories"] = Some (RList, []).
Proof. reflexivity. Qed.

(** ** Every request is answered *)

Definition answered (z : Z) : Prop := In z [200; 201; 204; 400; 404].

Definition answers (h : SM Response) : Prop := forall e e' r, h e = (e', Ok r) -> answered (status r).
Definition answers_em (m : EM Response) : Prop := forall e e' r, m e = (e', Ok r) -> answered (status r).

Ltac answered_status := unfold answered; simpl; repeat (first [left; reflexivity | right]).

Lemma answers_try400 m : answers_em m -> answers (try400 m).
Proof.
  intros Hm e e' r H. destruct (try400_ok m e e' r H) as [H1|[H1 _]]; [exact (Hm _ _ _ H1)|].
  rewrite H1. answered_status.
Qed.

Lemma answers_em_bind {A} (m : EM A) (k : A -> EM Response) :
  (forall a, answers_em (k a)) -> answers_em (st_bind m k).
Proof. intros Hk e e' r. unfold st_bind. destruct (m e) as [e1 [a|err]]; [apply Hk|done]. Qed.

Lemma answers_em_ret c b : answered c -> answers_em (st_ret (mkResponse c b)).
Proof. intros Hc e e' r [= _ <-]. exact Hc. Qed.

Lemma answers_gap_bind {A} (r : result Gap A) (k : A -> SM Response) :
  (forall a, answers (k a)) -> answers (st_bind (gap_lift r) k).
Proof. intros Hk e e' x H. destruct (gap_bind_ok r k e e' x H) as [a [_ Ha]]. exact (Hk a _ _ _ Ha). Qed.

Lemma answers_ret c b : answered c -> answers (st_ret (mkResponse c b)).
Proof. intros Hc e e' r [= _ <-]. exact Hc. Qed.

Lemma answers_uncaught {A} (m : EM A) (k : A -> SM Response) :
  (forall e, exists e' a, m e = (e', Ok a)) -> (forall a, answers (k a)) -> answers (uncaught m k).
Proof.
  intros Hm Hk e e' r. unfold uncaught. destruct (Hm e) as (e1 & a & ->). apply Hk.
Qed.

Lemma health_ok e : exists e' h, health e = (e', Ok h).
Proof. by do 2 eexists. Qed.

Lemma get_ok now i e : exists e' r, get now i e = (e', Ok r).
Proof. unfold get. em_unfold. destruct (getMemory i (store e)); by do 2 eexists. Qed.


Section Properties.
Context `{MathExp} `{MathSqrt}.
Variable randomUUID : nat -> string.
Variable Date_parse : string -> option Z.

(** C16 Every request is answered by the application: whatever the
    method, path, query and body, the response the routes give has
    status 200, 201, 204, 400 or 404.  No handler lets an exception
    escape to Express's 500 page: [GET /health] and [GET /memories/:id]
    have no [try] but their engine calls do not throw, and every other
    handler catches. *)
Theorem dispatch_answered now req e e' resp :
  dispatch randomUUID Date_parse now req e = (e', Ok resp) -> In (status resp) [200; 201; 204; 400; 404].
Proof.
  revert e e' resp. fold (answers (dispatch randomUUID Date_parse now req)). unfold dispatch.
  destruct (route (method req) (path req)) as [[n args]|] eqn:Er; [|apply answers_ret; answered_status].
  pose proof (route_args _ _ _ _ Er) as Ha.
  destruct n; [subst args..|destruct Ha as [i [-> _]]|destruct Ha as [i [-> _]]|subst args].
  - apply answers_uncaught; [apply health_ok|]. intros h. apply answers_ret. answered_status.
  - apply answers_try400, answers_em_bind. intros m. apply answers_em_ret. answered_status.
  - unfold search_handler. apply answers_gap_bind. intros l. cbv zeta.
    apply answers_try400, answers_em_bind. intros rs. apply answers_em_ret. answered_status.
  - unfold list_handler. do 4 (apply answers_gap_bind; intros ?). cbv zeta.
    apply answers_try400, answers_em_bind. intros ms. apply answers_em_ret. answered_status.
  - apply answers_uncaught; [apply get_ok|]. intros [m|]; apply answers_ret; answered_status.
  - apply answers_try400, answers_em_bind. intros [|]; apply answers_em_ret; answered_status.
  - apply answers_try400, answers_em_bind. intros r. apply answers_em_ret. answered_status.
Qed.

Lemma delete_result now i e :
  i <> EmptyString ->
  exists e', delete now i e = (e', Ok (bool_decide (is_Some (to_map (rows (store e)) !! i)))).
Proof.
  intros Hi. unfold delete. em_unfold. destruct (String.eqb_spec i ""); [done|]. simpl.
  pose proof (deleteMemory_removed i (store e)) as Hb.
  destruct (walFlushThreshold e <=? S (walPending e))%nat; simpl; eexists; rewrite <- Hb; reflexivity.
Qed.

(** C26 [DELETE /memories/:id]: Express gives a non-empty id, so the
    [catch] of the handler is dead code: the answer is 204 when a row
    with the id existed and 404 otherwise, never 400, and the row is
    gone afterwards. *)
Theorem delete_route now i q b e e' resp :
  i <> EmptyString ->
  dispatch randomUUID Date_parse now (mkRequest DELETE ["memories"; i] q b) e = (e', Ok resp) ->
  status resp = (if bool_decide (is_Some (to_map (rows (store e)) !! i)) then 204 else 404)
  /\ to_map (rows (store e')) = stdpp.base.delete i (to_map (rows (store e))).
Proof.
  intros Hi. unfold dispatch. cbn [method path]. rewrite (route_delete i Hi). unfold delete_handler.
  destruct (delete_result now i e Hi) as [e1 Hd]. pose proof (delete_effect now i e e1 _ Hd) as (_ & Hmap & _).
  unfold try400, st_catch, st_bind. rewrite Hd.
  destruct (bool_decide _); intros Hr; inversion Hr; subst; (split; [done|exact Hmap]).
Qed.

(** C25 [POST /memories] on an engine whose next UUID is unused: the
    answer is 201 with the record [addMemory] stored, or 400 with the
    message of the validation or embedding error, and then nothing was
    logged or stored. *)
Theorem post_memories_route now q input e e' resp :
  to_map (rows (store e)) !! randomUUID (rng e) = None ->
  dispatch randomUUID Date_parse now (mkRequest POST ["memories"] q input) e = (e', Ok resp) ->
  (status resp = 201 /\ exists m, payload resp = JsonRecord m /\ addMemory randomUUID now input e = (e', Ok m))
  \/ (status resp = 400 /\ e' = e /\ exists err, payload resp = JsonError (message err)
      /\ (assertValidInput input = Err err
          \/ exists c, assertValidInput input = Ok c /\ embedText (embeddings e) (MemoryInput.content input) = Err err)).
Proof.
  intros Hf. unfold dispatch. cbn [method path body]. rewrite route_post_memories. unfold post_memories.
  intros Hr. destruct (try400_ok _ _ _ _ Hr) as [H1|[H1 [err [H2 H3]]]].
  - left. destruct (bind_ret_ok _ _ _ _ _ H1) as [m [Hm ->]]. split; [done|]. by exists m.
  - right. unfold st_bind in H2. destruct (addMemory randomUUID now input e) as [e1 [m|err1]] eqn:E;
      [discriminate|]. injection H2 as -> ->.
    destruct (addMemory_error_cases randomUUID now input e e' err Hf E) as [-> Hc].
    split; [done|]. split; [done|]. by exists err.
Qed.

Lemma query_get_same k v q : query_get k ((k, v) :: q) = Some v.
Proof. unfold query_get. simpl. by rewrite String.eqb_refl. Qed.

Lemma query_get_other k v q kk : String.eqb k kk = false -> query_get kk ((k, v) :: q) = query_get kk q.
Proof. intros Hk. unfold query_get. simpl. by rewrite Hk. Qed.

(** [GET /memories?category=v] with a [v] that names no category
    answers exactly like [GET /memories]: the server drops an unknown
    category instead of rejecting it (the CLI rejects it with
    [Invalid category: v]). *)
Theorem list_unknown_category_ignored now v q b e :
  category_of_string v = None -> query_get "category" q = None ->
  dispatch randomUUID Date_parse now (mkRequest GET ["memories"] (("category", v) :: q) b) e
  = dispatch randomUUID Date_parse now (mkRequest GET ["memories"] q b) e.
Proof.
  intros Hv Hq. unfold dispatch. cbn [method path query]. rewrite route_list. unfold list_handler.
  rewrite !(query_get_other "category" v q) by reflexivity.
  assert (Hc : parseCategory (query_get "category" (("category", v) :: q)) = parseCategory (query_get "category" q)).
  { rewrite query_get_same, Hq. unfold parseCategory. destruct (String.eqb v ""); [done|].
    destruct (existsb (String.eqb v) CATEGORIES); [exact Hv|done]. }
  by rewrite Hc.
Qed.

(** ** A running server is a run of the engine *)

Lemma reachable_trans ok e0 e1 e2 :
  reachable randomUUID ok e0 e1 -> reachable randomUUID ok e1 e2 -> reachable randomUUID ok e0 e2.
Proof. intros H1 H2. induction H2; [done|]. eapply reach_step; eauto. Qed.

Lemma step_reachable ok e e' : engine_step randomUUID ok e e' -> reachable randomUUID ok e e'.
Proof. intros Hs. eapply reach_step; [apply reach_init|exact Hs]. Qed.

#[local] Hint Resolve step_reachable reach_init : core.
#[local] Hint Constructors engine_step : core.

Lemma dispatch_reachable now req e :
  reachable randomUUID (fun _ => True) e (fst (dispatch randomUUID Date_parse now req e)).
Proof.
  unfold dispatch. destruct (route (method req) (path req)) as [[n args]|]; [|apply reach_init].
  destruct n; destruct args as [|i [|? ?]]; try apply reach_init;
    unfold health_handler, post_memories, search_handler, list_handler, get_handler, delete_handler,
      summarize_handler;
    repeat (rewrite gap_bind_state; case_match; [|apply reach_init]); cbv zeta;
    rewrite ?try400_state, ?bind_state, ?uncaught_state by (intros; repeat case_match; done); auto.
Qed.

(** Serving requests only takes steps of the engine: whatever
    sequence of requests the server answers, the engine afterwards is
    reachable from the engine before in the transition system
    [engine_step], so every invariant of reachable engines holds for a
    running server. *)
Theorem serve_all_reachable reqs e :
  reachable randomUUID (fun _ => True) e (fst (serve_all randomUUID Date_parse reqs e)).
Proof.
  revert e. induction reqs as [|[now req] reqs IH]; intros e; [apply reach_init|]. simpl.
  unfold st_bind. pose proof (dispatch_reachable now req e) as Hd.
  destruct (dispatch randomUUID Date_parse now req e) as [e1 [r|g]]; [|exact Hd].
  simpl in Hd. eapply reachable_trans; [exact Hd|]. specialize (IH e1).
  destruct (serve_all randomUUID Date_parse reqs e1) as [e2 [rs|g]]; exact IH.
Qed.

End Properties.


(** ** Concrete requests *)

Module ServerExamples.
Import EngineExamples EngineScenarios.

(** A [Date.parse] that accepts nothing: query dates are read by [Number]. *)
Definition no_dates (_ : string) : option Z := None.

Definition request (m : Method) (p : list string) : Request := mkRequest m p [] blank_input.

Definition fresh_health : HealthStatus := mkHealthStatus true 0 "memory.db" "memory.wal".

Lemma dispatch_answered_witness :
  dispatch test_uuid no_dates 1000 (request GET ["health"]) fresh_engine
    = (fresh_engine, Ok (mkResponse 200 (JsonHealth fresh_health)))
  /\ In (status (mkResponse 200 (JsonHealth fresh_health))) [200; 201; 204; 400; 404].
Proof.
  assert (H : dispatch test_uuid no_dates 1000 (request GET ["health"]) fresh_engine
              = (fresh_engine, Ok (mkResponse 200 (JsonHealth fresh_health)))) by (vm_compute; reflexivity).
  split; [exact H|exact (dispatch_answered test_uuid no_dates 1000 _ _ _ _ H)].
Defined.

Definition pref_record : MemoryRecord := new_record 1000 pref_input preference (test_uuid 0) [1; 0]%Q.

Lemma post_memories_route_witness :
  (to_map (rows (store fresh_engine)) !! test_uuid (rng fresh_engine) = None
   /\ dispatch test_uuid no_dates 1000 (mkRequest POST ["memories"] [] pref_input) fresh_engine
       = (after_pref, Ok (mkResponse 201 (JsonRecord pref_record))))
  /\ ((status (mkResponse 201 (JsonRecord pref_record)) = 201
       /\ exists m, payload (mkResponse 201 (JsonRecord pref_record)) = JsonRecord m
                    /\ addMemory test_uuid 1000 pref_input fresh_engine = (after_pref, Ok m))
      \/ (status (mkResponse 201 (JsonRecord pref_record)) = 400 /\ after_pref = fresh_engine
          /\ exists err, payload (mkResponse 201 (JsonRecord pref_record)) = JsonError (message err)
          /\ (assertValidInput pref_input = Err err
              \/ exists c, assertValidInput pref_input = Ok c
                           /\ embedText (embeddings fresh_engine) (MemoryInput.content pref_input) = Err err))).
Proof.
  assert (H1 : to_map (rows (store fresh_engine)) !! test_uuid (rng fresh_engine) = None) by reflexivity.
  assert (H2 : dispatch test_uuid no_dates 1000 (mkRequest POST ["memories"] [] pref_input) fresh_engine
               = (after_pref, Ok (mkResponse 201 (JsonRecord pref_record)))) by (vm_compute; reflexivity).
  split; [split; [exact H1|exact H2]|exact (post_memories_route test_uuid no_dates 1000 [] pref_input _ _ _ H1 H2)].
Defined.

Definition after_delete : MemoryEngine :=
  fst (dispatch test_uuid no_dates 2000 (request DELETE ["memories"; test_uuid 0]) after_pref).

Lemma delete_route_witness :
  (test_uuid 0 <> EmptyString
   /\ dispatch test_uuid no_dates 2000 (mkRequest DELETE ["memories"; test_uuid 0] [] blank_input) after_pref
       = (after_delete, Ok (mkResponse 204 NoBody)))
  /\ status (mkResponse 204 NoBody)
       = (if bool_decide (is_Some (to_map (rows (store after_pref)) !! test_uuid 0)) then 204 else 404)
  /\ to_map (rows (store after_delete)) = stdpp.base.delete (test_uuid 0) (to_map (rows (store after_pref))).
Proof.
  assert (H1 : test_uuid 0 <> EmptyString) by discriminate.
  assert (H2 : dispatch test_uuid no_dates 2000 (mkRequest DELETE ["memories"; test_uuid 0] [] blank_input) after_pref
               = (after_delete, Ok (mkResponse 204 NoBody))) by (vm_compute; reflexivity).
  split; [split; [exact H1|exact H2]|exact (delete_route test_uuid no_dates 2000 _ [] blank_input _ _ _ H1 H2)].
Defined.

Lemma list_unknown_category_ignored_witness :
  (category_of_string "bogus" = None /\ query_get "category" [] = None)
  /\ dispatch test_uuid no_dates 1000 (mkRequest GET ["memories"] [("category", "bogus")] blank_input) after_pref
     = dispatch test_uuid no_dates 1000 (mkRequest GET ["memories"] [] blank_input) after_pref.
Proof.
  assert (H1 : category_of_string "bogus" = None) by reflexivity.
  assert (H2 : query_get "category" [] = None) by reflexivity.
  split; [split; [exact H1|exact H2]|exact (list_unknown_category_ignored test_uuid no_dates 1000 "bogus" [] _ _ H1 H2)].
Defined.

End ServerExamples.

Local Close Scope st_scope.

End Server.
