(* ===== verification/Cli.v ===== *)
(** * The command-line interface: src/src/cli.ts

    Every command of [runCli] is one process: it constructs a
    [MemoryEngine] over the files it finds on disk (which replays and
    clears the log), runs one engine operation, prints the JSON of the
    result and closes the engine.  The model takes the arguments after
    commander has parsed them (the option defaults "0.5" and "10" and
    "json" already filled in) and returns the printed value, or the
    error that escapes the action.  [Disk] is what outlives a process:
    the rows of the table, the log file, the position of the UUID
    source and the variable MEMORY_PORT.  [serve] does not return: the
    model takes the requests the server answers before the process is
    stopped and leaves on disk the engine after them.

    [Number(...)] on an option is [JsNumber.Number].  Where a non-finite
    or non-integral number would reach the engine (an importance that
    is NaN, a LIMIT that is not an integer), the model stops with
    [NumberOutsideModel]: the engine model holds importances in [Q] and
    limits in [Z]. *)

From stdpp Require Import base list strings gmap.
From Stdlib Require Import ZArith QArith String Ascii.
From S2P Require Import Prelude JsString Decimal JsNumber Types Store Wal Embeddings Decay Search Engine Recovery Invariants Server.

Module Cli.
Import Store Wal Embeddings Engine Recovery Invariants.

(** [const CATEGORIES] of cli.ts *)
Definition CATEGORIES : list string :=
  ["decision"; "lesson"; "preference"; "episode"; "fact"; "person"; "project"].

(** The errors that escape an action. *)
Inductive CliError : Type :=
| InvalidCategoryArg (value : string)    (* "Invalid category: value" *)
| ExportFormat                           (* "Only json export is supported." *)
| EngineError (e : MemoryError)          (* thrown by the engine *)
| NumberOutsideModel (value : string).   (* a number the engine model cannot hold *)

(** [parseCategory(value)]: [CATEGORIES.includes(value)], then the cast. *)
Definition parseCategory (value : string) : result CliError MemoryCategory :=
  if existsb (String.eqb value) CATEGORIES then
    match category_of_string value with
    | Some c => Ok c
    | None => Err (InvalidCategoryArg value)
    end
  else Err (InvalidCategoryArg value).

(** [parseTags(value)]: split at commas, trim, drop the empty pieces. *)
Definition parseTags (value : option string) : list string :=
  match value with
  | None => []
  | Some v => if String.eqb v "" then []
              else List.filter (fun t => negb (String.eqb t "")) (map trim (split "," v))
  end.

(** [unitMs[unit]] *)
Definition unit_ms (u : ascii) : option Z :=
  if Ascii.eqb u "s" then Some 1000%Z
  else if Ascii.eqb u "m" then Some (1000 * 60)%Z
  else if Ascii.eqb u "h" then Some (1000 * 60 * 60)%Z
  else if Ascii.eqb u "d" then Some (1000 * 60 * 60 * 24)%Z
  else None.

(** [value.match(/^(\d+)([smhd])$/)]: the two groups. *)
Definition match_duration (value : string) : option (string * ascii) :=
  match rev (list_ascii_of_string value) with
  | u :: rds =>
      match rds, unit_ms u with
      | _ :: _, Some _ => if forallb is_digit rds then Some (string_of_list_ascii (rev rds), u) else None
      | _, _ => None
      end
  | [] => None
  end.

(** [parseDurationMs(value)] *)
Definition parseDurationMs (value : option string) : option number :=
  match value with
  | None => None
  | Some v =>
      if String.eqb v "" then None
      else match match_duration v with
           | None => None
           | Some (digits, u) =>
               let amount := Number digits in
               match unit_ms u with
               | Some k => Some (num_mul_pos amount (inject_Z k))
               | None => None
               end
           end
  end.

(** [options.category ? parseCategory(options.category) : undefined] *)
Definition optional_category (value : option string) : result CliError (option MemoryCategory) :=
  match value with
  | Some v => if String.eqb v "" then Ok None
              else match parseCategory v with Ok c => Ok (Some c) | Err e => Err e end
  | None => Ok None
  end.

(** The limit of [search] reaches [results.slice(0, limit)]. *)
Definition slice_limit (raw : string) (x : number) : result CliError Z :=
  match to_slice_end x with
  | Some z => Ok z
  | None => Err (NumberOutsideModel raw)
  end.

(** The parsed command line: one constructor per [program.command]. *)
Inductive Command : Type :=
| Add (content category : string) (tags : option string) (importance : string)
| SearchCmd (query limit : string) (category tags : option string)
| ListCmd (category tags since limit : option string)
| Export (format : string)
| Serve (port : option string) (reqs : list (Z * Server.Request)).

(** Whether a command starts the server. *)
Definition serves (cmd : Command) : bool := match cmd with Serve _ _ => true | _ => false end.

(** What an action prints (the value given to [JSON.stringify]). *)
Inductive Output : Type :=
| PrintedMemory (m : MemoryRecord)
| PrintedResults (rs : list SearchResult)
| PrintedMemories (ms : list MemoryRecord)
| Listening (port : number).

(** What outlives a process. *)
Record Disk : Type := mkDisk {
  disk_rows : list MemoryRecord;
  disk_wal : option (list WalEntry.t);
  disk_rng : nat;
  MEMORY_PORT : option string
}.

(** [new MemoryEngine()]: no options. *)
Definition no_options : MemoryEngineOptions := mkOptions None None None None None None None.

Definition disk_of (e : MemoryEngine) (d : Disk) : Disk :=
  mkDisk (rows (store e)) (Some (entries (wal e))) (rng e) (MEMORY_PORT d).

Definition CM (A : Type) : Type := st MemoryEngine CliError A.

Local Open Scope st_scope.

(** An engine call inside an action: its exception escapes. *)
Definition engine {A} (m : EM A) : CM A :=
  fun e => let '(e', r) := m e in
           (e', match r with Ok a => Ok a | Err err => Err (EngineError err) end).

Section Run.
Context `{MathExp} `{MathSqrt}.
Variable randomUUID : nat -> string.
Variable env : Environment.
Variable Date_parse : string -> option Z.

(** [add <content> --category --tags --importance] *)
Definition add_action (now : Z) (content category : string) (tags : option string) (importance : string)
    : CM Output :=
  c <- st_lift (parseCategory category) ;;
  let ts := parseTags tags in
  imp <- st_lift (match Number importance with
                  | Fin q => Ok q
                  | _ => Err (NumberOutsideModel importance)
                  end) ;;
  m <- engine (addMemory randomUUID now (MemoryInput.mk content category (Some ts) None (Some imp))) ;;
  st_ret (PrintedMemory m).

(** [search <query> --limit --category --tags]; [Number] cannot throw,
    so the category is parsed first without changing the outcome. *)
Definition search_action (now : Z) (query limit : string) (category tags : option string) : CM Output :=
  cat <- st_lift (optional_category category) ;;
  lim <- st_lift (slice_limit limit (Number limit)) ;;
  rs <- engine (search now query (SearchOptions.mk (Some lim) cat (Some (parseTags tags)) None)) ;;
  st_ret (PrintedResults rs).

(** [options.limit ? Number(options.limit) : undefined], as a LIMIT. *)
Definition list_limit (limit : option string) : result CliError (option Z) :=
  match limit with
  | Some l => if String.eqb l "" then Ok None
              else match num_to_int (Number l) with
                   | Some z => Ok (Some z)
                   | None => Err (NumberOutsideModel l)
                   end
  | None => Ok None
  end.

(** [duration ? Date.now() - duration : undefined] *)
Definition since_of (now : Z) (since : option string) : result CliError (option Z) :=
  match parseDurationMs since with
  | Some d => if num_truthy d then
                match num_to_int d with
                | Some k => Ok (Some (now - k)%Z)
                | None => Err (NumberOutsideModel (default "" since))
                end
              else Ok None
  | None => Ok None
  end.

(** [list --category --tags --since --limit] *)
Definition list_action (now : Z) (category tags since limit : option string) : CM Output :=
  s <- st_lift (since_of now since) ;;
  cat <- st_lift (optional_category category) ;;
  lim <- st_lift (list_limit limit) ;;
  ms <- engine (list_memories (ListOptions.mk cat (Some (parseTags tags)) s None lim None)) ;;
  st_ret (PrintedMemories ms).

(** [export --format]: the listing runs before the format is checked. *)
Definition export_action (format : string) : CM Output :=
  let f := toLowerCase format in
  ms <- engine (list_memories ListOptions.empty) ;;
  if String.eqb f "json" then st_ret (PrintedMemories ms) else st_throw ExportFormat.

(** One process: construct the engine from the disk, run the action,
    close ([close] releases the database handle).  A constructor error
    escapes before the [try]. *)
Definition process (act : CM Output) (d : Disk) : Disk * result CliError Output :=
  let '(e, r) := create randomUUID no_options env (disk_rows d) (disk_wal d) (disk_rng d) in
  match r with
  | Err err => (disk_of e d, Err (EngineError err))
  | Ok _ => let '(e', r') := act e in (disk_of e' d, r')
  end.

(** [serve --port]: the port is set in the environment, then
    [startServer] constructs its engine and listens.  The process then
    answers requests until it is stopped: [reqs] are the requests it
    answers, and what it leaves on disk is the engine after them (every
    store write and log append reaches the files at once). *)
Definition serve (port : option string) (reqs : list (Z * Server.Request)) (d : Disk)
    : Disk * result CliError Output :=
  let env_port := match port with
                  | Some p => if String.eqb p "" then MEMORY_PORT d else Some p
                  | None => MEMORY_PORT d
                  end in
  let d1 := mkDisk (disk_rows d) (disk_wal d) (disk_rng d) env_port in
  let '(listen, (e, r)) := Server.startServer randomUUID env env_port (disk_rows d1) (disk_wal d1) (disk_rng d1) in
  match r with
  | Ok _ => (disk_of (fst (Server.serve_all randomUUID Date_parse reqs e)) d1, Ok (Listening listen))
  | Err err => (disk_of e d1, Err (EngineError err))
  end.

Definition run_command (now : Z) (cmd : Command) (d : Disk) : Disk * result CliError Output :=
  match cmd with
  | Add content category tags importance => process (add_action now content category tags importance) d
  | SearchCmd query limit category tags => process (search_action now query limit category tags) d
  | ListCmd category tags since limit => process (list_action now category tags since limit) d
  | Export format => process (export_action format) d
  | Serve port reqs => serve port reqs d
  end.

(** A sequence of invocations, each with its own clock reading. *)
Fixpoint session (cmds : list (Z * Command)) (d : Disk) : Disk :=
  match cmds with
  | [] => d
  | (now, cmd) :: rest => session rest (fst (run_command now cmd d))
  end.

End Run.

(** ** The pure helpers *)

(** Round trip of the duration parser: the decimal numeral of any
    [n >= 0] followed by a unit letter [s], [m], [h] or [d] is parsed by
    [parseDurationMs] to [n] times the unit's milliseconds. *)
Theorem parseDurationMs_dec_digits n u k :
  (0 <= n)%Z -> unit_ms u = Some k ->
  parseDurationMs (Some (dec_digits n (String u EmptyString))) = Some (Fin (inject_Z (n * k)%Z)).
Proof.
  intros Hn Hu. rewrite dec_digits_app by done.
  pose proof (dec_digits_nonempty n EmptyString Hn) as Hne.
  pose proof (dec_digits_all_digits n Hn) as Hd.
  set (s := dec_digits n EmptyString) in *. unfold parseDurationMs.
  replace (String.eqb (s ++ String u EmptyString) "") with false by (destruct s; done).
  unfold match_duration. rewrite list_ascii_of_string_app. cbn [list_ascii_of_string].
  rewrite rev_app_distr. cbn [rev app]. rewrite Hu.
  assert (Hf : forallb is_digit (rev (list_ascii_of_string s)) = true).
  { apply forallb_forall. intros x Hx. apply in_rev in Hx. rewrite List.Forall_forall in Hd. auto. }
  destruct (rev (list_ascii_of_string s)) as [|c l] eqn:Er.
  { apply (f_equal (@rev ascii)) in Er. rewrite rev_involutive in Er. destruct s; done. }
  rewrite Hf, <- Er, rev_involutive, string_of_list_ascii_of_string.
  unfold s. rewrite Number_dec_digits by done. rewrite Hu. reflexivity.
Qed.

Local Close Scope st_scope.



(** C35 Shape of parsed tags: every tag [parseTags] returns is non-empty
    and has no surrounding whitespace (it is its own [trim]). *)
Theorem parseTags_clean value t :
  In t (parseTags value) -> t <> EmptyString /\ trim t = t.
Proof.
  destruct value as [v|]; simpl; [|done]. destruct (String.eqb v ""); [done|].
  intros Hin. apply filter_In in Hin as [Hin Hne]. apply in_map_iff in Hin as [x [<- _]].
  split; [by destruct (String.eqb_spec (trim x) "")|apply trim_idem].
Qed.

(** Round trip of [parseCategory]: it accepts exactly the seven
    category names, each as its own category, and rejects every other
    string with [Invalid category: value]. *)
Theorem parseCategory_spec v :
  match parseCategory v with
  | Ok c => v = category_to_string c
  | Err e => e = InvalidCategoryArg v /\ forall c, v <> category_to_string c
  end.
Proof.
  unfold parseCategory. destruct (category_of_string v) as [c|] eqn:Hc.
  - apply category_of_string_some in Hc as ->. by destruct c.
  - destruct (existsb _ _); (split; [done|]); intros c ->; by rewrite category_of_string_to_string in Hc.
Qed.


(** ** A session of invocations *)

Section Session.
Context `{MathExp} `{MathSqrt}.
Variable randomUUID : nat -> string.
Variable env : Environment.
Variable Date_parse : string -> option Z.
Hypothesis randomUUID_inj : forall a b, randomUUID a = randomUUID b -> a = b.

(** What a process leaves for the next: the engine invariant, a log of
    at most one line, and a log whose replay does not change the table. *)
Definition clean (e : MemoryEngine) : Prop :=
  engine_inv randomUUID e /\ (List.length (entries (wal e)) <= 1)%nat
  /\ recovered (store e) (entries (wal e)) = to_map (rows (store e)).

Definition disk_clean (d : Disk) : Prop := disk_ok randomUUID (disk_rows d) (disk_wal d) (disk_rng d).

Lemma create_result o dr dw r0 :
  create randomUUID o env dr dw r0 = (fst (create randomUUID o env dr dw r0), Ok tt)
  /\ entries (wal (fst (create randomUUID o env dr dw r0))) = [].
Proof.
  unfold create. cbv zeta. match goal with |- context [recoverWal ?e0] =>
    destruct (recoverWal_spec e0) as (H1 & _ & H3 & _) end.
  split; [exact H1|exact H3].
Qed.

Lemma inv_disk_clean e d : engine_inv randomUUID e -> disk_clean (disk_of e d).
Proof.
  intros [Ht Hp Hb Hw Hf]. split; [exact Hw|]. intros k Hk. destruct (Hf k Hk) as [Hr Hl]. split.
  - apply List.Forall_forall. intros r Hin Hid. apply to_map_lookup_None in Hr.
    apply not_true_iff_false in Hr. apply Hr, existsb_exists. exists r. split; [done|]. by apply has_id_true.
  - apply List.Forall_forall. intros en Hin r Hm. exact (Hl en r Hin Hm).
Qed.

Lemma on_store_wal f w : st_preserves (fun e => wal e = w) (on_store f).
Proof. by intros e He. Qed.

#[local] Hint Resolve on_store_wal : mem.

Lemma search_wal now q o w : st_preserves (fun e => wal e = w) (search now q o).
Proof. unfold search, boost_hit. st_auto. Qed.

Lemma bind_engine_state {A B} (m : EM A) (k : A -> CM B) e :
  (forall a e', fst (k a e') = e') -> fst (st_bind (engine m) k e) = fst (m e).
Proof. intros Hk. unfold st_bind, engine. destruct (m e) as [e' [a|err]]; simpl; [apply Hk|done]. Qed.

Lemma bind_lift_state {A B} (r : result CliError A) (k : A -> CM B) e :
  fst (st_bind (st_lift r) k e) = match r with Ok a => fst (k a e) | Err _ => e end.
Proof. by destruct r. Qed.

Lemma list_memories_state o e : fst (list_memories o e) = e.
Proof. done. Qed.

Lemma clean_unchanged e : engine_inv randomUUID e -> entries (wal e) = [] -> clean e.
Proof. intros Hi He. split; [done|]. rewrite He. split; [simpl; lia|done]. Qed.

Lemma clean_search now q o e :
  engine_inv randomUUID e -> entries (wal e) = [] -> clean (fst (search now q o e)).
Proof.
  intros Hi He. apply clean_unchanged; [by apply search_inv|].
  by rewrite (search_wal now q o (wal e) e eq_refl).
Qed.

Lemma clean_addMemory now input e :
  engine_inv randomUUID e -> entries (wal e) = [] -> clean (fst (addMemory randomUUID now input e)).
Proof.
  intros Hi He. pose proof (addMemory_inv randomUUID randomUUID_inj now input e Hi) as Hi'.
  destruct (addMemory randomUUID now input e) as [e' [m|err]] eqn:E; simpl in *.
  - destruct (addMemory_effect randomUUID now input e e' m E) as (Hmap & Hlog & _).
    unfold logged in Hlog. rewrite (inv_threshold _ _ Hi), (inv_pending _ _ Hi), He in Hlog. simpl in Hlog.
    destruct Hlog as [Hw _]. unfold clean. rewrite Hw. split; [done|]. split; [simpl; lia|].
    unfold recovered. rewrite replay_to_map, Hmap. cbn [replay_map fold_left replay_map_entry WalEntry.op WalEntry.memory WalEntry.id].
    by rewrite insert_insert_eq.
  - apply (addMemory_error_unchanged randomUUID) in E as ->; [by apply clean_unchanged|].
    apply (inv_fresh _ _ Hi). lia.
Qed.

Lemma add_action_clean now c cat t i e :
  engine_inv randomUUID e -> entries (wal e) = [] -> clean (fst (add_action randomUUID now c cat t i e)).
Proof.
  intros Hi He. unfold add_action. rewrite bind_lift_state.
  destruct (parseCategory cat); [|by apply clean_unchanged]. cbv beta zeta. rewrite bind_lift_state.
  destruct (Number i); try by apply clean_unchanged.
  rewrite bind_engine_state by (by intros). by apply clean_addMemory.
Qed.

Lemma search_action_clean now q l c t e :
  engine_inv randomUUID e -> entries (wal e) = [] -> clean (fst (search_action now q l c t e)).
Proof.
  intros Hi He. unfold search_action. rewrite bind_lift_state.
  destruct (optional_category c); [|by apply clean_unchanged]. rewrite bind_lift_state.
  destruct (slice_limit l (Number l)); [|by apply clean_unchanged].
  rewrite bind_engine_state by (by intros). by apply clean_search.
Qed.

Lemma list_action_state now c t s l e : fst (list_action now c t s l e) = e.
Proof.
  unfold list_action. rewrite bind_lift_state. destruct (since_of now s); [|done].
  rewrite bind_lift_state. destruct (optional_category c); [|done].
  rewrite bind_lift_state. destruct (list_limit l); [|done].
  rewrite bind_engine_state by (by intros). apply list_memories_state.
Qed.

Lemma export_action_state f e : fst (export_action f e) = e.
Proof.
  unfold export_action. rewrite bind_engine_state; [apply list_memories_state|].
  intros a e'. by destruct (String.eqb _ _).
Qed.

Lemma process_clean act d :
  disk_clean d ->
  (forall e, engine_inv randomUUID e -> entries (wal e) = [] -> clean (fst (act e))) ->
  exists e', clean e' /\ fst (process randomUUID env act d) = disk_of e' d.
Proof.
  intros Hd Hact. unfold process.
  destruct (create_result no_options (disk_rows d) (disk_wal d) (disk_rng d)) as [Hc Hw].
  pose proof (create_inv randomUUID no_options env _ _ _ Hd) as Hi.
  rewrite Hc. destruct (act (fst (create randomUUID no_options env (disk_rows d) (disk_wal d) (disk_rng d))))
    as [e' r'] eqn:Ea.
  exists e'. split; [|done]. specialize (Hact _ Hi Hw). by rewrite Ea in Hact.
Qed.

Lemma run_command_clean now cmd d :
  disk_clean d -> serves cmd = false ->
  exists e' d0, clean e' /\ fst (run_command randomUUID env Date_parse now cmd d) = disk_of e' d0.
Proof.
  intros Hd Hs. destruct cmd as [c cat t i|q l c t|c t s l|f|port reqs]; simpl; [..|done].
  - destruct (process_clean _ d Hd (add_action_clean now c cat t i)) as [e' [He' ->]]. by exists e', d.
  - destruct (process_clean _ d Hd (search_action_clean now q l c t)) as [e' [He' ->]]. by exists e', d.
  - destruct (process_clean (list_action now c t s l) d Hd) as [e' [He' ->]]; [|by exists e', d].
    intros e Hi Hw. rewrite list_action_state. by apply clean_unchanged.
  - destruct (process_clean (export_action f) d Hd) as [e' [He' ->]]; [|by exists e', d].
    intros e Hi Hw. rewrite export_action_state. by apply clean_unchanged.
Qed.

(** A server process leaves a reachable engine: the invariant holds,
    but the log may hold up to 19 lines and unlogged boosts. *)
Lemma serve_inv port reqs d :
  disk_clean d -> exists e' d0, engine_inv randomUUID e' /\ fst (serve randomUUID env Date_parse port reqs d) = disk_of e' d0.
Proof.
  intros Hd. unfold serve, Server.startServer. change (mkOptions None None None None None None None) with no_options.
  set (d1 := mkDisk (disk_rows d) (disk_wal d) (disk_rng d) _).
  destruct (create_result no_options (disk_rows d1) (disk_wal d1) (disk_rng d1)) as [Hc _].
  pose proof (create_inv randomUUID no_options env (disk_rows d1) (disk_wal d1) (disk_rng d1) Hd) as Hi.
  rewrite Hc. eexists _, d1. split; [|reflexivity].
  apply (reachable_inv randomUUID randomUUID_inj (fun _ => True) _ _ Hi), Server.serve_all_reachable.
Qed.

Lemma session_ok cmds d : disk_clean d -> disk_clean (session randomUUID env Date_parse cmds d).
Proof.
  revert d. induction cmds as [|[now cmd] cmds IH]; intros d Hd; [exact Hd|]. cbn [session]. apply IH.
  destruct (serves cmd) eqn:Hs.
  - destruct cmd; try done. destruct (serve_inv port reqs d Hd) as (e' & d0 & Hi & Hrun).
    cbn [run_command]. rewrite Hrun. by apply inv_disk_clean.
  - destruct (run_command_clean now cmd d Hd Hs) as (e' & d0 & [Hi _] & ->). by apply inv_disk_clean.
Qed.

Lemma session_app cmds cmds' d :
  session randomUUID env Date_parse (cmds ++ cmds') d
  = session randomUUID env Date_parse cmds' (session randomUUID env Date_parse cmds d).
Proof. revert d. induction cmds as [|[now cmd] cmds IH]; intros d; [done|]. apply IH. Qed.


Lemma create_table o dr dw r0 :
  to_map (rows (store (fst (create randomUUID o env dr dw r0)))) = replay_map (to_map dr) (default [] dw).
Proof.
  unfold create. cbv zeta. match goal with |- context [recoverWal ?e0] =>
    destruct (recoverWal_spec e0) as (_ & Hs & _) end.
  rewrite Hs, replay_to_map. reflexivity.
Qed.

Lemma to_map_In rs k m : to_map rs !! k = Some m -> In m rs.
Proof. rewrite to_map_find. intros Hf. by apply List.find_some in Hf as [Hin _]. Qed.

(** [list] without options prints every row, newest first. *)
Lemma list_action_all now e :
  list_action now None None None None e = (e, Ok (PrintedMemories (sort_by timestamp_desc (rows (store e))))).
Proof.
  unfold list_action, list_memories, listMemories, limit_offset, tag_filter. cbn.
  assert (Hf : forall rs, List.filter (where_clause (ListOptions.mk None (Some []) None None None None)) rs = rs)
    by (induction rs as [|r rs IH]; simpl; congruence).
  by rewrite Hf.
Qed.

Lemma add_action_ok now c cat t i e e' m :
  add_action randomUUID now c cat t i e = (e', Ok (PrintedMemory m)) ->
  exists input, addMemory randomUUID now input e = (e', Ok m).
Proof.
  unfold add_action, st_bind, st_lift, engine. intros Ha.
  destruct (parseCategory cat); [|done]. cbv beta zeta in Ha.
  destruct (Number i); try done.
  match type of Ha with context [addMemory randomUUID now ?inp e] => exists inp end.
  destruct (addMemory _ _ _ e) as [e1 [m1|err]]; [|done]. simpl in Ha. by injection Ha as -> ->.
Qed.


End Session.


(** ** Concrete invocations *)

Module CliExamples.
Import EngineExamples EngineScenarios Server.ServerExamples.

Definition empty_disk : Disk := mkDisk [] None 0 None.

Definition dark_mode : Command := Add "prefers dark mode" "preference" (Some "ui, theme") "0.5".

(** The record [add] prints: tags split and trimmed, importance 0.5. *)
Definition dark_record : MemoryRecord :=
  new_record 1000 (MemoryInput.mk "prefers dark mode" "preference" (Some ["ui"; "theme"]) None (Some (5 # 10)%Q))
    preference (test_uuid 0) [1; 0]%Q.

Definition disk_after_add : Disk := fst (run_command test_uuid test_env no_dates 1000 dark_mode empty_disk).

Lemma dark_mode_printed :
  run_command test_uuid test_env no_dates 1000 dark_mode empty_disk = (disk_after_add, Ok (PrintedMemory dark_record)).
Proof. vm_compute. reflexivity. Qed.

Lemma empty_disk_clean : disk_clean test_uuid empty_disk.
Proof. split; [constructor|intros k _; split; constructor]. Qed.

(** [list --since 0d] is [list] without [--since]: a duration of
    zero milliseconds is falsy, so "since now" filters nothing. *)
Theorem list_since_zero_ignored now c t l d :
  run_command test_uuid test_env no_dates now (ListCmd c t (Some "0d") l) d
  = run_command test_uuid test_env no_dates now (ListCmd c t None l) d.
Proof.
  assert (Hs : since_of now (Some "0d") = since_of now None) by reflexivity.
  cbn [run_command]. unfold process, list_action. by rewrite Hs.
Qed.

(** A server that answered a health check, then an [add]. *)
Definition served_then_add : list (Z * Command) :=
  [(500%Z, Serve (Some "4000") [(600%Z, request Server.GET ["health"])])].



Lemma parseDurationMs_dec_digits_witness :
  ((0 <= 7)%Z /\ unit_ms "d" = Some 86400000%Z)
  /\ parseDurationMs (Some (dec_digits 7 (String "d" EmptyString))) = Some (Fin (inject_Z (7 * 86400000)%Z)).
Proof.
  assert (H1 : (0 <= 7)%Z) by lia. assert (H2 : unit_ms "d" = Some 86400000%Z) by reflexivity.
  split; [split; [exact H1|exact H2]|]. exact (parseDurationMs_dec_digits 7 "d" 86400000 H1 H2).
Defined.

Lemma parseTags_clean_witness :
  In "theme" (parseTags (Some "ui, theme")) /\ "theme" <> EmptyString /\ trim "theme" = "theme".
Proof.
  assert (H : In "theme" (parseTags (Some "ui, theme"))) by (vm_compute; right; left; reflexivity).
  split; [exact H|exact (parseTags_clean (Some "ui, theme") "theme" H)].
Defined.

End CliExamples.

End Cli.
