(* ===== verification/Liveness.v ===== *)
(** * The log is flushed: progress of [maybeFlushWal]

    Every counted write ([addMemory] and [delete] that succeed) raises
    [walPending] by one and the 20th clears the log; reads ([search],
    [get], [list], [health]) and [decay] touch neither the log nor the
    counter.  So along any run of writes and reads, the counter is the
    number of writes since the last flush modulo 20, and the log is
    empty again after at most 20 writes: nothing stays in the log
    forever while writes continue. *)

From stdpp Require Import base list strings gmap.
From Stdlib Require Import ZArith QArith String.
From S2P Require Import Prelude Types Store Wal Embeddings Decay Search Engine Invariants.

Module Liveness.
Import Store Wal Embeddings Engine Invariants.

Section Runs.
Context `{MathExp} `{MathSqrt}.
Variable randomUUID : nat -> string.
Hypothesis randomUUID_inj : forall a b, randomUUID a = randomUUID b -> a = b.

(** A step that neither writes the log nor counts. *)
Inductive quiet_step : MemoryEngine -> MemoryEngine -> Prop :=
| quiet_search now q o e : quiet_step e (fst (search now q o e))
| quiet_get now i e : quiet_step e (fst (get now i e))
| quiet_list o e : quiet_step e (fst (list_memories o e))
| quiet_health e : quiet_step e (fst (health e))
| quiet_decay now e : quiet_step e (fst (decay now e)).

(** A run with [n] successful counted writes, reads interleaved. *)
Inductive write_run : nat -> MemoryEngine -> MemoryEngine -> Prop :=
| run_done e : write_run 0 e e
| run_add n now input e e1 e2 m :
    addMemory randomUUID now input e = (e1, Ok m) -> write_run n e1 e2 -> write_run (S n) e e2
| run_delete n now i e e1 e2 b :
    delete now i e = (e1, Ok b) -> write_run n e1 e2 -> write_run (S n) e e2
| run_quiet n e e1 e2 : quiet_step e e1 -> write_run n e1 e2 -> write_run n e e2.

Definition log_state (e : MemoryEngine) : WriteAheadLog * nat := (wal e, walPending e).

Lemma on_store_log f x : st_preserves (fun e => log_state e = x) (on_store f).
Proof. by intros e He. Qed.

Lemma store_result_log {A} (f : SQLiteStore -> SQLiteStore * A) x :
  st_preserves (fun e => log_state e = x) (store_result f).
Proof. intros e He. unfold store_result. by destruct (f (store e)). Qed.

#[local] Hint Resolve on_store_log store_result_log : mem.

Lemma search_log now q o x : st_preserves (fun e => log_state e = x) (search now q o).
Proof. unfold search, boost_hit. st_auto. Qed.

Lemma get_log now i x : st_preserves (fun e => log_state e = x) (get now i).
Proof. unfold get. st_auto. Qed.

Lemma list_log o x : st_preserves (fun e => log_state e = x) (list_memories o).
Proof. unfold list_memories. st_auto. Qed.

Lemma health_log x : st_preserves (fun e => log_state e = x) health.
Proof. unfold health. st_auto. Qed.

Lemma decay_log now x : st_preserves (fun e => log_state e = x) (decay now).
Proof. unfold decay, decay_one. st_auto. Qed.

Lemma quiet_log e e' :
  quiet_step e e' -> log_state e' = log_state e /\ (engine_inv randomUUID e -> engine_inv randomUUID e').
Proof.
  intros [now q o e0|now i e0|o e0|e0|now e0]; split.
  - exact (search_log now q o _ e0 eq_refl).
  - apply search_inv.
  - exact (get_log now i _ e0 eq_refl).
  - apply get_inv.
  - exact (list_log o _ e0 eq_refl).
  - apply list_inv.
  - exact (health_log _ e0 eq_refl).
  - apply health_inv.
  - exact (decay_log now _ e0 eq_refl).
  - apply decay_inv.
Qed.

(** One counted write moves the counter one step around 0..19. *)
Lemma logged_pending e en w p :
  engine_inv randomUUID e -> logged e en w p -> p = ((walPending e + 1) mod 20)%nat.
Proof.
  intros Hi Hl. unfold logged in Hl. rewrite (inv_threshold _ _ Hi) in Hl.
  pose proof (inv_bound _ _ Hi) as Hb. rewrite (inv_threshold _ _ Hi) in Hb.
  destruct (Nat.leb_spec 20 (S (walPending e))) as [Hle|Hlt]; destruct Hl as [_ ->].
  - replace (walPending e + 1)%nat with 20%nat by lia. reflexivity.
  - rewrite Nat.mod_small; lia.
Qed.

Lemma write_run_pending n e e' :
  engine_inv randomUUID e -> write_run n e e' ->
  engine_inv randomUUID e' /\ walPending e' = ((walPending e + n) mod 20)%nat.
Proof.
  intros Hi Hr. revert Hi. induction Hr as [e|n now input e e1 e2 m Ha _ IH|n now i e e1 e2 b Hd _ IH|n e e1 e2 Hq _ IH];
    intros Hi.
  - split; [done|]. rewrite Nat.add_0_r, Nat.mod_small; [done|].
    pose proof (inv_bound _ _ Hi) as Hb. rewrite (inv_threshold _ _ Hi) in Hb. exact Hb.
  - pose proof (addMemory_inv randomUUID randomUUID_inj now input e Hi) as Hi1. rewrite Ha in Hi1.
    destruct (addMemory_effect randomUUID now input e e1 m Ha) as (_ & Hl & _).
    destruct (IH Hi1) as [Hi2 Hp]. split; [done|].
    rewrite Hp, (logged_pending _ _ _ _ Hi Hl), Nat.Div0.add_mod_idemp_l. f_equal. lia.
  - pose proof (delete_inv randomUUID now i e Hi) as Hi1. rewrite Hd in Hi1.
    destruct (delete_effect now i e e1 b Hd) as (_ & _ & Hl & _).
    destruct (IH Hi1) as [Hi2 Hp]. split; [done|].
    rewrite Hp, (logged_pending _ _ _ _ Hi Hl), Nat.Div0.add_mod_idemp_l. f_equal. lia.
  - destruct (quiet_log e e1 Hq) as [Hs Hi1]. injection Hs as _ Hp.
    destruct (IH (Hi1 Hi)) as [Hi2 Hp2]. split; [done|]. by rewrite Hp2, Hp.
Qed.

(** C15 Progress of the log truncation: from any state satisfying the
    engine invariant, every run of successful writes ([addMemory],
    [delete]) interleaved with reads and decay clears the log after
    exactly [20 - walPending] writes: the log is then empty and the
    counter 0. *)
Theorem flush_within_writes e e' :
  engine_inv randomUUID e -> write_run (20 - walPending e) e e' ->
  entries (wal e') = [] /\ walPending e' = 0%nat.
Proof.
  intros Hi Hr. destruct (write_run_pending _ _ _ Hi Hr) as [Hi' Hp].
  pose proof (inv_bound _ _ Hi) as Hb. rewrite (inv_threshold _ _ Hi) in Hb.
  replace (walPending e + (20 - walPending e))%nat with 20%nat in Hp by lia.
  rewrite Nat.Div0.mod_same in Hp. split; [|done].
  pose proof (inv_pending _ _ Hi') as Hl. rewrite Hp in Hl. by destruct (entries (wal e')).
Qed.

End Runs.

(** ** A run that reaches the threshold *)

Module LivenessExamples.
Import EngineExamples EngineScenarios.

Fixpoint adds (n : nat) (e : MemoryEngine) : MemoryEngine :=
  match n with
  | O => e
  | S k => adds k (fst (addMemory test_uuid 1000 pref_input e))
  end.

(** Nineteen writes since the last flush. *)
Definition busy_engine : MemoryEngine := adds 19 fresh_engine.

Lemma adds_reachable n e :
  reachable test_uuid (fun _ => True) fresh_engine e -> reachable test_uuid (fun _ => True) fresh_engine (adds n e).
Proof.
  revert e. induction n as [|n IH]; intros e He; [exact He|]. apply IH.
  eapply reach_step; [exact He|]. by apply step_addMemory.
Qed.

Lemma busy_engine_inv : engine_inv test_uuid busy_engine.
Proof.
  apply (reachable_inv test_uuid test_uuid_inj (fun _ => True) fresh_engine).
  - apply create_inv. split; [constructor|intros k _; split; constructor].
  - apply adds_reachable, reach_init.
Qed.

Definition twentieth : MemoryRecord := new_record 2000 pref_input preference (test_uuid 19) [1; 0]%Q.

Definition flushed_engine : MemoryEngine := fst (addMemory test_uuid 2000 pref_input busy_engine).

Lemma flush_within_writes_witness :
  (engine_inv test_uuid busy_engine /\ write_run test_uuid (20 - walPending busy_engine) busy_engine flushed_engine)
  /\ entries (wal flushed_engine) = [] /\ walPending flushed_engine = 0%nat.
Proof.
  assert (Hr : write_run test_uuid (20 - walPending busy_engine) busy_engine flushed_engine).
  { replace (20 - walPending busy_engine)%nat with 1%nat by (vm_compute; reflexivity).
    apply (run_add test_uuid 0 2000 pref_input busy_engine flushed_engine flushed_engine twentieth);
      [vm_compute; reflexivity|apply run_done]. }
  split; [split; [exact busy_engine_inv|exact Hr]|].
  exact (flush_within_writes test_uuid test_uuid_inj busy_engine flushed_engine busy_engine_inv Hr).
Defined.

End LivenessExamples.

End Liveness.
