(* ===== verification/Restart.v ===== *)
(** * A restart after reads and decay: the unlogged mutations are lost

    [get] and [search] write the boosted importance and [lastAccessed]
    to the store, and [decay] rewrites importances and prunes rows, but
    none of them appends to the log (index.ts: [this.store.update...]
    without [this.wal.append...]).  The next [new MemoryEngine()] over
    the same files replays the log ([recoverWal]): every key whose last
    logged write is an add gets the logged record back, so a boost is
    reverted and a pruned record comes back, while the keys the log does
    not write keep what the reads and decay left. *)

From stdpp Require Import base list strings gmap relations.
From Stdlib Require Import ZArith QArith String.
From S2P Require Import Prelude Types Store Wal Embeddings Decay Search Engine Recovery Invariants Server Cli Liveness.

Module Restart.
Import Store Wal Embeddings Engine Recovery Invariants Cli Liveness.

Section Restart.
Context `{MathExp} `{MathSqrt}.
Variable randomUUID : nat -> string.
Variable env : Environment.

(** Reads and decay leave the log as it is. *)
Lemma quiet_steps_wal e e' : rtc quiet_step e e' -> wal e' = wal e.
Proof.
  induction 1 as [e|e e1 e2 Hs _ IH]; [done|]. rewrite IH.
  exact (f_equal fst (proj1 (quiet_log randomUUID e e1 Hs))).
Qed.

(** C4 A restart after any run of [search], [get], [list], [health] and
    [decay] calls: the engine the constructor builds over the files they
    leave maps every key whose last logged write is an add to the
    logged record (so a boost of [get] or [search] is reverted and a
    record [decay] pruned is back) and every key the log deletes to
    nothing; a key the log does not write keeps the row the reads and
    decay left in the store. *)
Theorem restart_reverts_unlogged o r0 e e' k :
  rtc quiet_step e e' ->
  to_map (rows (store (fst (create randomUUID o env (rows (store e')) (Some (entries (wal e'))) r0)))) !! k
  = match last_write (entries (wal e)) k with Some v => v | None => to_map (rows (store e')) !! k end.
Proof.
  intros Hq. rewrite (create_table randomUUID env), (quiet_steps_wal _ _ Hq). cbn [default].
  apply replay_map_lookup.
Qed.

End Restart.

Module RestartExamples.
Import EngineExamples RestartScenarios.

(** [get] of the record [addMemory] logged, 0.8 boosted to 0.82. *)
Definition after_get : MemoryEngine := fst (get 2000 (test_uuid 0) after_add).

Lemma restart_reverts_unlogged_witness :
  rtc quiet_step after_add after_get
  /\ to_map (rows (store (fst (create test_uuid default_options test_env (rows (store after_get))
                                 (Some (entries (wal after_get))) 1)))) !! test_uuid 0
     = match last_write (entries (wal after_add)) (test_uuid 0) with
       | Some v => v | None => to_map (rows (store after_get)) !! test_uuid 0 end.
Proof.
  assert (Hq : rtc quiet_step after_add after_get) by (apply rtc_once, quiet_get).
  split; [exact Hq|].
  exact (restart_reverts_unlogged test_uuid test_env default_options 1 after_add after_get (test_uuid 0) Hq).
Defined.

End RestartExamples.

End Restart.
